(* ===== verification/_CoqProject ===== *)
-Q . S2P
Prelude.v
Semver.v
Schema.v
Store.v
Registry.v
Effects.v
Logic.v
Recovery.v
PendingGuard.v
RecoveryFinalizer.v
StackClassify.v
Base64.v
Environment.v
Discovery.v
Detail.v
StackPlan.v
StackDeployment.v
StackLifecycle.v
Reconciliation.v
ContainerManagement.v
ContainerLifecycle.v
ContainerSpec.v
StackDelete.v
StackRecovery.v
JsMap.v
Capabilities.v
Protocol.v
Dispatch.v
AgentRegistry.v
Utf8.v
JsonText.v
Gateway.v
Scheduler.v
LogStream.v
EventStream.v
StackService.v
Credentials.v
AuditTrail.v
Rbac.v
Sessions.v
Mfa.v
Auth.v
Enrollment.v
HostSetup.v
RevisionDiff.v
JsNumber.v
Configuration.v
ContainerForm.v
StackForm.v
HostArchive.v
Inventory.v
InstallScript.v
ReleaseCheck.v
AgentVersions.v
HealthPage.v
System.v
