(* ===== verification/Prelude.v ===== *)
(** * Dockplane: verification library

    Dockplane manages Docker hosts from one control server ([api/], TypeScript).
    Each host runs an agent ([agent/], Go) that answers requests over a
    connection it opens itself.  The server keeps what it knows in PostgreSQL,
    serialises changes with in-memory locks, and follows one rule throughout:
    what is intended is written before an agent is asked for it, and what
    happened is established by reading the host back, never by believing the
    reply.  People use it through a web interface ([app/], Angular).  This library
    models the services of the server and the pure parts of the interface, and
    proves what they promise, under every reply an agent can give and every
    database statement that can fail.

    ** Parts and files

    Foundations.
    - [Prelude]: JavaScript's truthiness and [??], strings as lists of
      characters, maps built from lists, three-way comparisons, record update
      notation and the shared tactics.  [JsMap]: [Map] with the order of its
      entries.  [JsNumber]: [Number(text)].  [Utf8]: [Buffer.toString] and its
      inverse.  [JsonText]: [JSON.stringify] and [JSON.parse] on text.
    - [Schema]: the tables of [api/src/database/schema.ts], one record per table,
      with their unique indexes.  [Store]: what a select, insert, update and delete
      do to a database, unique indexes and cascades included, and the invariant
      [db_ok] every statement keeps.
    - [Effects]: the monad the services are written in.  A [World] holds the
      database, the locks, the connected agents, the replies to come, the
      statements that will fail and every request sent with the database as it
      was then; errors are values.  [api/src/audit/audit.service.ts] and
      [api/src/events/events.service.ts] are here.  [Logic]: frames (what a
      program leaves alone, whatever happens) and running a program forward or
      backward.

    Stacks and containers.
    - [Registry]: [api/src/operations/mutation-registry.ts].
    - [Recovery], [RecoveryFinalizer], [PendingGuard]: deciding what an
      unfinished container mutation meant, writing it down, and refusing
      operations while one is unresolved
      ([api/src/containers/recovery.ts], [recovery-finalizer.ts],
      [pending-guard.ts], [api/src/inventory/host-archive.ts]).
    - [StackClassify]: modules [Apply], [Delete] and [Lifecycle] for the pure
      classifiers [api/src/stacks/stack-deployment.ts], [stack-delete.ts] and
      [stack-lifecycle.ts].
    - [Base64], [Environment]: [SecretBox] of [api/src/common/crypto.ts],
      [api/src/containers/desired-config.ts] and
      [api/src/stacks/stack-environment.ts].
    - [Discovery], [Detail], [Scheduler]: [api/src/discovery/discovery.service.ts],
      [detail.service.ts] and [discovery.scheduler.ts].
    - [StackPlan], [StackDeployment], [StackLifecycle], [StackDelete],
      [StackRecovery], [StackService]: [stack-plan.ts],
      [stack-deployment.service.ts], [stack-lifecycle.service.ts],
      [stack-delete.service.ts], [stack-recovery.service.ts] and
      [stack.service.ts] of [api/src/stacks].
    - [Reconciliation], [ContainerManagement], [ContainerLifecycle],
      [ContainerSpec]: reading a host back and deciding what an operation on a
      container came to, recovering abandoned ones; creating, replacing and
      removing; starting, stopping and restarting; which requests are accepted
      ([api/src/containers/reconciliation.service.ts],
      [recovery.orchestrator.ts], [container-management.service.ts],
      [container-spec.ts], [api/src/operations/lifecycle.service.ts]).

    Agents.
    - [Capabilities], [Protocol]: [api/src/agents/capabilities.ts] and
      [protocol.ts], with the messages [agent/internal/protocol] writes.
    - [Dispatch], [Gateway], [AgentRegistry], [LogStream]: correlating replies and
      streams, connections and the messages that arrive on them, who an agent is,
      and log streams ([agent-dispatch.service.ts],
      [connection-manager.service.ts], [agent-gateway.service.ts],
      [agent-registry.service.ts], [api/src/logs/log-stream.service.ts]).
    - [EventStream]: the handler of [api/src/logs/logs.controller.ts] that follows a
      log, and the reader of its events in [app/src/app/data/real-dockplane-api.ts].
    - [Enrollment], [HostSetup], [InstallScript]: [enrollment.service.ts],
      [api/src/host-setup/host-setup.service.ts], and the script a new host runs
      with the handler that sends it ([install-script.ts],
      [host-setup.controller.ts]).

    People.
    - [Credentials], [Rbac], [Sessions], [Mfa], [Auth]: the rest of
      [common/crypto.ts], and [api/src/rbac], [auth], [mfa], [users] and
      [cli/bootstrap-admin.ts]: roles, sessions and their guards, the second factor
      and signing in.

    Reading and housekeeping.
    - [Inventory], [HostArchive]: [api/src/inventory/inventory.service.ts] with its
      handlers, and [host-archive.service.ts].
    - [AuditTrail]: reading the trail in pages, from [audit.service.ts] and its
      handler to [app/src/app/features/administration/audit-log.ts].
    - [Configuration]: [api/src/config/configuration.ts].
    - [Semver], [ReleaseCheck], [AgentVersions]: [api/src/version], and the
      version gate of [api/src/stacks/stack-attribution.ts].

    The web interface.
    - [RevisionDiff], [ContainerForm], [StackForm]: the comparison of two
      revisions, the two forms and what they send, and what is offered for a
      stack ([app/src/app/features/stacks/revision-diff.ts],
      [stack-form-model.ts], [features/containers/container-form-model.ts],
      [domain/stacks.ts]).
    - [HealthPage]: from the inventory to the page that says what needs attention
      ([app/src/app/features/health/health.ts], [domain/status.ts], and the mapping
      in [data/real-dockplane-api.ts]).

    The whole.
    - [System]: every handler that writes to the database as one type of call.

    A definition has the name of the function it models; where two services
    have a method of the same name the second one says which ([operate] is
    [StackLifecycleService.run], [recordOperationApplied] its [recordApplied]),
    and the [try] block of a handler is a definition of its own
    ([deploy_locked], [operate_locked]).

    ** What the theorems show

    - The whole server ([System]): whatever handlers run, in whatever order, every
      table keeps its keys and unique indexes, and locks are given back.
    - Deployments, operations on stacks and deletions ([StackDeployment],
      [StackLifecycle], [StackDelete]: [deploy_concludes_by_reading] and its
      like): concluded only by a complete reading of the host; written down
      before they are asked for and asked for once.  Saving ([StackService]): no
      update is lost, history is kept, what was validated is what is deployed.
    - Recovery of stacks and containers ([StackRecovery], [Reconciliation],
      [Scheduler]): a pass refines a step relation that settles unowned,
      unfinished work one piece at a time as a reading of the host says.  One pass
      finalises a mutation ([RecoveryFinalizer]); the decision is exactly its
      specification ([Recovery]).
    - Containers ([ContainerManagement], [ContainerLifecycle]): what a call
      reports is what a reading showed, or what the agent answered, and what was
      asked for is what is recorded.  [ContainerSpec]: which requests are
      accepted, and that no accepted bind mount is below a forbidden path.
    - Discovery ([Discovery]): absence means gone only after a complete pass; an
      agent speaks for its own host; discovery decides nothing that people
      decide.  [Detail]: nothing the product does not define is stored; stale
      data is called stale.  [Inventory]: what is shown and what is refused agree.
      [AuditTrail]: following the cursors shows the whole trail, once.
    - Agents: every promise is settled once and in time, by an authentic reply
      ([Dispatch]); a message acts only for its sender ([Gateway]); streams end on
      both sides ([LogStream]) and their events are read as they were sent
      ([EventStream]); tokens and tickets work once ([Enrollment], [HostSetup]) and
      what is put into the installation script is data to the shell
      ([InstallScript]); the server understands what an agent writes ([Protocol]).
    - Starting ([Configuration]): a server runs only on settings within their limits,
      and in production only on safe ones; settings given as files are exact.
    - People: sessions are earned and stay ended ([Auth], [Sessions]); handlers
      are reached only with the permissions they ask for ([Sessions], [Rbac]); a
      recovery code works once ([Mfa]).
    - The interface: a comparison is exact and minimal and its loop ends
      ([RevisionDiff]); an untouched form changes nothing, a faultless one is
      sound, secrets stay out ([ContainerForm], [StackForm]); what is offered is
      accepted ([StackForm]); an empty health page means that all is well, from the
      database to the page ([HealthPage]).
    - Classifiers, guards, locks, plans, secrets and versions: exact
      specifications in [StackClassify], [PendingGuard], [Registry], [StackPlan],
      [Environment], [Semver], [AgentVersions] and [ReleaseCheck].
    - Defects, each on a concrete run, at the end of the files they are about,
      such as a stopped stack recorded as running ([StackDeployment]), a container
      deleted while it is being replaced ([Detail]), a creation discarded while it
      runs ([ContainerManagement]), a lock kept ([ContainerLifecycle]), a
      character lost between two chunks ([Gateway]), a revoked sign-in completed
      ([Auth]), a cancelled setup that completes ([HostSetup]) and a command taken
      apart by saving it ([ContainerForm]).

    ** Modelling decisions

    A statement fails when the head of [w_faults] says so; the schedule is
    arbitrary, so a theorem about every world is a theorem about every failure.
    A foreign key violation is such a failure.  A transaction restores the
    database when its body or its commit throws.  An agent answers from
    [w_replies], which nothing constrains; an empty queue is an agent that never
    answers.  [randomUUID] numbers its results, which makes them distinct.  The
    clock does not move within a call, nor back.  One call runs at a time: two
    calls meet only through the database and the locks, whose own theorems are
    about every reachable state.  The services that live on callbacks
    ([Dispatch], [Gateway], [Scheduler], [LogStream], [EventStream],
    [ReleaseCheck]) are state machines over their inputs instead, in any order.
    Every loop is over a list, but for three that take fuel: the walk of
    [RevisionDiff] as much as the two files have lines, reading JSON and cutting
    frames as much as there are characters; each is proved to have enough.
    A string is its bytes, so a length limit counts bytes.

    Parameters, each a class that the witnesses instantiate: AES-GCM and the
    random source ([AesGcm]), password hashing ([Credentials]), one-time
    passwords ([Totp]), the certificate authority ([Authority]), the Compose
    compiler ([ComposeCompiler], a Go program run as a process), which strings
    [Date] reads ([Dates]), the orders text is sorted by ([Collation]),
    [Array.sort] ([ArraySort]), the JSON of a release listing ([Listings]), what
    zod takes for a URL ([Zod]), and what is configured ([GatewayEnv], [LogConfig], [SessionConfig],
    [SetupConfig]).

    ** What is not modelled

    Logging, error messages and the text of events; HTTP controllers other than
    those of authentication, the inventory, host setup, log streams and the trail, which
    decode a request and call a service, and request decoding, which is Zod's;
    sockets, TLS and certificates; process start-up; the components of the
    web interface that render, the website, the agent and the Compose compiler,
    which are other languages. *)

From Stdlib Require Import Ascii String NArith.
From stdpp Require Import gmap strings list fin_maps pretty.

Declare Scope dockplane_scope.
Delimit Scope dockplane_scope with dockplane.

(** ** JavaScript values the code tests for truthiness *)

(** [Boolean(s)] for a value of type [string | null | undefined]: absent and
    empty are both false. *)
Definition truthy (s : option string) : bool :=
  match s with
  | None | Some EmptyString => false
  | Some _ => true
  end.

(** [a ?? b] *)
Notation "a ?? b" := (default b a) (at level 60, right associativity)
  : dockplane_scope.
Open Scope dockplane_scope.

(** [a || b] on the same values. *)
Definition or_truthy (a b : option string) : option string := if truthy a then a else b.

Lemma truthy_Some s : truthy s = true ↔ ∃ x, s = Some x ∧ x ≠ EmptyString.
Proof.
  destruct s as [[|a x]|]; simpl; split; intros H; try done; try naive_solver.
Qed.

(** ** Characters and strings

    Strings are sequences of bytes here.  The identifiers the code compares,
    lowers, splits and trims are ASCII, on which this and JavaScript's UTF-16
    strings agree. *)

Definition is_digit (c : ascii) : bool :=
  let n := N_of_ascii c in ((48 <=? n) && (n <=? 57))%N.

Definition is_upper (c : ascii) : bool :=
  let n := N_of_ascii c in ((65 <=? n) && (n <=? 90))%N.

Definition is_alpha (c : ascii) : bool :=
  let n := N_of_ascii c in
  (((65 <=? n) && (n <=? 90)) || ((97 <=? n) && (n <=? 122)))%N.

(** The white space [String.prototype.trim] removes, in ASCII. *)
Definition is_space (c : ascii) : bool :=
  let n := N_of_ascii c in (((9 <=? n) && (n <=? 13)) || (n =? 32))%N.

Definition lower_ascii (c : ascii) : ascii :=
  if is_upper c then ascii_of_N (N_of_ascii c + 32) else c.

(** [s.toLowerCase()], which is also SQL's [lower(s)], on ASCII. *)
Fixpoint lower (s : string) : string :=
  match s with
  | EmptyString => EmptyString
  | String c s' => String (lower_ascii c) (lower s')
  end.

Definition chars : string → list ascii := list_ascii_of_string.
Definition text : list ascii → string := string_of_list_ascii.

Lemma text_chars s : text (chars s) = s.
Proof. apply string_of_list_ascii_of_string. Qed.

Lemma chars_text l : chars (text l) = l.
Proof. apply list_ascii_of_string_of_list_ascii. Qed.

Fixpoint drop_while {A} (p : A → bool) (l : list A) : list A :=
  match l with
  | [] => []
  | x :: l' => if p x then drop_while p l' else l
  end.

Definition trim (l : list ascii) : list ascii :=
  rev (drop_while is_space (rev (drop_while is_space l))).

Lemma drop_while_id {A} (p : A → bool) l :
  Forall (λ x, p x = false) l → drop_while p l = l.
Proof. destruct 1 as [|x l Hx Hl]; simpl; [done|]. by rewrite Hx. Qed.

Lemma trim_id l : Forall (λ c, is_space c = false) l → trim l = l.
Proof.
  intros H. unfold trim. rewrite (drop_while_id _ l) by done.
  rewrite drop_while_id; [apply rev_involutive|]. by apply Forall_rev.
Qed.

(** [l.split(sep)]: never empty, as in JavaScript. *)
Fixpoint split_on (sep : ascii) (l : list ascii) : list (list ascii) :=
  match l with
  | [] => [[]]
  | c :: l' =>
      if decide (c = sep) then [] :: split_on sep l'
      else match split_on sep l' with
           | [] => [[c]]
           | w :: ws => (c :: w) :: ws
           end
  end.

(** [ws.join(sep)] *)
Fixpoint join_with (sep : ascii) (ws : list (list ascii)) : list ascii :=
  match ws with
  | [] => []
  | [w] => w
  | w :: ws' => w ++ sep :: join_with sep ws'
  end.

Lemma split_on_nonempty sep l : split_on sep l ≠ [].
Proof. destruct l as [|c l]; simpl; [done|]. case_decide; [done|]. by case_match. Qed.

Lemma join_split sep l : join_with sep (split_on sep l) = l.
Proof.
  induction l as [|c l IH]; simpl; [done|].
  pose proof (split_on_nonempty sep l) as Hne.
  case_decide as Hc; destruct (split_on sep l) as [|w ws]; try done.
  - subst c. simpl in *. by rewrite IH.
  - destruct ws; simpl in *; by rewrite IH.
Qed.

Lemma split_on_app_sep sep w l :
  sep ∉ w → split_on sep (w ++ sep :: l) = w :: split_on sep l.
Proof.
  induction w as [|c w IH]; intros Hw; simpl.
  - by rewrite decide_True.
  - rewrite decide_False by set_solver. rewrite IH by set_solver. done.
Qed.

Lemma split_on_no_sep sep w : sep ∉ w → split_on sep w = [w].
Proof.
  induction w as [|c w IH]; intros Hw; simpl; [done|].
  rewrite decide_False by set_solver. rewrite IH by set_solver. done.
Qed.

Lemma split_join sep ws :
  ws ≠ [] → Forall (λ w, sep ∉ w) ws → split_on sep (join_with sep ws) = ws.
Proof.
  intros Hne Hall. induction Hall as [|w ws Hw Hws IH]; [done|].
  destruct ws as [|w' ws]; [by apply split_on_no_sep|].
  change (join_with sep (w :: w' :: ws)) with (w ++ sep :: join_with sep (w' :: ws)).
  rewrite split_on_app_sep by done. by rewrite IH.
Qed.

Lemma split_on_words sep l : Forall (λ w, sep ∉ w) (split_on sep l).
Proof.
  induction l as [|c l IH]; simpl; [constructor; [set_solver|done]|].
  case_decide as Hc.
  - constructor; [set_solver|done].
  - destruct (split_on sep l) as [|w ws]; [constructor; set_solver|].
    inversion IH; subst. constructor; [set_solver|done].
Qed.

(** The text before the first [sep], and what follows it when there is one. *)
Fixpoint break_on (sep : ascii) (l : list ascii) : list ascii * option (list ascii) :=
  match l with
  | [] => ([], None)
  | c :: l' =>
      if decide (c = sep) then ([], Some l')
      else let '(a, b) := break_on sep l' in (c :: a, b)
  end.

Lemma break_on_app sep w l :
  sep ∉ w → break_on sep (w ++ sep :: l) = (w, Some l).
Proof.
  induction w as [|c w IH]; intros Hw; simpl; [by rewrite decide_True|].
  rewrite decide_False by set_solver. rewrite IH by set_solver. done.
Qed.

Lemma break_on_none sep w : sep ∉ w → break_on sep w = (w, None).
Proof.
  induction w as [|c w IH]; intros Hw; simpl; [done|].
  rewrite decide_False by set_solver. rewrite IH by set_solver. done.
Qed.

Lemma break_on_spec sep l a b :
  break_on sep l = (a, b) →
  sep ∉ a ∧ l = a ++ match b with Some r => sep :: r | None => [] end.
Proof.
  revert a b. induction l as [|c l IH]; simpl; intros a b H.
  - simplify_eq. split; [set_solver|done].
  - case_decide as Hc; simplify_eq; [split; [set_solver|done]|].
    destruct (break_on sep l) as [a' b'] eqn:E. simplify_eq.
    destruct (IH _ _ eq_refl) as [Hni Hl]. split; [set_solver|]. by rewrite Hl at 1.
Qed.

(** ** Lists *)

(** [xs.find(p)] *)
Fixpoint find_first {A} (p : A → bool) (l : list A) : option A :=
  match l with
  | [] => None
  | x :: l' => if p x then Some x else find_first p l'
  end.

Lemma find_first_None {A} (p : A → bool) l :
  find_first p l = None ↔ Forall (λ x, p x = false) l.
Proof.
  induction l as [|x l IH]; simpl; [done|].
  rewrite Forall_cons, <-IH. destruct (p x); naive_solver.
Qed.

Lemma find_first_Some {A} (p : A → bool) l x :
  find_first p l = Some x → x ∈ l ∧ p x = true.
Proof.
  induction l as [|y l IH]; simpl; [done|].
  destruct (p y) eqn:E; intros; simplify_eq; set_solver.
Qed.

Lemma find_first_app {A} (p : A → bool) l k :
  find_first p (l ++ k) =
    match find_first p l with Some x => Some x | None => find_first p k end.
Proof. induction l as [|x l IH]; simpl; [done|]. by destruct (p x). Qed.

(** [new Map(l.map((x) => [name(x), x])).get(key)]: the last entry wins. *)
Definition map_get {A} (name : A → string) (l : list A) (key : string) : option A :=
  find_first (λ x, bool_decide (name x = key)) (rev l).

Lemma map_get_Some {A} (name : A → string) l key x :
  map_get name l key = Some x → x ∈ l ∧ name x = key.
Proof.
  intros [Hv Hk]%find_first_Some. apply bool_decide_eq_true in Hk. split; [|done].
  apply list_elem_of_In, in_rev, list_elem_of_In. done.
Qed.

Lemma map_get_is_Some {A} (name : A → string) l key x :
  x ∈ l → name x = key → is_Some (map_get name l key).
Proof.
  intros Hx Hk. unfold map_get. destruct (find_first _ _) eqn:E; [by eexists|exfalso].
  apply find_first_None in E. rewrite Forall_forall in E.
  specialize (E x). rewrite bool_decide_eq_false in E. apply E; [|done].
  apply list_elem_of_In, in_rev. rewrite rev_involutive. by apply list_elem_of_In.
Qed.

Lemma map_get_NoDup {A} (name : A → string) l x :
  NoDup (name <$> l) → x ∈ l → map_get name l (name x) = Some x.
Proof.
  intros Hnd Hx. destruct (map_get_is_Some name l (name x) x Hx eq_refl) as [y Hy].
  rewrite Hy. apply map_get_Some in Hy as [Hin Hn]. f_equal.
  apply list_elem_of_lookup in Hx as [i Hi]. apply list_elem_of_lookup in Hin as [j Hj].
  assert (i = j) as <-; [|congruence].
  eapply (NoDup_lookup _ _ _ (name x) Hnd); rewrite list_lookup_fmap, ?Hi, ?Hj; simpl; congruence.
Qed.

(** [l?.length ? l : undefined] *)
Definition nonempty {A} (l : option (list A)) : option (list A) :=
  match l with Some [] => None | _ => l end.

(** [xs.every(p)], [xs.some(p)] and [xs.filter(p)] are [forallb], [existsb] and
    [List.filter]. *)
Lemma forallb_Forall {A} (p : A → bool) l :
  forallb p l = true ↔ Forall (λ x, p x = true) l.
Proof. rewrite forallb_forall, Forall_forall. setoid_rewrite list_elem_of_In. done. Qed.

Lemma filter_Forall {A} (p : A → bool) (l : list A) : Forall (λ x, p x = true) l → List.filter p l = l.
Proof. induction 1 as [|x l Hx _ IH]; simpl; [done|]. by rewrite Hx, IH. Qed.

Lemma elem_of_filter_bool {A} (p : A → bool) (l : list A) x :
  x ∈ List.filter p l ↔ x ∈ l ∧ p x = true.
Proof. rewrite !list_elem_of_In. apply filter_In. Qed.

(** Membership as a boolean: [new Set(l).has(x)] and SQL's [IN (...)]. *)
Definition mem {A} `{EqDecision A} (x : A) (l : list A) : bool := bool_decide (x ∈ l).

(** Two duplicate-free lists of the same length, one inside the other, have
    the same elements. *)
Lemma NoDup_incl_length_eq {A} `{EqDecision A} (l k : list A) :
  NoDup l → (∀ x, x ∈ l → x ∈ k) → length k ≤ length l →
  ∀ x, x ∈ k → x ∈ l.
Proof.
  intros Hl Hin Hlen x Hx. apply list_elem_of_In.
  eapply (NoDup_length_incl (l := l) (l' := k)); [by apply NoDup_ListNoDup|done| |by apply list_elem_of_In].
  intros y Hy%list_elem_of_In. by apply list_elem_of_In, Hin.
Qed.

Lemma Forall2_impl_in {A B} (P Q : A → B → Prop) l k :
  Forall2 P l k → (∀ x y, x ∈ l → P x y → Q x y) → Forall2 Q l k.
Proof.
  induction 1 as [|x y l k Hxy _ IH]; intros H; constructor; [by apply H; [left|]|].
  apply IH. intros; apply H; [by right|done].
Qed.

(** ** Proof automation *)

(** Split every conjunction, case every [match]/[if] in the hypotheses, and
    close what is then contradictory. *)
Ltac crunch :=
  repeat (case_match || case_decide || case_bool_decide);
  simplify_eq/=; try done.

(** ** Comparison functions

    A three-way comparison that is antisymmetric and transitive, as a class, so
    that lexicographic combinations inherit the laws. *)
Class Comparison {A} (cmp : A → A → comparison) : Prop := {
  cmp_opp x y : cmp x y = CompOpp (cmp y x);
  cmp_trans x y z : cmp x y ≠ Gt → cmp y z ≠ Gt → cmp x z ≠ Gt
}.

(** Compare by [c1]; on a tie, by [c2]. *)
Definition then_compare (c1 c2 : comparison) : comparison :=
  match c1 with Eq => c2 | _ => c1 end.

Section comparison_facts.
Context {A} (cmp : A → A → comparison) `{!Comparison cmp}.

Lemma cmp_refl x : cmp x x = Eq.
Proof. pose proof (cmp_opp x x). by destruct (cmp x x). Qed.

Lemma cmp_eq_l x y z : cmp x y = Eq → cmp x z = cmp y z.
Proof.
  intros E. pose proof (cmp_opp x y) as O. rewrite E in O.
  assert (Hyx : cmp y x = Eq) by (by destruct (cmp y x)).
  assert (T1 : cmp y z ≠ Gt → cmp x z ≠ Gt) by (apply cmp_trans; by rewrite E).
  assert (T2 : cmp x z ≠ Gt → cmp y z ≠ Gt) by (apply cmp_trans; by rewrite Hyx).
  assert (T3 : cmp z y ≠ Gt → cmp z x ≠ Gt) by (intros; eapply cmp_trans; eauto; by rewrite Hyx).
  assert (T4 : cmp z x ≠ Gt → cmp z y ≠ Gt) by (intros; eapply cmp_trans; eauto; by rewrite E).
  rewrite (cmp_opp x z), (cmp_opp y z) in *.
  destruct (cmp z x), (cmp z y); simpl in *; try done; exfalso;
    first [by apply T1 | by apply T2 | by apply T3 | by apply T4].
Qed.

Lemma cmp_eq_r x y z : cmp y z = Eq → cmp x y = cmp x z.
Proof.
  intros E. rewrite (cmp_opp x y), (cmp_opp x z). f_equal. by apply cmp_eq_l.
Qed.

Lemma cmp_lt_trans x y z : cmp x y = Lt → cmp y z ≠ Gt → cmp x z = Lt.
Proof.
  intros H1 H2. destruct (cmp x z) eqn:E; [|done|].
  - exfalso. rewrite (cmp_opp y z), <-(cmp_eq_l _ _ _ E), H1 in H2. done.
  - exfalso. by apply (cmp_trans x y z); rewrite ?H1.
Qed.

Lemma cmp_lt_trans' x y z : cmp x y ≠ Gt → cmp y z = Lt → cmp x z = Lt.
Proof.
  intros H1 H2. destruct (cmp x y) eqn:E; [|by apply (cmp_lt_trans _ y); rewrite ?H2|done].
  by rewrite (cmp_eq_l _ _ _ E).
Qed.
End comparison_facts.

(** Comparing the images under a function. *)
Lemma Comparison_on {A B} (f : A → B) (cmp : B → B → comparison) :
  Comparison cmp → Comparison (λ x y, cmp (f x) (f y)).
Proof. intros H. split; intros; [apply cmp_opp|by eapply cmp_trans]. Qed.

(** Comparing by one key and then by another. *)
Lemma Comparison_then {A} (c1 c2 : A → A → comparison) :
  Comparison c1 → Comparison c2 → Comparison (λ x y, then_compare (c1 x y) (c2 x y)).
Proof.
  intros H1 H2. split.
  - intros x y. rewrite (cmp_opp (cmp := c1)), (cmp_opp (cmp := c2)).
    by destruct (c1 y x), (c2 y x).
  - intros x y z Hxy Hyz. unfold then_compare in *.
    destruct (c1 x y) eqn:E1; [| |done].
    + rewrite (cmp_eq_l c1 _ _ _ E1). destruct (c1 y z); [by eapply cmp_trans|done|done].
    + destruct (c1 y z) eqn:E2; [| |done];
        by rewrite (cmp_lt_trans c1 x y z) by (by rewrite ?E2).
Qed.

(** Lexicographic order of lists, the shorter one first when all else matches. *)
Fixpoint compare_list {A} (cmp : A → A → comparison) (a b : list A) : comparison :=
  match a, b with
  | [], [] => Eq
  | [], _ :: _ => Lt
  | _ :: _, [] => Gt
  | x :: a', y :: b' => then_compare (cmp x y) (compare_list cmp a' b')
  end.

#[export] Instance compare_list_laws {A} (cmp : A → A → comparison) :
  Comparison cmp → Comparison (compare_list cmp).
Proof.
  intros H. split.
  - induction x as [|a x IH]; intros [|b y]; simpl; try done.
    rewrite (cmp_opp (cmp := cmp)), IH. by destruct (cmp b a), (compare_list cmp y x).
  - intros x. induction x as [|a x IH]; intros [|b y] [|c z]; simpl; try done.
    intros H1 H2. unfold then_compare in *.
    destruct (cmp a b) eqn:E1; [| |done].
    + rewrite (cmp_eq_l cmp _ _ _ E1). destruct (cmp b c); [by eapply IH|done|done].
    + destruct (cmp b c) eqn:E2; [| |done];
        by rewrite (cmp_lt_trans cmp a b c) by (by rewrite ?E2).
Qed.

#[export] Instance N_compare_laws : Comparison N.compare.
Proof.
  split; [intros; apply N.compare_antisym|].
  intros x y z. rewrite !N.compare_gt_iff. lia.
Qed.

#[export] Instance String_compare_laws : Comparison String.compare.
Proof.
  split; [apply String.compare_antisym|].
  intros x. induction x as [|a x IH]; intros [|b y] [|c z]; simpl; try done.
  unfold Ascii.compare.
  destruct (N.compare_spec (N_of_ascii a) (N_of_ascii b)) as [E1|E1|E1]; try done;
  destruct (N.compare_spec (N_of_ascii b) (N_of_ascii c)) as [E2|E2|E2]; try done;
  destruct (N.compare_spec (N_of_ascii a) (N_of_ascii c)) as [E3|E3|E3];
  try lia; try done. apply IH.
Qed.

(** ** Record update

    [r <| field := v |>].  A record type says once how it is rebuilt from its
    fields ([Settable]); the updater of one field is derived from that by
    abstracting the projection. *)

Class Settable (R : Type) := rebuild : R → R.
Class Updater {R T} (field : R → T) := update_with : (T → T) → R → R.
Global Hint Mode Updater - - + : typeclass_instances.
Arguments update_with {R T} field {_} _ !_ /.

Ltac derive_updater :=
  match goal with
  | |- @Updater ?R ?T ?field =>
      let inst := constr:(_ : Settable R) in
      let h := match inst with ?c => c end in
      let e := eval cbv delta [h] in h in
      match (eval pattern field in e) with
      | ?body _ => let b := eval cbv beta in (λ (f : T → T) (r : R), body (λ x, f (field x)) r) in exact b
      end
  end.

#[export] Hint Extern 1 (Updater _) => derive_updater : typeclass_instances.

Notation "r <| field := v |>" := (update_with field (λ _, v) r)
  (at level 1, left associativity, field constr, v at level 200) : dockplane_scope.
