(* ===== verification/Semver.v ===== *)
(** * Versions

    [api/src/version/semver.ts] and the one decision taken from it,
    [api/src/stacks/stack-attribution.ts].

    A version string is matched against the code's regular expression, its
    numbers become JavaScript numbers, and two versions are ordered by the
    precedence rules of Semantic Versioning 2.0.0.  Numbers are IEEE doubles in
    the program, so they are here: [to_number] rounds to 53 significant bits
    and overflows to infinity, and subtraction of two infinities is not a
    number.  The order laws are therefore stated for versions whose numbers
    are finite, and agreement with exact precedence for numbers below 2^53. *)

From Stdlib Require Import Ascii String NArith.
From stdpp Require Import gmap strings list.
From S2P Require Import Prelude.

Local Open Scope N_scope.

(** ** JavaScript numbers, as far as [Number(digits)] produces them *)

(** The value of a non-negative integer double. *)
Inductive number := Fin (n : N) | Infinity.

#[export] Instance number_eq_dec : EqDecision number.
Proof. solve_decision. Defined.

(** Round to 53 significant bits, ties to even. *)
Definition round53 (n : N) : N :=
  let s := N.size n in
  if s <=? 53 then n
  else
    let k := s - 53 in
    let q := N.shiftr n k in
    let r := n - N.shiftl q k in
    let half := N.shiftl 1 (k - 1) in
    let up := (half <? r) || ((half =? r) && N.odd q) in
    N.shiftl (if up then q + 1 else q) k.

(** [Number(s)] for a string of decimal digits with the value [n]. *)
Definition to_number (n : N) : number :=
  let r := round53 n in
  if 2 ^ 1024 <=? r then Infinity else Fin r.

(** The sign of [a - b], which is all the code looks at. *)
Inductive difference := Negative | Zero | Positive | NotANumber.

Definition subtract (a b : number) : difference :=
  match a, b with
  | Infinity, Infinity => NotANumber
  | Infinity, Fin _ => Positive
  | Fin _, Infinity => Negative
  | Fin x, Fin y =>
      match N.compare x y with Lt => Negative | Eq => Zero | Gt => Positive end
  end.

(** [d || rest]: zero and NaN are the falsy numbers. *)
Definition or_else (d rest : difference) : difference :=
  match d with
  | Zero | NotANumber => rest
  | _ => d
  end.

(** ** The grammar of [PATTERN] *)

Definition digit_value (c : ascii) : N := N_of_ascii c - 48.

Definition decimal (w : list ascii) : N :=
  fold_left (λ acc c, 10 * acc + digit_value c) w 0.

(** [0|[1-9]\d*], also the [NUMERIC] test. *)
Definition is_numeric (w : list ascii) : bool :=
  match w with
  | [] => false
  | c :: w' =>
      if bool_decide (c = "0"%char) then bool_decide (w' = [])
      else is_digit c && forallb is_digit w'
  end.

(** [[0-9a-zA-Z-]] *)
Definition is_ident_char (c : ascii) : bool :=
  is_digit c || is_alpha c || bool_decide (c = "-"%char).

(** [0|[1-9]\d*|\d*[a-zA-Z-][0-9a-zA-Z-]*]: either a number without a leading
    zero, or a word of identifier characters with at least one non-digit. *)
Definition is_prerelease_ident (w : list ascii) : bool :=
  is_numeric w ||
  (forallb is_ident_char w && existsb (λ c, negb (is_digit c)) w).

(** [[0-9a-zA-Z-]+] *)
Definition is_build_ident (w : list ascii) : bool :=
  bool_decide (w ≠ []) && forallb is_ident_char w.

Record ParsedVersion := {
  major : number;
  minor : number;
  patch : number;
  (** Dot-separated prerelease identifiers, empty for a stable release. *)
  prerelease : list string
}.

Definition parse_core (w : list ascii) : option (number * number * number) :=
  match split_on "." w with
  | [a; b; c] =>
      if is_numeric a && is_numeric b && is_numeric c
      then Some (to_number (decimal a), to_number (decimal b), to_number (decimal c))
      else None
  | _ => None
  end.

Definition parse_prerelease (o : option (list ascii)) : option (list string) :=
  match o with
  | None => Some []
  | Some w =>
      let ids := split_on "." w in
      if forallb is_prerelease_ident ids then Some (text <$> ids) else None
  end.

Definition build_ok (o : option (list ascii)) : bool :=
  match o with
  | None => true
  | Some w => forallb is_build_ident (split_on "." w)
  end.

Definition strip_v (l : list ascii) : list ascii :=
  match l with
  | c :: l' => if bool_decide (c = "v"%char) then l' else l
  | [] => []
  end.

(** [PATTERN.exec], anchored at both ends.  Neither [+] nor [-] occurs in the
    part before it, so the first of each is the one the expression matches. *)
Definition exec_pattern (l : list ascii) : option ParsedVersion :=
  let '(version, build) := break_on "+" (strip_v l) in
  let '(core, pre) := break_on "-" version in
  '(a, b, c) ← parse_core core;
  ids ← parse_prerelease pre;
  if build_ok build
  then Some {| major := a; minor := b; patch := c; prerelease := ids |}
  else None.

Definition parseVersion (value : option string) : option ParsedVersion :=
  s ← value; exec_pattern (trim (chars s)).

(** ** Ordering *)

Definition numeric_test (s : string) : bool := is_numeric (chars s).

Definition Number (s : string) : number := to_number (decimal (chars s)).

(** One round of the loop over identifiers; [None] is [continue]. *)
Definition compare_ident (left right : string) : option comparison :=
  match numeric_test left, numeric_test right with
  | true, true =>
      match subtract (Number left) (Number right) with
      | Zero => None
      | Negative => Some Lt
      | Positive | NotANumber => Some Gt
      end
  | true, false => Some Lt
  | false, true => Some Gt
  | false, false =>
      if bool_decide (left = right) then None
      else match String.compare left right with
           | Lt => Some Lt
           | _ => Some Gt
           end
  end.

(** The loop runs to the longer list, and an identifier that is missing is the
    lower one. *)
Fixpoint compare_idents (a b : list string) : comparison :=
  match a, b with
  | [], [] => Eq
  | [], _ :: _ => Lt
  | _ :: _, [] => Gt
  | x :: a', y :: b' =>
      match compare_ident x y with
      | Some c => c
      | None => compare_idents a' b'
      end
  end.

(** The results [-1], [0] and [1] are [Lt], [Eq] and [Gt]. *)
Definition comparePrerelease (a b : list string) : comparison :=
  match a, b with
  | [], [] => Eq
  | [], _ :: _ => Gt
  | _ :: _, [] => Lt
  | _, _ => compare_idents a b
  end.

Definition compareParsed (a b : ParsedVersion) : comparison :=
  let positional :=
    or_else (subtract (major a) (major b))
      (or_else (subtract (minor a) (minor b)) (subtract (patch a) (patch b))) in
  match positional with
  | Negative => Lt
  | Positive | NotANumber => Gt
  | Zero => comparePrerelease (prerelease a) (prerelease b)
  end.

Definition compareVersions (a b : option string) : option comparison :=
  match parseVersion a, parseVersion b with
  | Some l, Some r => Some (compareParsed l r)
  | _, _ => None
  end.

Definition isNewer (candidate current : option string) : option bool :=
  match compareVersions candidate current with
  | None => None
  | Some Gt => Some true
  | Some _ => Some false
  end.

(** ** Stack attribution *)

Definition STACK_ATTRIBUTION_MINIMUM_AGENT_VERSION : string := "0.3.0-rc.2".

Definition supportsStackAttribution (version : option string) : bool :=
  match compareVersions version (Some STACK_ATTRIBUTION_MINIMUM_AGENT_VERSION) with
  | Some Lt | None => false
  | Some _ => true
  end.

(** ** The order laws *)

(** Every number of the version is a finite double. *)
Definition finite (v : ParsedVersion) : Prop :=
  major v ≠ Infinity ∧ minor v ≠ Infinity ∧ patch v ≠ Infinity ∧
  Forall (λ s, numeric_test s = true → Number s ≠ Infinity) (prerelease v).

#[export] Instance finite_dec v : Decision (finite v).
Proof. unfold finite. apply _. Defined.

Definition number_value (x : number) : N :=
  match x with Fin n => n | Infinity => 0 end.

(** What an identifier is ordered by: its class, its number, its text. *)
Definition ident_compare (x y : string) : comparison :=
  let key s := if numeric_test s then (0, number_value (Number s), EmptyString)
               else (1, 0, s) in
  then_compare (N.compare (key x).1.1 (key y).1.1)
    (then_compare (N.compare (key x).1.2 (key y).1.2)
       (String.compare (key x).2 (key y).2)).

#[export] Instance ident_compare_laws : Comparison ident_compare.
Proof. repeat apply Comparison_then; apply (Comparison_on _ _ _). Qed.

(** A release is above every candidate of it. *)
Definition prerelease_compare (a b : list string) : comparison :=
  then_compare
    (N.compare (if decide (a = []) then 1 else 0) (if decide (b = []) then 1 else 0))
    (compare_list ident_compare a b).

Definition version_compare (a b : ParsedVersion) : comparison :=
  then_compare (N.compare (number_value (major a)) (number_value (major b)))
  (then_compare (N.compare (number_value (minor a)) (number_value (minor b)))
  (then_compare (N.compare (number_value (patch a)) (number_value (patch b)))
     (prerelease_compare (prerelease a) (prerelease b)))).

#[export] Instance version_compare_laws : Comparison version_compare.
Proof.
  repeat apply Comparison_then; apply (Comparison_on _ _ _).
Qed.

Lemma String_compare_refl s : String.compare s s = Eq.
Proof. apply (cmp_refl String.compare). Qed.

Lemma compare_ident_ordered x y :
  (numeric_test x = true → Number x ≠ Infinity) →
  (numeric_test y = true → Number y ≠ Infinity) →
  compare_ident x y = match ident_compare x y with Eq => None | c => Some c end.
Proof.
  intros Hx Hy. unfold compare_ident, ident_compare.
  destruct (numeric_test x), (numeric_test y); simpl; try done.
  - destruct (Number x), (Number y); simpl; try naive_solver. by destruct (_ ?= _).
  - case_bool_decide as E; [subst; by rewrite String_compare_refl|].
    destruct (String.compare x y) eqn:C; try done.
    by apply String.compare_eq_iff in C.
Qed.

Lemma compare_idents_ordered a b :
  Forall (λ s, numeric_test s = true → Number s ≠ Infinity) a →
  Forall (λ s, numeric_test s = true → Number s ≠ Infinity) b →
  compare_idents a b = compare_list ident_compare a b.
Proof.
  intros Ha. revert b. induction Ha as [|x a Hx Ha IH]; intros b Hb;
    destruct Hb as [|y b Hy Hb]; simpl; try done.
  rewrite compare_ident_ordered by done. unfold then_compare.
  destruct (ident_compare x y); eauto.
Qed.

Lemma compareParsed_ordered a b :
  finite a → finite b → compareParsed a b = version_compare a b.
Proof.
  intros (Ha1 & Ha2 & Ha3 & Ha) (Hb1 & Hb2 & Hb3 & Hb).
  unfold compareParsed, version_compare.
  destruct (major a), (major b), (minor a), (minor b), (patch a), (patch b); try done.
  simpl. do 3 (match goal with |- context [N.compare ?x ?y] => destruct (N.compare x y); simpl; try done end).
  unfold prerelease_compare, comparePrerelease.
  rewrite <-compare_idents_ordered by done.
  by destruct (prerelease a), (prerelease b).
Qed.

(** On versions whose numbers are finite doubles, [compareParsed] is a total
    preorder: comparing the other way round flips the sign, a version equals
    itself, and the order is transitive. *)
Theorem compareParsed_total_preorder a b c :
  finite a → finite b → finite c →
  compareParsed a b = CompOpp (compareParsed b a) ∧
  compareParsed a a = Eq ∧
  (compareParsed a b ≠ Gt → compareParsed b c ≠ Gt → compareParsed a c ≠ Gt).
Proof.
  intros Ha Hb Hc. rewrite !compareParsed_ordered by done. split_and!.
  - apply cmp_opp.
  - apply (cmp_refl version_compare).
  - apply cmp_trans.
Qed.

Definition example_version (s : string) : ParsedVersion :=
  default {| major := Fin 0; minor := Fin 0; patch := Fin 0; prerelease := [] |}
    (parseVersion (Some s)).

Lemma compareParsed_total_preorder_witness :
  let a := example_version "0.3.0-rc.2" in
  let b := example_version "0.3.0-rc.10" in
  let c := example_version "0.3.0" in
  compareParsed a b = Lt ∧ compareParsed b c = Lt ∧ compareParsed a c ≠ Gt.
Proof.
  split_and!; [vm_compute; reflexivity..|].
  apply (compareParsed_total_preorder (example_version "0.3.0-rc.2")
           (example_version "0.3.0-rc.10") (example_version "0.3.0")).
  1-3: apply (bool_decide_eq_true_1 (finite _)); vm_compute; reflexivity.
  1-2: vm_compute; discriminate.
Defined.

(** ** What the expression accepts *)

Definition prerelease_text (ids : list (list ascii)) : list ascii :=
  match ids with [] => [] | _ => "-"%char :: join_with "." ids end.

Definition build_text (ids : list (list ascii)) : list ascii :=
  match ids with [] => [] | _ => "+"%char :: join_with "." ids end.

(** The sub-expressions of [PATTERN], concatenated: an optional [v], three
    numbers, an optional list of prerelease identifiers, an optional list of
    build identifiers. *)
Definition matches_pattern (l : list ascii) (v : ParsedVersion) : Prop :=
  ∃ lead a b c pre build,
    (lead = [] ∨ lead = ["v"%char]) ∧
    is_numeric a = true ∧ is_numeric b = true ∧ is_numeric c = true ∧
    Forall (λ w, is_prerelease_ident w = true) pre ∧
    Forall (λ w, is_build_ident w = true) build ∧
    l = lead ++ a ++ "."%char :: b ++ "."%char :: c
          ++ prerelease_text pre ++ build_text build ∧
    v = {| major := to_number (decimal a); minor := to_number (decimal b);
           patch := to_number (decimal c); prerelease := text <$> pre |}.

Lemma is_numeric_digits w : is_numeric w = true → Forall (λ c, is_digit c = true) w.
Proof.
  destruct w as [|c w]; simpl; [done|]. case_bool_decide as E; subst.
  - intros ->%bool_decide_eq_true_1. by repeat constructor.
  - intros [? ?%forallb_Forall]%andb_prop. by constructor.
Qed.

Lemma no_char (p : ascii → bool) (c : ascii) w :
  Forall (λ x, p x = true) w → p c = false → c ∉ w.
Proof. intros Hw Hc Hin. rewrite Forall_forall in Hw. apply Hw in Hin. congruence. Qed.

Lemma is_numeric_no c w : is_digit c = false → is_numeric w = true → c ∉ w.
Proof. intros Hc Hw. eapply no_char; [by apply is_numeric_digits|done]. Qed.

Lemma digit_ident c : is_digit c = true → is_ident_char c = true.
Proof. unfold is_ident_char. by intros ->. Qed.

Lemma prerelease_ident_chars w :
  is_prerelease_ident w = true → Forall (λ c, is_ident_char c = true) w.
Proof.
  unfold is_prerelease_ident. intros [H|[H _]%andb_prop]%orb_prop.
  - eapply Forall_impl; [by apply is_numeric_digits|]. intros; by apply digit_ident.
  - by apply forallb_Forall.
Qed.

Lemma build_ident_chars w :
  is_build_ident w = true → Forall (λ c, is_ident_char c = true) w.
Proof. intros [_ H]%andb_prop. by apply forallb_Forall. Qed.

Lemma join_no_char c sep ws : c ≠ sep → Forall (λ w, c ∉ w) ws → c ∉ join_with sep ws.
Proof.
  intros Hne H. induction H as [|w ws Hw Hws IH]; [set_solver|].
  destruct ws; [done|].
  change (join_with sep (w :: l :: ws)) with (w ++ sep :: join_with sep (l :: ws)).
  set_solver.
Qed.

Lemma strip_v_spec l :
  ∃ lead, (lead = [] ∨ lead = ["v"%char]) ∧ l = lead ++ strip_v l.
Proof.
  destruct l as [|c l]; simpl; [by exists []; auto|].
  case_bool_decide; subst; [by exists ["v"%char]; auto|by exists []; auto].
Qed.

Lemma strip_v_core lead a rest :
  lead = [] ∨ lead = ["v"%char] → is_numeric a = true →
  strip_v (lead ++ a ++ rest) = a ++ rest.
Proof.
  intros [-> | ->] Ha; simpl; [|done].
  assert (Hv : "v"%char ∉ a) by (by apply is_numeric_no).
  destruct a as [|c a]; [done|]. simpl. rewrite bool_decide_eq_false_2; set_solver.
Qed.

Lemma exec_pattern_sound l v : exec_pattern l = Some v → matches_pattern l v.
Proof.
  unfold exec_pattern. intros H.
  destruct (strip_v_spec l) as (lead & Hlead & Hl).
  destruct (break_on "+" (strip_v l)) as [version build] eqn:E1.
  destruct (break_on "-" version) as [core pre] eqn:E2.
  apply break_on_spec in E1 as [_ E1]. apply break_on_spec in E2 as [_ E2].
  destruct (parse_core core) as [[[na nb] nc]|] eqn:E3; simplify_eq/=.
  destruct (parse_prerelease pre) as [ids|] eqn:E4; simplify_eq/=.
  destruct (build_ok build) eqn:E5; simplify_eq/=.
  unfold parse_core in E3. pose proof (join_split "." core) as Hcore.
  destruct (split_on "." core) as [|a [|b [|c [|]]]]; simplify_eq/=.
  destruct (is_numeric a) eqn:Ha, (is_numeric b) eqn:Hb, (is_numeric c) eqn:Hc; simplify_eq/=.
  exists lead, a, b, c, (match pre with Some w => split_on "." w | None => [] end),
    (match build with Some w => split_on "." w | None => [] end).
  split_and!; try done.
  - destruct pre as [w|]; [|constructor]. simpl in E4. case_match; simplify_eq.
    by apply forallb_Forall.
  - destruct build as [w|]; [|constructor]. by apply forallb_Forall.
  - rewrite Hl, E1. clear.
    destruct pre as [w|], build as [w'|]; rewrite ?app_nil_r;
      unfold prerelease_text, build_text;
      repeat match goal with |- context [split_on ?s ?x] =>
        pose proof (split_on_nonempty s x); rewrite <-(join_split s x) at 1;
        destruct (split_on s x); [done|] end;
      by rewrite <-?app_assoc; simpl; rewrite <-?app_assoc; simpl; rewrite <-?app_assoc.
  - destruct pre as [w|]; simpl in E4; simplify_eq/=; [|done]. by case_match; simplify_eq.
Qed.

Lemma ident_words (p : list ascii → bool) c ws :
  (∀ w, p w = true → Forall (λ x, is_ident_char x = true) w) →
  is_ident_char c = false →
  Forall (λ w, p w = true) ws → Forall (λ w, c ∉ w) ws.
Proof.
  intros Hp Hc H. eapply Forall_impl; [exact H|]. intros w Hw. simpl.
  eapply no_char; [by apply Hp|done].
Qed.

Lemma exec_pattern_complete l v : matches_pattern l v → exec_pattern l = Some v.
Proof.
  intros (lead & a & b & c & pre & build & Hlead & Ha & Hb & Hc & Hpre & Hbuild & -> & ->).
  unfold exec_pattern. rewrite strip_v_core by done.
  set (core := a ++ "."%char :: b ++ "."%char :: c).
  assert (Hcore : ∀ x, is_digit x = false → x ≠ "."%char → x ∉ core).
  { intros x Hx Hne. unfold core. pose proof (is_numeric_no x _ Hx Ha).
    pose proof (is_numeric_no x _ Hx Hb). pose proof (is_numeric_no x _ Hx Hc). set_solver. }
  assert (Hplus : "+"%char ∉ core ++ prerelease_text pre).
  { apply not_elem_of_app. split; [by apply Hcore|]. destruct pre as [|w ws]; [set_solver|].
    unfold prerelease_text. apply not_elem_of_cons. split; [done|]. apply join_no_char; [done|].
    by apply (ident_words is_prerelease_ident); [apply prerelease_ident_chars|..]. }
  replace (a ++ "."%char :: b ++ "."%char :: c ++ prerelease_text pre ++ build_text build)
    with ((core ++ prerelease_text pre) ++ build_text build)
    by (unfold core; by rewrite <-!app_assoc; simpl; rewrite <-app_assoc).
  assert (break_on "+" ((core ++ prerelease_text pre) ++ build_text build)
          = (core ++ prerelease_text pre,
             match build with [] => None | _ => Some (join_with "." build) end)) as ->.
  { destruct build; simpl; [rewrite app_nil_r; by apply break_on_none|by apply break_on_app]. }
  assert (break_on "-" (core ++ prerelease_text pre)
          = (core, match pre with [] => None | _ => Some (join_with "." pre) end)) as ->.
  { destruct pre; simpl; [rewrite app_nil_r; apply break_on_none|apply break_on_app]; by apply Hcore. }
  assert (parse_core core = Some (to_number (decimal a), to_number (decimal b), to_number (decimal c))) as ->.
  { unfold parse_core, core. rewrite split_on_app_sep by (by apply is_numeric_no).
    rewrite split_on_app_sep by (by apply is_numeric_no).
    rewrite split_on_no_sep by (by apply is_numeric_no). by rewrite Ha, Hb, Hc. }
  simpl.
  assert (parse_prerelease (match pre with [] => None | _ => Some (join_with "." pre) end)
          = Some (text <$> pre)) as ->.
  { destruct pre as [|w ws]; [done|]. cbn [parse_prerelease]. rewrite split_join; [|done|].
    - by rewrite (proj2 (forallb_Forall _ _) Hpre).
    - by apply (ident_words is_prerelease_ident); [apply prerelease_ident_chars|..]. }
  simpl.
  assert (build_ok (match build with [] => None | _ => Some (join_with "." build) end) = true) as ->; [|done].
  destruct build as [|w ws]; [done|]. cbn [build_ok]. rewrite split_join; [|done|].
  - by apply forallb_Forall.
  - by apply (ident_words is_build_ident); [apply build_ident_chars|..].
Qed.

(** [parseVersion] accepts exactly the strings that, trimmed, are a
    concatenation of the sub-expressions of [PATTERN], and returns the numbers
    and identifiers of that concatenation (so the concatenation is unique up
    to the build identifiers, which do not reach the result). *)
Theorem parseVersion_grammar s v :
  parseVersion (Some s) = Some v ↔ matches_pattern (trim (chars s)) v.
Proof. split; [apply exec_pattern_sound|apply exec_pattern_complete]. Qed.

(** ** Numbers at their width *)

Lemma round53_exact n : n < 2 ^ 53 → round53 n = n.
Proof.
  intros H. unfold round53.
  assert (N.size n <= 53) as Hs.
  { destruct (decide (n = 0)) as [->|Hn]; [done|].
    rewrite N.size_log2 by done. apply N.le_succ_l, N.log2_lt_pow2; lia. }
  by apply N.leb_le in Hs as ->.
Qed.

(** A number below 2^53 is represented exactly. *)
Lemma to_number_exact n : n < 2 ^ 53 → to_number n = Fin n.
Proof.
  intros H. unfold to_number. rewrite round53_exact by done.
  destruct (N.leb_spec (2 ^ 1024) n); [|done].
  assert (2 ^ 53 < 2 ^ 1024) by (by apply N.pow_lt_mono_r). lia.
Qed.

(** Numeric prerelease identifiers below 2^53 are compared by their exact
    value and rank below every alphanumeric identifier. *)
Theorem compare_ident_exact x y :
  numeric_test x = true → decimal (chars x) < 2 ^ 53 →
  (numeric_test y = true → decimal (chars y) < 2 ^ 53) →
  compare_ident x y =
    if numeric_test y then
      match N.compare (decimal (chars x)) (decimal (chars y)) with
      | Eq => None
      | c => Some c
      end
    else Some Lt.
Proof.
  intros Hx Hxb Hyb. unfold compare_ident. rewrite Hx.
  destruct (numeric_test y) eqn:Hy; [|done].
  unfold Number. rewrite !to_number_exact by auto. simpl.
  by destruct (N.compare _ _).
Qed.

Lemma compare_ident_exact_witness :
  compare_ident "2" "10" = Some Lt ∧ compare_ident "2" "rc" = Some Lt.
Proof.
  split; rewrite compare_ident_exact; vm_compute; try reflexivity; intros; reflexivity.
Defined.

(** Beyond the width of a double the ordering stops being one.  A
    candidate whose number has three hundred and ten digits compares greater
    than itself, and two different numbers above 2^53 compare as equal. *)
Theorem compareVersions_beyond_doubles :
  (let v := Some ("1.0.0-" ++ text (replicate 310 "9"%char))%string in
   compareVersions v v = Some Gt) ∧
  compareVersions (Some "1.0.0-9007199254740993"%string)
                  (Some "1.0.0-9007199254740992"%string) = Some Eq.
Proof. split; vm_compute; reflexivity. Qed.

(** ** The attribution gate *)

Lemma compareVersions_parsed a b v w :
  parseVersion a = Some v → parseVersion b = Some w →
  compareVersions a b = Some (compareParsed v w).
Proof. unfold compareVersions. by intros -> ->. Qed.

(** The gate is upward closed: once a release of the agent reports stack
    attribution, every release that is not older does too; and a version that
    cannot be read never passes. *)
Theorem supportsStackAttribution_upward a b v w :
  parseVersion a = Some v → parseVersion b = Some w → finite v → finite w →
  supportsStackAttribution a = true → compareParsed v w ≠ Gt →
  supportsStackAttribution b = true ∧
  ∀ s, parseVersion s = None → supportsStackAttribution s = false.
Proof.
  intros Ha Hb Hv Hw Hs Hle. split; [|intros s H; unfold supportsStackAttribution,
    compareVersions; by rewrite H].
  unfold supportsStackAttribution in *.
  destruct (parseVersion (Some STACK_ATTRIBUTION_MINIMUM_AGENT_VERSION)) as [m|] eqn:Hm;
    [|by vm_compute in Hm].
  assert (Hf : finite m).
  { apply (bool_decide_eq_true_1 (finite m)). vm_compute in Hm. simplify_eq. by vm_compute. }
  erewrite compareVersions_parsed in Hs |- * by done.
  rewrite !compareParsed_ordered in * by done.
  assert (version_compare m w ≠ Gt) as Hmw.
  { apply (cmp_trans (cmp := version_compare) m v w); [|done].
    rewrite (cmp_opp (cmp := version_compare)). by destruct (version_compare v m). }
  rewrite (cmp_opp (cmp := version_compare)). by destruct (version_compare m w).
Qed.

Lemma supportsStackAttribution_upward_witness :
  supportsStackAttribution (Some "0.3.0-rc.2+deadbeef"%string) = true ∧
  supportsStackAttribution (Some "0.10.0"%string) = true.
Proof.
  split; [vm_compute; reflexivity|].
  apply (supportsStackAttribution_upward (Some "0.3.0-rc.2+deadbeef"%string)
           (Some "0.10.0"%string) (example_version "0.3.0-rc.2+deadbeef")
           (example_version "0.10.0")).
  1-2: vm_compute; reflexivity.
  1-2: apply (bool_decide_eq_true_1 (finite _)); vm_compute; reflexivity.
  - vm_compute; reflexivity.
  - vm_compute; discriminate.
Defined.
