(* ===== verification/Schema.v ===== *)
(** * The control-plane schema

    [api/src/database/schema.ts]: one record per table the modelled services
    read or write, a database as one finite map per table keyed by the primary
    key, and the unique indexes of each table (partial and expression indexes
    included) as functions from a row to the key it occupies.

    Text columns are strings; a column the schema declares with an [enum] is an
    inductive type; a timestamp is a number of milliseconds; a [jsonb] column
    whose contents the code looks into has a type of its own and any other is a
    [json] value.  The bookkeeping columns [createdAt]/[updatedAt] are left out
    where nothing reads them, and so is the free text of an event. *)

From Stdlib Require Import Ascii String NArith ZArith.
From stdpp Require Import gmap strings list pretty.
From S2P Require Import Prelude.

(** Milliseconds since the epoch. *)
Definition time := Z.

Inductive json :=
  | JNull
  | JBool (b : bool)
  | JNumber (n : Z)
  | JString (s : string)
  | JArray (l : list json)
  | JObject (fields : list (string * json)).

(** ** Enumerations *)

Inductive AgentStatus := Agent_pending | Agent_connected | Agent_disconnected | Agent_revoked.
Inductive ActorKind := Actor_user | Actor_system.
Inductive ActionStatus :=
  Action_queued | Action_running | Action_succeeded | Action_failed | Action_timed_out | Action_cancelled.
Inductive Severity := Severity_info | Severity_warning | Severity_critical.
Inductive AuditResult := Audit_success | Audit_failure.

#[export] Instance AgentStatus_eq_dec : EqDecision AgentStatus.
Proof. solve_decision. Defined.
#[export] Instance ActionStatus_eq_dec : EqDecision ActionStatus.
Proof. solve_decision. Defined.
#[export] Instance ActorKind_eq_dec : EqDecision ActorKind.
Proof. solve_decision. Defined.
#[export] Instance Severity_eq_dec : EqDecision Severity.
Proof. solve_decision. Defined.
#[export] Instance AuditResult_eq_dec : EqDecision AuditResult.
Proof. solve_decision. Defined.

(** ** The documents kept in [jsonb] columns *)

Record IdentityConflict := {
  conflict_dockerIds : list string;
  conflict_observedAt : time
}.

(** [stack_revisions.summary] *)
Record RevisionSummary := {
  summary_services : list string;
  summary_networks : list string;
  summary_volumes : list string;
  summary_dependsOn : option (list (string * list string))
}.

(** One entry of the [detail] of a deployment or an operation. *)
Record ServiceOutcome := {
  outcome_serviceName : string;
  outcome_containerId : string;
  outcome_state : option string;
  outcome_errorCode : option string
}.

(** One entry of [stack_operations.fingerprint]. *)
Record ServiceFingerprint := {
  fingerprint_serviceName : string;
  fingerprint_containerId : string;
  fingerprint_dockerId : string;
  fingerprint_startedAt : option time
}.

(** [status IN ('pending', 'running', 'interrupted')], the predicate of both
    partial indexes on unfinished stack work. *)
Definition unresolved_status (s : string) : bool :=
  mem s ["pending"; "running"; "interrupted"].

(** ** Rows *)

Record Host := {
  host_id : string;
  host_hostname : string;
  host_displayName : option string;
  host_os : option string;
  host_architecture : option string;
  host_kernel : option string;
  host_dockerVersion : option string;
  host_agentVersion : option string;
  host_metrics : option json;
  host_metadata : option json;
  host_lastSeenAt : option time;
  host_observedAt : option time;
  host_archivedAt : option time
}.

#[export] Instance Host_settable : Settable Host := λ r, {|
  host_id := host_id r;
  host_hostname := host_hostname r;
  host_displayName := host_displayName r;
  host_os := host_os r;
  host_architecture := host_architecture r;
  host_kernel := host_kernel r;
  host_dockerVersion := host_dockerVersion r;
  host_agentVersion := host_agentVersion r;
  host_metrics := host_metrics r;
  host_metadata := host_metadata r;
  host_lastSeenAt := host_lastSeenAt r;
  host_observedAt := host_observedAt r;
  host_archivedAt := host_archivedAt r |}.

Record Agent := {
  agent_id : string;
  agent_hostId : string;
  agent_certificateFingerprint : string;
  agent_certificateSerial : string;
  agent_certificateNotAfter : time;
  agent_version : option string;
  agent_protocolVersion : Z;
  agent_capabilities : list string;
  agent_status : AgentStatus;
  agent_enrolledAt : time;
  agent_firstSeenAt : option time;
  agent_lastSeenAt : option time;
  agent_revokedAt : option time;
  agent_revocationReason : option string
}.

#[export] Instance Agent_settable : Settable Agent := λ r, {|
  agent_id := agent_id r;
  agent_hostId := agent_hostId r;
  agent_certificateFingerprint := agent_certificateFingerprint r;
  agent_certificateSerial := agent_certificateSerial r;
  agent_certificateNotAfter := agent_certificateNotAfter r;
  agent_version := agent_version r;
  agent_protocolVersion := agent_protocolVersion r;
  agent_capabilities := agent_capabilities r;
  agent_status := agent_status r;
  agent_enrolledAt := agent_enrolledAt r;
  agent_firstSeenAt := agent_firstSeenAt r;
  agent_lastSeenAt := agent_lastSeenAt r;
  agent_revokedAt := agent_revokedAt r;
  agent_revocationReason := agent_revocationReason r |}.

Record Container := {
  container_id : string;
  container_hostId : string;
  container_dockerId : option string;
  container_name : string;
  container_image : string;
  container_imageId : option string;
  container_state : string;
  container_health : string;
  container_restartCount : Z;
  container_composeProjectId : option string;
  container_stackId : option string;
  container_stackService : option string;
  container_stackRevisionId : option string;
  container_dockerCreatedAt : option time;
  container_startedAt : option time;
  container_metadata : option json;
  container_detail : option json;
  container_detailObservedAt : option time;
  container_identityConflict : option IdentityConflict;
  container_observedDesiredConfigId : option string;
  container_snapshotId : option string;
  container_observedAt : time
}.

#[export] Instance Container_settable : Settable Container := λ r, {|
  container_id := container_id r;
  container_hostId := container_hostId r;
  container_dockerId := container_dockerId r;
  container_name := container_name r;
  container_image := container_image r;
  container_imageId := container_imageId r;
  container_state := container_state r;
  container_health := container_health r;
  container_restartCount := container_restartCount r;
  container_composeProjectId := container_composeProjectId r;
  container_stackId := container_stackId r;
  container_stackService := container_stackService r;
  container_stackRevisionId := container_stackRevisionId r;
  container_dockerCreatedAt := container_dockerCreatedAt r;
  container_startedAt := container_startedAt r;
  container_metadata := container_metadata r;
  container_detail := container_detail r;
  container_detailObservedAt := container_detailObservedAt r;
  container_identityConflict := container_identityConflict r;
  container_observedDesiredConfigId := container_observedDesiredConfigId r;
  container_snapshotId := container_snapshotId r;
  container_observedAt := container_observedAt r |}.

Record ComposeProject := {
  project_id : string;
  project_hostId : string;
  project_projectName : string;
  project_workingDir : option string;
  project_configFiles : option string;
  project_status : string;
  project_serviceCount : Z;
  project_runningCount : Z;
  project_services : option json;
  project_detailObservedAt : option time;
  project_snapshotId : option string;
  project_observedAt : time
}.

#[export] Instance ComposeProject_settable : Settable ComposeProject := λ r, {|
  project_id := project_id r;
  project_hostId := project_hostId r;
  project_projectName := project_projectName r;
  project_workingDir := project_workingDir r;
  project_configFiles := project_configFiles r;
  project_status := project_status r;
  project_serviceCount := project_serviceCount r;
  project_runningCount := project_runningCount r;
  project_services := project_services r;
  project_detailObservedAt := project_detailObservedAt r;
  project_snapshotId := project_snapshotId r;
  project_observedAt := project_observedAt r |}.

Record Action := {
  action_id : string;
  action_actorUserId : option string;
  action_actorKind : ActorKind;
  action_capability : string;
  action_targetType : option string;
  action_targetId : option string;
  action_hostId : option string;
  action_status : ActionStatus;
  action_requestedAt : time;
  action_startedAt : option time;
  action_completedAt : option time;
  action_errorCode : option string;
  action_correlationId : string
}.

#[export] Instance Action_settable : Settable Action := λ r, {|
  action_id := action_id r;
  action_actorUserId := action_actorUserId r;
  action_actorKind := action_actorKind r;
  action_capability := action_capability r;
  action_targetType := action_targetType r;
  action_targetId := action_targetId r;
  action_hostId := action_hostId r;
  action_status := action_status r;
  action_requestedAt := action_requestedAt r;
  action_startedAt := action_startedAt r;
  action_completedAt := action_completedAt r;
  action_errorCode := action_errorCode r;
  action_correlationId := action_correlationId r |}.

Record Event := {
  event_id : string;
  event_hostId : option string;
  event_type : string;
  event_severity : Severity;
  event_resource : string;
  event_correlationId : option string;
  event_occurredAt : time
}.

#[export] Instance Event_settable : Settable Event := λ r, {|
  event_id := event_id r;
  event_hostId := event_hostId r;
  event_type := event_type r;
  event_severity := event_severity r;
  event_resource := event_resource r;
  event_correlationId := event_correlationId r;
  event_occurredAt := event_occurredAt r |}.

Record AuditEntry := {
  audit_id : string;
  audit_actorUserId : option string;
  audit_actorLabel : string;
  audit_action : string;
  audit_targetType : option string;
  audit_targetId : option string;
  audit_targetLabel : option string;
  audit_result : AuditResult;
  audit_reasonCode : option string;
  audit_sourceIp : option string;
  audit_userAgent : option string;
  audit_requestId : option string;
  audit_occurredAt : time
}.

#[export] Instance AuditEntry_settable : Settable AuditEntry := λ r, {|
  audit_id := audit_id r;
  audit_actorUserId := audit_actorUserId r;
  audit_actorLabel := audit_actorLabel r;
  audit_action := audit_action r;
  audit_targetType := audit_targetType r;
  audit_targetId := audit_targetId r;
  audit_targetLabel := audit_targetLabel r;
  audit_result := audit_result r;
  audit_reasonCode := audit_reasonCode r;
  audit_sourceIp := audit_sourceIp r;
  audit_userAgent := audit_userAgent r;
  audit_requestId := audit_requestId r;
  audit_occurredAt := audit_occurredAt r |}.

Record Stack := {
  stack_id : string;
  stack_hostId : string;
  stack_name : string;
  stack_sourceType : string;
  stack_status : string;
  stack_latestRevisionId : option string;
  stack_currentRevisionId : option string;
  stack_desiredRevisionId : option string;
  stack_createdBy : option string;
  stack_lastDeployedAt : option time;
  stack_adoptedAt : option time;
  stack_composeProjectId : option string
}.

#[export] Instance Stack_settable : Settable Stack := λ r, {|
  stack_id := stack_id r;
  stack_hostId := stack_hostId r;
  stack_name := stack_name r;
  stack_sourceType := stack_sourceType r;
  stack_status := stack_status r;
  stack_latestRevisionId := stack_latestRevisionId r;
  stack_currentRevisionId := stack_currentRevisionId r;
  stack_desiredRevisionId := stack_desiredRevisionId r;
  stack_createdBy := stack_createdBy r;
  stack_lastDeployedAt := stack_lastDeployedAt r;
  stack_adoptedAt := stack_adoptedAt r;
  stack_composeProjectId := stack_composeProjectId r |}.

Record StackRevision := {
  revision_id : string;
  revision_stackId : string;
  revision_number : N;
  revision_composeSourceEncrypted : string;
  revision_environmentSnapshot : option json;
  revision_changeSummary : option string;
  revision_compilerProtocolVersion : option Z;
  revision_planVersion : option Z;
  revision_validatedAt : option time;
  revision_summary : option RevisionSummary;
  revision_createdBy : option string;
  revision_createdAt : time
}.

#[export] Instance StackRevision_settable : Settable StackRevision := λ r, {|
  revision_id := revision_id r;
  revision_stackId := revision_stackId r;
  revision_number := revision_number r;
  revision_composeSourceEncrypted := revision_composeSourceEncrypted r;
  revision_environmentSnapshot := revision_environmentSnapshot r;
  revision_changeSummary := revision_changeSummary r;
  revision_compilerProtocolVersion := revision_compilerProtocolVersion r;
  revision_planVersion := revision_planVersion r;
  revision_validatedAt := revision_validatedAt r;
  revision_summary := revision_summary r;
  revision_createdBy := revision_createdBy r;
  revision_createdAt := revision_createdAt r |}.

Record StackRevisionVariable := {
  revenv_id : string;
  revenv_revisionId : string;
  revenv_key : string;
  revenv_value : option string;
  revenv_valueEncrypted : option string;
  revenv_isSecret : bool
}.

#[export] Instance StackRevisionVariable_settable : Settable StackRevisionVariable := λ r, {|
  revenv_id := revenv_id r;
  revenv_revisionId := revenv_revisionId r;
  revenv_key := revenv_key r;
  revenv_value := revenv_value r;
  revenv_valueEncrypted := revenv_valueEncrypted r;
  revenv_isSecret := revenv_isSecret r |}.

Record StackDeployment := {
  deployment_id : string;
  deployment_stackId : string;
  deployment_revisionId : string;
  deployment_fromRevisionId : option string;
  deployment_hostId : string;
  deployment_kind : string;
  deployment_status : string;
  deployment_actionId : option string;
  deployment_startedBy : option string;
  deployment_detail : option (list ServiceOutcome);
  deployment_failureCode : option string;
  deployment_startedAt : time;
  deployment_resolvedAt : option time
}.

#[export] Instance StackDeployment_settable : Settable StackDeployment := λ r, {|
  deployment_id := deployment_id r;
  deployment_stackId := deployment_stackId r;
  deployment_revisionId := deployment_revisionId r;
  deployment_fromRevisionId := deployment_fromRevisionId r;
  deployment_hostId := deployment_hostId r;
  deployment_kind := deployment_kind r;
  deployment_status := deployment_status r;
  deployment_actionId := deployment_actionId r;
  deployment_startedBy := deployment_startedBy r;
  deployment_detail := deployment_detail r;
  deployment_failureCode := deployment_failureCode r;
  deployment_startedAt := deployment_startedAt r;
  deployment_resolvedAt := deployment_resolvedAt r |}.

Record StackOperation := {
  operation_id : string;
  operation_stackId : string;
  operation_revisionId : string;
  operation_hostId : string;
  operation_type : string;
  operation_status : string;
  operation_actionId : option string;
  operation_startedBy : option string;
  operation_fingerprint : option (list ServiceFingerprint);
  operation_detail : option (list ServiceOutcome);
  operation_failureCode : option string;
  operation_startedAt : time;
  operation_resolvedAt : option time
}.

#[export] Instance StackOperation_settable : Settable StackOperation := λ r, {|
  operation_id := operation_id r;
  operation_stackId := operation_stackId r;
  operation_revisionId := operation_revisionId r;
  operation_hostId := operation_hostId r;
  operation_type := operation_type r;
  operation_status := operation_status r;
  operation_actionId := operation_actionId r;
  operation_startedBy := operation_startedBy r;
  operation_fingerprint := operation_fingerprint r;
  operation_detail := operation_detail r;
  operation_failureCode := operation_failureCode r;
  operation_startedAt := operation_startedAt r;
  operation_resolvedAt := operation_resolvedAt r |}.

Record DesiredConfig := {
  config_id : string;
  config_containerId : string;
  config_state : string;
  config_actionId : option string;
  config_image : string;
  config_hostname : option string;
  config_command : option (list string);
  config_entrypoint : option (list string);
  config_ports : list json;
  config_mounts : list json;
  config_networks : list string;
  config_restartPolicy : string;
  config_labels : list (string * string);
  config_healthcheck : option json;
  config_createdBy : option string
}.

#[export] Instance DesiredConfig_settable : Settable DesiredConfig := λ r, {|
  config_id := config_id r;
  config_containerId := config_containerId r;
  config_state := config_state r;
  config_actionId := config_actionId r;
  config_image := config_image r;
  config_hostname := config_hostname r;
  config_command := config_command r;
  config_entrypoint := config_entrypoint r;
  config_ports := config_ports r;
  config_mounts := config_mounts r;
  config_networks := config_networks r;
  config_restartPolicy := config_restartPolicy r;
  config_labels := config_labels r;
  config_healthcheck := config_healthcheck r;
  config_createdBy := config_createdBy r |}.

Record ContainerVariable := {
  conenv_id : string;
  conenv_desiredConfigId : string;
  conenv_key : string;
  conenv_value : option string;
  conenv_valueEncrypted : option string;
  conenv_isSecret : bool
}.

#[export] Instance ContainerVariable_settable : Settable ContainerVariable := λ r, {|
  conenv_id := conenv_id r;
  conenv_desiredConfigId := conenv_desiredConfigId r;
  conenv_key := conenv_key r;
  conenv_value := conenv_value r;
  conenv_valueEncrypted := conenv_valueEncrypted r;
  conenv_isSecret := conenv_isSecret r |}.

(** *** Accounts, roles and the ways in *)

Record User := {
  user_id : string;
  user_email : string;
  user_passwordHash : string;
  user_displayName : string;
  user_isActive : bool;
  user_mfaEnabled : bool;
  user_mfaSecretEncrypted : option string;
  user_mfaConfirmedAt : option time;
  user_lastLoginAt : option time;
  user_createdAt : time
}.

#[export] Instance User_settable : Settable User := λ r, {|
  user_id := user_id r;
  user_email := user_email r;
  user_passwordHash := user_passwordHash r;
  user_displayName := user_displayName r;
  user_isActive := user_isActive r;
  user_mfaEnabled := user_mfaEnabled r;
  user_mfaSecretEncrypted := user_mfaSecretEncrypted r;
  user_mfaConfirmedAt := user_mfaConfirmedAt r;
  user_lastLoginAt := user_lastLoginAt r;
  user_createdAt := user_createdAt r |}.

Record RecoveryCode := {
  rcode_id : string;
  rcode_userId : string;
  rcode_codeHash : string;
  rcode_consumedAt : option time
}.

#[export] Instance RecoveryCode_settable : Settable RecoveryCode := λ r, {|
  rcode_id := rcode_id r;
  rcode_userId := rcode_userId r;
  rcode_codeHash := rcode_codeHash r;
  rcode_consumedAt := rcode_consumedAt r |}.

Record Session := {
  session_id : string;
  session_userId : string;
  session_tokenHash : string;
  session_csrfTokenHash : string;
  session_mfaPending : bool;
  session_userAgent : option string;
  session_sourceIp : option string;
  session_createdAt : time;
  session_lastSeenAt : time;
  session_expiresAt : time;
  session_revokedAt : option time
}.

#[export] Instance Session_settable : Settable Session := λ r, {|
  session_id := session_id r;
  session_userId := session_userId r;
  session_tokenHash := session_tokenHash r;
  session_csrfTokenHash := session_csrfTokenHash r;
  session_mfaPending := session_mfaPending r;
  session_userAgent := session_userAgent r;
  session_sourceIp := session_sourceIp r;
  session_createdAt := session_createdAt r;
  session_lastSeenAt := session_lastSeenAt r;
  session_expiresAt := session_expiresAt r;
  session_revokedAt := session_revokedAt r |}.

Record Role := {
  role_id : string;
  role_name : string;
  role_description : string;
  role_isBuiltIn : bool
}.

#[export] Instance Role_settable : Settable Role := λ r, {|
  role_id := role_id r;
  role_name := role_name r;
  role_description := role_description r;
  role_isBuiltIn := role_isBuiltIn r |}.

Record PermissionRow := {
  permission_id : string;
  permission_key : string;
  permission_description : string
}.

#[export] Instance PermissionRow_settable : Settable PermissionRow := λ r, {|
  permission_id := permission_id r;
  permission_key := permission_key r;
  permission_description := permission_description r |}.

Record RolePermission := {
  grant_roleId : string;
  grant_permissionId : string
}.

#[export] Instance RolePermission_settable : Settable RolePermission := λ r, {|
  grant_roleId := grant_roleId r;
  grant_permissionId := grant_permissionId r |}.

Record UserRole := {
  assignment_userId : string;
  assignment_roleId : string
}.

#[export] Instance UserRole_settable : Settable UserRole := λ r, {|
  assignment_userId := assignment_userId r;
  assignment_roleId := assignment_roleId r |}.

Record EnrollmentToken := {
  etoken_id : string;
  etoken_tokenHash : string;
  etoken_createdBy : option string;
  etoken_intendedHostname : option string;
  etoken_createdAt : time;
  etoken_expiresAt : time;
  etoken_consumedAt : option time;
  etoken_consumedByAgentId : option string;
  etoken_revokedAt : option time;
  etoken_revokedBy : option string
}.

#[export] Instance EnrollmentToken_settable : Settable EnrollmentToken := λ r, {|
  etoken_id := etoken_id r;
  etoken_tokenHash := etoken_tokenHash r;
  etoken_createdBy := etoken_createdBy r;
  etoken_intendedHostname := etoken_intendedHostname r;
  etoken_createdAt := etoken_createdAt r;
  etoken_expiresAt := etoken_expiresAt r;
  etoken_consumedAt := etoken_consumedAt r;
  etoken_consumedByAgentId := etoken_consumedByAgentId r;
  etoken_revokedAt := etoken_revokedAt r;
  etoken_revokedBy := etoken_revokedBy r |}.

Record HostSetup := {
  setup_id : string;
  setup_displayName : option string;
  setup_createdBy : option string;
  setup_ticketHash : string;
  setup_ticketExpiresAt : time;
  setup_ticketConsumedAt : option time;
  setup_ticketIssuedAt : time;
  setup_cancelledAt : option time;
  setup_cancelledBy : option string;
  setup_enrollmentTokenId : option string;
  setup_agentId : option string;
  setup_hostId : option string;
  setup_completedAt : option time;
  setup_createdAt : time
}.

#[export] Instance HostSetup_settable : Settable HostSetup := λ r, {|
  setup_id := setup_id r;
  setup_displayName := setup_displayName r;
  setup_createdBy := setup_createdBy r;
  setup_ticketHash := setup_ticketHash r;
  setup_ticketExpiresAt := setup_ticketExpiresAt r;
  setup_ticketConsumedAt := setup_ticketConsumedAt r;
  setup_ticketIssuedAt := setup_ticketIssuedAt r;
  setup_cancelledAt := setup_cancelledAt r;
  setup_cancelledBy := setup_cancelledBy r;
  setup_enrollmentTokenId := setup_enrollmentTokenId r;
  setup_agentId := setup_agentId r;
  setup_hostId := setup_hostId r;
  setup_completedAt := setup_completedAt r;
  setup_createdAt := setup_createdAt r |}.

(** ** The database *)

Record DB := {
  hosts : gmap string Host;
  agents : gmap string Agent;
  containers : gmap string Container;
  composeProjects : gmap string ComposeProject;
  actions : gmap string Action;
  events : gmap string Event;
  auditEntries : gmap string AuditEntry;
  stacks : gmap string Stack;
  stackRevisions : gmap string StackRevision;
  stackRevisionEnvironment : gmap string StackRevisionVariable;
  stackDeployments : gmap string StackDeployment;
  stackOperations : gmap string StackOperation;
  containerDesiredConfigs : gmap string DesiredConfig;
  containerEnvironmentVariables : gmap string ContainerVariable;
  users : gmap string User;
  recoveryCodes : gmap string RecoveryCode;
  sessions : gmap string Session;
  roles : gmap string Role;
  permissions : gmap string PermissionRow;
  rolePermissions : gmap string RolePermission;
  userRoles : gmap string UserRole;
  agentEnrollmentTokens : gmap string EnrollmentToken;
  hostSetups : gmap string HostSetup
}.

#[export] Instance DB_settable : Settable DB := λ d, {|
  hosts := hosts d;
  agents := agents d;
  containers := containers d;
  composeProjects := composeProjects d;
  actions := actions d;
  events := events d;
  auditEntries := auditEntries d;
  stacks := stacks d;
  stackRevisions := stackRevisions d;
  stackRevisionEnvironment := stackRevisionEnvironment d;
  stackDeployments := stackDeployments d;
  stackOperations := stackOperations d;
  containerDesiredConfigs := containerDesiredConfigs d;
  containerEnvironmentVariables := containerEnvironmentVariables d;
  users := users d;
  recoveryCodes := recoveryCodes d;
  sessions := sessions d;
  roles := roles d;
  permissions := permissions d;
  rolePermissions := rolePermissions d;
  userRoles := userRoles d;
  agentEnrollmentTokens := agentEnrollmentTokens d;
  hostSetups := hostSetups d |}.

(** The primary key of a link table is a pair, written as one text. *)
Fixpoint marked (m : ascii) (s : string) : string :=
  match s with
  | EmptyString => EmptyString
  | String c s' => String m (String c (marked m s'))
  end.

Definition pair_key (a b : string) : string := marked "l" a +:+ marked "r" b.

Lemma pair_key_inj a b a' b' : pair_key a b = pair_key a' b' → a = a' ∧ b = b'.
Proof.
  unfold pair_key. revert a'. induction a as [|c a IH]; intros [|c' a']; simpl; intros E.
  - split; [done|]. revert b' E. induction b as [|d b IHb]; intros [|d' b']; simpl; intros E; simplify_eq; [done|].
    f_equal. by apply IHb.
  - by destruct b; simplify_eq.
  - by destruct b'; simplify_eq.
  - injection E as -> E. destruct (IH _ E) as [-> ->]. done.
Qed.

(** What a table promises: where it is kept, how a row names itself, and the
    keys its unique indexes give a row ([None] where the row is outside a
    partial index or a key column is null). *)
Class Table (R : Type) := {
  row_id : R → string;
  rows : DB → gmap string R;
  set_rows : gmap string R → DB → DB;
  indexes : list (string * (R → option (list string)));
  rows_set t d : rows (set_rows t d) = t;
  set_rows_twice t t' d : set_rows t (set_rows t' d) = set_rows t d;
  set_rows_same d : set_rows (rows d) d = d
}.

Definition hosts_indexes : list (string * (Host → option (list string))) :=
  [].

#[export] Instance hosts_table : Table Host := {|
  row_id := host_id; rows := hosts; set_rows t d := d <| hosts := t |>;
  indexes := hosts_indexes;
  rows_set _ _ := eq_refl; set_rows_twice _ _ _ := eq_refl; set_rows_same := ltac:(by intros []) |}.

Definition agents_indexes : list (string * (Agent → option (list string))) :=
  [("agents_fingerprint_unique", λ r,
     Some [agent_certificateFingerprint r])].

#[export] Instance agents_table : Table Agent := {|
  row_id := agent_id; rows := agents; set_rows t d := d <| agents := t |>;
  indexes := agents_indexes;
  rows_set _ _ := eq_refl; set_rows_twice _ _ _ := eq_refl; set_rows_same := ltac:(by intros []) |}.

Definition containers_indexes : list (string * (Container → option (list string))) :=
  [("containers_host_docker_id_unique", λ r,
     d ← container_dockerId r; Some [container_hostId r; d]);
   ("containers_host_pending_name_unique", λ r,
     match container_dockerId r with
     | None => Some [container_hostId r; lower (container_name r)]
     | Some _ => None
     end);
   ("containers_stack_service_unique", λ r,
     s ← container_stackId r; v ← container_stackService r; Some [s; v])].

#[export] Instance containers_table : Table Container := {|
  row_id := container_id; rows := containers; set_rows t d := d <| containers := t |>;
  indexes := containers_indexes;
  rows_set _ _ := eq_refl; set_rows_twice _ _ _ := eq_refl; set_rows_same := ltac:(by intros []) |}.

Definition composeProjects_indexes : list (string * (ComposeProject → option (list string))) :=
  [("compose_host_project_unique", λ r,
     Some [project_hostId r; project_projectName r])].

#[export] Instance composeProjects_table : Table ComposeProject := {|
  row_id := project_id; rows := composeProjects; set_rows t d := d <| composeProjects := t |>;
  indexes := composeProjects_indexes;
  rows_set _ _ := eq_refl; set_rows_twice _ _ _ := eq_refl; set_rows_same := ltac:(by intros []) |}.

Definition actions_indexes : list (string * (Action → option (list string))) :=
  [].

#[export] Instance actions_table : Table Action := {|
  row_id := action_id; rows := actions; set_rows t d := d <| actions := t |>;
  indexes := actions_indexes;
  rows_set _ _ := eq_refl; set_rows_twice _ _ _ := eq_refl; set_rows_same := ltac:(by intros []) |}.

Definition events_indexes : list (string * (Event → option (list string))) :=
  [].

#[export] Instance events_table : Table Event := {|
  row_id := event_id; rows := events; set_rows t d := d <| events := t |>;
  indexes := events_indexes;
  rows_set _ _ := eq_refl; set_rows_twice _ _ _ := eq_refl; set_rows_same := ltac:(by intros []) |}.

Definition auditEntries_indexes : list (string * (AuditEntry → option (list string))) :=
  [].

#[export] Instance auditEntries_table : Table AuditEntry := {|
  row_id := audit_id; rows := auditEntries; set_rows t d := d <| auditEntries := t |>;
  indexes := auditEntries_indexes;
  rows_set _ _ := eq_refl; set_rows_twice _ _ _ := eq_refl; set_rows_same := ltac:(by intros []) |}.

Definition stacks_indexes : list (string * (Stack → option (list string))) :=
  [("stacks_host_name_unique", λ r,
     Some [stack_hostId r; stack_name r])].

#[export] Instance stacks_table : Table Stack := {|
  row_id := stack_id; rows := stacks; set_rows t d := d <| stacks := t |>;
  indexes := stacks_indexes;
  rows_set _ _ := eq_refl; set_rows_twice _ _ _ := eq_refl; set_rows_same := ltac:(by intros []) |}.

Definition stackRevisions_indexes : list (string * (StackRevision → option (list string))) :=
  [("stack_revisions_stack_number_unique", λ r,
     Some [revision_stackId r; pretty (revision_number r)])].

#[export] Instance stackRevisions_table : Table StackRevision := {|
  row_id := revision_id; rows := stackRevisions; set_rows t d := d <| stackRevisions := t |>;
  indexes := stackRevisions_indexes;
  rows_set _ _ := eq_refl; set_rows_twice _ _ _ := eq_refl; set_rows_same := ltac:(by intros []) |}.

Definition stackRevisionEnvironment_indexes : list (string * (StackRevisionVariable → option (list string))) :=
  [("stack_revision_environment_key_unique", λ r,
     Some [revenv_revisionId r; revenv_key r])].

#[export] Instance stackRevisionEnvironment_table : Table StackRevisionVariable := {|
  row_id := revenv_id; rows := stackRevisionEnvironment; set_rows t d := d <| stackRevisionEnvironment := t |>;
  indexes := stackRevisionEnvironment_indexes;
  rows_set _ _ := eq_refl; set_rows_twice _ _ _ := eq_refl; set_rows_same := ltac:(by intros []) |}.

Definition stackDeployments_indexes : list (string * (StackDeployment → option (list string))) :=
  [("stack_deployments_unresolved_unique", λ r,
     if unresolved_status (deployment_status r) then Some [deployment_stackId r] else None)].

#[export] Instance stackDeployments_table : Table StackDeployment := {|
  row_id := deployment_id; rows := stackDeployments; set_rows t d := d <| stackDeployments := t |>;
  indexes := stackDeployments_indexes;
  rows_set _ _ := eq_refl; set_rows_twice _ _ _ := eq_refl; set_rows_same := ltac:(by intros []) |}.

Definition stackOperations_indexes : list (string * (StackOperation → option (list string))) :=
  [("stack_operations_unresolved_unique", λ r,
     if unresolved_status (operation_status r) then Some [operation_stackId r] else None)].

#[export] Instance stackOperations_table : Table StackOperation := {|
  row_id := operation_id; rows := stackOperations; set_rows t d := d <| stackOperations := t |>;
  indexes := stackOperations_indexes;
  rows_set _ _ := eq_refl; set_rows_twice _ _ _ := eq_refl; set_rows_same := ltac:(by intros []) |}.

Definition containerDesiredConfigs_indexes : list (string * (DesiredConfig → option (list string))) :=
  [("container_desired_current_unique", λ r,
     if bool_decide (config_state r = "current") then Some [config_containerId r] else None);
   ("container_desired_pending_unique", λ r,
     if bool_decide (config_state r = "pending") then Some [config_containerId r] else None)].

#[export] Instance containerDesiredConfigs_table : Table DesiredConfig := {|
  row_id := config_id; rows := containerDesiredConfigs; set_rows t d := d <| containerDesiredConfigs := t |>;
  indexes := containerDesiredConfigs_indexes;
  rows_set _ _ := eq_refl; set_rows_twice _ _ _ := eq_refl; set_rows_same := ltac:(by intros []) |}.

Definition containerEnvironmentVariables_indexes : list (string * (ContainerVariable → option (list string))) :=
  [("container_environment_config_key_unique", λ r,
     Some [conenv_desiredConfigId r; conenv_key r])].

#[export] Instance containerEnvironmentVariables_table : Table ContainerVariable := {|
  row_id := conenv_id; rows := containerEnvironmentVariables; set_rows t d := d <| containerEnvironmentVariables := t |>;
  indexes := containerEnvironmentVariables_indexes;
  rows_set _ _ := eq_refl; set_rows_twice _ _ _ := eq_refl; set_rows_same := ltac:(by intros []) |}.

Definition users_indexes : list (string * (User → option (list string))) :=
  [("users_email_unique", λ r,
     Some [lower (user_email r)])].

#[export] Instance users_table : Table User := {|
  row_id := user_id; rows := users; set_rows t d := d <| users := t |>;
  indexes := users_indexes;
  rows_set _ _ := eq_refl; set_rows_twice _ _ _ := eq_refl; set_rows_same := ltac:(by intros []) |}.

Definition recoveryCodes_indexes : list (string * (RecoveryCode → option (list string))) :=
  [("recovery_codes_hash_unique", λ r,
     Some [rcode_codeHash r])].

#[export] Instance recoveryCodes_table : Table RecoveryCode := {|
  row_id := rcode_id; rows := recoveryCodes; set_rows t d := d <| recoveryCodes := t |>;
  indexes := recoveryCodes_indexes;
  rows_set _ _ := eq_refl; set_rows_twice _ _ _ := eq_refl; set_rows_same := ltac:(by intros []) |}.

Definition sessions_indexes : list (string * (Session → option (list string))) :=
  [("sessions_token_hash_unique", λ r,
     Some [session_tokenHash r])].

#[export] Instance sessions_table : Table Session := {|
  row_id := session_id; rows := sessions; set_rows t d := d <| sessions := t |>;
  indexes := sessions_indexes;
  rows_set _ _ := eq_refl; set_rows_twice _ _ _ := eq_refl; set_rows_same := ltac:(by intros []) |}.

Definition roles_indexes : list (string * (Role → option (list string))) :=
  [("roles_name_unique", λ r,
     Some [role_name r])].

#[export] Instance roles_table : Table Role := {|
  row_id := role_id; rows := roles; set_rows t d := d <| roles := t |>;
  indexes := roles_indexes;
  rows_set _ _ := eq_refl; set_rows_twice _ _ _ := eq_refl; set_rows_same := ltac:(by intros []) |}.

Definition permissions_indexes : list (string * (PermissionRow → option (list string))) :=
  [("permissions_key_unique", λ r,
     Some [permission_key r])].

#[export] Instance permissions_table : Table PermissionRow := {|
  row_id := permission_id; rows := permissions; set_rows t d := d <| permissions := t |>;
  indexes := permissions_indexes;
  rows_set _ _ := eq_refl; set_rows_twice _ _ _ := eq_refl; set_rows_same := ltac:(by intros []) |}.

Definition rolePermissions_indexes : list (string * (RolePermission → option (list string))) :=
  [].

#[export] Instance rolePermissions_table : Table RolePermission := {|
  row_id r := pair_key (grant_roleId r) (grant_permissionId r); rows := rolePermissions; set_rows t d := d <| rolePermissions := t |>;
  indexes := rolePermissions_indexes;
  rows_set _ _ := eq_refl; set_rows_twice _ _ _ := eq_refl; set_rows_same := ltac:(by intros []) |}.

Definition userRoles_indexes : list (string * (UserRole → option (list string))) :=
  [].

#[export] Instance userRoles_table : Table UserRole := {|
  row_id r := pair_key (assignment_userId r) (assignment_roleId r); rows := userRoles; set_rows t d := d <| userRoles := t |>;
  indexes := userRoles_indexes;
  rows_set _ _ := eq_refl; set_rows_twice _ _ _ := eq_refl; set_rows_same := ltac:(by intros []) |}.

Definition agentEnrollmentTokens_indexes : list (string * (EnrollmentToken → option (list string))) :=
  [("enrollment_tokens_hash_unique", λ r,
     Some [etoken_tokenHash r])].

#[export] Instance agentEnrollmentTokens_table : Table EnrollmentToken := {|
  row_id := etoken_id; rows := agentEnrollmentTokens; set_rows t d := d <| agentEnrollmentTokens := t |>;
  indexes := agentEnrollmentTokens_indexes;
  rows_set _ _ := eq_refl; set_rows_twice _ _ _ := eq_refl; set_rows_same := ltac:(by intros []) |}.

Definition hostSetups_indexes : list (string * (HostSetup → option (list string))) :=
  [("host_setups_ticket_hash_unique", λ r,
     Some [setup_ticketHash r])].

#[export] Instance hostSetups_table : Table HostSetup := {|
  row_id := setup_id; rows := hostSetups; set_rows t d := d <| hostSetups := t |>;
  indexes := hostSetups_indexes;
  rows_set _ _ := eq_refl; set_rows_twice _ _ _ := eq_refl; set_rows_same := ltac:(by intros []) |}.
