(* ===== verification/Store.v ===== *)
(** * Statements on the database

    What the SQL statements the services issue do to a [DB]: a select with a
    predicate, an insert, an update and a delete with predicates, each checked
    against the unique indexes of its table after the statement, as PostgreSQL
    does, and deletes carried along the foreign keys declared
    [onDelete: 'cascade'] in [api/src/database/schema.ts].

    Foreign keys are not checked on insert: a statement that PostgreSQL refuses
    for one is a statement that fails, which the effects of [Effects] allow at
    every statement. *)

From Stdlib Require Import Ascii String NArith ZArith.
From stdpp Require Import gmap strings list pretty.
From S2P Require Import Prelude Schema.

(** ** Unique indexes *)

Section unique.
Context {R : Type}.
Implicit Types (t : gmap string R) (key : R → option (list string)).

Definition clash key t : bool :=
  negb (bool_decide (NoDup (omap (λ p : string * R, key p.2) (map_to_list t)))).

(** No two rows of the table occupy the same key. *)
Definition unique key t : Prop := ∀ i j r s k,
  t !! i = Some r → t !! j = Some s → key r = Some k → key s = Some k → i = j.

Lemma NoDup_omap_fst key (l : list (string * R)) :
  NoDup l.*1 →
  NoDup (omap (λ p, key p.2) l) ↔
  (∀ i j r s k, (i, r) ∈ l → (j, s) ∈ l → key r = Some k → key s = Some k → i = j).
Proof.
  induction l as [|[i r] l IH]; simpl; intros Hnd.
  { split; [intros _ * H; by apply not_elem_of_nil in H|intros; constructor]. }
  apply NoDup_cons in Hnd as [Hi Hnd]. specialize (IH Hnd).
  assert (Hne : ∀ s, (i, s) ∉ l).
  { intros s Hs. apply Hi. apply list_elem_of_fmap. by exists (i, s). }
  destruct (key r) as [k|] eqn:Ek; [rewrite NoDup_cons|]; rewrite IH.
  - split.
    + intros [Hk Hall] a b x y k' Ha Hb Hx Hy.
      assert (Hk' : ∀ c z, (c, z) ∈ l → key z = Some k → False).
      { intros c z Hc Hz. apply Hk. apply list_elem_of_omap. by exists (c, z). }
      apply elem_of_cons in Ha as [Ha|Ha]; apply elem_of_cons in Hb as [Hb|Hb];
        simplify_eq; try done; try (exfalso; eapply Hk'; eauto; congruence).
      by eapply Hall.
    + intros Hall. split.
      * intros (p & Hp & Hkp)%list_elem_of_omap. destruct p as [j s]; simpl in *.
        assert (i = j) as -> by (eapply Hall; [by left|by right|done|done]).
        by apply (Hne s).
      * intros a b x y k' Ha Hb. apply Hall; by right.
  - split.
    + intros Hall a b x y k' Ha Hb Hx Hy.
      apply elem_of_cons in Ha as [Ha|Ha]; apply elem_of_cons in Hb as [Hb|Hb];
        simplify_eq; try done; by eapply Hall.
    + intros Hall a b x y k' Ha Hb. apply Hall; by right.
Qed.

Lemma clash_false key t : clash key t = false ↔ unique key t.
Proof.
  unfold clash. rewrite negb_false_iff, bool_decide_eq_true.
  rewrite NoDup_omap_fst by apply NoDup_fst_map_to_list.
  unfold unique. setoid_rewrite elem_of_map_to_list. done.
Qed.

Lemma unique_fmap key t (g : R → R) :
  unique key t → (∀ i r, t !! i = Some r → key (g r) = key r ∨ key (g r) = None) →
  unique key (g <$> t).
Proof.
  intros Hu Hg i j r s k Hi Hj Hr Hs.
  apply lookup_fmap_Some in Hi as (r0 & <- & Hi).
  apply lookup_fmap_Some in Hj as (s0 & <- & Hj).
  destruct (Hg _ _ Hi) as [E1|E1], (Hg _ _ Hj) as [E2|E2]; try congruence.
  rewrite E1 in Hr. rewrite E2 in Hs. by eapply Hu.
Qed.

(** Changing one row into a key nobody else has. *)
Lemma unique_change_one key t (g : R → R) i0 :
  unique key t →
  (∀ i r, t !! i = Some r → i ≠ i0 → g r = r) →
  (∀ r0 j s k, t !! i0 = Some r0 → t !! j = Some s → j ≠ i0 →
     key s = Some k → key (g r0) ≠ Some k) →
  unique key (g <$> t).
Proof.
  intros Hu Hg Hk i j r s k Hi Hj Hr Hs.
  apply lookup_fmap_Some in Hi as (r0 & <- & Hi).
  apply lookup_fmap_Some in Hj as (s0 & <- & Hj).
  destruct (decide (i = i0)) as [->|Hni], (decide (j = i0)) as [->|Hnj]; [done| | |].
  - exfalso. rewrite (Hg j s0) in Hs by done. by eapply Hk.
  - exfalso. rewrite (Hg i r0) in Hr by done. by eapply (Hk s0 i r0).
  - rewrite (Hg i r0) in Hr by done. rewrite (Hg j s0) in Hs by done. by eapply Hu.
Qed.

Lemma unique_insert key t i r :
  unique key t → t !! i = None →
  (∀ j s k, t !! j = Some s → key s = Some k → key r ≠ Some k) →
  unique key (<[i := r]> t).
Proof.
  intros Hu Hi Hk a b x y k Ha Hb Hx Hy.
  apply lookup_insert_Some in Ha as [[<- <-]|[? Ha]];
    apply lookup_insert_Some in Hb as [[<- <-]|[? Hb]]; try done.
  - exfalso. by apply (Hk b y k).
  - exfalso. by apply (Hk a x k).
  - by eapply Hu.
Qed.

Lemma unique_subseteq key t t' : unique key t → t' ⊆ t → unique key t'.
Proof.
  intros Hu Hs i j r s k Hi Hj Hr Hs'.
  eapply Hu; [by eapply lookup_weaken|by eapply lookup_weaken|done|done].
Qed.
End unique.

Section statements.
Context `{Table R}.
Implicit Types (t : gmap string R) (d : DB).

(** The name of a unique index two rows clash in, if any. *)
Definition violation t : option string :=
  fst <$> find_first (λ ix : string * (R → option (list string)), clash ix.2 t) indexes.

Definition well_keyed t : Prop :=
  (∀ i r, t !! i = Some r → row_id r = i) ∧
  Forall (λ ix : string * (R → option (list string)), unique ix.2 t) indexes.

Lemma violation_None t :
  violation t = None ↔
  Forall (λ ix : string * (R → option (list string)), unique ix.2 t) indexes.
Proof.
  unfold violation. rewrite fmap_None, find_first_None.
  apply Forall_iff. intros ix. apply clash_false.
Qed.

(** Every row, in the order the table is stored in. *)
Definition all_rows d : list R := (map_to_list (rows d)).*2.

Definition select_where (p : R → bool) d : list R := List.filter p (all_rows d).

Definition insert_row (r : R) d : string + DB :=
  match rows d !! row_id r with
  | Some _ => inl "primary key"
  | None =>
      let t := <[row_id r := r]> (rows d) in
      match violation t with
      | Some name => inl name
      | None => inr (set_rows t d)
      end
  end.

Definition change_rows (p : R → bool) (f : R → R) t : gmap string R :=
  (λ r, if p r then f r else r) <$> t.

Lemma lookup_change_rows p f t i :
  change_rows p f t !! i = (λ r, if p r then f r else r) <$> t !! i.
Proof. apply lookup_fmap. Qed.

(** The rows as they are after the update, for [returning]. *)
Definition update_where (p : R → bool) (f : R → R) d : string + (list R * DB) :=
  let t := change_rows p f (rows d) in
  match violation t with
  | Some name => inl name
  | None => inr (f <$> select_where p d, set_rows t d)
  end.

Lemma elem_of_select_where p d r :
  r ∈ select_where p d ↔ (∃ i, rows d !! i = Some r) ∧ p r = true.
Proof.
  unfold select_where, all_rows. rewrite elem_of_filter_bool, list_elem_of_fmap.
  split.
  - intros [([i r'] & -> & Hin%elem_of_map_to_list) Hp]. split; [by exists i|done].
  - intros [[i Hi] Hp]. split; [|done]. exists (i, r). by rewrite elem_of_map_to_list.
Qed.

Lemma select_where_nil p d :
  select_where p d = [] ↔ (∀ i r, rows d !! i = Some r → p r = false).
Proof.
  split.
  - intros E i r Hi. apply not_true_is_false. intros Hp.
    apply (not_elem_of_nil r). rewrite <-E. apply elem_of_select_where. eauto.
  - intros H0. apply elem_of_nil_inv. intros r [[i Hi] Hp]%elem_of_select_where.
    rewrite (H0 i r Hi) in Hp. done.
Qed.

Lemma select_first_None p d :
  head (select_where p d) = None ↔ (∀ i r, rows d !! i = Some r → p r = false).
Proof. rewrite <-select_where_nil. by destruct (select_where p d). Qed.

Lemma head_select_Some p d r :
  head (select_where p d) = Some r → (∃ i, rows d !! i = Some r) ∧ p r = true.
Proof.
  intros E. apply elem_of_select_where. destruct (select_where p d); simplify_eq/=. by left.
Qed.
End statements.

(** ** Deletes and their cascades *)

Definition drop_rows {R} (p : R → bool) (t : gmap string R) : gmap string R :=
  filter (λ ir : string * R, p ir.2 = false) t.

Lemma lookup_drop_rows {R} (p : R → bool) (t : gmap string R) i :
  drop_rows p t !! i = (r ← t !! i; if p r then None else Some r).
Proof.
  unfold drop_rows. destruct (t !! i) as [r|] eqn:E; simpl.
  - destruct (p r) eqn:Ep.
    + apply map_lookup_filter_None. right. intros r' Hr. simplify_eq/=. by rewrite Ep.
    + by apply map_lookup_filter_Some.
  - apply map_lookup_filter_None. by left.
Qed.

Lemma drop_rows_subseteq {R} (p : R → bool) (t : gmap string R) : drop_rows p t ⊆ t.
Proof. apply map_filter_subseteq. Qed.

Lemma drop_rows_none {R} (p : R → bool) (t : gmap string R) :
  (∀ i r, t !! i = Some r → p r = false) → drop_rows p t = t.
Proof.
  intros Hp. apply map_eq. intros i. rewrite lookup_drop_rows.
  destruct (t !! i) as [r|] eqn:E; simpl; [by rewrite (Hp i r)|done].
Qed.

(** A configuration takes its environment with it. *)
Definition delete_configs (p : DesiredConfig → bool) (d : DB) : DB :=
  let gone := config_id <$> select_where p d in
  d <| containerDesiredConfigs := drop_rows p (containerDesiredConfigs d) |>
    <| containerEnvironmentVariables :=
         drop_rows (λ v, mem (conenv_desiredConfigId v) gone) (containerEnvironmentVariables d) |>.

(** A container takes its configurations with it. *)
Definition delete_containers (p : Container → bool) (d : DB) : DB :=
  let gone := container_id <$> select_where p d in
  delete_configs (λ c, mem (config_containerId c) gone)
    (d <| containers := drop_rows p (containers d) |>).

(** A stack takes its revisions, their environments, and the deployments and
    operations of either with it; a container keeps its row and loses the stack
    ([containers_stack_id_fk] is [ON DELETE set null], in the migrations), and an
    attempt loses a revision it started from. *)
Definition delete_stacks (p : Stack → bool) (d : DB) : DB :=
  let gone := stack_id <$> select_where p d in
  let revisions := revision_id <$> select_where (λ r, mem (revision_stackId r) gone) d in
  d <| stacks := drop_rows p (stacks d) |>
    <| stackRevisions := drop_rows (λ r, mem (revision_stackId r) gone) (stackRevisions d) |>
    <| stackRevisionEnvironment :=
         drop_rows (λ v, mem (revenv_revisionId v) revisions) (stackRevisionEnvironment d) |>
    <| stackDeployments :=
         change_rows (λ r, mem (deployment_fromRevisionId r) (Some <$> revisions))
           (λ r, r <| deployment_fromRevisionId := None |>)
           (drop_rows (λ r, mem (deployment_stackId r) gone || mem (deployment_revisionId r) revisions)
             (stackDeployments d)) |>
    <| stackOperations :=
         drop_rows (λ r, mem (operation_stackId r) gone || mem (operation_revisionId r) revisions)
           (stackOperations d) |>
    <| containers :=
         change_rows (λ r, mem (container_stackId r) (Some <$> gone))
           (λ r, r <| container_stackId := None |>) (containers d) |>.

Definition delete_projects (p : ComposeProject → bool) (d : DB) : DB :=
  d <| composeProjects := drop_rows p (composeProjects d) |>.

Definition delete_agents (p : Agent → bool) (d : DB) : DB := d <| agents := drop_rows p (agents d) |>.

Definition delete_codes (p : RecoveryCode → bool) (d : DB) : DB :=
  d <| recoveryCodes := drop_rows p (recoveryCodes d) |>.

Definition delete_grants (p : RolePermission → bool) (d : DB) : DB :=
  d <| rolePermissions := drop_rows p (rolePermissions d) |>.

(** A permission takes the grants of it with it. *)
Definition delete_permissions (p : PermissionRow → bool) (d : DB) : DB :=
  let gone := permission_id <$> select_where p d in
  delete_grants (λ g, mem (grant_permissionId g) gone) (d <| permissions := drop_rows p (permissions d) |>).

(** The tables the services delete from. *)
Class Deletable (R : Type) := delete_rows : (R → bool) → DB → DB.
#[export] Instance configs_deletable : Deletable DesiredConfig := delete_configs.
#[export] Instance containers_deletable : Deletable Container := delete_containers.
#[export] Instance stacks_deletable : Deletable Stack := delete_stacks.
#[export] Instance projects_deletable : Deletable ComposeProject := delete_projects.
#[export] Instance agents_deletable : Deletable Agent := delete_agents.
#[export] Instance codes_deletable : Deletable RecoveryCode := delete_codes.
#[export] Instance grants_deletable : Deletable RolePermission := delete_grants.
#[export] Instance permissions_deletable : Deletable PermissionRow := delete_permissions.

(** ** The invariant the database itself enforces

    Every row is filed under its own id, and no unique index has two rows with
    one key.  Every statement preserves it, so every program does. *)

Definition db_ok (d : DB) : Prop :=
  well_keyed (hosts d) ∧ well_keyed (agents d) ∧ well_keyed (containers d) ∧
  well_keyed (composeProjects d) ∧ well_keyed (actions d) ∧ well_keyed (events d) ∧
  well_keyed (auditEntries d) ∧ well_keyed (stacks d) ∧ well_keyed (stackRevisions d) ∧
  well_keyed (stackRevisionEnvironment d) ∧ well_keyed (stackDeployments d) ∧
  well_keyed (stackOperations d) ∧ well_keyed (containerDesiredConfigs d) ∧
  well_keyed (containerEnvironmentVariables d) ∧
  well_keyed (users d) ∧ well_keyed (recoveryCodes d) ∧ well_keyed (sessions d) ∧ well_keyed (roles d) ∧
  well_keyed (permissions d) ∧ well_keyed (rolePermissions d) ∧ well_keyed (userRoles d) ∧
  well_keyed (agentEnrollmentTokens d) ∧ well_keyed (hostSetups d).

Class TableLaws (R : Type) `{Table R} : Prop := {
  db_ok_rows d : db_ok d → well_keyed (rows d);
  db_ok_set_rows t d : well_keyed t → db_ok d → db_ok (set_rows t d)
}.

Ltac table_laws :=
  split; [unfold db_ok; simpl; tauto|unfold db_ok; intros ? [] ?; simpl in *; tauto].

#[export] Instance hosts_laws : TableLaws Host. Proof. table_laws. Qed.
#[export] Instance agents_laws : TableLaws Agent. Proof. table_laws. Qed.
#[export] Instance containers_laws : TableLaws Container. Proof. table_laws. Qed.
#[export] Instance projects_laws : TableLaws ComposeProject. Proof. table_laws. Qed.
#[export] Instance actions_laws : TableLaws Action. Proof. table_laws. Qed.
#[export] Instance events_laws : TableLaws Event. Proof. table_laws. Qed.
#[export] Instance audit_laws : TableLaws AuditEntry. Proof. table_laws. Qed.
#[export] Instance stacks_laws : TableLaws Stack. Proof. table_laws. Qed.
#[export] Instance revisions_laws : TableLaws StackRevision. Proof. table_laws. Qed.
#[export] Instance revenv_laws : TableLaws StackRevisionVariable. Proof. table_laws. Qed.
#[export] Instance deployments_laws : TableLaws StackDeployment. Proof. table_laws. Qed.
#[export] Instance operations_laws : TableLaws StackOperation. Proof. table_laws. Qed.
#[export] Instance configs_laws : TableLaws DesiredConfig. Proof. table_laws. Qed.
#[export] Instance conenv_laws : TableLaws ContainerVariable. Proof. table_laws. Qed.
#[export] Instance users_laws : TableLaws User. Proof. table_laws. Qed.
#[export] Instance recoveryCodes_laws : TableLaws RecoveryCode. Proof. table_laws. Qed.
#[export] Instance sessions_laws : TableLaws Session. Proof. table_laws. Qed.
#[export] Instance roles_laws : TableLaws Role. Proof. table_laws. Qed.
#[export] Instance permissions_laws : TableLaws PermissionRow. Proof. table_laws. Qed.
#[export] Instance rolePermissions_laws : TableLaws RolePermission. Proof. table_laws. Qed.
#[export] Instance userRoles_laws : TableLaws UserRole. Proof. table_laws. Qed.
#[export] Instance agentEnrollmentTokens_laws : TableLaws EnrollmentToken. Proof. table_laws. Qed.
#[export] Instance hostSetups_laws : TableLaws HostSetup. Proof. table_laws. Qed.

Lemma well_keyed_drop `{Table R} (p : R → bool) t : well_keyed t → well_keyed (drop_rows p t).
Proof.
  intros [Hid Hu]. split.
  - intros i r Hi. apply Hid. by eapply lookup_weaken, drop_rows_subseteq.
  - eapply Forall_impl; [done|]. intros ix Hix. by eapply unique_subseteq, drop_rows_subseteq.
Qed.

(** Rows changed so that they stay in their unique keys or leave them. *)
Lemma well_keyed_change `{Table R} (p : R → bool) f t :
  (∀ r, row_id (f r) = row_id r) →
  (∀ r, Forall (λ ix : string * (R → option (list string)),
     ix.2 (f r) = ix.2 r ∨ ix.2 (f r) = None) indexes) →
  well_keyed t → well_keyed (change_rows p f t).
Proof.
  intros Hf Hk [Hid Hu]. split.
  - intros i s Hi. unfold change_rows in Hi. apply lookup_fmap_Some in Hi as (r & <- & Hi). apply Hid in Hi.
    by case_match; rewrite ?Hf.
  - apply Forall_forall. intros ix Hix. apply unique_fmap; [by eapply Forall_forall in Hu|].
    intros i r _. destruct (p r); [|by left]. specialize (Hk r).
    rewrite Forall_forall in Hk. by apply Hk.
Qed.

Section preservation.
Context `{TableLaws R}.

Lemma insert_row_ok (r : R) d d' : db_ok d → insert_row r d = inr d' → db_ok d'.
Proof.
  intros Hok. unfold insert_row. destruct (rows d !! row_id r) eqn:Er; [done|].
  destruct (violation _) eqn:Ev; [done|]. intros; simplify_eq.
  apply db_ok_set_rows; [|done]. split; [|by apply violation_None].
  intros i s Hi. apply lookup_insert_Some in Hi as [[<- <-]|[? Hi]]; [done|].
  by apply (db_ok_rows d Hok).
Qed.

Lemma update_where_ok (p : R → bool) f d l d' :
  (∀ r, row_id (f r) = row_id r) → db_ok d →
  update_where p f d = inr (l, d') → db_ok d'.
Proof.
  intros Hf Hok. unfold update_where.
  destruct (violation _) eqn:Ev; [done|]. intros; simplify_eq.
  apply db_ok_set_rows; [|done]. split; [|by apply violation_None].
  intros i s Hi. unfold change_rows in Hi. apply lookup_fmap_Some in Hi as (r & <- & Hi).
  destruct (db_ok_rows d Hok) as [Hid _]. apply Hid in Hi.
  by case_match; rewrite ?Hf.
Qed.

(** An update that leaves each row in its unique keys, or takes it out of
    them, is never refused. *)
Lemma update_where_runs (p : R → bool) f d :
  db_ok d →
  (∀ r, p r = true →
     Forall (λ ix : string * (R → option (list string)),
       ix.2 (f r) = ix.2 r ∨ ix.2 (f r) = None) indexes) →
  update_where p f d =
    inr (f <$> select_where p d, set_rows (change_rows p f (rows d)) d).
Proof.
  intros Hok Hf. unfold update_where.
  destruct (violation _) as [n|] eqn:Ev; [exfalso|done].
  enough (violation (change_rows p f (rows d)) = None) by congruence.
  apply violation_None, Forall_forall. intros ix Hix.
  apply unique_fmap.
  - destruct (db_ok_rows d Hok) as [_ Hu]. by eapply Forall_forall in Hu.
  - intros i r _. destruct (p r) eqn:Ep; [|by left].
    specialize (Hf r Ep). rewrite Forall_forall in Hf. by apply Hf.
Qed.
End preservation.

Class DeletableLaws (R : Type) `{Deletable R} : Prop :=
  delete_rows_ok : ∀ p d, db_ok d → db_ok (delete_rows p d).

Ltac deletable_laws :=
  intros ? ? Hok; unfold db_ok in *; simpl; split_and!; try apply well_keyed_drop; tauto.

#[export] Instance configs_deletable_laws : DeletableLaws DesiredConfig.
Proof. deletable_laws. Qed.
#[export] Instance containers_deletable_laws : DeletableLaws Container.
Proof. deletable_laws. Qed.
#[export] Instance stacks_deletable_laws : DeletableLaws Stack.
Proof.
  intros p d Hok. unfold db_ok in *. simpl. destruct_and!.
  split_and!; try apply well_keyed_drop; try done.
  - apply well_keyed_change; [done| |done].
    intros r. unfold indexes. simpl. unfold containers_indexes, stackDeployments_indexes.
    rewrite ?Forall_cons. simpl. auto 10.
  - apply well_keyed_change; [done| |by apply well_keyed_drop].
    intros r. unfold indexes. simpl. unfold containers_indexes, stackDeployments_indexes.
    rewrite ?Forall_cons. simpl. auto 10.
Qed.
#[export] Instance projects_deletable_laws : DeletableLaws ComposeProject.
Proof. deletable_laws. Qed.
#[export] Instance agents_deletable_laws : DeletableLaws Agent.
Proof. deletable_laws. Qed.
#[export] Instance codes_deletable_laws : DeletableLaws RecoveryCode.
Proof. deletable_laws. Qed.
#[export] Instance grants_deletable_laws : DeletableLaws RolePermission.
Proof. deletable_laws. Qed.
#[export] Instance permissions_deletable_laws : DeletableLaws PermissionRow.
Proof. deletable_laws. Qed.

(** A delete that matches nothing does nothing. *)
Lemma drop_rows_select_nil `{Table R} (p : R → bool) d :
  select_where p d = [] → drop_rows p (rows d) = rows d.
Proof. intros E. apply drop_rows_none. by apply select_where_nil. Qed.

Lemma drop_rows_nobody {R} (g : R → string) (t : gmap string R) :
  drop_rows (λ r, mem (g r) []) t = t.
Proof. apply drop_rows_none. intros i r _. unfold mem. by rewrite bool_decide_eq_false_2 by set_solver. Qed.

Lemma delete_configs_nil p d : select_where p d = [] → delete_configs p d = d.
Proof.
  intros E. unfold delete_configs. rewrite E. simpl. rewrite drop_rows_nobody.
  pose proof (drop_rows_select_nil p d E) as Hd. simpl in Hd. rewrite Hd. by destruct d.
Qed.

Lemma delete_containers_nil p d : select_where p d = [] → delete_containers p d = d.
Proof.
  intros E. unfold delete_containers. rewrite E. simpl.
  pose proof (drop_rows_select_nil p d E) as Hd. simpl in Hd. rewrite Hd.
  rewrite delete_configs_nil; [by destruct d|].
  apply select_where_nil. intros i r _. unfold mem. by rewrite bool_decide_eq_false_2 by set_solver.
Qed.

(** ** Deciding the invariant on a concrete database *)

Definition well_keyedb `{Table R} (t : gmap string R) : bool :=
  forallb (λ ir : string * R, bool_decide (row_id ir.2 = ir.1)) (map_to_list t) &&
  bool_decide (violation t = None).

Lemma well_keyedb_true `{Table R} (t : gmap string R) : well_keyedb t = true → well_keyed t.
Proof.
  unfold well_keyedb. intros [Hid Hv%bool_decide_eq_true]%andb_true_iff. split.
  - intros i r Hi%elem_of_map_to_list. rewrite forallb_Forall, Forall_forall in Hid.
    apply Hid in Hi. by apply bool_decide_eq_true in Hi.
  - by apply violation_None.
Qed.

Definition db_okb (d : DB) : bool :=
  well_keyedb (hosts d) && well_keyedb (agents d) && well_keyedb (containers d) &&
  well_keyedb (composeProjects d) && well_keyedb (actions d) && well_keyedb (events d) &&
  well_keyedb (auditEntries d) && well_keyedb (stacks d) && well_keyedb (stackRevisions d) &&
  well_keyedb (stackRevisionEnvironment d) && well_keyedb (stackDeployments d) &&
  well_keyedb (stackOperations d) && well_keyedb (containerDesiredConfigs d) &&
  well_keyedb (containerEnvironmentVariables d) &&
  well_keyedb (users d) && well_keyedb (recoveryCodes d) && well_keyedb (sessions d) &&
  well_keyedb (roles d) && well_keyedb (permissions d) && well_keyedb (rolePermissions d) &&
  well_keyedb (userRoles d) && well_keyedb (agentEnrollmentTokens d) && well_keyedb (hostSetups d).

Lemma db_okb_true d : db_okb d = true → db_ok d.
Proof.
  unfold db_okb, db_ok. rewrite !andb_true_iff. intros.
  destruct_and!. split_and!; by apply well_keyedb_true.
Qed.

Definition empty_db : DB := {|
  hosts := ∅; agents := ∅; containers := ∅; composeProjects := ∅; actions := ∅; events := ∅;
  auditEntries := ∅; stacks := ∅; stackRevisions := ∅; stackRevisionEnvironment := ∅;
  stackDeployments := ∅; stackOperations := ∅; containerDesiredConfigs := ∅;
  containerEnvironmentVariables := ∅; users := ∅; recoveryCodes := ∅; sessions := ∅; roles := ∅;
  permissions := ∅; rolePermissions := ∅; userRoles := ∅; agentEnrollmentTokens := ∅; hostSetups := ∅ |}.
