(* ===== verification/Registry.v ===== *)
(** * The mutation registry

    [api/src/operations/mutation-registry.ts]: the in-memory locks every
    service that changes a container or a stack takes.  [acquire] hands out a
    release closure with its own [released] flag; the closures are numbered
    here and the flags kept beside the map, so that releasing one twice, or
    after somebody else has taken the key, can be asked about. *)

From Stdlib Require Import Ascii String NArith.
From stdpp Require Import gmap strings list.
From S2P Require Import Prelude.

Record MutationRegistry := {
  (** key ↦ the operation holding it *)
  held : gmap string string;
  (** every release closure handed out: its key and its [released] flag *)
  closures : list (string * bool)
}.

#[export] Instance MutationRegistry_settable : Settable MutationRegistry := λ r, {|
  held := held r; closures := closures r |}.

Definition empty_registry : MutationRegistry := {| held := ∅; closures := [] |}.

(** [acquire(key, operation)]: refuses ([None], [ACTION_CONFLICT]) or hands out
    a closure. *)
Definition acquire (key operation : string) (r : MutationRegistry) :
    option (nat * MutationRegistry) :=
  if truthy (held r !! key) then None
  else Some (length (closures r),
    {| held := <[key := operation]> (held r);
       closures := closures r ++ [(key, false)] |}).

(** Calling the closure. *)
Definition release (h : nat) (r : MutationRegistry) : MutationRegistry :=
  match closures r !! h with
  | Some (key, false) =>
      {| held := delete key (held r); closures := <[h := (key, true)]> (closures r) |}
  | _ => r
  end.

Definition isBusy (key : string) (r : MutationRegistry) : bool :=
  bool_decide (is_Some (held r !! key)).

Definition inFlight (r : MutationRegistry) : gset string := dom (held r).

Definition nameKey (hostId name : string) : string :=
  "name:" +:+ hostId +:+ ":" +:+ lower name.

(** ** Every state the registry can be in *)

Inductive registry_step : MutationRegistry → MutationRegistry → Prop :=
  | step_acquire key operation h r r' :
      operation ≠ "" → acquire key operation r = Some (h, r') → registry_step r r'
  | step_release h r : registry_step r (release h r).

Definition registry_reachable : MutationRegistry → Prop :=
  rtc registry_step empty_registry.

(** A key is held exactly while one closure for it has not been called, and no
    two uncalled closures share a key. *)
Record registry_ok (r : MutationRegistry) : Prop := {
  held_open key : is_Some (held r !! key) ↔ ∃ h, closures r !! h = Some (key, false);
  open_once h h' key :
    closures r !! h = Some (key, false) → closures r !! h' = Some (key, false) → h = h';
  held_named key : held r !! key ≠ Some ""
}.

Lemma empty_registry_ok : registry_ok empty_registry.
Proof.
  split; simpl.
  - intros key. rewrite lookup_empty. split; [intros []%is_Some_None|intros [h Hh]; by rewrite lookup_nil in Hh].
  - intros h h' key Hh. by rewrite lookup_nil in Hh.
  - intros key. by rewrite lookup_empty.
Qed.

Lemma acquire_ok key operation h r r' :
  operation ≠ "" → registry_ok r → acquire key operation r = Some (h, r') → registry_ok r'.
Proof.
  intros Hop [Hheld Honce Hnamed]. unfold acquire.
  destruct (truthy _) eqn:Et; [done|]. intros; simplify_eq/=.
  assert (Hfree : held r !! key = None).
  { destruct (held r !! key) as [op|] eqn:E; [|done].
    exfalso. apply (Hnamed key). rewrite E. destruct op; [done|discriminate Et]. }
  assert (Hno : ∀ h, closures r !! h ≠ Some (key, false)).
  { intros h Hh. assert (is_Some (held r !! key)) as [? ?] by (apply Hheld; eauto). congruence. }
  split; simpl.
  - intros k. destruct (decide (key = k)) as [<-|Hk].
    + rewrite lookup_insert_eq. split; [|by eauto]. intros _. exists (length (closures r)).
      rewrite lookup_app_r by done. by rewrite Nat.sub_diag.
    + rewrite lookup_insert_ne, Hheld by done. split.
      * intros [h Hh]. exists h. by apply lookup_app_l_Some.
      * intros [h [Hh|[_ Hh]]%lookup_app_Some]; [eauto|].
        apply list_lookup_singleton_Some in Hh as [_ ?]. congruence.
  - intros a b k Ha Hb.
    apply lookup_app_Some in Ha as [Ha|[Hla Ha]]; apply lookup_app_Some in Hb as [Hb|[Hlb Hb]];
      try apply list_lookup_singleton_Some in Ha as [? ?];
      try apply list_lookup_singleton_Some in Hb as [? ?]; simplify_eq.
    + by eapply Honce.
    + exfalso. by eapply Hno.
    + exfalso. by eapply Hno.
    + lia.
  - intros k. destruct (decide (key = k)) as [<-|Hk].
    + rewrite lookup_insert_eq. congruence.
    + by rewrite lookup_insert_ne.
Qed.

Lemma release_ok h r : registry_ok r → registry_ok (release h r).
Proof.
  intros Hok. unfold release.
  destruct (closures r !! h) as [[key [|]]|] eqn:Eh; [done| |done].
  destruct Hok as [Hheld Honce Hnamed]. pose proof (lookup_lt_Some _ _ _ Eh) as Hlt.
  assert (Hins : ∀ a k, <[h := (key, true)]> (closures r) !! a = Some (k, false) ↔
                        a ≠ h ∧ closures r !! a = Some (k, false)).
  { intros a k. rewrite list_lookup_insert_Some. naive_solver. }
  split; simpl.
  - intros k. setoid_rewrite Hins. destruct (decide (key = k)) as [<-|Hk].
    + rewrite lookup_delete_eq. split; [intros []%is_Some_None|].
      intros (a & Ha & E). by destruct (Ha (Honce _ _ _ E Eh)).
    + rewrite lookup_delete_ne, Hheld by done. split; [|naive_solver].
      intros [a Ha]. exists a. split; [|done]. intros ->. congruence.
  - intros a b k. rewrite !Hins. intros [_ Ha] [_ Hb]. by eapply Honce.
  - intros k. rewrite lookup_delete_Some. naive_solver.
Qed.

Lemma registry_reachable_ok r : registry_reachable r → registry_ok r.
Proof.
  unfold registry_reachable. revert r. apply rtc_ind_r; [apply empty_registry_ok|].
  intros r r' _ Hstep IH. destruct Hstep; [by eapply acquire_ok|by apply release_ok].
Qed.

(** Mutual exclusion, and a stale release is harmless.  In every state the
    registry can reach: while a key's closure has not been called the key is
    busy and a second [acquire] of it is refused; once it is free [acquire]
    succeeds; and calling a closure that was called before changes nothing, so
    it cannot free a lock somebody else has taken since. *)
Theorem acquire_exclusive r key operation :
  registry_reachable r →
  (∀ h, closures r !! h = Some (key, false) →
     isBusy key r = true ∧ acquire key operation r = None) ∧
  (isBusy key r = false → is_Some (acquire key operation r)) ∧
  (∀ h, closures r !! h ≠ Some (key, false) →
     held (release h r) !! key = held r !! key) ∧
  (∀ h, release h (release h r) = release h r).
Proof.
  intros Hok%registry_reachable_ok. destruct Hok as [Hheld Honce Hnamed].
  unfold isBusy, acquire. split_and!.
  - intros h Hh. assert (Hs : is_Some (held r !! key)) by (apply Hheld; eauto).
    split; [by apply bool_decide_eq_true|]. destruct Hs as [op Eop]. rewrite Eop.
    specialize (Hnamed key). rewrite Eop in Hnamed. by destruct op.
  - intros Hfree%bool_decide_eq_false. destruct (held r !! key); [|by eexists].
    by destruct Hfree; eexists.
  - intros h Hh. unfold release. destruct (closures r !! h) as [[k [|]]|] eqn:Eh; [done| |done].
    simpl. rewrite lookup_delete_ne; [done|]. congruence.
  - intros h. unfold release. destruct (closures r !! h) as [[k [|]]|] eqn:Eh; rewrite ?Eh; [done| |done].
    simpl. rewrite list_lookup_insert_eq; [done|]. by eapply lookup_lt_Some.
Qed.

(** Two containers: one operation in flight on each, then one of them
    finishes twice while the other is still being replaced. *)
Definition example_registry : MutationRegistry :=
  {| held := {["c2" := "replace"]}; closures := [("c1", true); ("c2", false)] |}.

Lemma acquire_exclusive_witness :
  acquire "c2" "stop" example_registry = None ∧
  release 0 (release 0 example_registry) = release 0 example_registry.
Proof.
  assert (Hr : registry_reachable example_registry).
  { eapply rtc_l; [by apply (step_acquire "c1" "start" 0)|].
    eapply rtc_l; [by apply (step_acquire "c2" "replace" 1)|].
    eapply rtc_l; [apply (step_release 0)|]. vm_compute. apply rtc_refl. }
  destruct (acquire_exclusive example_registry "c2" "stop" Hr) as (H1 & _ & _ & H4).
  split; [by apply (H1 1)|apply H4].
Defined.

Lemma string_app_inj h h' x y :
  String.length h = String.length h' → h +:+ x = h' +:+ y → h = h' ∧ x = y.
Proof.
  revert h'. induction h as [|c h IH]; intros [|c' h'] Hl E; simplify_eq/=; [done|].
  destruct (IH h') as [-> ->]; [congruence|done|done].
Qed.

(** Two creates hold the same key exactly when they are for one host and names
    that differ at most in case (host ids are UUIDs, so of one length). *)
Lemma nameKey_same host host' a b :
  String.length host = String.length host' →
  nameKey host a = nameKey host' b ↔ host = host' ∧ lower a = lower b.
Proof.
  intros Hl. unfold nameKey. split; [|by intros [-> ->]].
  intros E. apply string_app_inj in E as [_ E]; [|done].
  apply string_app_inj in E as [-> E]; [|done].
  by apply string_app_inj in E as [_ ->].
Qed.
