(* ===== verification/Effects.v ===== *)
(** * Effects

    The services are asynchronous methods over a database, an in-memory lock
    registry and connected agents.  They are written here in a state and
    exception monad over a [World]:

    - a database statement may fail, and which ones do is part of the world
      ([w_faults]: one flag per statement to come, none left meaning that the
      database is healthy), so a theorem about every [World] is a theorem about
      every crash schedule;
    - an agent answers each request from a queue ([w_replies]) that nothing
      constrains, and an empty queue is an agent that never answers;
    - every request sent is logged together with the database as it was at that
      moment ([w_outbox]), so that what is written before an agent is asked can
      be stated;
    - [transaction] restores the database when its body throws
      ([Database.client.transaction]).

    Errors are values: an [AppError] keeps its code and HTTP status
    ([api/src/common/errors.ts]); its message is for people and is left out. *)

From Stdlib Require Import Ascii String NArith ZArith.
From stdpp Require Import gmap strings list pretty.
From S2P Require Import Prelude Schema Store Registry.

(** ** What agents report ([api/src/discovery/discovery.service.ts])

    A timestamp is the one [new Date] reads from the reported string, absent
    when there is none or it is not a date ([parseDate]). *)

Record HostInventory := {
  inventory_hostname : option string;
  inventory_os : option string;
  inventory_osVersion : option string;
  inventory_architecture : option string;
  inventory_kernel : option string;
  inventory_uptimeSeconds : option Z;
  inventory_cpuCount : option Z;
  inventory_cpuModel : option string;
  inventory_memoryTotalBytes : option Z;
  inventory_dockerVersion : option string;
  inventory_agentVersion : option string;
  inventory_observedAt : option time
}.

Record ContainerSummary := {
  item_dockerId : option string;
  item_name : option string;
  item_image : option string;
  item_imageId : option string;
  item_state : option string;
  item_status : option string;
  item_health : option string;
  item_createdAt : option time;
  item_labels : gmap string string
}.

Record ComposeProjectReport := {
  report_projectName : option string;
  report_status : option string;
  report_serviceCount : option Z;
  report_runningCount : option Z;
  report_services : option json
}.

(** What an agent puts in a successful reply.  [Payload_other] is an object
    without any of the fields the reader looks for. *)
Inductive Payload :=
  | Payload_inventory (i : HostInventory)
  | Payload_metrics (m : json)
  | Payload_containers (l : list ContainerSummary)
  | Payload_projects (l : list ComposeProjectReport)
  (** [container] of a [container.inspect] reply, [project] of a [compose.inspect] one *)
  | Payload_container (v : json)
  | Payload_project (v : json)
  (** [state] and [health] of the reply to a start, stop or restart *)
  | Payload_result (state health : option string)
  | Payload_other.

Inductive AgentReply :=
  | Replied (p : Payload)
  | Refused (code : string)
  | Disconnected
  | Unsent.

(** ** Exceptions *)

Inductive exn :=
  | AppError (code : string) (status : Z)
  | UniqueViolation (constraint_ : string)
  | DatabaseError
  | StaleRecovery
  | PlainError.

#[export] Instance exn_eq_dec : EqDecision exn.
Proof. solve_decision. Defined.

(** [error instanceof AppError ? error.code : undefined] *)
Definition error_code (e : exn) : option string :=
  match e with AppError code _ => Some code | _ => None end.

Definition BAD_REQUEST : Z := 400.
Definition NOT_FOUND : Z := 404.
Definition CONFLICT : Z := 409.

Record Sent := {
  sent_agent : string;
  sent_capability : string;
  sent_plan : json;
  sent_db : DB
}.

Record World := {
  w_db : DB;
  w_registry : MutationRegistry;
  (** agents with a live connection *)
  w_connected : gset string;
  w_now : time;
  (** how many UUIDs have been drawn *)
  w_seed : N;
  w_faults : list bool;
  w_replies : list AgentReply;
  w_outbox : list Sent;
  (** [DiscoveryService.inFlightResources] *)
  w_inFlight : option (gset string);
  (** [currentContext()?.requestId] *)
  w_requestId : option string
}.

#[export] Instance World_settable : Settable World := λ w, {|
  w_db := w_db w; w_registry := w_registry w; w_connected := w_connected w;
  w_now := w_now w; w_seed := w_seed w; w_faults := w_faults w;
  w_replies := w_replies w; w_outbox := w_outbox w; w_inFlight := w_inFlight w;
  w_requestId := w_requestId w |}.

(** ** The monad *)

Definition M (A : Type) : Type := World → (exn + A) * World.

#[export] Instance M_ret : MRet M := λ A a w, (inr a, w).
#[export] Instance M_bind : MBind M := λ A B f m w,
  match m w with
  | (inr a, w') => f a w'
  | (inl e, w') => (inl e, w')
  end.
#[export] Instance M_fmap : FMap M := λ A B f m w,
  match m w with
  | (inr a, w') => (inr (f a), w')
  | (inl e, w') => (inl e, w')
  end.

Definition throw {A} (e : exn) : M A := λ w, (inl e, w).
Definition conflict {A} (code : string) : M A := throw (AppError code CONFLICT).
Definition notFound {A} (code : string) : M A := throw (AppError code NOT_FOUND).

(** [try { m } catch (e) { h(e) }] *)
Definition try_catch {A} (m : M A) (h : exn → M A) : M A := λ w,
  match m w with
  | (inl e, w') => h e w'
  | r => r
  end.

(** [try { m } finally { f }] *)
Definition try_finally {A} (m : M A) (f : M unit) : M A := λ w,
  let '(r, w') := m w in
  match f w' with
  | (inr _, w'') => (r, w'')
  | (inl e, w'') => (inl e, w'')
  end.

(** [if (b) { m }] *)
Definition when (b : bool) (m : M unit) : M unit := if b then m else mret tt.

(** [for (const x of l) { f(x) }] *)
Fixpoint for_each {A} (l : list A) (f : A → M unit) : M unit :=
  match l with
  | [] => mret tt
  | x :: l' => f x;; for_each l' f
  end.

(** The same with a value the iterations pass on. *)
Fixpoint for_fold {A S} (l : list A) (s : S) (f : S → A → M S) : M S :=
  match l with
  | [] => mret s
  | x :: l' => s' ← f s x; for_fold l' s' f
  end.

Definition now : M time := λ w, (inr (w_now w), w).
Definition world : M World := λ w, (inr w, w).

(** The lowest [k] hexadecimal digits of [n]. *)
Definition hex_digit (n : N) : ascii := nth (N.to_nat n) (chars "0123456789abcdef") "0"%char.

Fixpoint hex_digits (k : nat) (n : N) : list ascii :=
  match k with
  | O => []
  | S k' => hex_digits k' (n / 16)%N ++ [hex_digit (n mod 16)%N]
  end.

(** The [n]-th UUID drawn: version 4 in shape, and different for different [n]
    below 2^48. *)
Definition uuid (n : N) : string :=
  text (chars "00000000-0000-4000-8000-" ++ hex_digits 12 n).

(** [randomUUID()], and the default of an id column. *)
Definition randomUUID : M string := λ w,
  (inr (uuid (w_seed w)), w <| w_seed := (w_seed w + 1)%N |>).

Lemma hex_digit_inj m n : (m < 16)%N → (n < 16)%N → hex_digit m = hex_digit n → m = n.
Proof.
  intros Hm Hn E.
  assert (Hd : NoDup (chars "0123456789abcdef")) by (by apply (bool_decide_unpack _)).
  assert (Hl : ∀ k, (k < 16)%N → chars "0123456789abcdef" !! N.to_nat k = Some (hex_digit k)).
  { intros k Hk. destruct (lookup_lt_is_Some_2 (chars "0123456789abcdef") (N.to_nat k)) as [c Hc];
      [simpl; lia|]. unfold hex_digit. by rewrite nth_lookup, Hc. }
  pose proof (Hl m Hm) as H. rewrite E in H.
  pose proof (NoDup_lookup _ _ _ _ Hd H (Hl n Hn)). lia.
Qed.

Lemma hex_digits_inj k m n :
  (m < 16 ^ N.of_nat k)%N → (n < 16 ^ N.of_nat k)%N → hex_digits k m = hex_digits k n → m = n.
Proof.
  revert m n. induction k as [|k IH]; intros m n Hm Hn E; [simpl in *; lia|].
  simpl in E. apply app_inj_tail in E as [E1 E2].
  assert (Hk : ∀ x, (x < 16 ^ N.of_nat (S k))%N → (x / 16 < 16 ^ N.of_nat k)%N).
  { intros x Hx. apply N.Div0.div_lt_upper_bound. rewrite Nat2N.inj_succ, N.pow_succ_r' in Hx. lia. }
  apply IH in E1; [|by apply Hk..].
  apply hex_digit_inj in E2; [|by apply N.mod_lt..].
  rewrite (N.div_mod' m 16), (N.div_mod' n 16). lia.
Qed.

Lemma uuid_inj m n : (m < 2 ^ 48)%N → (n < 2 ^ 48)%N → uuid m = uuid n → m = n.
Proof.
  intros Hm Hn E. unfold uuid in E. apply (f_equal chars) in E. rewrite !chars_text in E.
  apply app_inv_head in E. by apply (hex_digits_inj 12).
Qed.

(** ** Database statements *)

Definition next_fault (w : World) : bool := default false (head (w_faults w)).

(** One statement: it fails if its turn has come, and otherwise does [f]. *)
Definition statement {A} (f : DB → exn + (A * DB)) : M A := λ w,
  let w' := w <| w_faults := tail (w_faults w) |> in
  if next_fault w then (inl DatabaseError, w')
  else match f (w_db w) with
       | inl e => (inl e, w')
       | inr (a, d) => (inr a, w' <| w_db := d |>)
       end.

Definition select {R} `{Table R} (p : R → bool) : M (list R) :=
  statement (λ d, inr (select_where p d, d)).

(** [const [row] = await select...where(eq(id, i))] *)
Definition select_id {R} `{Table R} (i : string) : M (option R) :=
  statement (λ d, inr (rows d !! i, d)).

(** [const [row] = await select...] *)
Definition select_first {R} `{Table R} (p : R → bool) : M (option R) :=
  head <$> select p.

Definition insert_into {R} `{Table R} (r : R) : M unit :=
  statement (λ d, match insert_row r d with
                  | inl name => inl (UniqueViolation name)
                  | inr d' => inr (tt, d')
                  end).

Definition update {R} `{Table R} (p : R → bool) (f : R → R) : M (list R) :=
  statement (λ d, match update_where p f d with
                  | inl name => inl (UniqueViolation name)
                  | inr r => inr r
                  end).

(** [update(...).set(f).where(eq(id, i))] *)
Definition update_id {R} `{Table R} (i : string) (f : R → R) : M (list R) :=
  update (λ r, bool_decide (row_id r = i)) f.

Definition delete_from {R} `{Table R} `{Deletable R} (p : R → bool) : M (list R) :=
  statement (λ d, inr (select_where p d, delete_rows p d)).

(** [db.client.transaction(m)]: all of it or none of it, the commit included. *)
Definition transaction {A} (m : M A) : M A := λ w,
  let commit := a ← m; statement (λ d, inr (a, d)) in
  match commit w with
  | (inl e, w') => (inl e, w' <| w_db := w_db w |>)
  | r => r
  end.

(** ** Locks *)

(** [MutationRegistry.acquire] *)
Definition acquire_lock (key operation : string) : M nat := λ w,
  match acquire key operation (w_registry w) with
  | None => (inl (AppError "ACTION_CONFLICT" CONFLICT), w)
  | Some (h, r) => (inr h, w <| w_registry := r |>)
  end.

Definition release_lock (h : nat) : M unit := λ w,
  (inr tt, w <| w_registry := release h (w_registry w) |>).

(** [MutationRegistry.isBusy] *)
Definition busy (key : string) : M bool := λ w, (inr (isBusy key (w_registry w)), w).

(** ** Agents *)

Definition isConnected (agentId : string) : M bool := λ w,
  (inr (bool_decide (agentId ∈ w_connected w)), w).

(** [AgentDispatchService.request], from the caller's side: refused without a
    connection, sent otherwise, and settled by the agent's reply, its error, or
    the timer. *)
Definition request (agentId capability : string) (plan : json) : M Payload := λ w,
  if bool_decide (agentId ∈ w_connected w) then
    let w' := w <| w_outbox := w_outbox w ++
                    [{| sent_agent := agentId; sent_capability := capability;
                        sent_plan := plan; sent_db := w_db w |}] |>
                <| w_replies := tail (w_replies w) |> in
    match head (w_replies w) with
    | None => (inl (AppError "AGENT_REQUEST_TIMEOUT" CONFLICT), w')
    | Some (Replied p) => (inr p, w')
    | Some (Refused code) => (inl (AppError code BAD_REQUEST), w')
    | Some Disconnected => (inl (AppError "AGENT_NOT_CONNECTED" CONFLICT), w')
    | Some Unsent => (inl PlainError, w')
    end
  else (inl (AppError "AGENT_NOT_CONNECTED" CONFLICT), w).

(** ** The trail every service writes

    [AuditService.record] and [EventsService.record]; the values of both are
    identifiers and codes, and an event's message is not kept. *)

Record AuditRecord := {
  entry_action : string;
  entry_result : AuditResult;
  entry_actorUserId : option string;
  entry_actorLabel : string;
  entry_targetType : option string;
  entry_targetId : option string;
  entry_targetLabel : option string;
  entry_reasonCode : option string;
  entry_sourceIp : option string;
  entry_userAgent : option string
}.

Definition audit_record (entry : AuditRecord) : M unit :=
  id ← randomUUID;
  w ← world;
  insert_into {|
    audit_id := id;
    audit_actorUserId := entry_actorUserId entry;
    audit_actorLabel := entry_actorLabel entry;
    audit_action := entry_action entry;
    audit_targetType := entry_targetType entry;
    audit_targetId := entry_targetId entry;
    audit_targetLabel := entry_targetLabel entry;
    audit_result := entry_result entry;
    audit_reasonCode := entry_reasonCode entry;
    audit_sourceIp := entry_sourceIp entry;
    audit_userAgent := substring 0 256 <$> entry_userAgent entry;
    audit_requestId := w_requestId w;
    audit_occurredAt := w_now w |}.

Definition events_record (hostId : option string) (type : string) (severity : Severity)
    (resource : string) (correlationId : option string) : M unit :=
  id ← randomUUID;
  at_ ← now;
  insert_into {|
    event_id := id;
    event_hostId := hostId;
    event_type := type;
    event_severity := severity;
    event_resource := resource;
    event_correlationId := correlationId;
    event_occurredAt := at_ |}.

(** A world with nothing going on. *)
Definition quiet_world (d : DB) : World := {|
  w_db := d; w_registry := empty_registry; w_connected := {["agent-1"]}; w_now := 1000%Z;
  w_seed := 0; w_faults := []; w_replies := []; w_outbox := []; w_inFlight := None;
  w_requestId := None |}.
