(* ===== verification/Logic.v ===== *)
(** * Program logic

    Two ways to reason about the programs of [Effects].

    [framed R m]: whatever the faults and the replies, running [m] relates the
    world before to the world after by the preorder [R], normal and exceptional
    exits alike.  Frames compose along the control structures, so a frame for a
    whole handler follows from its statements; [frame] does it.

    Runs: [m w = (r, w')].  The [run_] lemmas compute one forward in a healthy
    database; the [_inr] lemmas and [unbind] take apart one that came back with a
    value; [bind_cases] and [framed_bind_cases] split one that may have thrown. *)

From Stdlib Require Import Ascii String NArith ZArith.
From stdpp Require Import gmap strings list pretty.
From S2P Require Import Prelude Schema Store Registry Effects.

(** ** Frames *)

Definition framed {A} (R : relation World) (m : M A) : Prop := ∀ w, R w (m w).2.

(** A relation that does not see the fault schedule, the UUID counter or a
    rolled back transaction. *)
Class Frame (R : relation World) : Prop := {
  #[global] frame_preorder :: PreOrder R;
  frame_faults w fs : R w (w <| w_faults := fs |>);
  frame_seed w n : R w (w <| w_seed := n |>);
  frame_rollback w w' : R w w' → R w (w' <| w_db := w_db w |>)
}.

Create HintDb frames.

Section frames.
Context (R : relation World) `{!Frame R}.

Lemma framed_ret {A} (a : A) : framed R (mret a).
Proof. intros w. reflexivity. Qed.

Lemma framed_throw {A} e : framed R (throw (A := A) e).
Proof. intros w. reflexivity. Qed.

Lemma framed_bind {A B} (m : M A) (f : A → M B) :
  framed R m → (∀ a, framed R (f a)) → framed R (m ≫= f).
Proof.
  intros Hm Hf w. unfold mbind, M_bind. specialize (Hm w).
  destruct (m w) as [[e|a] w']; simpl in *; [done|]. etrans; [done|apply Hf].
Qed.

Lemma framed_fmap {A B} (f : A → B) (m : M A) : framed R m → framed R (f <$> m).
Proof.
  intros Hm w. unfold fmap, M_fmap. specialize (Hm w).
  by destruct (m w) as [[e|a] w'].
Qed.

Lemma framed_try_catch {A} (m : M A) h :
  framed R m → (∀ e, framed R (h e)) → framed R (try_catch m h).
Proof.
  intros Hm Hh w. unfold try_catch. specialize (Hm w).
  destruct (m w) as [[e|a] w']; simpl in *; [|done]. etrans; [done|apply Hh].
Qed.

Lemma framed_try_finally {A} (m : M A) f :
  framed R m → framed R f → framed R (try_finally m f).
Proof.
  intros Hm Hf w. unfold try_finally. specialize (Hm w).
  destruct (m w) as [r w']; simpl in *. specialize (Hf w').
  destruct (f w') as [[e|[]] w'']; simpl in *; by etrans.
Qed.

Lemma framed_when b m : framed R m → framed R (when b m).
Proof. intros Hm. destruct b; [done|apply framed_ret]. Qed.

Lemma framed_for_each {A} (l : list A) f :
  (∀ x, framed R (f x)) → framed R (for_each l f).
Proof.
  intros Hf. induction l as [|x l IH]; simpl; [apply framed_ret|].
  apply framed_bind; [apply Hf|by intros _].
Qed.

Lemma framed_for_fold {A S} (l : list A) (s : S) f :
  (∀ s x, framed R (f s x)) → framed R (for_fold l s f).
Proof.
  intros Hf. revert s. induction l as [|x l IH]; intros s; simpl; [apply framed_ret|].
  apply framed_bind; [apply Hf|apply IH].
Qed.

Lemma framed_now : framed R now.
Proof. intros w. reflexivity. Qed.

Lemma framed_world : framed R world.
Proof. intros w. reflexivity. Qed.

Lemma framed_isConnected i : framed R (isConnected i).
Proof. intros w. reflexivity. Qed.

Lemma framed_busy key : framed R (busy key).
Proof. intros w. reflexivity. Qed.

Lemma framed_randomUUID : framed R randomUUID.
Proof. intros w. apply frame_seed. Qed.

(** A statement that reads. *)
Lemma framed_read {A} (f : DB → A) : framed R (statement (λ d, inr (f d, d))).
Proof.
  intros w. unfold statement. destruct (next_fault w); simpl; [apply frame_faults|].
  pose proof (frame_faults w (tail (w_faults w))) as H. by destruct w.
Qed.

Lemma framed_select `{Table T} p : framed R (select (R := T) p).
Proof. apply framed_read. Qed.

Lemma framed_select_id `{Table T} i : framed R (select_id (R := T) i).
Proof. apply framed_read. Qed.

Lemma framed_select_first `{Table T} p : framed R (select_first (R := T) p).
Proof. apply framed_fmap, framed_select. Qed.

Lemma framed_transaction {A} (m : M A) : framed R m → framed R (transaction m).
Proof.
  intros Hm w. unfold transaction.
  assert (Hc : framed R (a ← m; statement (λ d, inr (a, d)))).
  { apply framed_bind; [done|intros; apply framed_read]. }
  specialize (Hc w). destruct (mbind _ m w) as [[e|a] w']; simpl in *; [|done].
  by apply frame_rollback.
Qed.
End frames.

#[export] Hint Resolve framed_ret framed_throw framed_when framed_now framed_world
  framed_isConnected framed_busy framed_randomUUID framed_select framed_select_id framed_select_first
  framed_read framed_fmap framed_for_each framed_for_fold framed_transaction : frames.

(** *** Frames on the database *)

(** The database goes from [d] to a [d'] with [P d d']. *)
Definition on_db (P : relation DB) : relation World := λ w w', P (w_db w) (w_db w').

#[export] Instance on_db_frame P `{!PreOrder P} : Frame (on_db P).
Proof.
  split.
  - split; [intros w; unfold on_db; reflexivity|intros w1 w2 w3; unfold on_db; apply transitivity].
  - intros w fs. unfold on_db. simpl. reflexivity.
  - intros w n. unfold on_db. simpl. reflexivity.
  - intros w w' _. unfold on_db. simpl. reflexivity.
Qed.

Section db_frames.
Context (P : relation DB) `{!PreOrder P}.

Lemma framed_statement {A} (f : DB → exn + (A * DB)) :
  (∀ d a d', f d = inr (a, d') → P d d') → framed (on_db P) (statement f).
Proof.
  intros Hf w. unfold statement, on_db. destruct (next_fault w); simpl; [reflexivity|].
  destruct (f (w_db w)) as [e|[a d]] eqn:E; simpl; [reflexivity|by eapply Hf].
Qed.

Lemma framed_insert `{Table T} (r : T) :
  (∀ d, rows d !! row_id r = None → violation (<[row_id r := r]> (rows d)) = None →
     P d (set_rows (<[row_id r := r]> (rows d)) d)) →
  framed (on_db P) (insert_into r).
Proof.
  intros Hi. apply framed_statement. intros d a d'. unfold insert_row.
  destruct (rows d !! row_id r) eqn:E; [done|].
  destruct (violation _) eqn:Ev; intros; simplify_eq. by apply Hi.
Qed.

Lemma framed_update `{Table T} (p : T → bool) f :
  (∀ d, violation (change_rows p f (rows d)) = None →
     P d (set_rows (change_rows p f (rows d)) d)) →
  framed (on_db P) (update p f).
Proof.
  intros Hu. apply framed_statement. intros d a d'. unfold update_where.
  destruct (violation _) eqn:Ev; intros; simplify_eq. by apply Hu.
Qed.

Lemma framed_delete `{Table T} `{Deletable T} (p : T → bool) :
  (∀ d, P d (delete_rows p d)) → framed (on_db P) (delete_from p).
Proof. intros Hd. apply framed_statement. intros d a d'. intros; simplify_eq. apply Hd. Qed.

Lemma framed_request_db a c plan : framed (on_db P) (request a c plan).
Proof.
  intros w. unfold request, on_db. case_bool_decide; [|reflexivity].
  destruct (head (w_replies w)) as [[| | |]|]; simpl; reflexivity.
Qed.

Lemma framed_acquire_db k o : framed (on_db P) (acquire_lock k o).
Proof.
  intros w. unfold acquire_lock, on_db. destruct (acquire _ _ _) as [[]|]; simpl; reflexivity.
Qed.

Lemma framed_release_db h : framed (on_db P) (release_lock h).
Proof. intros w. unfold release_lock, on_db. simpl. reflexivity. Qed.
End db_frames.

#[export] Hint Resolve framed_request_db framed_acquire_db framed_release_db : frames.

(** Compose frames through a program; what is left are its writes. *)
Ltac frame_step :=
  match goal with
  | |- framed _ (mbind _ _) => apply framed_bind; [typeclasses eauto| |intros ?]
  | |- framed _ (try_catch _ _) => apply framed_try_catch; [typeclasses eauto| |intros ?]
  | |- framed _ (try_finally _ _) => apply framed_try_finally; [typeclasses eauto| |]
  | |- framed _ (transaction _) => apply framed_transaction; [typeclasses eauto|]
  | |- framed _ (when _ _) => apply framed_when; [typeclasses eauto|]
  | |- framed _ (for_each _ _) => apply framed_for_each; [typeclasses eauto|intros ?]
  | |- framed _ (for_fold _ _ _) => apply framed_for_fold; [typeclasses eauto|intros ? ?]
  | |- framed _ (fmap _ _) => apply framed_fmap
  | |- framed _ (match ?x with _ => _ end) => destruct x
  | |- framed _ (let _ := _ in _) => cbv zeta
  | |- framed _ (conflict _) => unfold conflict
  | |- framed _ (notFound _) => unfold notFound
  | |- framed _ _ => solve [eauto 4 with frames typeclass_instances]
  end.

Ltac frame := repeat frame_step.

(** *** The database invariant *)

Definition keeps_db_ok : relation DB := λ d d', db_ok d → db_ok d'.

#[export] Instance keeps_db_ok_preorder : PreOrder keeps_db_ok.
Proof. split; unfold keeps_db_ok; [by intros d|by intros d1 d2 d3; auto]. Qed.

Lemma framed_insert_ok `{TableLaws T} (r : T) : framed (on_db keeps_db_ok) (insert_into r).
Proof.
  apply framed_statement; [apply _|]. intros d a d'.
  destruct (insert_row r d) eqn:E; intros; simplify_eq. intros Hok. by eapply insert_row_ok.
Qed.

Lemma framed_update_ok `{TableLaws T} (p : T → bool) f :
  (∀ r, row_id (f r) = row_id r) → framed (on_db keeps_db_ok) (update p f).
Proof.
  intros Hf. apply framed_statement; [apply _|]. intros d l d'.
  destruct (update_where p f d) as [|[]] eqn:E; intros; simplify_eq.
  intros Hok. by eapply update_where_ok.
Qed.

Lemma framed_delete_ok `{TableLaws T} `{DeletableLaws T} (p : T → bool) :
  framed (on_db keeps_db_ok) (delete_from p).
Proof. apply framed_delete; [apply _|]. intros d Hok. by apply delete_rows_ok. Qed.

#[export] Hint Resolve framed_insert_ok framed_delete_ok : frames.
#[export] Hint Extern 2 (framed (on_db keeps_db_ok) (update _ _)) =>
  apply framed_update_ok; intros; reflexivity : frames.
#[export] Hint Extern 2 (framed (on_db keeps_db_ok) (update_id _ _)) =>
  apply framed_update_ok; intros; reflexivity : frames.

(** *** One part of the database *)

(** [π] of the database stays what it is. *)
Definition unchanged {T} (π : DB → T) : relation DB := λ d d', π d' = π d.

#[export] Instance unchanged_preorder {T} (π : DB → T) : PreOrder (unchanged π).
Proof. split; unfold unchanged; [by intros d|by intros d1 d2 d3 -> ->]. Qed.

#[export] Hint Extern 3 (framed (on_db (unchanged _)) (insert_into _)) =>
  apply framed_insert; [apply _|intros; reflexivity] : frames.
#[export] Hint Extern 3 (framed (on_db (unchanged _)) (update _ _)) =>
  apply framed_update; [apply _|intros; reflexivity] : frames.
#[export] Hint Extern 3 (framed (on_db (unchanged _)) (update_id _ _)) =>
  apply framed_update; [apply _|intros; reflexivity] : frames.
#[export] Hint Extern 3 (framed (on_db (unchanged _)) (delete_from _)) =>
  apply framed_delete; [apply _|intros; reflexivity] : frames.

(** ** Running a program

    With a healthy database a statement does what it says. *)

Definition healthy (w : World) : Prop := w_faults w = [].

Section running.
Context (w : World) (Hw : healthy w).

Lemma run_statement {A} (f : DB → exn + (A * DB)) :
  statement f w =
    match f (w_db w) with
    | inl e => (inl e, w)
    | inr (a, d) => (inr a, w <| w_db := d |>)
    end.
Proof using Hw.
  unfold healthy in Hw. destruct w; simpl in *; subst. unfold statement; simpl. by case_match.
Qed.

Lemma run_read {A} (f : DB → A) : statement (λ d, inr (f d, d)) w = (inr (f (w_db w)), w).
Proof using Hw. rewrite run_statement. by destruct w. Qed.

Lemma run_select `{Table T} (p : T → bool) :
  select p w = (inr (select_where p (w_db w)), w).
Proof using Hw. apply run_read. Qed.

Lemma run_select_id `{Table T} i : select_id (R := T) i w = (inr (rows (w_db w) !! i), w).
Proof using Hw. apply run_read. Qed.

Lemma run_select_first `{Table T} (p : T → bool) :
  select_first p w = (inr (head (select_where p (w_db w))), w).
Proof using Hw. unfold select_first, fmap, M_fmap. by rewrite run_select. Qed.

Lemma run_delete `{Table T} `{Deletable T} (p : T → bool) :
  delete_from p w = (inr (select_where p (w_db w)), w <| w_db := delete_rows p (w_db w) |>).
Proof using Hw. unfold delete_from. by rewrite run_statement. Qed.

Lemma run_insert `{Table T} (r : T) d :
  insert_row r (w_db w) = inr d → insert_into r w = (inr tt, w <| w_db := d |>).
Proof using Hw. intros E. unfold insert_into. by rewrite run_statement, E. Qed.

(** An update that keeps rows in their unique keys goes through. *)
Lemma run_update `{TableLaws T} (p : T → bool) f :
  db_ok (w_db w) →
  (∀ r, p r = true →
     Forall (λ ix : string * (T → option (list string)),
       ix.2 (f r) = ix.2 r ∨ ix.2 (f r) = None) indexes) →
  update p f w =
    (inr (f <$> select_where p (w_db w)),
     w <| w_db := set_rows (change_rows p f (rows (w_db w))) (w_db w) |>).
Proof using Hw.
  intros Hok Hf. unfold update. rewrite run_statement. by rewrite update_where_runs.
Qed.

(** A transaction whose body goes through commits what it did. *)
Lemma run_transaction {A} (m : M A) a w' :
  m w = (inr a, w') → healthy w' → transaction m w = (inr a, w').
Proof using.
  intros Hm Hw'. unfold transaction, mbind, M_bind. rewrite Hm.
  unfold statement. unfold healthy in Hw'. destruct w'; simpl in *; subst. done.
Qed.

(** One whose body throws leaves the database as it was. *)
Lemma run_transaction_throw {A} (m : M A) e w' :
  m w = (inl e, w') → transaction m w = (inl e, w' <| w_db := w_db w |>).
Proof using. intros Hm. unfold transaction, mbind, M_bind. by rewrite Hm. Qed.
End running.

Lemma run_bind {A B} (m : M A) (f : A → M B) w a w' :
  m w = (inr a, w') → (m ≫= f) w = f a w'.
Proof. intros E. unfold mbind, M_bind. by rewrite E. Qed.

Lemma run_bind_throw {A B} (m : M A) (f : A → M B) w e w' :
  m w = (inl e, w') → (m ≫= f) w = (inl e, w').
Proof. intros E. unfold mbind, M_bind. by rewrite E. Qed.

Lemma run_ret {A} (a : A) w : (mret a : M A) w = (inr a, w).
Proof. done. Qed.

(** Whatever an execution does, it gets from [w] to the world it ends in. *)
Lemma framed_run {A} R (m : M A) w r w' : framed R m → m w = (r, w') → R w w'.
Proof. intros Hm E. specialize (Hm w). by rewrite E in Hm. Qed.

(** *** Inverting a run that came back with a value *)

Lemma bind_inr {A B} (m : M A) (f : A → M B) w b w'' :
  (m ≫= f) w = (inr b, w'') → ∃ a w', m w = (inr a, w') ∧ f a w' = (inr b, w'').
Proof. unfold mbind, M_bind. destruct (m w) as [[e|a] w'] eqn:E; naive_solver. Qed.

Lemma fmap_inr {A B} (f : A → B) (m : M A) w b w' :
  (f <$> m) w = (inr b, w') → ∃ a, b = f a ∧ m w = (inr a, w').
Proof. unfold fmap, M_fmap. destruct (m w) as [[e|a] w0] eqn:E; naive_solver. Qed.

Lemma ret_inr {A} (a b : A) w w' : (mret a : M A) w = (inr b, w') → b = a ∧ w' = w.
Proof. unfold mret, M_ret. naive_solver. Qed.

Lemma throw_inr {A} e (b : A) w w' : throw e w ≠ (inr b, w').
Proof. done. Qed.

(** A read leaves everything but the fault schedule alone. *)
Definition only_faults (w w' : World) : Prop := ∃ fs, w' = w <| w_faults := fs |>.

Lemma read_inr {A} (f : DB → A) w a w' :
  statement (λ d, inr (f d, d)) w = (inr a, w') → a = f (w_db w) ∧ only_faults w w'.
Proof.
  unfold statement. destruct (next_fault w); [done|]. simpl. intros; simplify_eq.
  split; [done|]. exists (tail (w_faults w)). by destruct w.
Qed.

Lemma select_inr `{Table T} (p : T → bool) w l w' :
  select p w = (inr l, w') → l = select_where p (w_db w) ∧ only_faults w w'.
Proof. apply read_inr. Qed.

Lemma select_id_inr `{Table T} i (o : option T) w w' :
  select_id i w = (inr o, w') → o = rows (w_db w) !! i ∧ only_faults w w'.
Proof. apply read_inr. Qed.

Lemma select_first_inr `{Table T} (p : T → bool) w o w' :
  select_first p w = (inr o, w') → o = head (select_where p (w_db w)) ∧ only_faults w w'.
Proof.
  unfold select_first. intros (l & -> & E)%fmap_inr.
  apply select_inr in E as [-> ?]. done.
Qed.

#[export] Instance only_faults_preorder : PreOrder only_faults.
Proof.
  split.
  - intros w. exists (w_faults w). by destruct w.
  - intros w1 w2 w3 [fs ->] [gs ->]. by exists gs.
Qed.

(** A program that only reads. *)
Definition reads {A} (m : M A) : Prop := framed only_faults m.

Lemma reads_statement {A} (f : DB → A) : reads (statement (λ d, inr (f d, d))).
Proof.
  intros w. unfold statement. destruct (next_fault w); simpl; eexists; [done|]. by destruct w.
Qed.

Lemma reads_bind {A B} (m : M A) (f : A → M B) : reads m → (∀ a, reads (f a)) → reads (m ≫= f).
Proof.
  intros Hm Hf w. unfold mbind, M_bind. specialize (Hm w).
  destruct (m w) as [[e|a] w']; simpl in *; [done|]. etrans; [done|apply Hf].
Qed.

Lemma reads_fmap {A B} (f : A → B) (m : M A) : reads m → reads (f <$> m).
Proof.
  intros Hm w. unfold fmap, M_fmap. specialize (Hm w). by destruct (m w) as [[e|a] w'].
Qed.

Lemma reads_ret {A} (a : A) : reads (mret a).
Proof. intros w. unfold mret, M_ret. simpl. reflexivity. Qed.

Lemma reads_throw {A} e : reads (throw (A := A) e).
Proof. intros w. unfold throw. simpl. reflexivity. Qed.

Ltac reads_step :=
  match goal with
  | |- reads (mbind _ _) => apply reads_bind; [|intros ?]
  | |- reads (select _) => apply reads_statement
  | |- reads (select_id _) => apply reads_statement
  | |- reads (select_first _) => apply reads_fmap, reads_statement
  | |- reads (mret _) => apply reads_ret
  | |- reads (throw _) => apply reads_throw
  | |- reads (conflict _) => apply reads_throw
  | |- reads (notFound _) => apply reads_throw
  | |- reads now => intros ?; reflexivity
  | |- reads (match ?x with _ => _ end) => destruct x
  | |- reads (let _ := _ in _) => cbv zeta
  end.

Ltac reads := repeat reads_step.

Lemma reads_framed {A} (R : relation World) `{!Frame R} (m : M A) : reads m → framed R m.
Proof. intros Hm w. destruct (Hm w) as [fs ->]. apply frame_faults. Qed.

Lemma reads_db {A} (m : M A) w r w' : reads m → m w = (r, w') → w_db w' = w_db w.
Proof. intros Hm E. specialize (Hm w). rewrite E in Hm. simpl in Hm. by destruct Hm as [fs ->]. Qed.

(** Take a successful run apart, one statement at a time. *)
Ltac unbind :=
  repeat match goal with
  | H : mbind _ _ _ = (inr _, _) |- _ => apply bind_inr in H as (? & ? & ? & ?)
  | H : select _ _ = (inr _, _) |- _ => apply select_inr in H as [-> [? ->]]
  | H : select_id _ _ = (inr _, _) |- _ => apply select_id_inr in H as [-> [? ->]]
  | H : select_first _ _ = (inr _, _) |- _ => apply select_first_inr in H as [-> [? ->]]
  | H : mret _ _ = (inr _, _) |- _ => apply ret_inr in H as [? ?]
  | H : throw _ _ = (inr _, _) |- _ => by destruct (throw_inr _ _ _ _ H)
  | H : conflict _ _ = (inr _, _) |- _ => by destruct (throw_inr _ _ _ _ H)
  | H : notFound _ _ = (inr _, _) |- _ => by destruct (throw_inr _ _ _ _ H)
  end; simplify_eq/=.

(** *** Success does not depend on the fault schedule

    A program without handlers that came back with a value did what it does
    with a healthy database. *)

Definition heal (w : World) : World := w <| w_faults := [] |>.

Definition steady {A} (m : M A) : Prop := ∀ w a w',
  m w = (inr a, w') → m (heal w) = (inr a, heal w').

Lemma steady_ret {A} (a : A) : steady (mret a).
Proof. intros w b w' [-> ->]%ret_inr. done. Qed.

Lemma steady_throw {A} e : steady (throw (A := A) e).
Proof. intros w a w' E. done. Qed.

Lemma steady_now : steady now.
Proof. intros w a w' E. unfold now in *. by simplify_eq. Qed.

Lemma steady_statement {A} (f : DB → exn + (A * DB)) : steady (statement f).
Proof.
  intros w a w'. unfold statement. destruct (next_fault w); [done|].
  destruct w; simpl. case_match; [done|]. case_match. intros; simplify_eq. done.
Qed.

Lemma steady_bind {A B} (m : M A) (f : A → M B) :
  steady m → (∀ a, steady (f a)) → steady (m ≫= f).
Proof.
  intros Hm Hf w b w' (a & w1 & E1 & E2)%bind_inr.
  rewrite (run_bind _ _ _ _ _ (Hm _ _ _ E1)). by apply Hf.
Qed.

Lemma steady_fmap {A B} (f : A → B) (m : M A) : steady m → steady (f <$> m).
Proof.
  intros Hm w b w' (a & -> & E)%fmap_inr. unfold fmap, M_fmap. by rewrite (Hm _ _ _ E).
Qed.

Ltac steady_step :=
  match goal with
  | |- steady (mbind _ _) => apply steady_bind; [|intros ?]
  | |- steady (select _) => apply steady_statement
  | |- steady (select_id _) => apply steady_statement
  | |- steady (select_first _) => apply steady_fmap, steady_statement
  | |- steady (insert_into _) => apply steady_statement
  | |- steady (update _ _) => apply steady_statement
  | |- steady (update_id _ _) => apply steady_statement
  | |- steady (delete_from _) => apply steady_statement
  | |- steady (mret _) => apply steady_ret
  | |- steady (throw _) => apply steady_throw
  | |- steady now => apply steady_now
  | |- steady (match ?x with _ => _ end) => destruct x
  | |- steady (let _ := _ in _) => cbv zeta
  end.

Ltac steady := repeat steady_step.

Lemma transaction_inr {A} (m : M A) w a w' :
  transaction m w = (inr a, w') → ∃ w1, m w = (inr a, w1) ∧ only_faults w1 w'.
Proof.
  unfold transaction. destruct (mbind _ m w) as [[e|x] w1] eqn:E; [done|].
  intros; simplify_eq. apply bind_inr in E as (x & w2 & E1 & E2).
  apply read_inr in E2 as [-> ?]. eauto.
Qed.

Lemma transaction_inl {A} (m : M A) w e w' :
  transaction m w = (inl e, w') → w_db w' = w_db w.
Proof.
  unfold transaction. destruct (mbind _ m w) as [[e0|x] w1] eqn:E; [|done].
  intros; by simplify_eq.
Qed.

(** Inverting writes that went through. *)
Lemma update_inr `{Table T} (p : T → bool) f w l w' :
  update p f w = (inr l, w') →
  l = f <$> select_where p (w_db w) ∧
  only_faults (w <| w_db := set_rows (change_rows p f (rows (w_db w))) (w_db w) |>) w'.
Proof.
  unfold update, statement, update_where. destruct (next_fault w); [done|].
  destruct (violation _) eqn:Ev; [done|]. intros; simplify_eq/=.
  split; [done|]. eexists. by destruct w.
Qed.

Lemma delete_inr `{Table T} `{Deletable T} (p : T → bool) w l w' :
  delete_from p w = (inr l, w') →
  l = select_where p (w_db w) ∧ only_faults (w <| w_db := delete_rows p (w_db w) |>) w'.
Proof.
  unfold delete_from, statement. destruct (next_fault w); [done|].
  intros; simplify_eq/=. split; [done|]. eexists. by destruct w.
Qed.

Lemma insert_inr `{Table T} (r : T) w u w' :
  insert_into r w = (inr u, w') →
  rows (w_db w) !! row_id r = None ∧
  only_faults (w <| w_db := set_rows (<[row_id r := r]> (rows (w_db w))) (w_db w) |>) w'.
Proof.
  unfold insert_into, statement, insert_row. destruct (next_fault w); [done|].
  destruct (rows (w_db w) !! row_id r) eqn:E; [done|].
  destruct (violation _) eqn:Ev; [done|]. intros; simplify_eq/=.
  split; [done|]. eexists. by destruct w.
Qed.

Lemma now_inr w a w' : now w = (inr a, w') → a = w_now w ∧ w' = w.
Proof. unfold now. naive_solver. Qed.

(** The two ways a sequence ends. *)
Lemma bind_cases {A B} (m : M A) (f : A → M B) w r w' :
  (m ≫= f) w = (r, w') →
  (∃ e, r = inl e ∧ m w = (inl e, w')) ∨ (∃ a w1, m w = (inr a, w1) ∧ f a w1 = (r, w')).
Proof. unfold mbind, M_bind. destruct (m w) as [[e|a] w1] eqn:E; naive_solver. Qed.

(** What a transaction throws is its body's, or its commit's. *)
Lemma transaction_throws {A} (m : M A) w e w' :
  transaction m w = (inl e, w') → (∃ w1, m w = (inl e, w1)) ∨ e = DatabaseError.
Proof.
  unfold transaction. destruct ((a ← m; statement (λ d, inr (a, d))) w) as [[e0|x] w1] eqn:E; [|done].
  intros; simplify_eq. apply bind_cases in E as [(e0 & [= <-] & E)|(a & w2 & _ & E)]; [by eauto|].
  right. unfold statement in E. destruct (next_fault w2); by simplify_eq.
Qed.

(** A step of a sequence under a database frame, from a fixed start. *)
Lemma framed_bind_cases {A B} (P : relation DB) `{!PreOrder P} (m : M A) (f : A → M B) d w r w' :
  framed (on_db P) m → P d (w_db w) → (m ≫= f) w = (r, w') →
  (P d (w_db w') ∧ ∃ e, r = inl e) ∨
  (∃ a w1, m w = (inr a, w1) ∧ P d (w_db w1) ∧ f a w1 = (r, w')).
Proof.
  intros Hm Hd [(e & -> & E)|(a & w1 & E & E')]%bind_cases;
    apply (framed_run _ _ _ _ _ Hm) in E as HP; unfold on_db in HP.
  - left. split; [by etrans|by exists e].
  - right. exists a, w1. split_and!; [done|by etrans|done].
Qed.

(** ** Frames that do not see the database *)

Class OffDb (R : relation World) : Prop := {
  #[global] off_db_frame :: Frame R;
  frame_db w d : R w (w <| w_db := d |>)
}.

Section off_db.
Context (R : relation World) `{!OffDb R}.

Lemma framed_statement_off {A} (f : DB → exn + (A * DB)) : framed R (statement f).
Proof.
  intros w. unfold statement. pose proof (frame_faults w (tail (w_faults w))) as H.
  destruct (next_fault w); [exact H|]. destruct (f (w_db w)) as [e|[a d]]; [exact H|].
  etrans; [exact H|]. apply frame_db.
Qed.

Lemma framed_insert_off `{Table T} (r : T) : framed R (insert_into r).
Proof. apply framed_statement_off. Qed.

Lemma framed_update_off `{Table T} (p : T → bool) f : framed R (update p f).
Proof. apply framed_statement_off. Qed.

Lemma framed_update_id_off `{Table T} i (f : T → T) : framed R (update_id i f).
Proof. apply framed_update_off. Qed.

Lemma framed_delete_off `{Table T} `{Deletable T} (p : T → bool) : framed R (delete_from p).
Proof. apply framed_statement_off. Qed.
End off_db.

#[export] Hint Resolve framed_insert_off framed_update_off framed_update_id_off
  framed_delete_off : frames.

(** *** Locks *)

Definition same_locks : relation World := λ w w', w_registry w' = w_registry w.

#[export] Instance same_locks_off_db : OffDb same_locks.
Proof.
  unfold same_locks. repeat split; try done. by intros w1 w2 w3 -> ->.
Qed.

Lemma framed_request_locks a c plan : framed same_locks (request a c plan).
Proof.
  intros w. unfold request, same_locks. case_bool_decide; [|done].
  by destruct (head (w_replies w)) as [[| | |]|].
Qed.
#[export] Hint Resolve framed_request_locks : frames.

(** [m] leaves the keys that are held as they were. *)
Definition balanced (w w' : World) : Prop :=
  registry_ok (w_registry w) →
  registry_ok (w_registry w') ∧ held (w_registry w') = held (w_registry w).

#[export] Instance balanced_off_db : OffDb balanced.
Proof.
  split; [split|]; [split| | | |]; unfold balanced; try done.
  intros w1 w2 w3 H12 H23 Hok. destruct (H12 Hok) as [Hok2 <-]. by apply H23.
Qed.

Lemma framed_locks_balanced {A} (m : M A) : framed same_locks m → framed balanced m.
Proof. intros Hm w Hok. by rewrite (Hm w). Qed.

Lemma framed_request_balanced a c plan : framed balanced (request a c plan).
Proof. apply framed_locks_balanced, framed_request_locks. Qed.
#[export] Hint Resolve framed_request_balanced : frames.

Lemma release_acquired key operation h r r' :
  operation ≠ "" → registry_ok r → acquire key operation r = Some (h, r') →
  held (release h r') = held r.
Proof.
  intros Hop Hok. unfold acquire. destruct (truthy _) eqn:Et; [done|]. intros; simplify_eq/=.
  unfold release. simpl. rewrite lookup_app_r, Nat.sub_diag by done. simpl.
  apply delete_insert_id. destruct (held r !! key) as [op|] eqn:E; [|done].
  exfalso. apply (held_named _ Hok key). rewrite E. destruct op; [done|discriminate Et].
Qed.

(** [const release = acquire(...); try { m } finally { release() }] *)
Lemma framed_with_lock {A} key operation (m : nat → M A) :
  operation ≠ "" → (∀ h, framed same_locks (m h)) →
  framed balanced (h ← acquire_lock key operation; try_finally (m h) (release_lock h)).
Proof.
  intros Hop Hm w Hok. unfold mbind, M_bind, acquire_lock.
  destruct (acquire key operation (w_registry w)) as [[h r]|] eqn:Ea; [|done].
  set (w1 := w <| w_registry := r |>). pose proof (Hm h w1) as Hs.
  unfold try_finally, release_lock. destruct (m h w1) as [x w2]. unfold same_locks in Hs.
  simpl in *. rewrite Hs. split; [by apply release_ok, (acquire_ok key operation h (w_registry w))|].
  by apply (release_acquired key operation).
Qed.

(** *** What is sent to agents *)

(** Every request sent satisfies [P]. *)
Definition sends (P : Sent → Prop) : relation World := λ w w',
  ∃ sent, w_outbox w' = w_outbox w ++ sent ∧ Forall P sent.

#[export] Instance sends_off_db P : OffDb (sends P).
Proof.
  assert (H0 : ∀ w w', w_outbox w' = w_outbox w → sends P w w').
  { intros w w' E. exists []. by rewrite app_nil_r. }
  repeat split; intros; try by apply H0.
  - intros w. by apply H0.
  - intros w1 w2 w3 (s1 & E1 & H1) (s2 & E2 & H2). exists (s1 ++ s2).
    rewrite E2, E1, app_assoc. split; [done|]. by apply Forall_app.
  - destruct H as (s & E & Hs). by exists s.
Qed.

Lemma framed_request_sends P a c plan :
  (∀ d, P {| sent_agent := a; sent_capability := c; sent_plan := plan; sent_db := d |}) →
  framed (sends P) (request a c plan).
Proof.
  intros HP w. unfold request. case_bool_decide; [|reflexivity].
  destruct (head (w_replies w)) as [[| | |]|]; (eexists; split; [done|]); by repeat constructor.
Qed.

Lemma sends_nothing {A} (m : M A) w r w' :
  m w = (r, w') → framed (sends (λ _, False)) m → w_outbox w' = w_outbox w.
Proof.
  intros E Hm. destruct (framed_run _ _ _ _ _ Hm E) as ([|x sent] & -> & Hf).
  - by rewrite app_nil_r.
  - by inversion Hf.
Qed.

(** *** Updating one row *)

Lemma change_rows_id `{Table T} i f (t : gmap string T) :
  (∀ j r, t !! j = Some r → row_id r = j) →
  change_rows (λ r, bool_decide (row_id r = i)) f t = alter f i t.
Proof.
  intros Hid. apply map_eq. intros j. rewrite lookup_change_rows.
  destruct (t !! j) as [r|] eqn:E; simpl.
  - apply Hid in E as Hr. destruct (decide (i = j)) as [->|Hij].
    + by rewrite bool_decide_eq_true_2, lookup_alter_eq, E.
    + by rewrite bool_decide_eq_false_2, lookup_alter_ne, E by congruence.
  - destruct (decide (i = j)) as [->|Hij]; [by rewrite lookup_alter_eq, E|].
    by rewrite lookup_alter_ne.
Qed.

Lemma update_id_inr `{Table T} i (f : T → T) w l w' :
  well_keyed (rows (w_db w)) → update_id i f w = (inr l, w') →
  only_faults (w <| w_db := set_rows (alter f i (rows (w_db w))) (w_db w) |>) w'.
Proof.
  intros [Hid _] [_ Hw]%update_inr. by rewrite change_rows_id in Hw.
Qed.

(** What an altered row becomes in a field. *)
Lemma fmap_alter_via {T U} (π : T → U) (f : T → T) u i (t : gmap string T) :
  (∀ r, π (f r) = u (π r)) → π <$> alter f i t = alter u i (π <$> t).
Proof.
  intros Hf. apply map_eq. intros j. rewrite lookup_fmap.
  destruct (decide (i = j)) as [->|Hij].
  - rewrite !lookup_alter_eq, lookup_fmap. destruct (t !! j); simpl; [by rewrite Hf|done].
  - by rewrite !lookup_alter_ne, lookup_fmap.
Qed.

(** A field every altered row gets the same value in. *)
Lemma fmap_alter_const {T U} (π : T → U) (f : T → T) u i (t : gmap string T) :
  (∀ r, π (f r) = u) → π <$> alter f i t = alter (λ _, u) i (π <$> t).
Proof. intros Hf. by apply (fmap_alter_via π f (λ _, u)). Qed.

(** A field no altered row changes. *)
Lemma fmap_alter_same {T U} (π : T → U) (f : T → T) i (t : gmap string T) :
  (∀ r, π (f r) = π r) → π <$> alter f i t = π <$> t.
Proof.
  intros Hf. apply map_eq. intros j. rewrite !lookup_fmap.
  destruct (decide (i = j)) as [->|Hij].
  - rewrite lookup_alter_eq. destruct (t !! j); simpl; [by rewrite Hf|done].
  - by rewrite lookup_alter_ne.
Qed.

(** *** Neither writing nor asking *)

Definition quiet : relation World := λ w w',
  w_db w' = w_db w ∧ w_outbox w' = w_outbox w.

#[export] Instance quiet_frame : Frame quiet.
Proof.
  unfold quiet. split; [split|..]; try done; try naive_solver.
  intros w1 w2 w3 [-> ->] [-> ->]. done.
Qed.

Lemma framed_acquire_quiet k o : framed quiet (acquire_lock k o).
Proof. intros w. unfold acquire_lock, quiet. by destruct (acquire _ _ _) as [[]|]. Qed.
#[export] Hint Resolve framed_acquire_quiet : frames.

(** A step of a sequence under a frame, from a fixed start. *)
Lemma framed_step {A B} (R : relation World) `{!Frame R} (m : M A) (f : A → M B) w0 w r w' :
  framed R m → R w0 w → (m ≫= f) w = (r, w') →
  (R w0 w' ∧ ∃ e, r = inl e) ∨ (∃ a w1, m w = (inr a, w1) ∧ R w0 w1 ∧ f a w1 = (r, w')).
Proof.
  intros Hm H0 [(e & -> & E)|(a & w1 & E & E')]%bind_cases;
    apply (framed_run _ _ _ _ _ Hm) in E as HR.
  - left. split; [by etrans|by exists e].
  - right. exists a, w1. split_and!; [done|by etrans|done].
Qed.

Lemma try_finally_release {A} (m : M A) h w r w' :
  try_finally m (release_lock h) w = (r, w') → ∃ w1, m w = (r, w1) ∧ quiet w1 w'.
Proof. unfold try_finally. destruct (m w) as [x w1]. simpl. intros; simplify_eq. by exists w1. Qed.

(** [m.catch((e) => { throw f(e) })] *)
Lemma catch_rethrow {A} (m : M A) f w r w' :
  try_catch m (λ e, throw (f e)) w = (r, w') →
  (∃ e, r = inl (f e) ∧ m w = (inl e, w')) ∨ (∃ a, r = inr a ∧ m w = (inr a, w')).
Proof.
  unfold try_catch, throw. destruct (m w) as [[e|a] w1]; intros; simplify_eq; eauto.
Qed.

(** ** Shapes the services share *)

Lemma framed_via {A T U} (π : DB → T) (ρ : T → U) (m : M A) :
  framed (on_db (unchanged π)) m → framed (on_db (unchanged (λ d, ρ (π d)))) m.
Proof. intros Hm w. specialize (Hm w). unfold on_db, unchanged in *. by rewrite Hm. Qed.

(** A transaction, and then writes that [π] does not see. *)
Lemma transaction_then {A B T} (π : DB → T) (t : M A) (k : A → M B) w r w' :
  (∀ a, framed (on_db (unchanged π)) (k a)) → (transaction t ≫= k) w = (r, w') →
  (∃ e, r = inl e) ∧ π (w_db w') = π (w_db w) ∨
  ∃ a w1, t w = (inr a, w1) ∧ π (w_db w') = π (w_db w1).
Proof.
  intros Hk [(e & -> & E%transaction_inl)|(a & w1 & E & Ek)]%bind_cases.
  { left. rewrite E. eauto. }
  right. apply transaction_inr in E as (w2 & E & [fs ->]). exists a, w2.
  split; [done|]. apply (framed_run _ _ _ _ _ (Hk a)) in Ek. done.
Qed.

(** What follows a settlement only decides what the caller is told. *)
Lemma bind_exit {A B} (t : M A) (k : M B) w r w' :
  (∀ w, (k w).2 = w) → (t;; k) w = (r, w') →
  ∃ r0, t w = (r0, w') ∧ ((∃ e, r0 = inl e) → ∃ e, r = inl e).
Proof.
  intros Hk [(e & -> & E)|(a & w1 & E & Ek)]%bind_cases; [by eauto|].
  specialize (Hk w1). rewrite Ek in Hk. simpl in Hk. subst. exists (inr a). naive_solver.
Qed.

Lemma bind_throws {A B} (t : M A) (k : M B) w r w' :
  (∃ e, ∀ w, k w = (inl e, w)) → (t;; k) w = (r, w') → ∃ r0, t w = (r0, w') ∧ ∃ e, r = inl e.
Proof.
  intros [e Hk] E. destruct (bind_cases _ _ _ _ _ E) as [(e' & -> & E')|(a & w1 & E' & Ek)];
    [by eauto|]. rewrite Hk in Ek. simplify_eq. eauto.
Qed.

Lemma request_cases a c plan w r w' :
  request a c plan w = (r, w') →
  w_db w' = w_db w ∧
  (w_outbox w' = w_outbox w ∨
   w_outbox w' = w_outbox w ++
     [{| sent_agent := a; sent_capability := c; sent_plan := plan; sent_db := w_db w |}]).
Proof.
  unfold request. case_bool_decide; [|intros; simplify_eq; by auto].
  destruct (head (w_replies w)) as [[| | |]|]; intros; simplify_eq/=; by auto.
Qed.

(** Two frames at once. *)
Definition both (R S : relation World) : relation World := λ w w', R w w' ∧ S w w'.

#[export] Instance both_frame R S `{!Frame R} `{!Frame S} : Frame (both R S).
Proof.
  split; [split|..]; unfold both.
  - intros w. split; reflexivity.
  - intros w1 w2 w3 [H1 H2] [H3 H4]. split; by etrans.
  - intros w fs. split; apply frame_faults.
  - intros w n. split; apply frame_seed.
  - intros w w' [H1 H2]. split; by apply frame_rollback.
Qed.

Lemma framed_both {A} R S (m : M A) : framed R m → framed S m → framed (both R S) m.
Proof. intros HR HS w. split; [apply HR|apply HS]. Qed.

(** A loop whose frame may depend on what is iterated over. *)
Lemma framed_for_fold_in {A S} (R : relation World) `{!Frame R} (l : list A) (s : S) f :
  (∀ s x, x ∈ l → framed R (f s x)) → framed R (for_fold l s f).
Proof.
  revert s. induction l as [|x l IH]; intros s Hf; simpl; [by apply framed_ret|].
  apply framed_bind; [done| |]; [apply Hf; by left|]. intros s'. apply IH.
  intros s'' y Hy. apply Hf. by right.
Qed.
