(* ===== verification/Recovery.v ===== *)
(** * What an unfinished container mutation turned out to mean

    [api/src/containers/recovery.ts]: a pure decision from what was written
    before the agent was asked and what a discovery pass saw afterwards. *)

From Stdlib Require Import Ascii String NArith.
From stdpp Require Import gmap strings list pretty.
From S2P Require Import Prelude.

Inductive RecoveryOperation := create | replace | remove.

#[export] Instance RecoveryOperation_eq_dec : EqDecision RecoveryOperation.
Proof. solve_decision. Defined.

Inductive RecoveryDecision :=
  | promote_pending (desiredConfigId : string)
  | discard_pending (desiredConfigId : string)
  | finalize_remove
  | fail_operation (reason : string)
  | identity_conflict (reason : string)
  | needs_attention (reason : string)
  | no_action (reason : string).

#[export] Instance RecoveryDecision_eq_dec : EqDecision RecoveryDecision.
Proof. solve_decision. Defined.

(** What a container on the host says it is. *)
Record ObservedClaim := {
  claim_dockerId : string;
  claim_desiredConfigId : option string
}.

Record RecoveryInput := {
  operation : RecoveryOperation;
  currentDesiredConfigId : option string;
  pendingDesiredConfigId : option string;
  claims : list ObservedClaim;
  snapshotComplete : bool;
  recoveryEligible : bool;
  identityConflict : bool
}.

Definition classifyRecovery (input : RecoveryInput) : RecoveryDecision :=
  if negb (recoveryEligible input) then
    no_action "a mutation is still running against this container"
  else if identityConflict input then
    identity_conflict "this resource is already in conflict"
  else if (1 <? length (claims input))%nat then
    identity_conflict (pretty (N.of_nat (length (claims input))) +:+ " containers claim this resource")
  else if negb (snapshotComplete input) then
    no_action "the last discovery did not complete"
  else
    let claim := head (claims input) in
    match claim with
    | Some {| claim_desiredConfigId := None |} =>
        needs_attention "the container carries no configuration identity"
    | _ =>
        if match claim with
           | Some c =>
               bool_decide (claim_desiredConfigId c ≠ currentDesiredConfigId input) &&
               bool_decide (claim_desiredConfigId c ≠ pendingDesiredConfigId input)
           | None => false
           end
        then needs_attention "the container claims a configuration this resource does not have"
        else
          match operation input with
          | remove =>
              match claim with
              | None => finalize_remove
              | Some _ => fail_operation "the container was not removed"
              end
          | _ =>
              if negb (truthy (pendingDesiredConfigId input)) then no_action "nothing is pending"
              else
                let pending := pendingDesiredConfigId input ?? "" in
                match claim with
                | None =>
                    match operation input with
                    | create => discard_pending pending
                    | _ => needs_attention "the container is gone entirely"
                    end
                | Some c =>
                    if bool_decide (claim_desiredConfigId c = pendingDesiredConfigId input)
                    then promote_pending pending
                    else discard_pending pending
                end
          end
    end.

(** ** Specification *)

(** Nobody else is working on the resource, nothing disputes its identity, and
    the discovery saw everything: only then may absence be read. *)
Definition conclusive (input : RecoveryInput) : Prop :=
  recoveryEligible input = true ∧ identityConflict input = false ∧
  length (claims input) ≤ 1 ∧ snapshotComplete input = true.

(** Exactly one container claims the resource, and it says it runs [id]. *)
Definition observed_running (input : RecoveryInput) (id : string) : Prop :=
  ∃ docker, claims input = [{| claim_dockerId := docker; claim_desiredConfigId := Some id |}].

(** What each destructive or promoting decision means, in terms of what was
    written and what was seen. *)
Definition decision_spec (input : RecoveryInput) (d : RecoveryDecision) : Prop :=
  match d with
  | promote_pending id =>
      conclusive input ∧ operation input ≠ remove ∧ id ≠ "" ∧
      pendingDesiredConfigId input = Some id ∧ observed_running input id
  | discard_pending id =>
      conclusive input ∧ id ≠ "" ∧ pendingDesiredConfigId input = Some id ∧
      (operation input = create ∧ claims input = [] ∨
       operation input ≠ remove ∧
       ∃ c, currentDesiredConfigId input = Some c ∧ c ≠ id ∧ observed_running input c)
  | finalize_remove => conclusive input ∧ operation input = remove ∧ claims input = []
  | fail_operation _ =>
      conclusive input ∧ operation input = remove ∧
      ∃ id, observed_running input id ∧
        (currentDesiredConfigId input = Some id ∨ pendingDesiredConfigId input = Some id)
  | identity_conflict _ =>
      recoveryEligible input = true ∧
      (identityConflict input = true ∨ 2 ≤ length (claims input))
  | needs_attention _ =>
      conclusive input ∧
      ((∃ docker, claims input = [{| claim_dockerId := docker; claim_desiredConfigId := None |}]) ∨
       (∃ id, observed_running input id ∧ currentDesiredConfigId input ≠ Some id ∧
              pendingDesiredConfigId input ≠ Some id) ∨
       operation input = replace ∧ claims input = [] ∧ truthy (pendingDesiredConfigId input) = true)
  | no_action _ =>
      recoveryEligible input = false ∨
      recoveryEligible input = true ∧ identityConflict input = false ∧
        length (claims input) ≤ 1 ∧
        (snapshotComplete input = false ∨
         operation input ≠ remove ∧ truthy (pendingDesiredConfigId input) = false ∧
         (claims input = [] ∨ ∃ id, observed_running input id ∧
            (currentDesiredConfigId input = Some id ∨ pendingDesiredConfigId input = Some id)))
  end.

Lemma classifyRecovery_sound input : decision_spec input (classifyRecovery input).
Proof.
  destruct input as [op cur pend cls compl elig conf].
  unfold classifyRecovery, decision_spec, conclusive, observed_running; simpl.
  destruct elig; simpl; [|by left].
  destruct conf; simpl; [by auto|].
  destruct (Nat.ltb_spec 1 (length cls)) as [Hl|Hl]; simpl; [split; [done|right; lia]|].
  destruct compl; simpl; [|by auto 10].
  destruct cls as [|[docker [id|]] [|c' cls]]; simpl in *; try lia.
  - (* nothing claims the resource *)
    destruct op; simpl; [| |by auto 10];
      destruct pend as [[|a p]|]; simpl; naive_solver (auto with lia).
  - (* one container, with an identity *)
    destruct op, pend as [[|a p]|]; simpl; repeat case_bool_decide; simplify_eq; simpl;
      first [solve [split_and!; try done; exists id; by eauto]
            |solve [right; split_and!; try done; right; split_and!; try done;
                    right; exists id; by eauto]
            |naive_solver (auto with lia)].
  - (* one container without an identity *)
    naive_solver (auto with lia).
Qed.

(** Two decisions that agree on everything but the words. *)
Definition same_decision (a b : RecoveryDecision) : Prop :=
  match a, b with
  | promote_pending x, promote_pending y => x = y
  | discard_pending x, discard_pending y => x = y
  | finalize_remove, finalize_remove
  | fail_operation _, fail_operation _
  | identity_conflict _, identity_conflict _
  | needs_attention _, needs_attention _
  | no_action _, no_action _ => True
  | _, _ => False
  end.

Lemma same_decision_spec input a b :
  same_decision a b → decision_spec input a → decision_spec input b.
Proof. destruct a, b; simpl; naive_solver. Qed.

(** No two different decisions describe one input. *)
Lemma decision_spec_exclusive input a b :
  decision_spec input a → decision_spec input b → same_decision a b.
Proof.
  destruct input as [op cur pend cls compl elig conf].
  destruct cls as [|[docker id] [|]], a, b;
    unfold decision_spec, conclusive, observed_running; simpl; intros Ha Hb;
    destruct_and?; simplify_eq/=; try done; try lia;
    try (destruct pend as [[|]|]); simplify_eq/=; repeat case_match; simplify_eq/=;
    naive_solver (auto with lia).
Qed.

(** The classifier is exactly its specification.  For every input the
    decision taken is the one [decision_spec] describes and no other: a
    candidate is promoted only when the one container claiming the resource
    says it runs it, it is thrown away only when a complete discovery shows
    that it did not take, a removal is finished only when a complete discovery
    shows nothing left, and an incomplete discovery, a live mutation or a
    disputed identity concludes nothing. *)
Theorem classifyRecovery_spec input d :
  decision_spec input d ↔ same_decision (classifyRecovery input) d.
Proof.
  split.
  - apply decision_spec_exclusive, classifyRecovery_sound.
  - intros H. eapply same_decision_spec; [done|apply classifyRecovery_sound].
Qed.
