(* ===== verification/PendingGuard.v ===== *)
(** * What is still unfinished, according to the database

    [api/src/containers/pending-guard.ts]: the checks every operation on a
    container goes through, and [api/src/inventory/host-archive.ts]. *)

From Stdlib Require Import Ascii String NArith ZArith.
From stdpp Require Import gmap strings list pretty.
From S2P Require Import Prelude Schema Store Registry Effects Logic.

Definition UNFINISHABLE : list string :=
  ["container.create"; "container.replace"; "container.remove"].

Definition pending_config_of (containerId : string) (c : DesiredConfig) : bool :=
  bool_decide (config_containerId c = containerId) && bool_decide (config_state c = "pending").

Definition unfinished_action_of (containerId : string) (a : Action) : bool :=
  bool_decide (action_targetType a = Some "container") &&
  bool_decide (action_targetId a = Some containerId) &&
  mem (action_status a) [Action_queued; Action_running] &&
  mem (action_capability a) UNFINISHABLE.

Definition unresolved_deployment_of (stackId : string) (r : StackDeployment) : bool :=
  bool_decide (deployment_stackId r = stackId) && unresolved_status (deployment_status r).

Definition unresolved_operation_of (stackId : string) (r : StackOperation) : bool :=
  bool_decide (operation_stackId r = stackId) && unresolved_status (operation_status r).

Definition assertResolved (containerId : string) : M unit :=
  pending ← select_first (pending_config_of containerId);
  match pending with
  | Some _ => conflict "ACTION_CONFLICT"
  | None =>
      running ← select_first (unfinished_action_of containerId);
      match running with
      | Some _ => conflict "ACTION_CONFLICT"
      | None => mret tt
      end
  end.

Definition assertStackSettled (containerId : string) : M unit :=
  row ← select_id (R := Container) containerId;
  let stackId := r ← row; container_stackId r in
  if negb (truthy stackId) then mret tt
  else
    let stackId := stackId ?? "" in
    unresolved ← select_first (unresolved_deployment_of stackId);
    match unresolved with
    | Some _ => conflict "STACK_DEPLOYMENT_CONFLICT"
    | None =>
        operating ← select_first (unresolved_operation_of stackId);
        match operating with
        | Some _ => conflict "STACK_OPERATION_CONFLICT"
        | None =>
            stack ← select_id (R := Stack) stackId;
            if bool_decide (stack_status <$> stack = Some "needs_attention")
            then conflict "STACK_NEEDS_ATTENTION"
            else mret tt
        end
    end.

Definition assertOperable (containerId : string) : M unit :=
  assertResolved containerId;;
  assertStackSettled containerId;;
  conflicted ← select_id (R := Container) containerId;
  if bool_decide (is_Some (r ← conflicted; container_identityConflict r))
  then conflict "CONTAINER_IDENTITY_CONFLICT"
  else mret tt.

Definition assertNameFree (hostId name : string) : M unit :=
  taken ← select_first (λ r : Container,
    bool_decide (container_hostId r = hostId) &&
    bool_decide (lower (container_name r) = lower name));
  match taken with
  | Some _ => conflict "CONTAINER_NAME_IN_USE"
  | None => mret tt
  end.

Definition isArchived (archivedAt : option time) : bool := bool_decide (is_Some archivedAt).

Definition assertNotArchived (archivedAt : option time) : M unit :=
  if isArchived archivedAt then conflict "HOST_ARCHIVED" else mret tt.

(** ** What the guard promises *)

(** No configuration change or create/replace/remove of the container is
    waiting to be settled. *)
Definition container_resolved (d : DB) (containerId : string) : Prop :=
  (∀ i c, containerDesiredConfigs d !! i = Some c →
     config_containerId c = containerId → config_state c ≠ "pending") ∧
  (∀ i a, actions d !! i = Some a →
     action_targetType a = Some "container" → action_targetId a = Some containerId →
     action_capability a ∈ UNFINISHABLE →
     action_status a ≠ Action_queued ∧ action_status a ≠ Action_running).

(** No attempt or operation on the stack is waiting to be settled. *)
Definition stack_quiet (d : DB) (stackId : string) : Prop :=
  (∀ i r, stackDeployments d !! i = Some r → deployment_stackId r = stackId →
     unresolved_status (deployment_status r) = false) ∧
  (∀ i r, stackOperations d !! i = Some r → operation_stackId r = stackId →
     unresolved_status (operation_status r) = false).

Definition stack_settled (d : DB) (containerId : string) : Prop :=
  ∀ r stackId, containers d !! containerId = Some r →
    container_stackId r = Some stackId → stackId ≠ "" →
    stack_quiet d stackId ∧
    (∀ s, stacks d !! stackId = Some s → stack_status s ≠ "needs_attention").

Definition operable (d : DB) (containerId : string) : Prop :=
  container_resolved d containerId ∧ stack_settled d containerId ∧
  (∀ r, containers d !! containerId = Some r → container_identityConflict r = None).

Lemma pending_config_of_false id c :
  pending_config_of id c = false ↔ (config_containerId c = id → config_state c ≠ "pending").
Proof. unfold pending_config_of. repeat case_bool_decide; naive_solver. Qed.

Lemma unfinished_action_of_false id a :
  unfinished_action_of id a = false ↔
  (action_targetType a = Some "container" → action_targetId a = Some id →
   action_capability a ∈ UNFINISHABLE →
   action_status a ≠ Action_queued ∧ action_status a ≠ Action_running).
Proof.
  unfold unfinished_action_of, mem.
  assert (Hs : action_status a ∈ [Action_queued; Action_running] ↔
    action_status a = Action_queued ∨ action_status a = Action_running) by set_solver.
  repeat case_bool_decide; simpl; naive_solver.
Qed.

Lemma unresolved_deployment_of_false id r :
  unresolved_deployment_of id r = false ↔
  (deployment_stackId r = id → unresolved_status (deployment_status r) = false).
Proof. unfold unresolved_deployment_of. case_bool_decide; naive_solver. Qed.

Lemma unresolved_operation_of_false id r :
  unresolved_operation_of id r = false ↔
  (operation_stackId r = id → unresolved_status (operation_status r) = false).
Proof. unfold unresolved_operation_of. case_bool_decide; naive_solver. Qed.

Lemma assertResolved_reads id : reads (assertResolved id).
Proof. unfold assertResolved. reads. Qed.

Lemma assertStackSettled_reads id : reads (assertStackSettled id).
Proof. unfold assertStackSettled. reads. Qed.

Lemma assertOperable_reads id : reads (assertOperable id).
Proof.
  unfold assertOperable. reads; [apply assertResolved_reads|apply assertStackSettled_reads].
Qed.

Lemma assertResolved_inr id w w' :
  assertResolved id w = (inr tt, w') → container_resolved (w_db w) id.
Proof.
  unfold assertResolved. intros E. unbind. case_match eqn:E1; unbind. case_match eqn:E2; unbind.
  rewrite select_first_None in E1. rewrite select_first_None in E2. split.
  - intros i c Hi. by apply pending_config_of_false, (E1 i).
  - intros i a Hi. by apply unfinished_action_of_false, (E2 i).
Qed.

Lemma assertStackSettled_inr id w w' :
  assertStackSettled id w = (inr tt, w') → stack_settled (w_db w) id.
Proof.
  unfold assertStackSettled. intros E. unbind.
  intros r stackId Hr Hs Hne. simpl in *. rewrite Hr in *. simpl in *. rewrite Hs in *.
  destruct stackId as [|a s]; [done|]. simpl in *. unbind.
  case_match eqn:E1; unbind. case_match eqn:E2; unbind. case_bool_decide as E3; unbind.
  rewrite select_first_None in E1. rewrite select_first_None in E2. split; [split|].
  - intros i d Hi. by apply unresolved_deployment_of_false, (E1 i).
  - intros i o Hi. by apply unresolved_operation_of_false, (E2 i).
  - intros st Hst Hn. apply E3. rewrite Hst. simpl. by rewrite Hn.
Qed.

(** With a healthy database the checks answer, one code per reason. *)
Section run.
Context (w : World) (Hw : healthy w).

Lemma assertResolved_run id :
  assertResolved id w = (inr tt, w) ∨
  assertResolved id w = (inl (AppError "ACTION_CONFLICT" CONFLICT), w) ∧
    ¬ container_resolved (w_db w) id.
Proof using Hw.
  unfold assertResolved. rewrite (run_bind _ _ _ _ _ (run_select_first w Hw _)).
  destruct (head _) as [c|] eqn:E1.
  - right. split; [done|]. intros [H _].
    apply head_select_Some in E1 as [[i Hi] Hp]. simpl in Hi.
    by rewrite (proj2 (pending_config_of_false id c) (H i _ Hi)) in Hp.
  - rewrite (run_bind _ _ _ _ _ (run_select_first w Hw _)).
    destruct (head (select_where (unfinished_action_of id) _)) as [a|] eqn:E2; [|by left].
    right. split; [done|]. intros [_ H].
    apply head_select_Some in E2 as [[i Hi] Hp]. simpl in Hi.
    by rewrite (proj2 (unfinished_action_of_false id a) (H i _ Hi)) in Hp.
Qed.

Lemma assertStackSettled_run id :
  assertStackSettled id w = (inr tt, w) ∨
  ∃ code, assertStackSettled id w = (inl (AppError code CONFLICT), w) ∧
    code ∈ ["STACK_DEPLOYMENT_CONFLICT"; "STACK_OPERATION_CONFLICT"; "STACK_NEEDS_ATTENTION"] ∧
    ¬ stack_settled (w_db w) id.
Proof using Hw.
  unfold assertStackSettled. rewrite (run_bind _ _ _ _ _ (run_select_id w Hw id)).
  destruct (truthy _) eqn:Et; [|by left].
  apply truthy_Some in Et as (stackId & Er & Hne). rewrite Er. simpl.
  apply bind_Some in Er as (r & Er & Es).
  rewrite (run_bind _ _ _ _ _ (run_select_first w Hw _)).
  destruct (head _) as [x|] eqn:E1.
  { right. eexists. split_and!; [done|set_solver|]. intros Hs.
    destruct (Hs r stackId Er Es Hne) as [[H _] _].
    apply head_select_Some in E1 as [[i Hi] Hp]. by rewrite (proj2 (unresolved_deployment_of_false stackId x) (H i _ Hi)) in Hp. }
  rewrite (run_bind _ _ _ _ _ (run_select_first w Hw _)).
  destruct (head (select_where (unresolved_operation_of stackId) _)) as [x|] eqn:E2.
  { right. eexists. split_and!; [done|set_solver|]. intros Hs.
    destruct (Hs r stackId Er Es Hne) as [[_ H] _].
    apply head_select_Some in E2 as [[i Hi] Hp]. by rewrite (proj2 (unresolved_operation_of_false stackId x) (H i _ Hi)) in Hp. }
  rewrite (run_bind _ _ _ _ _ (run_select_id w Hw stackId)).
  case_bool_decide as E3; [|by left].
  right. eexists. split_and!; [done|set_solver|]. intros Hs.
  destruct (Hs r stackId Er Es Hne) as [_ H].
  apply fmap_Some in E3 as (s & Hst & Hn). by apply (H s).
Qed.

Lemma assertOperable_run id :
  assertOperable id w = (inr tt, w) ∨
  ∃ code, assertOperable id w = (inl (AppError code CONFLICT), w) ∧
    code ∈ ["ACTION_CONFLICT"; "STACK_DEPLOYMENT_CONFLICT"; "STACK_OPERATION_CONFLICT";
            "STACK_NEEDS_ATTENTION"; "CONTAINER_IDENTITY_CONFLICT"] ∧
    ¬ operable (w_db w) id.
Proof using Hw.
  unfold assertOperable.
  destruct (assertResolved_run id) as [E|[E Hn]].
  2:{ right. eexists. rewrite (run_bind_throw _ _ _ _ _ E).
      split_and!; [done|set_solver|unfold operable; naive_solver]. }
  rewrite (run_bind _ _ _ _ _ E).
  destruct (assertStackSettled_run id) as [E'|(code & E' & Hc & Hn)].
  2:{ right. exists code. rewrite (run_bind_throw _ _ _ _ _ E').
      split_and!; [done|set_solver|unfold operable; naive_solver]. }
  rewrite (run_bind _ _ _ _ _ E'), (run_bind _ _ _ _ _ (run_select_id w Hw id)).
  case_bool_decide as Ec; [|by left].
  right. eexists. split_and!; [done|set_solver|].
  destruct Ec as [x (r & Hr & Hx)%bind_Some]. intros (_ & _ & H).
  specialize (H r Hr). congruence.
Qed.
End run.

(** The guard lets an operation through exactly when the container is
    operable.  It writes nothing.  Whatever statements fail, coming back
    without an exception means no change to the container, no attempt or
    operation on its stack and no identity conflict is outstanding; and with a
    healthy database it comes back whenever that is so, and otherwise refuses
    with one of the five conflict codes. *)
Theorem assertOperable_spec w id :
  w_db (assertOperable id w).2 = w_db w ∧
  ((assertOperable id w).1 = inr tt → operable (w_db w) id) ∧
  (healthy w →
     (assertOperable id w = (inr tt, w) ↔ operable (w_db w) id) ∧
     (¬ operable (w_db w) id → ∃ code,
        assertOperable id w = (inl (AppError code CONFLICT), w) ∧
        code ∈ ["ACTION_CONFLICT"; "STACK_DEPLOYMENT_CONFLICT"; "STACK_OPERATION_CONFLICT";
                "STACK_NEEDS_ATTENTION"; "CONTAINER_IDENTITY_CONFLICT"])).
Proof.
  assert (Hsound : (assertOperable id w).1 = inr tt → operable (w_db w) id).
  { destruct (assertOperable id w) as [r w'] eqn:E. simpl. intros ->.
    revert E. unfold assertOperable. intros E. unbind.
    rename select (assertResolved _ _ = _) into E1.
    rename select (assertStackSettled _ _ = _) into E2.
    destruct x, x1. case_bool_decide as Ec; unbind.
    pose proof (reads_db _ _ _ _ (assertResolved_reads id) E1) as D1.
    pose proof (reads_db _ _ _ _ (assertStackSettled_reads id) E2) as D2.
    apply assertResolved_inr in E1. apply assertStackSettled_inr in E2. rewrite D1 in *.
    split_and!; [done|done|]. intros r Hr. destruct (container_identityConflict r) eqn:Er; [|done].
    destruct Ec. rewrite D2, Hr. simpl. rewrite Er. eauto. }
  split_and!; [|done|].
  - destruct (assertOperable id w) as [r w'] eqn:E.
    by apply (reads_db _ _ _ _ (assertOperable_reads id) E).
  - intros Hw. destruct (assertOperable_run w Hw id) as [E|(code & E & Hc & Hn)].
    + rewrite E in *. naive_solver.
    + rewrite E in *. split; [|by eauto]. naive_solver.
Qed.
