(* ===== verification/RecoveryFinalizer.v ===== *)
(** * Writing down what an interrupted mutation turned out to mean

    [api/src/containers/recovery-finalizer.ts]: the half of container recovery
    that touches the database.  A row lock taken with [FOR UPDATE] is the read
    that precedes the write here: the model runs one transaction at a time,
    which is what the lock makes of two that meet on one row. *)

From Stdlib Require Import Ascii String NArith ZArith.
From stdpp Require Import gmap strings list pretty.
From S2P Require Import Prelude Schema Store Registry Effects Logic Recovery.

Record RecoveryContext := {
  ctx_containerId : string;
  ctx_containerName : string;
  ctx_hostId : string;
  ctx_operation : RecoveryOperation;
  ctx_actionId : option string;
  ctx_observedDockerIds : option (list string)
}.

Record Outcome := {
  outcome_action : string;
  outcome_result : AuditResult;
  outcome_reasonCode : option string
}.

Definition open_action (id : string) (a : Action) : bool :=
  bool_decide (action_id a = id) && mem (action_status a) [Action_queued; Action_running].

Definition pending_config (id : string) (c : DesiredConfig) : bool :=
  bool_decide (config_id c = id) && bool_decide (config_state c = "pending").

Definition claim (context : RecoveryContext) (desiredConfigId : option string) : M bool :=
  if truthy (ctx_actionId context) then
    claimed ← select (open_action (ctx_actionId context ?? ""));
    mret (bool_decide (0 < length claimed))
  else if negb (truthy desiredConfigId) then mret false
  else
    claimed ← select (λ c, pending_config (desiredConfigId ?? "") c &&
                           bool_decide (config_actionId c = None));
    mret (bool_decide (0 < length claimed)).

(** A column set to [undefined] is left as it is. *)
Definition finish (status : ActionStatus) (errorCode : option string) (at_ : time) (a : Action) :
    Action :=
  match errorCode with
  | Some code =>
      a <| action_status := status |> <| action_completedAt := Some at_ |>
        <| action_errorCode := Some code |>
  | None => a <| action_status := status |> <| action_completedAt := Some at_ |>
  end.

Definition finishAction (context : RecoveryContext) (status : ActionStatus)
    (errorCode : option string) : M unit :=
  if negb (truthy (ctx_actionId context)) then mret tt
  else
    at_ ← now;
    update_id (R := Action) (ctx_actionId context ?? "") (finish status errorCode at_);;
    mret tt.

Definition promote (context : RecoveryContext) (desiredConfigId : string) : M (option Outcome) :=
  claimed ← claim context (Some desiredConfigId);
  if negb claimed then mret None
  else
    delete_from (λ c : DesiredConfig,
      bool_decide (config_containerId c = ctx_containerId context) &&
      bool_decide (config_state c = "current"));;
    promoted ← update (pending_config desiredConfigId)
      (λ c, c <| config_state := "current" |> <| config_actionId := None |>);
    if bool_decide (promoted = []) then throw StaleRecovery
    else
      finishAction context Action_succeeded None;;
      mret (Some {| outcome_action := "container.recovery.promoted";
                    outcome_result := Audit_success; outcome_reasonCode := None |}).

Definition discard (context : RecoveryContext) (desiredConfigId : string) : M (option Outcome) :=
  claimed ← claim context (Some desiredConfigId);
  if negb claimed then mret None
  else if bool_decide (ctx_operation context = create) then
    released ← delete_from (λ r : Container,
      bool_decide (container_id r = ctx_containerId context) &&
      bool_decide (container_dockerId r = None));
    match head released with
    | None => mret None
    | Some _ =>
        finishAction context Action_failed (Some "CONTAINER_CREATE_FAILED");;
        mret (Some {| outcome_action := "container.recovery.discarded";
                      outcome_result := Audit_failure; outcome_reasonCode := None |})
    end
  else
    discarded ← delete_from (pending_config desiredConfigId);
    if bool_decide (discarded = []) then mret None
    else
      finishAction context Action_failed (Some "REPLACEMENT_FAILED");;
      mret (Some {| outcome_action := "container.recovery.discarded";
                    outcome_result := Audit_failure; outcome_reasonCode := None |}).

Definition finalizeRemove (context : RecoveryContext) : M (option Outcome) :=
  claimed ← claim context None;
  if negb claimed then mret None
  else
    delete_from (λ r : Container, bool_decide (container_id r = ctx_containerId context));;
    finishAction context Action_succeeded None;;
    mret (Some {| outcome_action := "container.recovery.removed";
                  outcome_result := Audit_success; outcome_reasonCode := None |}).

Definition failOperation (context : RecoveryContext) : M (option Outcome) :=
  claimed ← claim context None;
  if negb claimed then mret None
  else
    finishAction context Action_failed (Some "CONTAINER_REMOVE_FAILED");;
    mret (Some {| outcome_action := "container.recovery.failed";
                  outcome_result := Audit_failure; outcome_reasonCode := None |}).

Definition record_conflict (context : RecoveryContext) : M (option Outcome) :=
  claimed ← claim context None;
  if negb claimed then mret None
  else
    at_ ← now;
    update_id (R := Container) (ctx_containerId context)
      (λ r, r <| container_identityConflict := Some
        {| conflict_dockerIds := ctx_observedDockerIds context ?? [];
           conflict_observedAt := at_ |} |>);;
    finishAction context Action_failed (Some "CONTAINER_IDENTITY_CONFLICT");;
    mret (Some {| outcome_action := "container.recovery.conflicted";
                  outcome_result := Audit_failure;
                  outcome_reasonCode := Some "CONTAINER_IDENTITY_CONFLICT" |}).

Definition needsAttention (context : RecoveryContext) : M (option Outcome) :=
  claimed ← claim context None;
  if negb claimed then mret None
  else
    finishAction context Action_failed (Some "CONTAINER_STATE_UNRESOLVED");;
    mret (Some {| outcome_action := "container.recovery.needs_attention";
                  outcome_result := Audit_failure;
                  outcome_reasonCode := Some "CONTAINER_STATE_UNRESOLVED" |}).

Definition apply_decision (context : RecoveryContext) (decision : RecoveryDecision) :
    M (option Outcome) :=
  match decision with
  | promote_pending id => promote context id
  | discard_pending id => discard context id
  | finalize_remove => finalizeRemove context
  | fail_operation _ => failOperation context
  | identity_conflict _ => record_conflict context
  | needs_attention _ => needsAttention context
  | no_action _ => mret None
  end.

Definition finalize (context : RecoveryContext) (decision : RecoveryDecision) : M bool :=
  match decision with
  | no_action _ => mret false
  | _ =>
      outcome ← try_catch (transaction (apply_decision context decision))
        (λ error, if bool_decide (error = StaleRecovery) then mret None else throw error);
      match outcome with
      | None => mret false
      | Some outcome =>
          audit_record {|
            entry_action := outcome_action outcome;
            entry_result := outcome_result outcome;
            entry_actorUserId := None;
            entry_actorLabel := "container-recovery";
            entry_targetType := Some "container";
            entry_targetId := Some (ctx_containerId context);
            entry_targetLabel := Some (ctx_containerName context);
            entry_reasonCode :=
              match ctx_actionId context with
              | Some a => Some a
              | None => outcome_reasonCode outcome
              end;
            entry_sourceIp := None;
            entry_userAgent := None |};;
          mret true
      end
  end.

(** ** Lemmas *)

Lemma claim_reads context o : reads (claim context o).
Proof. unfold claim. reads. Qed.

Lemma apply_decision_steady context decision : steady (apply_decision context decision).
Proof.
  destruct decision; simpl; unfold promote, discard, finalizeRemove, failOperation,
    record_conflict, needsAttention, finishAction, claim; steady.
Qed.

(** Everything but the audit trail. *)
Definition unaudited (d : DB) : DB := d <| auditEntries := ∅ |>.

Lemma audit_record_unaudited entry : framed (on_db (unchanged unaudited)) (audit_record entry).
Proof. unfold audit_record. frame. Qed.

Lemma audit_record_actions entry : framed (on_db (unchanged actions)) (audit_record entry).
Proof. unfold audit_record. frame. Qed.

(** The transaction part of [finalize], and what it leaves. *)
Definition settle_decision (context : RecoveryContext) (decision : RecoveryDecision) :
    M (option Outcome) :=
  try_catch (transaction (apply_decision context decision))
    (λ error, if bool_decide (error = StaleRecovery) then mret None else throw error).

Lemma settle_decision_cases context decision w r w' :
  settle_decision context decision w = (r, w') →
  w_db w' = w_db w ∧ (∀ o, r ≠ inr (Some o)) ∨
  ∃ o w1, r = inr o ∧ apply_decision context decision w = (inr o, w1) ∧ w_db w' = w_db w1.
Proof.
  unfold settle_decision, try_catch.
  destruct (transaction _ w) as [[e|o] w1] eqn:E.
  - apply transaction_inl in E as E'. unfold mret, M_ret, throw.
    case_bool_decide; intros; simplify_eq/=; left; (split; [done|by intros]).
  - intros; simplify_eq. apply transaction_inr in E as (w2 & E & [fs ->]).
    right. eauto 10.
Qed.

(** Whether the mutation is still there to be claimed. *)
Definition claimable (context : RecoveryContext) (o : option string) (d : DB) : bool :=
  if truthy (ctx_actionId context) then
    bool_decide (0 < length (select_where (open_action (ctx_actionId context ?? "")) d))
  else if negb (truthy o) then false
  else
    bool_decide (0 < length (select_where (λ c, pending_config (o ?? "") c &&
                               bool_decide (config_actionId c = None)) d)).

Lemma claim_inr context o b w w' :
  claim context o w = (inr b, w') → b = claimable context o (w_db w) ∧ only_faults w w'.
Proof.
  intros E. pose proof (claim_reads context o w) as H. rewrite E in H. split; [|done].
  revert E. unfold claim, claimable. destruct (truthy _); simpl; [intros E; by unbind|].
  destruct (truthy o); simpl; intros E; by unbind.
Qed.

(** What closing the action does to the database. *)
Definition finished (context : RecoveryContext) (status : ActionStatus)
    (code : option string) (at_ : time) (d : DB) : DB :=
  if truthy (ctx_actionId context)
  then d <| actions := change_rows (λ a, bool_decide (action_id a = ctx_actionId context ?? ""))
              (finish status code at_) (actions d) |>
  else d.

Lemma finished_configs context status code t d :
  containerDesiredConfigs (finished context status code t d) = containerDesiredConfigs d.
Proof. unfold finished. by destruct (truthy _). Qed.

Lemma finished_containers context status code t d :
  containers (finished context status code t d) = containers d.
Proof. unfold finished. by destruct (truthy _). Qed.

Lemma finishAction_inr context status code u w w' :
  finishAction context status code w = (inr u, w') →
  only_faults (w <| w_db := finished context status code (w_now w) (w_db w) |>) w'.
Proof.
  unfold finishAction, finished. destruct (truthy _); simpl; intros E.
  - apply bind_inr in E as (t & w1 & [-> ->]%now_inr & E).
    by apply bind_inr in E as (l & w2 & [-> Ho]%update_inr & [-> ->]%ret_inr).
  - apply ret_inr in E as [-> ->]. exists (w_faults w). by destruct w.
Qed.

(** Take a successful run of the finalizer's programs apart. *)
Ltac unwind :=
  repeat match goal with
  | H : mbind _ _ _ = (inr _, _) |- _ => apply bind_inr in H as (? & ? & ? & ?)
  | H : claim _ _ _ = (inr _, _) |- _ => apply claim_inr in H as [-> [? ->]]
  | H : finishAction _ _ _ _ = (inr _, _) |- _ => apply finishAction_inr in H as [? ->]
  | H : delete_from _ _ = (inr _, _) |- _ => apply delete_inr in H as [-> [? ->]]
  | H : update _ _ _ = (inr _, _) |- _ => apply update_inr in H as [-> [? ->]]
  | H : update_id _ _ _ = (inr _, _) |- _ => apply update_inr in H as [-> [? ->]]
  | H : now _ = (inr _, _) |- _ => apply now_inr in H as [-> ->]
  | H : mret _ _ = (inr _, _) |- _ => apply ret_inr in H as [? ->]; simplify_eq/=
  | H : throw _ _ = (inr _, _) |- _ => by destruct (throw_inr _ _ _ _ H)
  | H : (if ?b then _ else _) _ = (inr _, _) |- _ => destruct b eqn:?
  | H : match ?b with Some _ => _ | None => _ end _ = (inr _, _) |- _ => destruct b eqn:?
  end.

(** Stepping aside writes nothing. *)
Lemma apply_decision_None context decision w w' :
  apply_decision context decision w = (inr None, w') → w_db w' = w_db w.
Proof.
  destruct decision; simpl; unfold promote, discard, finalizeRemove, failOperation,
    record_conflict, needsAttention; intros E; unwind; try done.
  - simpl. apply delete_containers_nil. by destruct (select_where _ _).
  - simpl. apply delete_configs_nil. by apply bool_decide_eq_true in Heqb1.
Qed.

(** The candidate a decision is about. *)
Definition config_of (decision : RecoveryDecision) : option string :=
  match decision with
  | promote_pending id | discard_pending id => Some id
  | _ => None
  end.

Lemma apply_decision_claimed context decision w o w' :
  apply_decision context decision w = (inr (Some o), w') →
  claimable context (config_of decision) (w_db w) = true.
Proof.
  destruct decision; simpl; unfold promote, discard, finalizeRemove, failOperation,
    record_conflict, needsAttention; intros E; unwind; by destruct (claimable _ _ _).
Qed.

Lemma length_pos_select `{Table R} (p : R → bool) d :
  bool_decide (0 < length (select_where p d)) = false ↔
  (∀ i r, rows d !! i = Some r → p r = false).
Proof.
  rewrite bool_decide_eq_false, <-select_where_nil.
  destruct (select_where p d); simpl; split; intros; try done; lia.
Qed.

(** An action that was finished is not open. *)
Lemma finish_not_open id status code t (a : Action) :
  status ≠ Action_queued → status ≠ Action_running →
  open_action id (if bool_decide (action_id a = id) then finish status code t a else a) = false.
Proof.
  intros H1 H2. unfold open_action, finish, mem.
  destruct (bool_decide (action_id a = id)) eqn:E; [|by rewrite E].
  destruct code; simpl; rewrite E; simpl; apply bool_decide_eq_false_2; set_solver.
Qed.

Lemma actions_finished context status code t (d : DB) o :
  truthy (ctx_actionId context) = true →
  status ≠ Action_queued → status ≠ Action_running →
  claimable context o (finished context status code t d) = false.
Proof.
  intros Ht H1 H2. unfold claimable, finished. rewrite Ht. apply length_pos_select.
  simpl. intros i r. rewrite lookup_change_rows, fmap_Some.
  intros (a & _ & ->). by apply finish_not_open.
Qed.

(** Whoever finalises a mutation leaves nothing to claim. *)
Lemma apply_decision_settles context decision w outcome w1 o :
  (∀ id c, config_of decision = Some id → containerDesiredConfigs (w_db w) !! id = Some c →
     config_containerId c = ctx_containerId context) →
  db_ok (w_db w) →
  apply_decision context decision w = (inr (Some outcome), w1) →
  truthy (ctx_actionId context) = true ∨ o = config_of decision ∨ o = None →
  claimable context o (w_db w1) = false.
Proof.
  intros Hown Hok E Ho.
  pose proof (apply_decision_claimed _ _ _ _ _ E) as Hclaim.
  destruct (truthy (ctx_actionId context)) eqn:Ht.
  - clear Ho. revert E.
    destruct decision; simpl; unfold promote, discard, finalizeRemove, failOperation,
      record_conflict, needsAttention; intros E; unwind; rewrite ?Ht in *; try done.
    all: simpl; by apply actions_finished.
  - destruct Ho as [?|[-> | ->]]; [done| |by unfold claimable; rewrite Ht].
    unfold claimable in Hclaim |- *. rewrite Ht in *.
    destruct decision; simpl in *; try done; rename desiredConfigId into id;
      (destruct (bool_decide (id = "")) eqn:Eid; [by apply bool_decide_eq_true in Eid; subst id|]);
      assert (Hid : truthy (Some id) = true) by (by destruct id);
      simpl in Hid; rewrite Hid in *; simpl in *; apply length_pos_select.
    + revert E. unfold promote. intros E; unwind. simpl. rewrite finished_configs. simpl.
      intros i r. rewrite lookup_change_rows, fmap_Some. intros (c & _ & ->).
      destruct (pending_config id c) eqn:Ec; [|by rewrite Ec].
      unfold pending_config. simpl. by rewrite andb_false_r.
    + revert E. unfold discard. intros E; unwind; simpl; rewrite finished_configs; simpl.
      * rename select Container into released.
        intros i r. rewrite lookup_drop_rows. intros (c & Hc & Hif)%bind_Some.
        destruct (pending_config id r) eqn:Er; [exfalso|done].
        destruct (mem _ _) eqn:Em; simplify_eq.
        unfold mem in Em. apply bool_decide_eq_false in Em. apply Em.
        destruct (db_ok_rows (R := DesiredConfig) _ Hok) as [Hkey _].
        apply Hkey in Hc as Hi. simpl in Hi. subst i.
        unfold pending_config in Er. apply andb_true_iff in Er as [Er%bool_decide_eq_true _].
        rewrite Er in Hc. rewrite (Hown id r) by done.
        apply head_select_Some in Heqo as [[j Hj] Hp]. simpl in *.
        apply andb_true_iff in Hp as Hp'. destruct Hp' as [Hc0%bool_decide_eq_true _].
        apply list_elem_of_fmap. exists released. split; [done|].
        apply elem_of_select_where. split; [by exists j|done].
      * intros i r. rewrite lookup_drop_rows. intros (c & Hc & Hif)%bind_Some.
        destruct (pending_config id c) eqn:Ec; simplify_eq. by rewrite Ec.
Qed.

(** ** Theorems *)

(** A run of [finalize]: the mutation was somebody else's or not applicable and
    nothing is written, or the decision was applied and only the audit trail is
    written after it. *)
Lemma finalize_cases context decision w r w' :
  finalize context decision w = (r, w') →
  w_db w' = w_db w ∧ r ≠ inr true ∨
  ∃ o w1, apply_decision context decision w = (inr (Some o), w1) ∧
    unaudited (w_db w') = unaudited (w_db w1) ∧ r ≠ inr false.
Proof.
  assert (Hgen : ∀ k, (settle_decision context decision ≫= k) w = (r, w') →
    (∀ w0, k None w0 = (inr false, w0)) →
    (∀ o w0, unaudited (w_db (k (Some o) w0).2) = unaudited (w_db w0) ∧
             (k (Some o) w0).1 ≠ inr false) →
    w_db w' = w_db w ∧ r ≠ inr true ∨
    ∃ o w1, apply_decision context decision w = (inr (Some o), w1) ∧
      unaudited (w_db w') = unaudited (w_db w1) ∧ r ≠ inr false).
  { intros k E HN HS. destruct (settle_decision context decision w) as [[e|o] w1] eqn:E1.
    - rewrite (run_bind_throw _ _ _ _ _ E1) in E. simplify_eq.
      apply settle_decision_cases in E1 as [[? ?]|(? & ? & ? & _)]; [by left|done].
    - rewrite (run_bind _ _ _ _ _ E1) in E.
      apply settle_decision_cases in E1 as [[Hd Hn]|(o' & w2 & ? & Ha & Hd)]; simplify_eq.
      + destruct o as [o|]; [by destruct (Hn o)|]. rewrite HN in E. simplify_eq. by left.
      + destruct o' as [o'|].
        * right. exists o', w2. destruct (HS o' w1) as [HS1 HS2]. rewrite E in HS1, HS2.
          simpl in *. split_and!; [done|congruence|done].
        * rewrite HN in E. simplify_eq. left. split; [|done].
          apply apply_decision_None in Ha. congruence. }
  destruct decision; unfold finalize; try (intros E; eapply Hgen; [exact E|done|]);
    [..|intros E; left; unfold mret, M_ret in E; by simplify_eq].
  all: intros o w0; split;
    [match goal with |- unaudited (w_db (?m w0).2) = _ =>
       assert (HF : framed (on_db (unchanged unaudited)) m)
         by (frame; apply audit_record_unaudited); apply HF end
    |unfold mbind, M_bind; by destruct (audit_record _ w0) as [[]]].
Qed.

Lemma claimable_unaudited context o d d' :
  unaudited d = unaudited d' → claimable context o d = claimable context o d'.
Proof.
  intros E. change (claimable context o (unaudited d) = claimable context o (unaudited d')).
  by rewrite E.
Qed.

(** The candidate of a decision is one of the container's configurations. *)
Definition candidate_owned (context : RecoveryContext) (decision : RecoveryDecision) (d : DB) :
    Prop :=
  ∀ id c, config_of decision = Some id → containerDesiredConfigs d !! id = Some c →
    config_containerId c = ctx_containerId context.

(** C3: exactly one pass finalises a mutation.  After a call of [finalize] that
    answered true, any further call for the same mutation, whatever it decided,
    leaves the database as it is and does not answer true; so a reconciliation
    pass may be repeated. *)
Theorem finalize_once context decision decision' w w1 :
  db_ok (w_db w) → candidate_owned context decision (w_db w) →
  finalize context decision w = (inr true, w1) →
  truthy (ctx_actionId context) = true ∨ config_of decision' = config_of decision ∨
    config_of decision' = None →
  w_db (finalize context decision' w1).2 = w_db w1 ∧
  (finalize context decision' w1).1 ≠ inr true.
Proof.
  intros Hok Hown E Hsame.
  apply finalize_cases in E as [[_ ?]|(o & w2 & Ha & Hd & _)]; [done|].
  assert (Hno : claimable context (config_of decision') (w_db w1) = false).
  { rewrite (claimable_unaudited _ _ _ _ Hd). by eapply apply_decision_settles. }
  destruct (finalize context decision' w1) as [r w3] eqn:E2.
  apply finalize_cases in E2 as [?|(o' & w4 & Ha' & _)]; [done|].
  apply apply_decision_claimed in Ha'. congruence.
Qed.

(** A finalisation happens whole or not at all.  Whatever statements fail
    along the way, what is left of a call of [finalize], the audit trail aside,
    is either the database as it was or the database a healthy run of the
    decision produces; and the database invariant is kept. *)
Theorem finalize_atomic context decision w :
  (db_ok (w_db w) → db_ok (w_db (finalize context decision w).2)) ∧
  (unaudited (w_db (finalize context decision w).2) = unaudited (w_db w) ∨
   ∃ o w1, apply_decision context decision (heal w) = (inr (Some o), w1) ∧
     unaudited (w_db (finalize context decision w).2) = unaudited (w_db w1)).
Proof.
  split.
  - enough (framed (on_db keeps_db_ok) (finalize context decision)) as H by apply H.
    destruct decision; simpl; unfold finalize, apply_decision, promote, discard, finalizeRemove,
      failOperation, record_conflict, needsAttention, finishAction, claim, audit_record; frame.
  - destruct (finalize context decision w) as [r w'] eqn:E. simpl.
    apply finalize_cases in E as [[-> _]|(o & w1 & Ha & Hd & _)]; [by left|].
    right. exists o, (heal w1). split; [by apply apply_decision_steady|done].
Qed.

(** ** What promoting a candidate does *)

Lemma finishAction_run context status code w :
  healthy w →
  finishAction context status code w =
    (inr tt, w <| w_db := finished context status code (w_now w) (w_db w) |>).
Proof.
  intros Hw. unfold finishAction, finished. destruct (truthy _); [simpl|by destruct w].
  rewrite (run_bind now _ w (w_now w) w) by done.
  unfold mbind, M_bind, update_id, update. by rewrite run_statement.
Qed.

Definition promoted_config (c : DesiredConfig) : DesiredConfig :=
  c <| config_state := "current" |> <| config_actionId := None |>.

Definition current_config_of (containerId : string) (c : DesiredConfig) : bool :=
  bool_decide (config_containerId c = containerId) && bool_decide (config_state c = "current").

(** The configurations after a promotion: the old current one is gone and the
    candidate is current. *)
Definition promoted_configs (containerId id : string) (t : gmap string DesiredConfig) :
    gmap string DesiredConfig :=
  change_rows (pending_config id) promoted_config (drop_rows (current_config_of containerId) t).

Lemma promoted_configs_unique containerId id c t :
  well_keyed t → t !! id = Some c → config_containerId c = containerId →
  violation (promoted_configs containerId id t) = None.
Proof.
  intros Hwk Hid Hc. apply (well_keyed_drop (current_config_of containerId)) in Hwk as [Hkey Hu].
  apply violation_None. unfold promoted_configs, change_rows.
  rewrite Forall_forall in Hu |- *. intros ix Hix. specialize (Hu ix Hix).
  apply (unique_change_one _ _ _ id); [done| |].
  - intros i r Hr Hne. apply Hkey in Hr. simpl in Hr. unfold pending_config.
    by rewrite (bool_decide_eq_false_2 (config_id r = id)) by congruence.
  - intros r0 j s k Hr0 Hs Hj Hk.
    assert (r0 = c) as ->.
    { apply (lookup_weaken _ t) in Hr0; [congruence|apply drop_rows_subseteq]. }
    destruct (pending_config id c) eqn:Ep.
    2:{ intros Hk'. apply Hj. by eapply Hu. }
    assert (Hcur : config_containerId s = containerId → config_state s ≠ "current").
    { rewrite lookup_drop_rows in Hs. apply bind_Some in Hs as (s' & _ & Hs).
      destruct (current_config_of containerId s') eqn:Es; [done|]. simplify_eq.
      unfold current_config_of in Es. intros E1 E2. by rewrite !bool_decide_eq_true_2 in Es. }
    apply elem_of_cons in Hix as [->|Hix]; [|apply list_elem_of_singleton in Hix as ->].
    + simpl in *. case_bool_decide as E; [|done]. intros ?; simplify_eq. by apply Hcur.
    + simpl. done.
Qed.

Lemma pending_config_true id c t :
  well_keyed t → t !! id = Some c → config_state c = "pending" → pending_config id c = true.
Proof.
  intros [Hkey _] Hid Hp. apply Hkey in Hid. unfold pending_config. simpl in Hid.
  by rewrite !bool_decide_eq_true_2.
Qed.

Lemma promoted_configs_lookup containerId id c t :
  t !! id = Some c → pending_config id c = true →
  promoted_configs containerId id t !! id = Some (promoted_config c).
Proof.
  intros Hid Hp. unfold promoted_configs. rewrite lookup_change_rows, lookup_drop_rows, Hid.
  simpl. unfold current_config_of. apply andb_true_iff in Hp as Hp'.
  destruct Hp' as [_ Hs%bool_decide_eq_true].
  rewrite (bool_decide_eq_false_2 (config_state c = "current")) by congruence.
  rewrite andb_false_r. simpl. by rewrite Hp.
Qed.

Lemma promoted_configs_only containerId id c t j c' :
  well_keyed t → t !! id = Some c → config_state c = "pending" → config_containerId c = containerId →
  promoted_configs containerId id t !! j = Some c' → config_containerId c' = containerId →
  config_state c' = "current" ∨ config_state c' = "pending" → j = id.
Proof.
  intros [Hkey Hu] Hid Hp Hc. unfold promoted_configs. rewrite lookup_change_rows, lookup_drop_rows.
  intros (r & Hr & ->)%fmap_Some Hcont Hst. apply bind_Some in Hr as (r' & Hj & Hcur).
  destruct (current_config_of containerId r') eqn:Er; simplify_eq.
  destruct (pending_config id r) eqn:Ep.
  - unfold pending_config in Ep. apply andb_true_iff in Ep as [Ep%bool_decide_eq_true _].
    apply Hkey in Hj. simpl in Hj. congruence.
  - unfold current_config_of in Er. rewrite (bool_decide_eq_true_2 (_ = config_containerId c)) in Er by done.
    simpl in Er. apply bool_decide_eq_false in Er. destruct Hst as [?|Hst]; [done|].
    rewrite Forall_forall in Hu. eapply (Hu (_, _)); [by right; left|done|done| |];
      simpl; rewrite bool_decide_eq_true_2 by done; [|done]. by rewrite Hcont.
Qed.

Lemma promote_run context id a act c w :
  healthy w → db_ok (w_db w) →
  ctx_actionId context = Some a → a ≠ "" →
  actions (w_db w) !! a = Some act →
  action_status act = Action_queued ∨ action_status act = Action_running →
  containerDesiredConfigs (w_db w) !! id = Some c →
  config_state c = "pending" → config_containerId c = ctx_containerId context →
  ∃ o, promote context id w = (inr (Some o), w <| w_db :=
    finished context Action_succeeded None (w_now w)
      ((delete_rows (current_config_of (ctx_containerId context)) (w_db w))
        <| containerDesiredConfigs :=
             promoted_configs (ctx_containerId context) id (containerDesiredConfigs (w_db w)) |>) |>).
Proof.
  intros Hw Hok Ha Hane Hact Hst Hid Hpend Hc.
  assert (Htr : truthy (ctx_actionId context) = true) by (rewrite Ha; by destruct a).
  assert (Hcl : claim context (Some id) w = (inr true, w)).
  { unfold claim. rewrite Htr, Ha. simpl.
    rewrite (run_bind _ _ _ _ _ (run_select w Hw _)). unfold mret, M_ret. do 2 f_equal.
    apply bool_decide_eq_true.
    assert (Hin : act ∈ select_where (open_action a) (w_db w)).
    { apply elem_of_select_where. split; [by exists a|]. unfold open_action, mem.
      destruct (db_ok_rows (R := Action) _ Hok) as [Hkey _]. apply Hkey in Hact. simpl in Hact.
      rewrite bool_decide_eq_true_2 by done. apply bool_decide_eq_true. set_solver. }
    destruct (select_where _ _); [by apply not_elem_of_nil in Hin|simpl; lia]. }
  unfold promote. rewrite (run_bind _ _ _ _ _ Hcl). simpl.
  rewrite (run_bind _ _ _ _ _ (run_delete w Hw _)).
  set (w1 := w <| w_db := _ |>).
  assert (Hw1 : healthy w1) by done.
  assert (Hup : update (pending_config id) promoted_config w1 =
    (inr (promoted_config <$> select_where (pending_config id) (w_db w1)),
     w1 <| w_db := (w_db w1) <| containerDesiredConfigs :=
       promoted_configs (ctx_containerId context) id (containerDesiredConfigs (w_db w)) |> |>)).
  { unfold update. rewrite run_statement by done. unfold update_where.
    assert (Hv : violation (change_rows (pending_config id) promoted_config (rows (w_db w1))) = None)
      by exact (promoted_configs_unique (ctx_containerId context) id c _
                  (db_ok_rows (R := DesiredConfig) _ Hok) Hid Hc).
    by rewrite Hv. }
  rewrite (run_bind _ _ _ _ _ Hup).
  rewrite bool_decide_eq_false_2.
  2:{ intros E%fmap_nil_inv. rewrite select_where_nil in E.
      enough (pending_config id c = false) as Hf.
      { unfold pending_config in Hf. destruct (db_ok_rows (R := DesiredConfig) _ Hok) as [Hkey _].
        apply Hkey in Hid. simpl in Hid. by rewrite !bool_decide_eq_true_2 in Hf. }
      apply (E id). simpl. rewrite lookup_drop_rows, Hid. simpl.
      unfold current_config_of. rewrite Hpend. simpl. by rewrite andb_false_r. }
  eexists. cbv iota. unfold mbind, M_bind. by rewrite finishAction_run.
Qed.

(** The audit entry after a successful decision. *)
Lemma audit_record_run entry w :
  healthy w → auditEntries (w_db w) !! uuid (w_seed w) = None →
  ∃ w', audit_record entry w = (inr tt, w') ∧ unaudited (w_db w') = unaudited (w_db w) ∧
    healthy w'.
Proof.
  intros Hw Hfresh. unfold audit_record, randomUUID, world, mbind, M_bind.
  unfold insert_into. rewrite run_statement by done. unfold insert_row. simpl.
  rewrite Hfresh. by eexists.
Qed.

(** A promotion makes the candidate what the container is.  For an open
    action and a pending candidate of the container, [finalize] answers true
    and afterwards the candidate is current and belongs to no action, no other
    configuration of the container is current or pending, the action has
    succeeded, the variables of the candidate are all kept and no variable of
    the configuration it replaced is left. *)
Theorem finalize_promotes context id a act c w :
  healthy w → db_ok (w_db w) → auditEntries (w_db w) !! uuid (w_seed w) = None →
  ctx_actionId context = Some a → a ≠ "" →
  actions (w_db w) !! a = Some act →
  action_status act = Action_queued ∨ action_status act = Action_running →
  containerDesiredConfigs (w_db w) !! id = Some c →
  config_state c = "pending" → config_containerId c = ctx_containerId context →
  ∃ w', finalize context (promote_pending id) w = (inr true, w') ∧
    containerDesiredConfigs (w_db w') !! id = Some (promoted_config c) ∧
    (∀ j c', containerDesiredConfigs (w_db w') !! j = Some c' →
       config_containerId c' = ctx_containerId context →
       config_state c' = "current" ∨ config_state c' = "pending" → j = id) ∧
    actions (w_db w') !! a =
      Some (act <| action_status := Action_succeeded |>
                <| action_completedAt := Some (w_now w) |>) ∧
    (∀ i v, containerEnvironmentVariables (w_db w) !! i = Some v →
       conenv_desiredConfigId v = id →
       containerEnvironmentVariables (w_db w') !! i = Some v) ∧
    (∀ i v old, containerEnvironmentVariables (w_db w') !! i = Some v →
       containerDesiredConfigs (w_db w) !! conenv_desiredConfigId v = Some old →
       current_config_of (ctx_containerId context) old = false).
Proof.
  intros Hw Hok Hfresh Ha Hane Hact Hst Hid Hpend Hc.
  destruct (promote_run context id a act c w) as [o Hrun]; try done.
  set (w1 := w <| w_db := _ |>) in Hrun.
  assert (Htx : transaction (promote context id) w = (inr (Some o), w1)).
  { by apply run_transaction. }
  unfold finalize, apply_decision. unfold try_catch, mbind, M_bind. rewrite Htx.
  assert (Hfresh1 : auditEntries (w_db w1) !! uuid (w_seed w1) = None).
  { unfold w1, finished. simpl. by destruct (truthy _). }
  match goal with |- context [audit_record ?e w1] =>
    destruct (audit_record_run e w1 Hw Hfresh1) as (w2 & E & Hd & _); rewrite E end.
  exists w2. split; [done|].
  assert (Hproj : ∀ {T} (π : DB → T), (∀ d, π (unaudited d) = π d) → π (w_db w2) = π (w_db w1)).
  { intros T π Hπ. by rewrite <-Hπ, Hd, Hπ. }
  rewrite !(Hproj _ containerDesiredConfigs), !(Hproj _ actions),
    !(Hproj _ containerEnvironmentVariables) by done. clear Hproj E Hd.
  assert (Hp : pending_config id c = true) 
    by (by apply (pending_config_true _ _ _ (db_ok_rows (R := DesiredConfig) _ Hok))).
  assert (Ht : truthy (ctx_actionId context) = true) by (rewrite Ha; by destruct a).
  unfold w1, finished. rewrite Ht, Ha. simpl. split_and!.
  - by apply promoted_configs_lookup.
  - intros j c' Hj Hj1 Hj2. 
    by eapply (promoted_configs_only _ _ _ _ _ _ (db_ok_rows (R := DesiredConfig) _ Hok)).
  - rewrite lookup_change_rows, Hact. simpl.
    destruct (db_ok_rows (R := Action) _ Hok) as [Hkey _]. apply Hkey in Hact. simpl in Hact.
    by rewrite bool_decide_eq_true_2.
  - intros i v Hi Hv. rewrite lookup_drop_rows, Hi. simpl. subst id.
    destruct (mem _ _) eqn:Em; [exfalso|done].
    apply bool_decide_eq_true, list_elem_of_fmap in Em as (old & E & Hin).
    apply elem_of_select_where in Hin as [[j Hj] Hcur]. simpl in *.
    destruct (db_ok_rows (R := DesiredConfig) _ Hok) as [Hkey _].
    apply Hkey in Hj as Hj'. simpl in Hj'.
    assert (old = c) as -> by congruence. unfold current_config_of in Hcur.
    rewrite Hpend in Hcur. by rewrite andb_false_r in Hcur.
  - intros i v old Hi Hold. rewrite lookup_drop_rows in Hi.
    apply bind_Some in Hi as (v' & Hi & Hif). destruct (mem _ _) eqn:Em; simplify_eq.
    destruct (current_config_of _ old) eqn:Eo; [exfalso|done].
    apply bool_decide_eq_false in Em. apply Em, list_elem_of_fmap. exists old.
    destruct (db_ok_rows (R := DesiredConfig) _ Hok) as [Hkey _].
    split; [symmetry; by apply Hkey|]. apply elem_of_select_where. split; [by eexists|done].
Qed.

(** *** A replacement that was interrupted

    Container [c1] runs configuration [old]; a replacement by [new] was asked
    for by action [a1] and the server stopped before hearing back. *)

Definition example_config (id state : string) (action : option string) : DesiredConfig := {|
  config_id := id; config_containerId := "c1"; config_state := state; config_actionId := action;
  config_image := "nginx"; config_hostname := None; config_command := None;
  config_entrypoint := None; config_ports := []; config_mounts := []; config_networks := [];
  config_restartPolicy := "no"; config_labels := []; config_healthcheck := None;
  config_createdBy := None |}.

Definition example_variable (id config : string) : ContainerVariable := {|
  conenv_id := id; conenv_desiredConfigId := config; conenv_key := "KEY";
  conenv_value := Some "v"; conenv_valueEncrypted := None; conenv_isSecret := false |}.

Definition example_action : Action := {|
  action_id := "a1"; action_actorUserId := None; action_actorKind := Actor_user;
  action_capability := "container.replace"; action_targetType := Some "container";
  action_targetId := Some "c1"; action_hostId := Some "h1"; action_status := Action_running;
  action_requestedAt := 10%Z; action_startedAt := Some 10%Z; action_completedAt := None;
  action_errorCode := None; action_correlationId := "r1" |}.

Definition interrupted_db : DB := empty_db
  <| actions := {["a1" := example_action]} |>
  <| containerDesiredConfigs :=
       {["old" := example_config "old" "current" None;
         "new" := example_config "new" "pending" (Some "a1")]} |>
  <| containerEnvironmentVariables :=
       {["v1" := example_variable "v1" "old"; "v2" := example_variable "v2" "new"]} |>.

Definition interrupted_context : RecoveryContext := {|
  ctx_containerId := "c1"; ctx_containerName := "web"; ctx_hostId := "h1";
  ctx_operation := replace; ctx_actionId := Some "a1"; ctx_observedDockerIds := None |}.

Lemma interrupted_db_ok : db_ok interrupted_db.
Proof. apply db_okb_true. by vm_compute. Qed.

Lemma finalize_promotes_witness :
  ∃ w', finalize interrupted_context (promote_pending "new") (quiet_world interrupted_db) = (inr true, w') ∧
    containerDesiredConfigs (w_db w') !! "new" =
      Some (promoted_config (example_config "new" "pending" (Some "a1"))).
Proof.
  destruct (finalize_promotes interrupted_context "new" "a1" example_action
    (example_config "new" "pending" (Some "a1")) (quiet_world interrupted_db))
    as (w' & E & Hnew & _); [done|apply interrupted_db_ok|done..|by right|done|done|done|].
  exists w'. split; [exact E|exact Hnew].
Defined.

Lemma finalize_once_witness :
  ∃ w1, finalize interrupted_context (promote_pending "new") (quiet_world interrupted_db) = (inr true, w1) ∧
    (finalize interrupted_context (discard_pending "new") w1).1 ≠ inr true.
Proof.
  set (run := finalize interrupted_context (promote_pending "new") (quiet_world interrupted_db)).
  assert (E1 : run.1 = inr true) by (vm_compute; reflexivity).
  assert (E : run = (inr true, run.2)) by (rewrite <-E1; apply surjective_pairing).
  exists run.2. split; [exact E|].
  refine (proj2 (finalize_once interrupted_context (promote_pending "new")
    (discard_pending "new") (quiet_world interrupted_db) run.2 interrupted_db_ok _ E
    (or_introl eq_refl))).
  intros id c Hid. injection Hid as <-. vm_compute. intros Hc. by injection Hc as <-.
Defined.
