(* ===== verification/StackClassify.v ===== *)
(** * What was done to a stack, read from its host

    The three pure classifiers that decide what an attempt on a stack turned
    out to have done: [api/src/stacks/stack-deployment.ts] (applying a
    revision), [api/src/stacks/stack-delete.ts] (deleting) and
    [api/src/stacks/stack-lifecycle.ts] (start, stop, restart). *)

From Stdlib Require Import Ascii String NArith ZArith.
From stdpp Require Import gmap strings list pretty.
From S2P Require Import Prelude Schema.

(** [new Set(l).has(x)] and a loop that stops at the first repeated element. *)
Fixpoint first_repeated (seen l : list string) : option string :=
  match l with
  | [] => None
  | x :: l' => if mem x seen then Some x else first_repeated (x :: seen) l'
  end.

Lemma first_repeated_None seen l :
  first_repeated seen l = None ↔ NoDup l ∧ (∀ x, x ∈ l → x ∉ seen).
Proof.
  revert seen. induction l as [|x l IH]; intros seen; simpl.
  - split; [|done]. intros _. split; [constructor|set_solver].
  - unfold mem. case_bool_decide as Hx.
    + split; [done|]. set_solver.
    + rewrite IH, NoDup_cons. set_solver.
Qed.

(** ** Applying a revision *)

Module Apply.

Inductive StackApplyOutcome :=
  | finalize_target
  | finalize_from
  | finalize_not_applied
  | needs_attention (reason : string)
  | unknown (reason : string).

Record ObservedService := {
  serviceName : string;
  containerId : string;
  dockerId : option string;
  state : option string;
  revisionId : option string
}.

Record StackApplyInput := {
  fromRevisionId : option string;
  targetRevisionId : string;
  targetServices : list string;
  fromServices : option (list string);
  observed : list ObservedService;
  snapshotComplete : bool
}.

Definition matches (live : list ObservedService) (expected : list string)
    (revision : string) (requireRunning : bool) : bool :=
  if negb (length live =? length expected)%nat then false
  else forallb (λ service,
    mem (serviceName service) expected &&
    bool_decide (revisionId service = Some revision) &&
    (negb requireRunning || bool_decide (state service = Some "running"))) live.

Definition is_live (service : ObservedService) : bool :=
  bool_decide (dockerId service ≠ None).

Definition classifyStackApply (input : StackApplyInput) : StackApplyOutcome :=
  if negb (snapshotComplete input) then unknown "the host was not read completely"
  else
    let live := List.filter is_live (observed input) in
    match first_repeated [] (serviceName <$> live) with
    | Some name => needs_attention ("two containers are service " +:+ name)
    | None =>
        if (length live =? 0)%nat then
          if bool_decide (fromRevisionId input = None) then finalize_not_applied
          else needs_attention "the stack that was running is gone"
        else if matches live (targetServices input) (targetRevisionId input) true then
          finalize_target
        else if match fromRevisionId input, fromServices input with
                | Some from, Some services => matches live services from false
                | _, _ => false
                end
        then finalize_from
        else needs_attention
          (pretty (N.of_nat (length live)) +:+ " containers are running and they are not one revision")
    end.

(** *** Specification *)

(** The host holds exactly the services of one revision: one container each,
    every one of that revision, running where that is required, nothing else. *)
Definition holds_exactly (live : list ObservedService) (expected : list string)
    (revision : string) (requireRunning : bool) : Prop :=
  NoDup (serviceName <$> live) ∧
  (∀ s, s ∈ expected ↔ s ∈ serviceName <$> live) ∧
  Forall (λ o, revisionId o = Some revision ∧ (requireRunning = true → state o = Some "running")) live.

Definition live_of (input : StackApplyInput) : list ObservedService :=
  List.filter is_live (observed input).

Definition is_target (input : StackApplyInput) : Prop :=
  holds_exactly (live_of input) (targetServices input) (targetRevisionId input) true.

Definition is_from (input : StackApplyInput) : Prop :=
  ∃ from services, fromRevisionId input = Some from ∧ fromServices input = Some services ∧
    holds_exactly (live_of input) services from false.

Definition outcome_spec (input : StackApplyInput) (o : StackApplyOutcome) : Prop :=
  match o with
  | finalize_target => snapshotComplete input = true ∧ live_of input ≠ [] ∧ is_target input
  | finalize_from =>
      snapshotComplete input = true ∧ live_of input ≠ [] ∧ ¬ is_target input ∧ is_from input
  | finalize_not_applied =>
      snapshotComplete input = true ∧ live_of input = [] ∧ fromRevisionId input = None
  | needs_attention _ =>
      snapshotComplete input = true ∧
      (live_of input = [] ∧ fromRevisionId input ≠ None ∨
       live_of input ≠ [] ∧ ¬ is_target input ∧ ¬ is_from input)
  | unknown _ => snapshotComplete input = false
  end.

Definition same_outcome (a b : StackApplyOutcome) : Prop :=
  match a, b with
  | finalize_target, finalize_target | finalize_from, finalize_from
  | finalize_not_applied, finalize_not_applied
  | needs_attention _, needs_attention _ | unknown _, unknown _ => True
  | _, _ => False
  end.

Lemma matches_spec live expected revision running :
  NoDup expected → NoDup (serviceName <$> live) →
  matches live expected revision running = true ↔ holds_exactly live expected revision running.
Proof.
  intros Hexp Hlive. unfold matches, holds_exactly.
  destruct (Nat.eqb_spec (length live) (length expected)) as [Hl|Hl]; simpl.
  - rewrite forallb_Forall, !Forall_forall. split.
    + intros H. split_and!; [done| |].
      * intros s. split.
        -- intros Hs. apply (NoDup_incl_length_eq _ expected); [exact Hlive| |rewrite (length_fmap serviceName live); lia|done].
           intros x (o & -> & Ho)%list_elem_of_fmap. specialize (H o Ho).
           apply andb_true_iff in H as [[H _]%andb_true_iff _]. by apply bool_decide_eq_true in H.
        -- intros (o & -> & Ho)%list_elem_of_fmap. specialize (H o Ho).
           apply andb_true_iff in H as [[H _]%andb_true_iff _]. by apply bool_decide_eq_true in H.
      * intros o Ho. specialize (H o Ho).
        apply andb_true_iff in H as [[_ H1%bool_decide_eq_true]%andb_true_iff H2].
        split; [done|]. intros ->. by apply bool_decide_eq_true in H2.
    + intros (_ & Hs & H) o Ho. destruct (H o Ho) as [H1 H2]. unfold mem.
      rewrite (bool_decide_eq_true_2 (_ ∈ _)) by (by apply Hs, list_elem_of_fmap_2).
      rewrite (bool_decide_eq_true_2 (revisionId o = _)) by done. simpl.
      destruct running; simpl; [|done]. by apply bool_decide_eq_true, H2.
  - split; [done|]. intros (_ & Hs & _). destruct Hl. rewrite <-(length_fmap serviceName live).
    apply Permutation_length, NoDup_Permutation; [done|done|]. intros s. symmetry. apply Hs.
Qed.

Lemma classifyStackApply_sound input :
  NoDup (targetServices input) → (∀ l, fromServices input = Some l → NoDup l) →
  outcome_spec input (classifyStackApply input).
Proof.
  intros Ht Hf. unfold classifyStackApply. fold (live_of input).
  destruct (snapshotComplete input) eqn:Ec; simpl; [|done].
  destruct (first_repeated [] (serviceName <$> live_of input)) as [name|] eqn:Er; simpl.
  - assert (Hnd : ¬ NoDup (serviceName <$> live_of input)).
    { intros Hnd. enough (first_repeated [] (serviceName <$> live_of input) = None) by congruence.
      apply first_repeated_None. split; [done|set_solver]. }
    split; [done|right]. unfold is_target, is_from, holds_exactly.
    split_and!; [|naive_solver|naive_solver].
    intros E. rewrite E in Hnd. by destruct Hnd; constructor.
  - apply first_repeated_None in Er as [Hnd _].
    destruct (Nat.eqb_spec (length (live_of input)) 0) as [Hl%nil_length_inv|Hl].
    { case_bool_decide; simpl; auto. }
    assert (Hne : live_of input ≠ []) by (by destruct (live_of input)).
    destruct (matches (live_of input) (targetServices input) _ true) eqn:Em.
    { apply matches_spec in Em; [|done|done]. done. }
    assert (Hnt : ¬ is_target input).
    { intros H%matches_spec; [congruence|done|done]. }
    destruct (fromRevisionId input) as [from|] eqn:Ef, (fromServices input) as [l|] eqn:El;
      simpl; try (split_and!; [done|right; unfold is_from; naive_solver]).
    destruct (matches (live_of input) l from false) eqn:Em'; simpl.
    + split_and!; [done..|]. exists from, l. split_and!; [done|done|].
      by apply matches_spec in Em'; [|apply Hf|].
    + split; [done|right]. split_and!; [done|done|]. intros (? & ? & ? & ? & H). simplify_eq.
      apply matches_spec in H; [congruence|by apply Hf|done].
Qed.

Lemma apply_outcome_exclusive input a b :
  outcome_spec input a → outcome_spec input b → same_outcome a b.
Proof. destruct a, b; simpl; try done; intros; destruct_and?; naive_solver congruence. Qed.

(** Applying a revision is judged exactly by what the host holds.  For
    every input in which the two revisions name each service once, the
    classifier answers [finalize_target] exactly when the host holds the target
    revision and nothing else with every service running, [finalize_from]
    exactly when it holds the revision the stack came from and nothing else,
    [finalize_not_applied] exactly when there was nothing before and is nothing
    now, and nothing at all when the host was not read completely; everything
    else needs a person. *)
Theorem classifyStackApply_spec input o :
  NoDup (targetServices input) → (∀ l, fromServices input = Some l → NoDup l) →
  outcome_spec input o ↔ same_outcome (classifyStackApply input) o.
Proof.
  intros Ht Hf. pose proof (classifyStackApply_sound input Ht Hf) as Hs. split.
  - by apply apply_outcome_exclusive.
  - revert Hs. generalize (classifyStackApply input). intros c.
    destruct c, o; simpl; naive_solver.
Qed.

Definition example_input : StackApplyInput := {|
  fromRevisionId := Some "r1"; targetRevisionId := "r2"; targetServices := ["web"; "db"];
  fromServices := Some ["web"];
  observed := [
    {| serviceName := "db"; containerId := "c2"; dockerId := Some "d2";
       state := Some "running"; revisionId := Some "r2" |};
    {| serviceName := "web"; containerId := "c1"; dockerId := Some "d1";
       state := Some "running"; revisionId := Some "r2" |}];
  snapshotComplete := true |}.

Lemma classifyStackApply_spec_witness :
  outcome_spec example_input finalize_target.
Proof.
  apply (classifyStackApply_spec example_input finalize_target).
  - apply (bool_decide_unpack _). by vm_compute.
  - intros l [= <-]. apply (bool_decide_unpack _). by vm_compute.
  - by vm_compute.
Defined.

End Apply.

(** ** Deleting a stack *)

Module Delete.

Inductive StackDeleteOutcome :=
  | finalize_deleted
  | finalize_not_applied
  | needs_attention (reason : string)
  | unknown (reason : string).

Record ObservedClaim := {
  serviceName : string;
  containerId : string;
  dockerId : option string
}.

Record StackDeleteInput := {
  expectedServices : list string;
  observed : list ObservedClaim;
  snapshotComplete : bool
}.

Definition is_present (claim : ObservedClaim) : bool := bool_decide (dockerId claim ≠ None).

Definition classifyStackDelete (input : StackDeleteInput) : StackDeleteOutcome :=
  if negb (snapshotComplete input) then unknown "the host was not read completely"
  else
    let present := List.filter is_present (observed input) in
    if (length present =? 0)%nat then finalize_deleted
    else
      let expected : gset string := list_to_set (expectedServices input) in
      match find_first (λ claim, negb (bool_decide (serviceName claim ∈ expected))) present with
      | Some unexpected =>
          needs_attention ("the host still holds " +:+ serviceName unexpected +:+
                           ", which the deleted revision does not describe")
      | None =>
          let claimed : gset string := list_to_set (serviceName <$> present) in
          if (size claimed =? size expected)%nat then finalize_not_applied
          else needs_attention "part of the stack was removed and part of it was not"
      end.

(** The services some container on the host still claims. *)
Definition still_claimed (input : StackDeleteInput) (s : string) : Prop :=
  ∃ c, c ∈ observed input ∧ dockerId c ≠ None ∧ serviceName c = s.

Definition outcome_spec (input : StackDeleteInput) (o : StackDeleteOutcome) : Prop :=
  match o with
  | finalize_deleted => snapshotComplete input = true ∧ ∀ s, ¬ still_claimed input s
  | finalize_not_applied =>
      snapshotComplete input = true ∧ (∃ s, still_claimed input s) ∧
      ∀ s, still_claimed input s ↔ s ∈ expectedServices input
  | needs_attention _ =>
      snapshotComplete input = true ∧ (∃ s, still_claimed input s) ∧
      ¬ (∀ s, still_claimed input s ↔ s ∈ expectedServices input)
  | unknown _ => snapshotComplete input = false
  end.

Definition same_outcome (a b : StackDeleteOutcome) : Prop :=
  match a, b with
  | finalize_deleted, finalize_deleted | finalize_not_applied, finalize_not_applied
  | needs_attention _, needs_attention _ | unknown _, unknown _ => True
  | _, _ => False
  end.

Lemma elem_of_present input s :
  s ∈ serviceName <$> List.filter is_present (observed input) ↔ still_claimed input s.
Proof.
  rewrite list_elem_of_fmap. unfold still_claimed, is_present.
  setoid_rewrite elem_of_filter_bool. setoid_rewrite bool_decide_eq_true. naive_solver.
Qed.

Lemma classifyStackDelete_sound input : outcome_spec input (classifyStackDelete input).
Proof.
  unfold classifyStackDelete. destruct (snapshotComplete input) eqn:Ec; simpl; [|done].
  pose proof (elem_of_present input) as Hin.
  set (present := List.filter is_present (observed input)) in *.
  destruct (Nat.eqb_spec (length present) 0) as [Hl%nil_length_inv|Hl]; simpl.
  { split; [done|]. intros s Hs%Hin. rewrite Hl in Hs. by apply not_elem_of_nil in Hs. }
  assert (Hsome : ∃ s, still_claimed input s).
  { destruct present as [|c l]; [done|]. exists (serviceName c). apply Hin. by left. }
  destruct (find_first _ present) as [c|] eqn:Ef.
  - apply find_first_Some in Ef as [Hc Hne]. apply negb_true_iff, bool_decide_eq_false in Hne.
    split_and!; [done|done|]. intros Hall. apply Hne, elem_of_list_to_set, Hall, Hin.
    by apply list_elem_of_fmap_2.
  - apply find_first_None in Ef. rewrite Forall_forall in Ef.
    assert (Hsub : (list_to_set (serviceName <$> present) : gset string) ⊆ list_to_set (expectedServices input)).
    { intros s (c & -> & Hc)%elem_of_list_to_set%list_elem_of_fmap. specialize (Ef c Hc).
      by apply negb_false_iff, bool_decide_eq_true in Ef. }
    destruct (Nat.eqb_spec (size (list_to_set (serviceName <$> present) : gset string))
                (size (list_to_set (expectedServices input) : gset string))) as [Hs|Hs].
    + split_and!; [done|done|]. intros s. rewrite <-Hin.
      apply set_subseteq_size_equiv in Hsub; [|by rewrite Hs].
      specialize (Hsub s). by rewrite !elem_of_list_to_set in Hsub.
    + split_and!; [done|done|]. intros Hall. apply Hs. f_equal. apply leibniz_equiv. intros s.
      rewrite !elem_of_list_to_set. rewrite Hin. apply Hall.
Qed.

Lemma delete_outcome_exclusive input a b :
  outcome_spec input a → outcome_spec input b → same_outcome a b.
Proof. destruct a, b; simpl; try done; intros; destruct_and?; naive_solver congruence. Qed.

(** Deleting a stack is judged exactly by which services the host still
    shows.  The classifier answers [finalize_deleted] exactly when a complete
    reading shows no container of the stack, [finalize_not_applied] exactly
    when it shows a container for each service of the revision and no other,
    and nothing when the reading was not complete. *)
Theorem classifyStackDelete_spec input o :
  outcome_spec input o ↔ same_outcome (classifyStackDelete input) o.
Proof.
  pose proof (classifyStackDelete_sound input) as Hs. split.
  - by apply delete_outcome_exclusive.
  - revert Hs. generalize (classifyStackDelete input). intros c. destruct c, o; simpl; naive_solver.
Qed.

End Delete.

(** ** Starting, stopping and restarting a stack *)

Module Lifecycle.

Inductive StackLifecycleKind := start | stop | restart.

#[export] Instance StackLifecycleKind_eq_dec : EqDecision StackLifecycleKind.
Proof. solve_decision. Defined.

Inductive StackLifecycleOutcome :=
  | applied
  | not_applied
  | needs_attention (reason : string)
  | unknown (reason : string).

(** A start time is kept as the instant [Date.parse] reads from it: both sides
    are timestamps this server wrote. *)
Record ObservedRuntime := {
  serviceName : string;
  containerId : string;
  dockerId : option string;
  state : option string;
  revisionId : option string;
  startedAt : option time
}.

Record StackLifecycleInput := {
  operation : StackLifecycleKind;
  deployedRevisionId : string;
  expectedServices : list string;
  observed : list ObservedRuntime;
  fingerprint : option (list ServiceFingerprint);
  snapshotComplete : bool
}.

Definition isRunning (s : option string) : bool := bool_decide (s = Some "running").

(** The loop over the services of a restart: how many were restarted and how
    many were not, or the first reason to stop. *)
Fixpoint restart_loop (before : string → option ServiceFingerprint)
    (services : list ObservedRuntime) (restarted unchanged : nat) :
    StackLifecycleOutcome + (nat * nat) :=
  match services with
  | [] => inr (restarted, unchanged)
  | service :: rest =>
      if negb (isRunning (state service)) then
        inl (needs_attention (serviceName service +:+ " is not running"))
      else
        match before (serviceName service) with
        | None => inl (unknown (serviceName service +:+ " is not the container the restart was for"))
        | Some previous =>
            if bool_decide (Some (fingerprint_dockerId previous) ≠ dockerId service) then
              inl (unknown (serviceName service +:+ " is not the container the restart was for"))
            else
              match fingerprint_startedAt previous, startedAt service with
              | Some was, Some at_ =>
                  if (was <? at_)%Z then restart_loop before rest (S restarted) unchanged
                  else restart_loop before rest restarted (S unchanged)
              | _, _ =>
                  inl (unknown ("the host does not say when " +:+ serviceName service +:+ " was started"))
              end
        end
  end.

Definition restartOutcome (services : list ObservedRuntime)
    (fingerprint : option (list ServiceFingerprint)) : StackLifecycleOutcome :=
  match fingerprint with
  | None => unknown "there is nothing to compare the restart against"
  | Some fp =>
      match restart_loop (map_get fingerprint_serviceName fp) services 0 0 with
      | inl o => o
      | inr (restarted, unchanged) =>
          if (restarted =? length services)%nat then applied
          else if (unchanged =? length services)%nat then not_applied
          else needs_attention "part of the stack was restarted and part was not"
      end
  end.

(** The loop over the expected services: the first reason to stop, if any. *)
Fixpoint check_expected (byService : string → option ObservedRuntime) (revision : string)
    (names : list string) : option StackLifecycleOutcome :=
  match names with
  | [] => None
  | name :: rest =>
      match byService name with
      | None => Some (needs_attention (name +:+ " has no container on the host"))
      | Some service =>
          if bool_decide (dockerId service = None) then
            Some (needs_attention (name +:+ " has no container on the host"))
          else if bool_decide (revisionId service ≠ None) &&
                  bool_decide (revisionId service ≠ Some revision) then
            Some (needs_attention (name +:+ " is running another revision"))
          else check_expected byService revision rest
      end
  end.

Definition classifyStackLifecycle (input : StackLifecycleInput) : StackLifecycleOutcome :=
  if negb (snapshotComplete input) then unknown "the host was not read completely"
  else
    let byService := map_get serviceName (observed input) in
    match check_expected byService (deployedRevisionId input) (expectedServices input) with
    | Some outcome => outcome
    | None =>
        match List.filter (λ service, bool_decide (dockerId service ≠ None) &&
                 negb (mem (serviceName service) (expectedServices input))) (observed input) with
        | extra :: _ =>
            needs_attention ("the host holds " +:+ serviceName extra +:+
                             ", which this stack's revision does not describe")
        | [] =>
            let services := omap byService (expectedServices input) in
            let running := List.filter (λ service, isRunning (state service)) services in
            match operation input with
            | stop =>
                if (length running =? 0)%nat then applied
                else if (length running =? length services)%nat then not_applied
                else needs_attention "part of the stack is stopped and part is running"
            | start =>
                if (length running =? length services)%nat then applied
                else if (length running =? 0)%nat then not_applied
                else needs_attention "part of the stack is running and part is not"
            | restart => restartOutcome services (fingerprint input)
            end
        end
    end.

(** *** Specification *)

Definition service_of (input : StackLifecycleInput) (name : string) : option ObservedRuntime :=
  map_get serviceName (observed input) name.

(** The host was read completely and holds the containers of the deployed
    revision, one for every service it describes, and nothing else. *)
Definition deployed (input : StackLifecycleInput) : Prop :=
  snapshotComplete input = true ∧
  (∀ name, name ∈ expectedServices input → ∃ s, service_of input name = Some s ∧
     dockerId s ≠ None ∧ (revisionId s = None ∨ revisionId s = Some (deployedRevisionId input))) ∧
  (∀ s, s ∈ observed input → dockerId s ≠ None → serviceName s ∈ expectedServices input).

(** The service runs in the container it ran in before, with both start times
    known. *)
Definition comparable (fp : list ServiceFingerprint) (s : ObservedRuntime) (was at_ : time) : Prop :=
  state s = Some "running" ∧
  ∃ f, map_get fingerprint_serviceName fp (serviceName s) = Some f ∧
    Some (fingerprint_dockerId f) = dockerId s ∧
    fingerprint_startedAt f = Some was ∧ startedAt s = Some at_.

Definition every_service (input : StackLifecycleInput) (P : ObservedRuntime → Prop) : Prop :=
  ∀ name s, name ∈ expectedServices input → service_of input name = Some s → P s.

Definition reached (input : StackLifecycleInput) : Prop :=
  match operation input with
  | start => every_service input (λ s, state s = Some "running")
  | stop => every_service input (λ s, state s ≠ Some "running")
  | restart => ∃ fp, fingerprint input = Some fp ∧
      every_service input (λ s, ∃ was at_, comparable fp s was at_ ∧ (was < at_)%Z)
  end.

Definition untouched (input : StackLifecycleInput) : Prop :=
  match operation input with
  | start => every_service input (λ s, state s ≠ Some "running")
  | stop => every_service input (λ s, state s = Some "running")
  | restart => ∃ fp, fingerprint input = Some fp ∧
      every_service input (λ s, ∃ was at_, comparable fp s was at_ ∧ (at_ ≤ was)%Z)
  end.

Lemma check_expected_None byService revision names :
  check_expected byService revision names = None ↔
  ∀ name, name ∈ names → ∃ s, byService name = Some s ∧ dockerId s ≠ None ∧
    (revisionId s = None ∨ revisionId s = Some revision).
Proof.
  induction names as [|name names IH]; simpl.
  - split; [|done]. intros _ name H. by apply not_elem_of_nil in H.
  - setoid_rewrite elem_of_cons. destruct (byService name) as [s|] eqn:Es; [|naive_solver].
    repeat case_bool_decide; simpl; rewrite ?IH; naive_solver.
Qed.

Lemma filter_length_all {A} (p : A → bool) l :
  length (List.filter p l) = length l ↔ Forall (λ x, p x = true) l.
Proof.
  induction l as [|x l IH]; simpl; [done|]. rewrite Forall_cons, <-IH.
  pose proof (filter_length_le p l). destruct (p x); simpl; [|split; [lia|naive_solver]].
  split; [intros [=]; naive_solver|naive_solver].
Qed.

Lemma filter_length_none {A} (p : A → bool) l :
  length (List.filter p l) = 0 ↔ Forall (λ x, p x = false) l.
Proof.
  induction l as [|x l IH]; simpl; [done|]. rewrite Forall_cons, <-IH.
  destruct (p x); naive_solver.
Qed.

Lemma every_service_Forall input (P : ObservedRuntime → Prop) :
  every_service input P ↔
  Forall P (omap (map_get serviceName (observed input)) (expectedServices input)).
Proof.
  unfold every_service, service_of. rewrite Forall_forall. setoid_rewrite list_elem_of_omap.
  naive_solver.
Qed.

Definition comparable_with (before : string → option ServiceFingerprint) (s : ObservedRuntime)
    (was at_ : time) : Prop :=
  state s = Some "running" ∧
  ∃ f, before (serviceName s) = Some f ∧ Some (fingerprint_dockerId f) = dockerId s ∧
    fingerprint_startedAt f = Some was ∧ startedAt s = Some at_.

Definition restarted_since before (s : ObservedRuntime) : Prop :=
  ∃ was at_, comparable_with before s was at_ ∧ (was < at_)%Z.
Definition left_alone before (s : ObservedRuntime) : Prop :=
  ∃ was at_, comparable_with before s was at_ ∧ (at_ ≤ was)%Z.

Lemma restarted_not_left_alone before s : restarted_since before s → ¬ left_alone before s.
Proof.
  intros (w & a & (_ & f & H1 & H2 & H3 & H4) & Hl) (w' & a' & (_ & f' & H1' & H2' & H3' & H4') & Hl').
  simplify_eq. lia.
Qed.

(** One turn of the loop. *)
Lemma restart_loop_cons before s l r u :
  (∃ o, o ≠ applied ∧ o ≠ not_applied ∧ restart_loop before (s :: l) r u = inl o ∧
        ¬ restarted_since before s ∧ ¬ left_alone before s) ∨
  (restarted_since before s ∧ restart_loop before (s :: l) r u = restart_loop before l (S r) u) ∨
  (left_alone before s ∧ restart_loop before (s :: l) r u = restart_loop before l r (S u)).
Proof.
  simpl. unfold restarted_since, left_alone, comparable_with, isRunning.
  case_bool_decide as Hr; simpl; [|left; eexists; split_and!; [..|reflexivity| |]; naive_solver].
  destruct (before (serviceName s)) as [f|] eqn:Ef;
    [|left; eexists; split_and!; [..|reflexivity| |]; naive_solver].
  case_bool_decide as Hd; [left; eexists; split_and!; [..|reflexivity| |]; naive_solver|].
  destruct (fingerprint_startedAt f) as [was|] eqn:Ew, (startedAt s) as [at_|] eqn:Ea;
    try (left; eexists; split_and!; [..|reflexivity| |]; naive_solver).
  right. destruct (Z.ltb_spec was at_); [left|right]; (split; [|done]); naive_solver.
Qed.

Lemma restart_loop_spec before l r u :
  match restart_loop before l r u with
  | inl o => o ≠ applied ∧ o ≠ not_applied ∧
      ¬ Forall (restarted_since before) l ∧ ¬ Forall (left_alone before) l
  | inr (r', u') => ∃ n m, r' = r + n ∧ u' = u + m ∧ n + m = length l ∧
      (m = 0 ↔ Forall (restarted_since before) l) ∧ (n = 0 ↔ Forall (left_alone before) l)
  end.
Proof.
  revert r u. induction l as [|s l IH]; intros r u.
  { simpl. exists 0, 0. split_and!; try done; split; try done; intros _; constructor. }
  destruct (restart_loop_cons before s l r u) as [(o & H1 & H2 & -> & H3 & H4)|[[Hs ->]|[Hs ->]]];
    [rewrite !Forall_cons; naive_solver| |].
  - specialize (IH (S r) u). pose proof (restarted_not_left_alone _ _ Hs).
    destruct (restart_loop before l (S r) u) as [o|[r' u']]; [rewrite !Forall_cons; naive_solver|].
    destruct IH as (n & m & -> & -> & Hl & Hm & Hn). exists (S n), m. rewrite !Forall_cons. simpl.
    split_and!; [lia|lia|lia|naive_solver|naive_solver lia].
  - specialize (IH r (S u)).
    assert (¬ restarted_since before s) by (intros H; by apply (restarted_not_left_alone _ _ H)).
    destruct (restart_loop before l r (S u)) as [o|[r' u']]; [rewrite !Forall_cons; naive_solver|].
    destruct IH as (n & m & -> & -> & Hl & Hm & Hn). exists n, (S m). rewrite !Forall_cons. simpl.
    split_and!; [lia|lia|lia|naive_solver lia|naive_solver].
Qed.

Lemma restartOutcome_spec services fp :
  let before := map_get fingerprint_serviceName fp in
  (restartOutcome services (Some fp) = applied ↔ Forall (restarted_since before) services) ∧
  (restartOutcome services (Some fp) = not_applied ↔
     Forall (left_alone before) services ∧ ¬ Forall (restarted_since before) services).
Proof.
  intros before. unfold restartOutcome. fold before.
  pose proof (restart_loop_spec before services 0 0) as H.
  destruct (restart_loop before services 0 0) as [o|[r' u']]; [naive_solver|].
  destruct H as (n & m & -> & -> & Hl & Hm & Hn). simpl.
  destruct (Nat.eqb_spec n (length services)), (Nat.eqb_spec m (length services));
    rewrite <-Hm, <-Hn; (split; split; intros; destruct_and?; try done; lia).
Qed.

Lemma running_all services :
  length (List.filter (λ s, isRunning (state s)) services) = length services ↔
  Forall (λ s, state s = Some "running") services.
Proof. rewrite filter_length_all. unfold isRunning. by setoid_rewrite bool_decide_eq_true. Qed.

Lemma running_none services :
  length (List.filter (λ s, isRunning (state s)) services) = 0 ↔
  Forall (λ s, state s ≠ Some "running") services.
Proof. rewrite filter_length_none. unfold isRunning. by setoid_rewrite bool_decide_eq_false. Qed.

(** The conclusion once the host is known to hold the deployed revision. *)
Definition concluded (input : StackLifecycleInput) : StackLifecycleOutcome :=
  let services := omap (map_get serviceName (observed input)) (expectedServices input) in
  let running := List.filter (λ service, isRunning (state service)) services in
  match operation input with
  | start =>
      if (length running =? length services)%nat then applied
      else if (length running =? 0)%nat then not_applied
      else needs_attention "part of the stack is running and part is not"
  | stop =>
      if (length running =? 0)%nat then applied
      else if (length running =? length services)%nat then not_applied
      else needs_attention "part of the stack is stopped and part is running"
  | restart => restartOutcome services (fingerprint input)
  end.

Lemma concluded_spec input :
  (concluded input = applied ↔ reached input) ∧
  (concluded input = not_applied ↔ untouched input ∧ ¬ reached input).
Proof.
  unfold concluded, reached, untouched. cbv zeta.
  set (services := omap _ _).
  destruct (operation input); rewrite ?every_service_Forall; fold services;
    rewrite <-?running_all, <-?running_none.
  - destruct (Nat.eqb_spec (length (List.filter (λ s, isRunning (state s)) services)) (length services));
      [naive_solver|].
    destruct (Nat.eqb_spec (length (List.filter (λ s, isRunning (state s)) services)) 0); naive_solver.
  - destruct (Nat.eqb_spec (length (List.filter (λ s, isRunning (state s)) services)) 0);
      [naive_solver|].
    destruct (Nat.eqb_spec (length (List.filter (λ s, isRunning (state s)) services)) (length services));
      naive_solver.
  - destruct (fingerprint input) as [fp|]; [|simpl; naive_solver].
    destruct (restartOutcome_spec services fp) as [H1 H2]. rewrite H1, H2.
    setoid_rewrite every_service_Forall. fold services. split.
    + split; [intros H; by exists fp|]. by intros (fp' & [= <-] & H).
    + split.
      * intros [Ha Hb]. split; [by exists fp|]. by intros (fp' & [= <-] & H).
      * intros [(fp' & [= <-] & Ha) Hb]. split; [done|]. intros H. apply Hb. by exists fp.
Qed.

(** Starting, stopping and restarting a stack are judged exactly by what
    the host shows.  [applied] is answered exactly when the host holds the
    deployed revision and every service reached what was asked for: running
    for a start, not running for a stop, and for a restart running in the
    container it ran in before with a later start time than it had then;
    [not_applied] exactly when every service is still as it was; and a reading
    that was not complete concludes nothing. *)
Theorem classifyStackLifecycle_spec input :
  (classifyStackLifecycle input = applied ↔ deployed input ∧ reached input) ∧
  (classifyStackLifecycle input = not_applied ↔
     deployed input ∧ untouched input ∧ ¬ reached input) ∧
  (snapshotComplete input = false → ∃ reason, classifyStackLifecycle input = unknown reason).
Proof.
  unfold classifyStackLifecycle.
  destruct (snapshotComplete input) eqn:Ec; simpl; [|unfold deployed; rewrite Ec; naive_solver].
  destruct (check_expected _ _ _) as [o|] eqn:Ex.
  { assert (Hno : ¬ deployed input).
    { intros (_ & H & _). enough (check_expected (map_get serviceName (observed input))
        (deployedRevisionId input) (expectedServices input) = None) by congruence.
      by apply check_expected_None. }
    assert (o ≠ applied ∧ o ≠ not_applied).
    { revert Ex. generalize (expectedServices input). induction l as [|x l IH]; simpl; [done|].
      repeat case_match; naive_solver. }
    naive_solver. }
  rewrite check_expected_None in Ex.
  destruct (List.filter _ (observed input)) as [|extra l] eqn:Ee.
  2:{ assert (Hin : extra ∈ List.filter (λ service, bool_decide (dockerId service ≠ None) &&
                 negb (mem (serviceName service) (expectedServices input))) (observed input))
        by (rewrite Ee; by left).
      apply elem_of_filter_bool in Hin as [Hin [H1%bool_decide_eq_true H2]%andb_true_iff].
      apply negb_true_iff, bool_decide_eq_false in H2. unfold deployed. naive_solver. }
  assert (Hd : deployed input).
  { split_and!; [done|done|]. intros s Hs Hds.
    destruct (decide (serviceName s ∈ expectedServices input)) as [|Hn]; [done|exfalso].
    apply (not_elem_of_nil s). rewrite <-Ee. apply elem_of_filter_bool. split; [done|].
    unfold mem. rewrite bool_decide_eq_true_2, bool_decide_eq_false_2 by done. done. }
  destruct (concluded_spec input) as [H1 H2]. fold (concluded input).
  split_and!; [|by rewrite H2; naive_solver|done]. rewrite H1. naive_solver.
Qed.

Definition example_restart : StackLifecycleInput := {|
  operation := restart; deployedRevisionId := "r1"; expectedServices := ["web"];
  observed := [{| serviceName := "web"; containerId := "c1"; dockerId := Some "d1";
                  state := Some "running"; revisionId := Some "r1"; startedAt := Some 20%Z |}];
  fingerprint := Some [{| fingerprint_serviceName := "web"; fingerprint_containerId := "c1";
                          fingerprint_dockerId := "d1"; fingerprint_startedAt := Some 10%Z |}];
  snapshotComplete := true |}.

Example restart_is_seen : classifyStackLifecycle example_restart = applied.
Proof. reflexivity. Qed.

End Lifecycle.
