(* ===== verification/Base64.v ===== *)
(** * base64url, as [Buffer] writes and reads it

    [buffer.toString('base64url')] and [Buffer.from(s, 'base64url')] of Node's
    standard library, which the envelopes of [api/src/common/crypto.ts] are
    written with: six bits to a character, no padding; reading takes both
    alphabets and skips any other character. *)

From Stdlib Require Import Ascii String NArith ZArith Lia.
From stdpp Require Import gmap strings list.
From S2P Require Import Prelude.

Local Open Scope N_scope.

#[local] Ltac Zify.zify_post_hook ::= Z.to_euclidean_division_equations.

Definition alphabet : list ascii :=
  chars "ABCDEFGHIJKLMNOPQRSTUVWXYZabcdefghijklmnopqrstuvwxyz0123456789-_".

Definition char_of (n : N) : ascii := default "A"%char (alphabet !! N.to_nat n).

(** The six bits a character stands for; [+] and [/] are the standard
    alphabet's spelling of [-] and [_]. *)
Definition value_of (c : ascii) : option N :=
  let n := N_of_ascii c in
  if (65 <=? n) && (n <=? 90) then Some (n - 65)
  else if (97 <=? n) && (n <=? 122) then Some (n - 71)
  else if (48 <=? n) && (n <=? 57) then Some (n + 4)
  else if (n =? 45) || (n =? 43) then Some 62
  else if (n =? 95) || (n =? 47) then Some 63
  else None.

Definition byte (n : N) : ascii := ascii_of_N n.

Fixpoint encode (l : list ascii) : list ascii :=
  match l with
  | a :: b :: c :: rest =>
      let n := N_of_ascii a * 65536 + N_of_ascii b * 256 + N_of_ascii c in
      char_of (n / 262144) :: char_of (n / 4096 mod 64) ::
      char_of (n / 64 mod 64) :: char_of (n mod 64) :: encode rest
  | [a; b] =>
      let n := N_of_ascii a * 1024 + N_of_ascii b * 4 in
      [char_of (n / 4096); char_of (n / 64 mod 64); char_of (n mod 64)]
  | [a] =>
      let n := N_of_ascii a * 16 in [char_of (n / 64); char_of (n mod 64)]
  | [] => []
  end.

Fixpoint decode_values (l : list N) : list ascii :=
  match l with
  | w :: x :: y :: z :: rest =>
      let n := w * 262144 + x * 4096 + y * 64 + z in
      byte (n / 65536) :: byte (n / 256 mod 256) :: byte (n mod 256) :: decode_values rest
  | [w; x; y] =>
      let n := w * 4096 + x * 64 + y in [byte (n / 1024); byte (n / 4 mod 256)]
  | [w; x] => [byte ((w * 64 + x) / 16)]
  | _ => []
  end.

Definition decode (l : list ascii) : list ascii := decode_values (omap value_of l).

(** ** Reading back what was written *)

Lemma value_of_char_of n : n < 64 → value_of (char_of n) = Some n.
Proof.
  intros Hn.
  assert (H : forallb (λ n, bool_decide (value_of (char_of (N.of_nat n)) = Some (N.of_nat n))) (seq 0 64) = true)
    by (vm_compute; reflexivity).
  rewrite forallb_Forall, Forall_forall in H.
  specialize (H (N.to_nat n)). rewrite bool_decide_eq_true, N2Nat.id in H.
  apply H, elem_of_seq. lia.
Qed.

Lemma N_of_ascii_lt a : N_of_ascii a < 256.
Proof. apply N_ascii_bounded. Qed.

Lemma byte_of a n : n = N_of_ascii a → byte n = a.
Proof. intros ->. apply ascii_N_embedding. Qed.

(** Lists, three elements at a time. *)
Lemma list_ind_3 {A} (P : list A → Prop) :
  P [] → (∀ a, P [a]) → (∀ a b, P [a; b]) → (∀ a b c l, P l → P (a :: b :: c :: l)) → ∀ l, P l.
Proof.
  intros H0 H1 H2 H3. fix IH 1. intros [|a [|b [|c l]]]; [done|done|done|]. apply H3, IH.
Qed.

Lemma decode_encode l : decode (encode l) = l.
Proof.
  unfold decode. induction l as [|a|a b|a b c l IH] using list_ind_3; [done|..];
    pose proof (N_of_ascii_lt a); try pose proof (N_of_ascii_lt b); try pose proof (N_of_ascii_lt c);
    cbn [encode omap list_omap]; rewrite ?value_of_char_of by lia; cbn [decode_values];
    rewrite ?IH; repeat f_equal; apply byte_of; lia.
Qed.

Lemma encode_nil l : encode l = [] ↔ l = [].
Proof. by destruct l as [|a [|b [|c l]]]. Qed.

(** No character of the alphabet separates the parts of an envelope. *)
Lemma char_of_ne_dot n : char_of n ≠ "."%char.
Proof.
  unfold char_of. destruct (alphabet !! N.to_nat n) as [c|] eqn:E; [|done]. simpl.
  assert (H : forallb (λ c, negb (bool_decide (c = "."%char))) alphabet = true) by reflexivity.
  rewrite forallb_Forall, Forall_forall in H.
  apply list_elem_of_lookup_2 in E. specialize (H c E).
  by apply negb_true_iff, bool_decide_eq_false in H.
Qed.

Lemma encode_no_dot l : "."%char ∉ encode l.
Proof.
  induction l as [|a|a b|a b c l IH] using list_ind_3; simpl; [apply not_elem_of_nil|..];
    rewrite ?elem_of_cons, ?list_elem_of_nil;
    intros H; repeat (destruct H as [H|H]; [by eapply char_of_ne_dot|]); try done;
    by apply not_elem_of_nil in H.
Qed.
