(* ===== verification/Environment.v ===== *)
(** * Secrets and environments

    [SecretBox] of [api/src/common/crypto.ts], the environment of a container
    configuration ([api/src/containers/desired-config.ts]) and of a stack
    revision ([api/src/stacks/stack-environment.ts]).

    AES-256-GCM and the random source are Node's and are parameters, with what
    is documented of them: what was encrypted under a key and an initialisation
    vector decrypts under the same ones, and an initialisation vector has twelve
    bytes, a tag sixteen and a ciphertext as many as the plaintext.  Text is
    its UTF-8 bytes. *)

From Stdlib Require Import Ascii String NArith ZArith.
From stdpp Require Import gmap strings list pretty.
From S2P Require Import Prelude Schema Store Registry Effects Logic Base64.

Class AesGcm := {
  aes_encrypt : list ascii → list ascii → list ascii → list ascii * list ascii;
  aes_decrypt : list ascii → list ascii → list ascii → list ascii → option (list ascii);
  random_iv : N → list ascii;
  aes_roundtrip key iv plain :
    let '(ct, tag) := aes_encrypt key iv plain in aes_decrypt key iv ct tag = Some plain;
  aes_ciphertext_length key iv plain : length (aes_encrypt key iv plain).1 = length plain;
  aes_tag_length key iv plain : length (aes_encrypt key iv plain).2 = 16;
  random_iv_length n : length (random_iv n) = 12
}.

(** ** SecretBox *)

Section secret_box.
Context `{AesGcm} (key : list ascii).

(** [encrypt(plaintext)] with the vector it drew. *)
Definition encrypt (iv : list ascii) (plaintext : string) : string :=
  let '(ct, tag) := aes_encrypt key iv (chars plaintext) in
  text (join_with "." [chars "v1"; encode iv; encode tag; encode ct]).

(** [decrypt(envelope)]; [None] is the error it throws. *)
Definition decrypt (envelope : string) : option string :=
  let parts := split_on "." (chars envelope) in
  match parts !! 0, parts !! 1, parts !! 2, parts !! 3 with
  | Some version, Some iv, Some tag, Some ct =>
      if bool_decide (version ≠ chars "v1") || bool_decide (iv = []) ||
         bool_decide (tag = []) || bool_decide (ct = [])
      then None
      else text <$> aes_decrypt key (decode iv) (decode ct) (decode tag)
  | _, _, _, _ => None
  end.

Lemma encrypt_split iv plaintext ct tag :
  aes_encrypt key iv (chars plaintext) = (ct, tag) →
  split_on "." (chars (encrypt iv plaintext)) = [chars "v1"; encode iv; encode tag; encode ct].
Proof.
  intros E. unfold encrypt. rewrite E, chars_text. apply split_join; [done|].
  repeat constructor; try apply encode_no_dot. by apply (bool_decide_unpack _).
Qed.

Lemma decrypt_encrypt iv plaintext :
  iv ≠ [] → plaintext ≠ "" → decrypt (encrypt iv plaintext) = Some plaintext.
Proof.
  intros Hiv Hp. destruct (aes_encrypt key iv (chars plaintext)) as [ct tag] eqn:E.
  unfold decrypt. rewrite (encrypt_split _ _ _ _ E). simpl.
  pose proof (aes_ciphertext_length key iv (chars plaintext)) as Hct.
  pose proof (aes_tag_length key iv (chars plaintext)) as Htag.
  pose proof (aes_roundtrip key iv (chars plaintext)) as Hrt.
  rewrite E in Hct, Htag, Hrt. simpl in *.
  rewrite !bool_decide_eq_false_2; simpl.
  - rewrite !decode_encode, Hrt. simpl. by rewrite text_chars.
  - intros ->%encode_nil. by destruct plaintext.
  - intros ->%encode_nil. done.
  - by intros ->%encode_nil.
Qed.

(** The empty text has an empty ciphertext, and an envelope without one is
    refused. *)
Lemma decrypt_encrypt_empty iv : decrypt (encrypt iv "") = None.
Proof.
  destruct (aes_encrypt key iv (chars "")) as [ct tag] eqn:E.
  unfold decrypt. rewrite (encrypt_split _ _ _ _ E). simpl.
  pose proof (aes_ciphertext_length key iv []) as Hct. simpl in E. rewrite E in Hct. simpl in Hct.
  apply nil_length_inv in Hct as ->. simpl.
  by rewrite orb_true_r.
Qed.
End secret_box.

(** ** Environments *)

(** One entry of a request: what is done to one variable. *)
Inductive EnvironmentChange :=
  | Set_value (key value : string)
  | Set_secret (key value : string)
  | Unchanged (key : string)
  | Remove (key : string).

Record StoredVariable := {
  variable_key : string;
  variable_value : option string;
  variable_valueEncrypted : option string;
  variable_isSecret : bool
}.

(** A stored row, of a container or of a stack revision. *)
Definition of_container_row (r : ContainerVariable) : StoredVariable := {|
  variable_key := conenv_key r; variable_value := conenv_value r;
  variable_valueEncrypted := conenv_valueEncrypted r; variable_isSecret := conenv_isSecret r |}.
Definition of_revision_row (r : StackRevisionVariable) : StoredVariable := {|
  variable_key := revenv_key r; variable_value := revenv_value r;
  variable_valueEncrypted := revenv_valueEncrypted r; variable_isSecret := revenv_isSecret r |}.

(** The variable of the previous configuration, by key. *)
Definition carried (previous : list StoredVariable) : string → option StoredVariable :=
  map_get variable_key previous.

Section environment.
Context `{AesGcm} (box : list ascii).

Definition randomIv : M (list ascii) := λ w,
  (inr (random_iv (w_seed w)), w <| w_seed := (w_seed w + 1)%N |>).

(** One turn of the loop both functions share; [code] is the error an
    unchanged variable that does not exist is refused with. *)
Definition resolve_entry (code : string) (previous : list StoredVariable)
    (entry : EnvironmentChange) : M (list StoredVariable) :=
  match entry with
  | Set_value key value =>
      mret [{| variable_key := key; variable_value := Some value;
               variable_valueEncrypted := None; variable_isSecret := false |}]
  | Set_secret key value =>
      iv ← randomIv;
      mret [{| variable_key := key; variable_value := None;
               variable_valueEncrypted := Some (encrypt box iv value);
               variable_isSecret := true |}]
  | Unchanged key =>
      match carried previous key with
      | None => throw (AppError code BAD_REQUEST)
      | Some existing => mret [existing]
      end
  | Remove _ => mret []
  end.

Fixpoint resolve_entries (code : string) (previous : list StoredVariable)
    (entries : list EnvironmentChange) : M (list StoredVariable) :=
  match entries with
  | [] => mret []
  | entry :: rest =>
      v ← resolve_entry code previous entry;
      vs ← resolve_entries code previous rest;
      mret (v ++ vs)
  end.

(** [desired-config.ts] *)
Definition resolveEnvironment (entries : list EnvironmentChange)
    (previous : list ContainerVariable) : M (list StoredVariable) :=
  resolve_entries "INVALID_CONTAINER_SPEC" (of_container_row <$> previous) entries.

Fixpoint no_repeats (seen : gset string) (l : list StoredVariable) : M unit :=
  match l with
  | [] => mret tt
  | v :: l' =>
      if bool_decide (variable_key v ∈ seen)
      then throw (AppError "STACK_CONFIGURATION_INVALID" BAD_REQUEST)
      else no_repeats ({[variable_key v]} ∪ seen) l'
  end.

(** [stack-environment.ts] *)
Definition resolveStackEnvironment (changes : list EnvironmentChange)
    (previous : list StackRevisionVariable) : M (list StoredVariable) :=
  resolved ← resolve_entries "STACK_CONFIGURATION_INVALID" (of_revision_row <$> previous) changes;
  no_repeats ∅ resolved;;
  mret resolved.

(** The variables of [specFor]: what the agent is given.  [None] is an
    envelope [decrypt] refuses. *)
Definition env_value (v : StoredVariable) : option string :=
  if variable_isSecret v then e ← variable_valueEncrypted v; decrypt box e
  else Some (variable_value v ?? "").

Fixpoint spec_env (vs : list StoredVariable) : option (list (string * string)) :=
  match vs with
  | [] => Some []
  | v :: vs' => x ← env_value v; xs ← spec_env vs'; Some ((variable_key v, x) :: xs)
  end.
End environment.

(** The rest of the specification [specFor] builds from a configuration row:
    what is falsy or empty is left out. *)
Record ContainerSpec := {
  spec_name : string;
  spec_image : string;
  spec_hostname : option string;
  spec_command : option (list string);
  spec_entrypoint : option (list string);
  spec_environment : list (string * string);
  spec_ports : list json;
  spec_mounts : list json;
  spec_networks : list string;
  spec_restartPolicy : string;
  spec_labels : list (string * string);
  spec_healthcheck : option json
}.

Definition specFor `{AesGcm} (box : list ascii) (name : string) (config : DesiredConfig)
    (environment : list ContainerVariable) : option ContainerSpec :=
  env ← spec_env box (of_container_row <$> environment);
  Some {|
    spec_name := name;
    spec_image := config_image config;
    spec_hostname := if truthy (config_hostname config) then config_hostname config else None;
    spec_command := nonempty (config_command config);
    spec_entrypoint := nonempty (config_entrypoint config);
    spec_environment := env;
    spec_ports := config_ports config;
    spec_mounts := config_mounts config;
    spec_networks := config_networks config;
    spec_restartPolicy := config_restartPolicy config;
    spec_labels := config_labels config;
    spec_healthcheck := config_healthcheck config |}.

(** [presentEnvironment]: what an operator may see. *)
Definition presentEnvironment (environment : list ContainerVariable) :
    list (string * bool * option string) :=
  (λ v, (conenv_key v, conenv_isSecret v,
         if conenv_isSecret v then None else Some (conenv_value v ?? ""))) <$> environment.

(** ** Theorems *)

(** What the box encrypts it decrypts, and what it encrypts is never the
    empty text.  For every key and every vector the random source gives, a
    non-empty text comes back exactly; the empty text does not come back at
    all, since its envelope has no ciphertext part and such an envelope is
    refused. *)
Theorem secret_box_roundtrip `{AesGcm} key n plaintext :
  decrypt key (encrypt key (random_iv n) plaintext) =
    if bool_decide (plaintext = "") then None else Some plaintext.
Proof.
  case_bool_decide as Hp; [subst plaintext; apply decrypt_encrypt_empty|].
  apply decrypt_encrypt; [|done]. intros E. pose proof (random_iv_length n) as Hl. by rewrite E in Hl.
Qed.

Section resolve.
Context `{AesGcm} (box : list ascii).

(** What one entry contributes, given the world it is resolved in. *)
Definition entry_resolves (previous : list StoredVariable) (entry : EnvironmentChange)
    (vs : list StoredVariable) : Prop :=
  match entry with
  | Set_value key value =>
      vs = [{| variable_key := key; variable_value := Some value;
               variable_valueEncrypted := None; variable_isSecret := false |}]
  | Set_secret key value => ∃ n,
      vs = [{| variable_key := key; variable_value := None;
               variable_valueEncrypted := Some (encrypt box (random_iv n) value);
               variable_isSecret := true |}]
  | Unchanged key => ∃ existing, carried previous key = Some existing ∧ vs = [existing]
  | Remove _ => vs = []
  end.

Lemma resolve_entry_inr code previous entry w vs w' :
  resolve_entry box code previous entry w = (inr vs, w') → entry_resolves previous entry vs.
Proof.
  destruct entry; simpl; intros E.
  - by apply ret_inr in E as [-> ->].
  - apply bind_inr in E as (iv & w1 & E1 & [-> ->]%ret_inr). unfold randomIv in E1. simplify_eq.
    by eexists.
  - case_match; [|done]. apply ret_inr in E as [-> ->]. by eexists.
  - by apply ret_inr in E as [-> ->].
Qed.

Lemma resolve_entries_inr code previous entries w vs w' :
  resolve_entries box code previous entries w = (inr vs, w') →
  ∃ parts, Forall2 (entry_resolves previous) entries parts ∧ vs = concat parts.
Proof.
  revert w vs w'. induction entries as [|entry entries IH]; simpl; intros w vs w' E.
  - apply ret_inr in E as [-> ->]. by exists [].
  - apply bind_inr in E as (v & w1 & E1 & E). apply bind_inr in E as (vs' & w2 & E2 & E).
    apply ret_inr in E as [-> ->]. apply resolve_entry_inr in E1.
    apply IH in E2 as (parts & Hp & ->). exists (v :: parts). by split; [constructor|].
Qed.

(** Resolving touches nothing but the random source. *)
Lemma resolve_entries_framed R `{!Frame R} code previous entries :
  framed R (resolve_entries box code previous entries).
Proof.
  induction entries as [|e entries IH]; simpl; [apply framed_ret, _|].
  apply framed_bind; [apply _| |intros v; apply framed_bind; [apply _|done|intros; apply framed_ret, _]].
  destruct e; simpl; try (apply framed_ret, _).
  - intros w. unfold mbind, M_bind, randomIv. simpl. apply frame_seed.
  - case_match; [apply framed_ret, _|apply framed_throw, _].
Qed.

(** The entries without an unchanged one that has nothing to carry always
    resolve: nothing else can refuse them. *)
Lemma resolve_entries_total code previous entries w :
  (∀ key, Unchanged key ∈ entries → is_Some (carried previous key)) →
  ∃ vs w', resolve_entries box code previous entries w = (inr vs, w').
Proof.
  revert w. induction entries as [|entry entries IH]; simpl; intros w Hc; [by eexists _, _|].
  assert (He : ∃ v w1, resolve_entry box code previous entry w = (inr v, w1)).
  { destruct entry as [| |key|]; simpl; [by eexists _, _..| |by eexists _, _].
    destruct (Hc key) as [x ->]; [by left|]. by eexists _, _. }
  destruct He as (v & w1 & E1). rewrite (run_bind _ _ _ _ _ E1).
  destruct (IH w1) as (vs & w2 & E2); [intros; apply Hc; by right|].
  rewrite (run_bind _ _ _ _ _ E2). by eexists _, _.
Qed.
End resolve.

(** A variable is stored the way the database requires: a secret as an envelope
    and nothing else, any other as its value and no envelope. *)
Definition stored_ok (v : StoredVariable) : Prop :=
  if variable_isSecret v then variable_value v = None ∧ is_Some (variable_valueEncrypted v)
  else is_Some (variable_value v) ∧ variable_valueEncrypted v = None.

Section agent_view.
Context `{AesGcm} (box : list ascii).

(** What the request means for the agent: every value as it was given, an
    unchanged one as it was stored. *)
Fixpoint agent_view (previous : list StoredVariable) (entries : list EnvironmentChange) :
    option (list (string * string)) :=
  match entries with
  | [] => Some []
  | Set_value key value :: rest | Set_secret key value :: rest =>
      xs ← agent_view previous rest; Some ((key, value) :: xs)
  | Unchanged key :: rest =>
      existing ← carried previous key;
      x ← env_value box existing;
      xs ← agent_view previous rest; Some ((key, x) :: xs)
  | Remove _ :: rest => agent_view previous rest
  end.

Lemma agent_view_spec_env previous entries parts :
  (∀ key value, Set_secret key value ∈ entries → value ≠ "") →
  Forall2 (entry_resolves box previous) entries parts →
  spec_env box (concat parts) = agent_view previous entries.
Proof.
  intros Hne Hp. induction Hp as [|entry vs entries parts He Hp IH]; [done|].
  specialize (IH ltac:(intros; eapply Hne; by right)).
  destruct entry as [k v|k v|k|k]; simpl in *.
  - subst vs. simpl. by rewrite IH.
  - destruct He as [n ->]. simpl. unfold env_value. simpl.
    pose proof (random_iv_length n) as Hl.
    rewrite decrypt_encrypt; [simpl; by rewrite IH| |by eapply (Hne k); left].
    intros E. by rewrite E in Hl.
  - destruct He as (existing & Hc & ->). rewrite Hc. simpl. rewrite IH.
    by apply map_get_Some in Hc as [_ ->].
  - subst vs. simpl. done.
Qed.

Lemma entry_resolves_stored_ok previous entry vs :
  Forall stored_ok previous → entry_resolves box previous entry vs → Forall stored_ok vs.
Proof.
  intros Hprev. destruct entry; simpl; [intros ->|intros [n ->]|intros (e & Hc & ->)|intros ->];
    repeat constructor; simpl; eauto.
  apply map_get_Some in Hc as [He _]. by rewrite Forall_forall in Hprev; apply Hprev.
Qed.

(** Resolving a configuration's environment.  When every new secret is
    non-empty and every variable marked unchanged exists, the request is
    accepted, touches no row of the database, stores every secret as an
    envelope and nothing else, and what the agent is later given is exactly
    what was asked for: each new value as it was sent, each unchanged one as
    it was stored. *)
Theorem resolveEnvironment_correct entries previous w :
  (∀ key value, Set_secret key value ∈ entries → value ≠ "") →
  (∀ key, Unchanged key ∈ entries → ∃ r, r ∈ previous ∧ conenv_key r = key) →
  Forall stored_ok (of_container_row <$> previous) →
  ∃ vs w', resolveEnvironment box entries previous w = (inr vs, w') ∧
    Forall stored_ok vs ∧
    spec_env box vs = agent_view (of_container_row <$> previous) entries.
Proof.
  intros Hsec Hun Hok. unfold resolveEnvironment.
  destruct (resolve_entries_total box "INVALID_CONTAINER_SPEC" (of_container_row <$> previous)
              entries w) as (vs & w' & E).
  { intros key Hk. destruct (Hun key Hk) as (r & Hr & <-).
    eapply map_get_is_Some; [by apply list_elem_of_fmap_2|done]. }
  exists vs, w'. split; [done|].
  apply resolve_entries_inr in E as (parts & Hp & ->). split; [|by apply agent_view_spec_env].
  clear Hsec Hun. induction Hp as [|entry v entries parts He Hp IH]; simpl; [constructor|].
  apply Forall_app. split; [by apply (entry_resolves_stored_ok _ entry _ Hok He)|done].
Qed.
End agent_view.

(** An operator is never shown a secret.  The environment as presented is
    the same for any two configurations that agree on which variables there
    are, which of them are secret, and the values of those that are not:
    nothing of an envelope, not even its length, reaches the answer. *)
Theorem presentEnvironment_hides_secrets (a b : list ContainerVariable) :
  Forall2 (λ x y, conenv_key x = conenv_key y ∧ conenv_isSecret x = conenv_isSecret y ∧
                  (conenv_isSecret x = false → conenv_value x = conenv_value y)) a b →
  presentEnvironment a = presentEnvironment b.
Proof.
  induction 1 as [|x y a b (Hk & Hs & Hv) _ IH]; [done|].
  unfold presentEnvironment in *. rewrite !fmap_cons, IH, Hk, <-Hs. f_equal.
  destruct (conenv_isSecret x); [done|]. by rewrite Hv.
Qed.

(** *** Witnesses, with a cipher that satisfies what is assumed of one *)

(** Not a cipher to use: the plaintext itself and a constant tag. *)
#[local] Program Instance clear_cipher : AesGcm := {|
  aes_encrypt _ _ plain := (plain, replicate 16 "t"%char);
  aes_decrypt _ _ ct _ := Some ct;
  random_iv _ := replicate 12 "i"%char
|}.
Solve All Obligations with done.

Lemma secret_box_roundtrip_witness :
  decrypt (chars "k") (encrypt (chars "k") (random_iv 7) "hunter2") = Some "hunter2".
Proof. rewrite secret_box_roundtrip. reflexivity. Defined.

Definition example_row (key : string) (secret : bool) (v : string) : ContainerVariable := {|
  conenv_id := key; conenv_desiredConfigId := "cfg"; conenv_key := key;
  conenv_value := if secret then None else Some v;
  conenv_valueEncrypted := if secret then Some v else None; conenv_isSecret := secret |}.

Lemma resolveEnvironment_correct_witness :
  ∃ vs w', resolveEnvironment [] [Set_value "A" "1"; Set_secret "B" "hunter2"; Unchanged "C"]
    [example_row "C" false "3"] (quiet_world empty_db) = (inr vs, w') ∧
    spec_env [] vs = Some [("A", "1"); ("B", "hunter2"); ("C", "3")].
Proof.
  destruct (resolveEnvironment_correct []
    [Set_value "A" "1"; Set_secret "B" "hunter2"; Unchanged "C"] [example_row "C" false "3"]
    (quiet_world empty_db)) as (vs & w' & E & _ & Hs).
  - intros k v Hin. set_unfold in Hin. naive_solver.
  - intros k Hin. exists (example_row "C" false "3").
    assert (k = "C") as -> by (set_unfold in Hin; naive_solver). split; [by left|done].
  - repeat constructor. by eexists.
  - exists vs, w'. split; [exact E|]. rewrite Hs. reflexivity.
Defined.

Lemma presentEnvironment_hides_secrets_witness :
  presentEnvironment [example_row "B" true "v1.aaaa.bbbb.cc"] =
  presentEnvironment [example_row "B" true "v1.dddd.eeee.ffffffff"].
Proof. apply presentEnvironment_hides_secrets. by repeat constructor. Defined.
