(* ===== verification/Discovery.v ===== *)
(** * Discovery

    [api/src/discovery/discovery.service.ts]: asking one agent for its host's
    inventory, metrics, containers and Compose projects, writing what it
    answered, and removing what a complete pass did not see. *)

From Stdlib Require Import Ascii String NArith ZArith.
From stdpp Require Import gmap strings list pretty.
From S2P Require Import Prelude Schema Store Registry Effects Logic.

(** ** Labels and their shapes *)

Definition DOCKPLANE_CONTAINER_ID := "io.dockplane.container-id".
Definition DOCKPLANE_MANAGED := "io.dockplane.managed".
Definition DOCKPLANE_DESIRED_CONFIG_ID := "io.dockplane.desired-config-id".
Definition DOCKPLANE_STACK_ID := "io.dockplane.stack-id".
Definition DOCKPLANE_STACK_SERVICE := "io.dockplane.stack-service".
Definition DOCKPLANE_STACK_REVISION_ID := "io.dockplane.stack-revision-id".

Definition is_alnum (c : ascii) : bool := is_digit c || is_alpha c.

(** [/^[a-zA-Z0-9][a-zA-Z0-9_.-]{0,63}$/] *)
Definition SERVICE_NAME (s : string) : bool :=
  match chars s with
  | [] => false
  | c :: rest =>
      is_alnum c && (length rest <=? 63)%nat &&
      forallb (λ c, is_alnum c || mem c ["_"%char; "."%char; "-"%char]) rest
  end.

Definition is_hex (c : ascii) : bool :=
  is_digit c || mem (lower_ascii c) (chars "abcdef").

(** [/^[0-9a-f]{8}-[0-9a-f]{4}-[0-9a-f]{4}-[0-9a-f]{4}-[0-9a-f]{12}$/i] *)
Definition UUID (s : string) : bool :=
  match split_on "-" (chars s) with
  | [a; b; c; d; e] =>
      forallb (forallb is_hex) [a; b; c; d; e] &&
      bool_decide ((length <$> [a; b; c; d; e]) = [8; 4; 4; 4; 12])
  | _ => false
  end.

(** ** What a container says it is *)

Record StackClaim := {
  claim_stackId : option string;
  claim_stackService : option string;
  claim_stackRevisionId : option string
}.

Definition no_claim : StackClaim :=
  {| claim_stackId := None; claim_stackService := None; claim_stackRevisionId := None |}.

Definition observedConfig (item : ContainerSummary) : option string :=
  if bool_decide (item_labels item !! DOCKPLANE_MANAGED ≠ Some "true") then None
  else
    let claimed := item_labels item !! DOCKPLANE_DESIRED_CONFIG_ID in
    if negb (truthy claimed) then None
    else if negb (UUID (claimed ?? "")) then None
    else claimed.

Definition observedStack (item : ContainerSummary) : StackClaim :=
  if bool_decide (item_labels item !! DOCKPLANE_MANAGED ≠ Some "true") then no_claim
  else
    let stackId := item_labels item !! DOCKPLANE_STACK_ID in
    let service := item_labels item !! DOCKPLANE_STACK_SERVICE in
    if negb (truthy stackId) && negb (truthy service) then no_claim
    else if negb (truthy stackId) || negb (truthy service) ||
            negb (UUID (stackId ?? "")) || negb (SERVICE_NAME (service ?? "")) then no_claim
    else
      let revision := item_labels item !! DOCKPLANE_STACK_REVISION_ID in
      {| claim_stackId := stackId; claim_stackService := service;
         claim_stackRevisionId :=
           if truthy revision && UUID (revision ?? "") then revision else None |}.

(** [`${stackId}\u0000${service}`] *)
Definition serviceKey (stackId service : string) : string :=
  stackId +:+ String "000" service.

(** Which service is attributed, and the claims of the pass after it. *)
Definition attributeToStack (item : ContainerSummary) (rowId : option string)
    (known : gset string) (heldBy : gmap string string) : StackClaim * gmap string string :=
  let claim := observedStack item in
  match claim_stackId claim, claim_stackService claim with
  | Some stackId, Some service =>
      if negb (bool_decide (stackId ∈ known)) then (no_claim, heldBy)
      else
        let key := serviceKey stackId service in
        let holder := heldBy !! key in
        if truthy holder && bool_decide (holder ≠ rowId) then (no_claim, heldBy)
        else
          (claim, <[key := rowId ?? ("docker:" +:+ (item_dockerId item ?? ""))]> heldBy)
  | _, _ => (claim, heldBy)
  end.

Definition emit (hostId type : string) (severity : Severity) (resource : string) : M unit :=
  events_record (Some hostId) type severity resource None.

Definition recordFailure (hostId capability : string) : M unit :=
  emit hostId "inventory.sync.failed" Severity_warning ("capability:" +:+ capability).

(** ** Host *)

Definition joinOs (os version : option string) : option string :=
  if truthy os then
    if truthy version then Some ((os ?? "") +:+ " " +:+ (version ?? "")) else os
  else None.

Definition changedInventory (previous : option Host) (inventory : HostInventory) : bool :=
  match previous with
  | None => true
  | Some p =>
      bool_decide (host_os p ≠ joinOs (inventory_os inventory) (inventory_osVersion inventory)) ||
      bool_decide (host_kernel p ≠ inventory_kernel inventory) ||
      bool_decide (host_dockerVersion p ≠ inventory_dockerVersion inventory)
  end.

(** [a ?? b] where both may be absent. *)
Definition or_null {A} (a b : option A) : option A :=
  match a with Some _ => a | None => b end.

Definition optional_field (name : string) (v : option json) : list (string * json) :=
  match v with Some x => [(name, x)] | None => [] end.

(** The row after an inventory; [previous] is the row read just before. *)
Definition inventory_row (inventory : HostInventory) (agentVersion : option string)
    (previous : option Host) (now_ observed_ : time) (h : Host) : Host :=
  h <| host_hostname := or_truthy (or_truthy (inventory_hostname inventory) (host_hostname <$> previous))
         (Some "unidentified-host") ?? "" |>
    <| host_os := or_null (joinOs (inventory_os inventory) (inventory_osVersion inventory))
         (p ← previous; host_os p) |>
    <| host_architecture := or_null (inventory_architecture inventory)
         (p ← previous; host_architecture p) |>
    <| host_kernel := or_null (inventory_kernel inventory) (p ← previous; host_kernel p) |>
    <| host_dockerVersion := or_truthy (or_truthy (inventory_dockerVersion inventory)
         (p ← previous; host_dockerVersion p)) None |>
    <| host_agentVersion := or_null (or_null (inventory_agentVersion inventory) agentVersion)
         (p ← previous; host_agentVersion p) |>
    <| host_metadata := Some (JObject (
         optional_field "cpuCount" (JNumber <$> inventory_cpuCount inventory) ++
         optional_field "cpuModel" (JString <$> inventory_cpuModel inventory) ++
         optional_field "memoryTotalBytes" (JNumber <$> inventory_memoryTotalBytes inventory) ++
         optional_field "uptimeSeconds" (JNumber <$> inventory_uptimeSeconds inventory))) |>
    <| host_observedAt := Some observed_ |>
    <| host_lastSeenAt := Some now_ |>.

Definition applyInventory (hostId : string) (inventory : HostInventory)
    (agentVersion : option string) : M unit :=
  now_ ← now;
  let observed_ := inventory_observedAt inventory ?? now_ in
  previous ← select_id (R := Host) hostId;
  update_id (R := Host) hostId (inventory_row inventory agentVersion previous now_ observed_);;
  when (changedInventory previous inventory)
    (emit hostId "host.inventory.updated" Severity_info ("host:" +:+ hostId)).

Definition applyMetrics (hostId : string) (metrics : json) : M unit :=
  now_ ← now;
  update_id (R := Host) hostId
    (λ h, h <| host_metrics := Some metrics |> <| host_lastSeenAt := Some now_ |>);;
  mret tt.

(** ** Containers *)

(** Whether a mutation owns a resource: [inFlightResources?.has(id) ?? false]. *)
Definition mutating (containerId : string) : M bool :=
  w ← world;
  mret (match w_inFlight w with
        | Some resources => bool_decide (containerId ∈ resources)
        | None => false
        end).

Definition registerInFlight (resources : gset string) : M unit := λ w,
  (inr tt, w <| w_inFlight := Some resources |>).

Definition keep (containerId snapshotId : string) (observedAt : time) : M unit :=
  update_id (R := Container) containerId
    (λ r, r <| container_snapshotId := Some snapshotId |>
            <| container_observedAt := observedAt |>);;
  mret tt.

Definition recordIdentityConflict (containerId : string) (dockerIds : list string) : M unit :=
  at_ ← now;
  update_id (R := Container) containerId
    (λ r, r <| container_identityConflict := Some
              {| conflict_dockerIds := dockerIds; conflict_observedAt := at_ |} |>);;
  mret tt.

(** Ensures a project row exists so a container can reference it. *)
Definition projectId (hostId projectName snapshotId : string) (observedAt : time) : M string :=
  existing ← select_first (λ p : ComposeProject,
    bool_decide (project_hostId p = hostId) && bool_decide (project_projectName p = projectName));
  match existing with
  | Some p => mret (project_id p)
  | None =>
      id ← randomUUID;
      insert_into {|
        project_id := id; project_hostId := hostId; project_projectName := projectName;
        project_workingDir := None; project_configFiles := None; project_status := "unknown";
        project_serviceCount := 0; project_runningCount := 0; project_services := None;
        project_detailObservedAt := None; project_snapshotId := Some snapshotId;
        project_observedAt := observedAt |};;
      mret id
  end.

Definition identity_of (item : ContainerSummary) : option string :=
  item_labels item !! DOCKPLANE_CONTAINER_ID.

(** [claimed.get(identity) ?? []]: the Docker ids reported with that label. *)
Definition claimed_ids (reported : list ContainerSummary) (identity : string) : list string :=
  omap (λ item,
    if truthy (identity_of item) && truthy (item_dockerId item) &&
       bool_decide (identity_of item = Some identity)
    then item_dockerId item else None) reported.

(** The columns one reported container sets. *)
Record ContainerValues := {
  values_hostId : string;
  values_dockerId : string;
  values_observedDesiredConfigId : option string;
  values_claim : StackClaim;
  values_name : string;
  values_image : string;
  values_imageId : option string;
  values_state : string;
  values_health : string;
  values_composeProjectId : option string;
  values_dockerCreatedAt : option time;
  values_metadata : json;
  values_snapshotId : string;
  values_observedAt : time
}.

Definition set_values (v : ContainerValues) (r : Container) : Container :=
  r <| container_hostId := values_hostId v |>
    <| container_dockerId := Some (values_dockerId v) |>
    <| container_observedDesiredConfigId := values_observedDesiredConfigId v |>
    <| container_stackId := claim_stackId (values_claim v) |>
    <| container_stackService := claim_stackService (values_claim v) |>
    <| container_stackRevisionId := claim_stackRevisionId (values_claim v) |>
    <| container_name := values_name v |>
    <| container_image := values_image v |>
    <| container_imageId := values_imageId v |>
    <| container_state := values_state v |>
    <| container_health := values_health v |>
    <| container_composeProjectId := values_composeProjectId v |>
    <| container_dockerCreatedAt := values_dockerCreatedAt v |>
    <| container_metadata := Some (values_metadata v) |>
    <| container_snapshotId := Some (values_snapshotId v) |>
    <| container_observedAt := values_observedAt v |>.

(** The columns an insert does not mention take their defaults. *)
Definition new_container (id : string) (v : ContainerValues) : Container :=
  set_values v {|
    container_id := id; container_hostId := ""; container_dockerId := None;
    container_name := ""; container_image := ""; container_imageId := None;
    container_state := ""; container_health := "none"; container_restartCount := 0;
    container_composeProjectId := None; container_stackId := None;
    container_stackService := None; container_stackRevisionId := None;
    container_dockerCreatedAt := None; container_startedAt := None;
    container_metadata := None; container_detail := None; container_detailObservedAt := None;
    container_identityConflict := None; container_observedDesiredConfigId := None;
    container_snapshotId := None; container_observedAt := 0%Z |}.

(** What a pass reads before it starts. *)
Record ContainerPass := {
  pass_hostId : string;
  pass_snapshotId : string;
  pass_observedAt : time;
  pass_reported : list ContainerSummary;
  pass_existing : list Container;
  pass_knownStacks : gset string
}.

Definition previous_of (pass : ContainerPass) (identity : option string) (dockerId : string) :
    option Container :=
  or_null
    (if truthy identity then map_get container_id (pass_existing pass) (identity ?? "") else None)
    (map_get (λ r, container_dockerId r ?? "")
       (List.filter (λ r, bool_decide (container_dockerId r ≠ None)) (pass_existing pass)) dockerId).

(** Writing one observed container: over its row, or as a new one. *)
Definition writeContainer (pass : ContainerPass) (previous : option Container)
    (v : ContainerValues) : M unit :=
  let resource := "container:" +:+ values_dockerId v in
  match previous with
  | Some row =>
      update_id (R := Container) (container_id row) (set_values v);;
      when (bool_decide (container_state row ≠ values_state v))
        (emit (pass_hostId pass) "container.state.changed"
           (if bool_decide (values_state v = "running") then Severity_info else Severity_warning)
           resource);;
      when (bool_decide (container_health row ≠ values_health v))
        (emit (pass_hostId pass) "container.health.changed"
           (if bool_decide (values_health v = "unhealthy") then Severity_critical else Severity_info)
           resource)
  | None =>
      id ← randomUUID;
      insert_into (new_container id v);;
      emit (pass_hostId pass) "container.discovered" Severity_info resource
  end.

(** One turn of the loop over the reported containers. *)
Definition applyContainer (pass : ContainerPass) (heldBy : gmap string string)
    (item : ContainerSummary) : M (gmap string string) :=
  if negb (truthy (item_dockerId item)) then mret heldBy
  else
    let dockerId := item_dockerId item ?? "" in
    let identity := identity_of item in
    let claims := claimed_ids (pass_reported pass) (identity ?? "") in
    owned ← mutating (identity ?? "");
    if truthy identity && (1 <? length claims)%nat && negb owned then
      recordIdentityConflict (identity ?? "") claims;;
      keep (identity ?? "") (pass_snapshotId pass) (pass_observedAt pass);;
      mret heldBy
    else if truthy identity && owned then
      keep (identity ?? "") (pass_snapshotId pass) (pass_observedAt pass);;
      mret heldBy
    else
      let previous := previous_of pass identity dockerId in
      let projectName := item_labels item !! "com.docker.compose.project" in
      let '(claim, heldBy') :=
        attributeToStack item (container_id <$> previous) (pass_knownStacks pass) heldBy in
      project ← (if truthy projectName
                 then Some <$> projectId (pass_hostId pass) (projectName ?? "")
                                 (pass_snapshotId pass) (pass_observedAt pass)
                 else mret None);
      writeContainer pass previous {|
        values_hostId := pass_hostId pass;
        values_dockerId := dockerId;
        values_observedDesiredConfigId := observedConfig item;
        values_claim := claim;
        values_name := item_name item ?? "";
        values_image := item_image item ?? "";
        values_imageId := item_imageId item;
        values_state := item_state item ?? "unknown";
        values_health := item_health item ?? "none";
        values_composeProjectId := project;
        values_dockerCreatedAt := item_createdAt item;
        values_metadata := JObject (
          optional_field "service" (JString <$> item_labels item !! "com.docker.compose.service") ++
          optional_field "status" (JString <$> item_status item));
        values_snapshotId := pass_snapshotId pass;
        values_observedAt := pass_observedAt pass |};;
      mret heldBy'.

(** Which resource holds each service before the pass. *)
Definition services_held (existing : list Container) : gmap string string :=
  fold_left (λ m r,
    if truthy (container_stackId r) && truthy (container_stackService r)
    then <[serviceKey (container_stackId r ?? "") (container_stackService r ?? "") := container_id r]> m
    else m) existing ∅.

Definition applyContainers (hostId : string) (reported : list ContainerSummary)
    (snapshotId : string) : M nat :=
  observedAt ← now;
  existing ← select (λ r : Container, bool_decide (container_hostId r = hostId));
  known ← select (λ s : Stack, bool_decide (stack_hostId s = hostId));
  let pass := {| pass_hostId := hostId; pass_snapshotId := snapshotId;
                 pass_observedAt := observedAt; pass_reported := reported;
                 pass_existing := existing;
                 pass_knownStacks := list_to_set (stack_id <$> known) |} in
  for_fold reported (services_held existing) (applyContainer pass);;
  mret (length reported).

(** ** Projects *)

Definition applyProject (hostId snapshotId : string) (observedAt : time)
    (project : ComposeProjectReport) : M unit :=
  if negb (truthy (report_projectName project)) then mret tt
  else
    let name := report_projectName project ?? "" in
    let status := report_status project ?? "unknown" in
    let set_project p := p
      <| project_hostId := hostId |> <| project_projectName := name |>
      <| project_status := status |>
      <| project_serviceCount := report_serviceCount project ?? 0%Z |>
      <| project_runningCount := report_runningCount project ?? 0%Z |>
      <| project_services := Some (report_services project ?? JArray []) |>
      <| project_snapshotId := Some snapshotId |> <| project_observedAt := observedAt |> in
    previous ← select_first (λ p : ComposeProject,
      bool_decide (project_hostId p = hostId) && bool_decide (project_projectName p = name));
    match previous with
    | Some row =>
        update_id (R := ComposeProject) (project_id row) set_project;;
        when (bool_decide (project_status row ≠ status))
          (emit hostId "compose.state.changed"
             (if bool_decide (status = "running") then Severity_info else Severity_warning)
             ("compose:" +:+ name))
    | None =>
        id ← randomUUID;
        insert_into (set_project {|
          project_id := id; project_hostId := hostId; project_projectName := name;
          project_workingDir := None; project_configFiles := None; project_status := status;
          project_serviceCount := 0; project_runningCount := 0; project_services := None;
          project_detailObservedAt := None; project_snapshotId := Some snapshotId;
          project_observedAt := observedAt |});;
        emit hostId "compose.discovered" Severity_info ("compose:" +:+ name)
    end.

Definition applyProjects (hostId : string) (reported : list ComposeProjectReport)
    (snapshotId : string) : M nat :=
  observedAt ← now;
  for_each reported (applyProject hostId snapshotId observedAt);;
  mret (length reported).

(** ** The sweep *)

(** [ne(snapshotId, s)]: a null column is not different from anything. *)
Definition other_snapshot (snapshotId : string) (stored : option string) : bool :=
  match stored with
  | Some s => bool_decide (s ≠ snapshotId)
  | None => false
  end.

Definition stale_container (hostId snapshotId : string) (r : Container) : bool :=
  bool_decide (container_hostId r = hostId) && bool_decide (container_dockerId r ≠ None) &&
  other_snapshot snapshotId (container_snapshotId r).

Definition stale_project (hostId snapshotId : string) (p : ComposeProject) : bool :=
  bool_decide (project_hostId p = hostId) && other_snapshot snapshotId (project_snapshotId p).

Definition reconcile (hostId snapshotId : string) : M nat :=
  transaction (
    staleContainers ← delete_from (stale_container hostId snapshotId);
    staleProjects ← delete_from (stale_project hostId snapshotId);
    for_each staleContainers (λ r,
      emit hostId "container.removed" Severity_info ("container:" +:+ (container_dockerId r ?? "null")));;
    for_each staleProjects (λ p,
      emit hostId "compose.removed" Severity_info ("compose:" +:+ project_projectName p));;
    mret (length staleContainers + length staleProjects)).

(** ** The pass *)

Record SyncResult := {
  sync_snapshotId : string;
  sync_hostId : string;
  sync_complete : bool;
  sync_containers : nat;
  sync_projects : nat;
  sync_removed : nat
}.

(** One step of the pass: [None] when it failed and the failure was recorded. *)
Definition sync_step (hostId capability : string) (m : M nat) : M (option nat) :=
  try_catch (Some <$> m) (λ _, recordFailure hostId capability;; mret None).

Definition inventory_of (p : Payload) : HostInventory :=
  match p with
  | Payload_inventory i => i
  | _ => {| inventory_hostname := None; inventory_os := None; inventory_osVersion := None;
            inventory_architecture := None; inventory_kernel := None;
            inventory_uptimeSeconds := None; inventory_cpuCount := None;
            inventory_cpuModel := None; inventory_memoryTotalBytes := None;
            inventory_dockerVersion := None; inventory_agentVersion := None;
            inventory_observedAt := None |}
  end.

Definition metrics_of (p : Payload) : json :=
  match p with Payload_metrics m => m | _ => JObject [] end.

(** [result?.containers ?? []] *)
Definition containers_of (p : Payload) : list ContainerSummary :=
  match p with Payload_containers l => l | _ => [] end.

Definition projects_of (p : Payload) : list ComposeProjectReport :=
  match p with Payload_projects l => l | _ => [] end.

Definition sync (agentId : string) : M SyncResult :=
  agent ← select_id (R := Agent) agentId;
  match agent with
  | None => throw PlainError
  | Some agent =>
      let hostId := agent_hostId agent in
      snapshotId ← randomUUID;
      inventory ← sync_step hostId "host.inventory" (
        p ← request agentId "host.inventory" JNull;
        applyInventory hostId (inventory_of p) (agent_version agent);; mret 0);
      metrics ← sync_step hostId "host.metrics" (
        p ← request agentId "host.metrics" JNull;
        applyMetrics hostId (metrics_of p);; mret 0);
      containers ← sync_step hostId "container.list" (
        p ← request agentId "container.list" JNull;
        applyContainers hostId (containers_of p) snapshotId);
      projects ← sync_step hostId "compose.list" (
        p ← request agentId "compose.list" JNull;
        applyProjects hostId (projects_of p) snapshotId);
      let complete := bool_decide (is_Some inventory) && bool_decide (is_Some metrics) &&
                      bool_decide (is_Some containers) && bool_decide (is_Some projects) in
      removed ← (if complete then reconcile hostId snapshotId else mret 0);
      mret {| sync_snapshotId := snapshotId; sync_hostId := hostId; sync_complete := complete;
              sync_containers := containers ?? 0; sync_projects := projects ?? 0;
              sync_removed := removed |}
  end.

(** ** Lemmas *)

(** No container and no project disappears. *)
Definition survive : relation DB := λ d d',
  dom (containers d) ⊆ dom (containers d') ∧ dom (composeProjects d) ⊆ dom (composeProjects d').

#[export] Instance survive_preorder : PreOrder survive.
Proof. split; [by intros d|]. intros d1 d2 d3 [] []. split; by etrans. Qed.

Ltac survive_write :=
  intros; split; simpl; rewrite ?dom_insert_L; unfold change_rows; rewrite ?dom_fmap_L; set_solver.

#[export] Hint Extern 3 (framed (on_db survive) (insert_into _)) =>
  apply framed_insert; [apply _|survive_write] : frames.
#[export] Hint Extern 3 (framed (on_db survive) (update _ _)) =>
  apply framed_update; [apply _|survive_write] : frames.
#[export] Hint Extern 3 (framed (on_db survive) (update_id _ _)) =>
  apply framed_update; [apply _|survive_write] : frames.

Lemma emit_framed R `{!Frame R} h t s res :
  (∀ r : Event, framed R (insert_into r)) → framed R (emit h t s res).
Proof. intros H. unfold emit, events_record. frame. Qed.

Lemma emit_survive h t s res : framed (on_db survive) (emit h t s res).
Proof. apply emit_framed; [apply _|]. intros. eauto with frames. Qed.
#[export] Hint Resolve emit_survive : frames.

Lemma applyInventory_survive h i v : framed (on_db survive) (applyInventory h i v).
Proof. unfold applyInventory. frame. Qed.

Lemma applyMetrics_survive h m : framed (on_db survive) (applyMetrics h m).
Proof. unfold applyMetrics. frame. Qed.

Lemma projectId_survive h n s t : framed (on_db survive) (projectId h n s t).
Proof. unfold projectId. frame. Qed.

Lemma writeContainer_survive pass p v : framed (on_db survive) (writeContainer pass p v).
Proof. unfold writeContainer. frame. Qed.
#[export] Hint Resolve projectId_survive writeContainer_survive : frames.

Lemma applyContainer_survive pass held item : framed (on_db survive) (applyContainer pass held item).
Proof. unfold applyContainer, mutating, recordIdentityConflict, keep. frame. Qed.
#[export] Hint Resolve applyContainer_survive : frames.

Lemma applyContainers_survive h l s : framed (on_db survive) (applyContainers h l s).
Proof. unfold applyContainers. frame. Qed.

Lemma applyProjects_survive h l s : framed (on_db survive) (applyProjects h l s).
Proof. unfold applyProjects, applyProject. frame. Qed.

Lemma sync_step_framed R `{!Frame R} h c m :
  framed R m → (∀ r : Event, framed R (insert_into r)) → framed R (sync_step h c m).
Proof.
  intros Hm He. unfold sync_step, recordFailure. frame. by apply emit_framed.
Qed.

(** The four steps of a pass, as the frame [R] sees them. *)
Section sync_frames.
Context (P : relation DB) `{!PreOrder P}.
Context (Hev : ∀ r : Event, framed (on_db P) (insert_into r)).
Context (h : string) (agent : Agent) (snapshot : string).
Context (Hinv : ∀ i v, framed (on_db P) (applyInventory h i v)).
Context (Hmet : ∀ m, framed (on_db P) (applyMetrics h m)).
Context (Hcon : ∀ l, framed (on_db P) (applyContainers h l snapshot)).
Context (Hpro : ∀ l, framed (on_db P) (applyProjects h l snapshot)).

Lemma inventory_step_framed a :
  framed (on_db P) (sync_step h "host.inventory"
    (p ← request a "host.inventory" JNull;
     applyInventory h (inventory_of p) (agent_version agent);; mret 0)).
Proof using All. apply sync_step_framed; [apply _|frame; apply Hinv|apply Hev]. Qed.

Lemma metrics_step_framed a :
  framed (on_db P) (sync_step h "host.metrics"
    (p ← request a "host.metrics" JNull; applyMetrics h (metrics_of p);; mret 0)).
Proof using All. apply sync_step_framed; [apply _|frame; apply Hmet|apply Hev]. Qed.

Lemma containers_step_framed a :
  framed (on_db P) (sync_step h "container.list"
    (p ← request a "container.list" JNull; applyContainers h (containers_of p) snapshot)).
Proof using All. apply sync_step_framed; [apply _|frame; apply Hcon|apply Hev]. Qed.

Lemma projects_step_framed a :
  framed (on_db P) (sync_step h "compose.list"
    (p ← request a "compose.list" JNull; applyProjects h (projects_of p) snapshot)).
Proof using All. apply sync_step_framed; [apply _|frame; apply Hpro|apply Hev]. Qed.
End sync_frames.

(** A pass: the part that adds and updates, related by [P], and, only when all
    four steps went through, the sweep. *)
Lemma sync_cases (P : relation DB) `{!PreOrder P} agentId w r w' :
  (∀ r : Event, framed (on_db P) (insert_into r)) →
  (∀ a, agents (w_db w) !! agentId = Some a → ∀ snapshot,
     (∀ i v, framed (on_db P) (applyInventory (agent_hostId a) i v)) ∧
     (∀ m, framed (on_db P) (applyMetrics (agent_hostId a) m)) ∧
     (∀ l, framed (on_db P) (applyContainers (agent_hostId a) l snapshot)) ∧
     (∀ l, framed (on_db P) (applyProjects (agent_hostId a) l snapshot))) →
  sync agentId w = (r, w') →
  P (w_db w) (w_db w') ∧ (∀ res, r = inr res → sync_complete res = false) ∨
  ∃ res wm a, r = inr res ∧ sync_complete res = true ∧
    agents (w_db w) !! agentId = Some a ∧ sync_hostId res = agent_hostId a ∧
    sync_snapshotId res = uuid (w_seed w) ∧
    P (w_db w) (w_db wm) ∧
    reconcile (sync_hostId res) (sync_snapshotId res) wm = (inr (sync_removed res), w').
Proof.
  intros Hev Hsteps E. unfold sync in E.
  apply bind_cases in E as [(e & -> & E1)|(agent & w1 & E1 & E)].
  { left. split; [|done]. apply (framed_run _ _ _ _ _ (framed_select_id (on_db P) _)) in E1. done. }
  apply select_id_inr in E1 as [-> [fs ->]]. simpl in E.
  destruct (agents (w_db w) !! agentId) as [a|] eqn:Ea; [|left; unfold throw in E; by simplify_eq].
  apply bind_cases in E as [(e & -> & E1)|(snapshot & w2 & E1 & E)]; [done|].
  unfold randomUUID in E1. simplify_eq/=.
  destruct (Hsteps a eq_refl (uuid (w_seed w))) as (H1 & H2 & H3 & H4).
  pose proof (reflexivity (R := P) (w_db w)) as HP.
  apply (framed_bind_cases P _ _ (w_db w)) in E as [[? [e ->]]|(oi & w3 & _ & HP3 & E)];
    [by left| |by apply (inventory_step_framed P Hev _ a (uuid (w_seed w)))|done].
  apply (framed_bind_cases P _ _ (w_db w)) in E as [[? [e ->]]|(om & w4 & _ & HP4 & E)];
    [by left| |by apply (metrics_step_framed P Hev _ a (uuid (w_seed w)))|done].
  apply (framed_bind_cases P _ _ (w_db w)) in E as [[? [e ->]]|(oc & w5 & _ & HP5 & E)];
    [by left| |by apply (containers_step_framed P Hev _ a (uuid (w_seed w)))|done].
  apply (framed_bind_cases P _ _ (w_db w)) in E as [[? [e ->]]|(op & w6 & _ & HP6 & E)];
    [by left| |by apply (projects_step_framed P Hev _ a (uuid (w_seed w)))|done].
  clear HP HP3 HP4 HP5. set (complete := _ && _ && _ && _) in E.
  destruct complete eqn:Ec.
  - apply bind_cases in E as [(e & -> & E1)|(n & w7 & E1 & E)].
    + left. split; [|done]. apply transaction_inl in E1. by rewrite E1.
    + unfold mret, M_ret in E. simplify_eq. right. eexists _, w6, a. by split_and!.
  - rewrite (run_bind _ _ _ _ _ (run_ret 0 w6)) in E. unfold mret, M_ret in E. simplify_eq.
    left. split; [done|]. by intros res [= <-].
Qed.

Lemma survive_steps h snapshot :
  (∀ i v, framed (on_db survive) (applyInventory h i v)) ∧
  (∀ m, framed (on_db survive) (applyMetrics h m)) ∧
  (∀ l, framed (on_db survive) (applyContainers h l snapshot)) ∧
  (∀ l, framed (on_db survive) (applyProjects h l snapshot)).
Proof.
  split_and!; intros; [apply applyInventory_survive|apply applyMetrics_survive
    |apply applyContainers_survive|apply applyProjects_survive].
Qed.

(** What the sweep does to the two tables. *)
Lemma reconcile_inr h s w n w' :
  reconcile h s w = (inr n, w') →
  containers (w_db w') = drop_rows (stale_container h s) (containers (w_db w)) ∧
  composeProjects (w_db w') = drop_rows (stale_project h s) (composeProjects (w_db w)).
Proof.
  unfold reconcile. intros (w1 & E & [fs ->])%transaction_inr. simpl.
  apply bind_inr in E as (l1 & w2 & [-> [f2 ->]]%delete_inr & E).
  apply bind_inr in E as (l2 & w3 & [-> [f3 ->]]%delete_inr & E).
  match type of E with (?m ≫= ?f) ?w0 = _ =>
    assert (Hm : framed (on_db (unchanged (λ d, (containers d, composeProjects d)))) (m ≫= f))
      by (unfold emit, events_record; frame) end.
  apply (framed_run _ _ _ _ _ Hm) in E. unfold on_db, unchanged in E. simpl in E. by simplify_eq.
Qed.


(** ** What a pass may not touch *)

(** A container row up to the marks a pass puts on a resource it leaves alone. *)
Definition unmarked (r : Container) : Container :=
  r <| container_identityConflict := None |> <| container_snapshotId := None |>
    <| container_observedAt := 0%Z |>.

(** Containers of other hosts keep everything but those marks. *)
Definition foreign (h : string) : relation DB := λ d d',
  ∀ i r, containers d !! i = Some r → container_hostId r ≠ h →
    ∃ r', containers d' !! i = Some r' ∧ unmarked r' = unmarked r.

Lemma unmarked_hostId r r' : unmarked r = unmarked r' → container_hostId r = container_hostId r'.
Proof. intros E. by injection E. Qed.

#[export] Instance foreign_preorder h : PreOrder (foreign h).
Proof.
  split; [by intros d i r Hi _; exists r|].
  intros d1 d2 d3 H12 H23 i r Hi Hh. destruct (H12 i r Hi Hh) as (r2 & Hi2 & E2).
  destruct (H23 i r2 Hi2) as (r3 & Hi3 & E3); [by rewrite (unmarked_hostId _ _ E2)|].
  exists r3. split; [done|]. by rewrite E3.
Qed.

(** While the rows of [ids] are the host's, nothing happens to other hosts'
    rows and those stay the host's. *)
Definition at_home (h : string) (ids : list string) (d : DB) : Prop :=
  ∀ i r, i ∈ ids → containers d !! i = Some r → container_hostId r = h.

Definition isolated (h : string) (ids : list string) : relation DB := λ d d',
  (∀ i r, containers d !! i = Some r → row_id r = i) → at_home h ids d →
  (∀ i r, containers d' !! i = Some r → row_id r = i) ∧ at_home h ids d' ∧ foreign h d d' ∧
  dom (containers d) ⊆ dom (containers d').

#[export] Instance isolated_preorder h ids : PreOrder (isolated h ids).
Proof.
  split; [by intros d Hk Hh; split_and!|].
  intros d1 d2 d3 H12 H23 Hk Hh. destruct (H12 Hk Hh) as (Hk2 & Hh2 & F2 & D2).
  destruct (H23 Hk2 Hh2) as (Hk3 & Hh3 & F3 & D3). split_and!; [done|done| |]; by etrans.
Qed.

(** A write to another table. *)
Lemma isolated_same h ids d d' : containers d' = containers d → isolated h ids d d'.
Proof.
  intros E Hk Hh. unfold at_home, foreign. rewrite E. split_and!; [done|done| |done].
  intros i r Hi _. by exists r.
Qed.

(** A mark on any row. *)
Lemma isolated_mark h ids d i0 f :
  (∀ r, unmarked (f r) = unmarked r) →
  isolated h ids d (d <| containers := change_rows (λ r, bool_decide (row_id r = i0)) f (containers d) |>).
Proof.
  intros Hf Hk Hh. unfold at_home, foreign. simpl.
  assert (Hrow : ∀ r, unmarked (if bool_decide (container_id r = i0) then f r else r) = unmarked r).
  { intros r. case_bool_decide; [apply Hf|done]. }
  split_and!.
  - intros i r. rewrite lookup_change_rows, fmap_Some. intros (r0 & Hi & ->).
    apply Hk in Hi. rewrite <-Hi. specialize (Hrow r0). by injection Hrow.
  - intros i r Hin. rewrite lookup_change_rows, fmap_Some. intros (r0 & Hi & ->).
    rewrite <-(Hh i r0 Hin Hi). apply unmarked_hostId, Hrow.
  - intros i r Hi _. rewrite lookup_change_rows, Hi. eexists. split; [done|]. apply Hrow.
  - unfold change_rows. by rewrite dom_fmap_L.
Qed.

(** Writing a row of the host. *)
Lemma isolated_own h ids d i0 v :
  i0 ∈ ids → values_hostId v = h →
  isolated h ids d (d <| containers := change_rows (λ r, bool_decide (row_id r = i0)) (set_values v) (containers d) |>).
Proof.
  intros Hi0 Hv Hk Hh. unfold at_home, foreign. simpl. split_and!.
  - intros i r. rewrite lookup_change_rows, fmap_Some. intros (r0 & Hi & ->).
    apply Hk in Hi. by case_bool_decide.
  - intros i r Hin. rewrite lookup_change_rows, fmap_Some. intros (r0 & Hi & ->).
    case_bool_decide; [done|]. by apply (Hh i).
  - intros i r Hi Hne. rewrite lookup_change_rows, Hi. simpl.
    rewrite bool_decide_eq_false_2; [by eexists|]. intros E. apply Hne.
    apply (Hh i); [|done]. apply Hk in Hi. simpl in Hi. by rewrite <-Hi, E.
  - unfold change_rows. by rewrite dom_fmap_L.
Qed.

(** A new row of the host. *)
Lemma isolated_new h ids d (r : Container) :
  containers d !! container_id r = None → container_hostId r = h →
  isolated h ids d (d <| containers := <[container_id r := r]> (containers d) |>).
Proof.
  intros Hnone Hr Hk Hh. unfold at_home, foreign. simpl. split_and!.
  - intros i s [[<- <-]|[_ Hi]]%lookup_insert_Some; [done|by apply Hk].
  - intros i s Hin [[<- <-]|[_ Hi]]%lookup_insert_Some; [done|by apply (Hh i)].
  - intros i s Hi _. exists s. split; [|done]. rewrite lookup_insert_ne; [done|]. congruence.
  - rewrite dom_insert_L. set_solver.
Qed.

#[export] Hint Extern 3 (framed (on_db (isolated _ _)) (insert_into (R := ?T) _)) =>
  lazymatch T with
  | Container => fail
  | _ => apply framed_insert; [apply _|intros; apply isolated_same; reflexivity]
  end : frames.
#[export] Hint Extern 3 (framed (on_db (isolated _ _)) (update_id (R := ?T) _ _)) =>
  lazymatch T with
  | Container => fail
  | _ => apply framed_update; [apply _|intros; apply isolated_same; reflexivity]
  end : frames.

Lemma emit_isolated h ids a t s res : framed (on_db (isolated h ids)) (emit a t s res).
Proof. apply emit_framed; [apply _|]. intros. eauto with frames. Qed.
#[export] Hint Resolve emit_isolated : frames.

Section pass.
Context (pass : ContainerPass).
Notation ids := (container_id <$> pass_existing pass).
Notation iso := (on_db (isolated (pass_hostId pass) ids)).

Lemma keep_isolated i s t : framed iso (keep i s t).
Proof.
  unfold keep. frame. apply framed_update; [apply _|]. intros d _. by apply isolated_mark.
Qed.

Lemma recordIdentityConflict_isolated i l : framed iso (recordIdentityConflict i l).
Proof.
  unfold recordIdentityConflict. frame. apply framed_update; [apply _|].
  intros d _. by apply isolated_mark.
Qed.

Lemma previous_of_existing identity dockerId row :
  previous_of pass identity dockerId = Some row → container_id row ∈ ids.
Proof.
  unfold previous_of, or_null. intros H. apply list_elem_of_fmap_2.
  destruct (if truthy identity then _ else _) as [r|] eqn:E.
  - simplify_eq. destruct (truthy identity); [|done]. by apply map_get_Some in E as [? _].
  - apply map_get_Some in H as [Hin _]. by apply elem_of_filter_bool in Hin as [? _].
Qed.

Lemma writeContainer_isolated previous v :
  (∀ row, previous = Some row → container_id row ∈ ids) → values_hostId v = pass_hostId pass →
  framed iso (writeContainer pass previous v).
Proof.
  intros Hp Hv. unfold writeContainer. destruct previous as [row|]; frame.
  - apply framed_update; [apply _|]. intros d _. apply isolated_own; [by apply Hp|done].
  - apply framed_insert; [apply _|]. intros d Hn _. by apply isolated_new.
Qed.

Lemma applyContainer_isolated held item : framed iso (applyContainer pass held item).
Proof.
  unfold applyContainer, mutating, projectId. frame.
  - apply recordIdentityConflict_isolated.
  - apply keep_isolated.
  - apply keep_isolated.
  - apply writeContainer_isolated; [|done]. intros row. apply previous_of_existing.
Qed.
End pass.

(** Containers stay filed under their own ids, and other hosts' keep
    everything but the marks. *)
Definition foreign_keyed (h : string) : relation DB := λ d d',
  (∀ i r, containers d !! i = Some r → row_id r = i) →
  (∀ i r, containers d' !! i = Some r → row_id r = i) ∧ foreign h d d'.

#[export] Instance foreign_keyed_preorder h : PreOrder (foreign_keyed h).
Proof.
  split; [by intros d Hk; split|].
  intros d1 d2 d3 H12 H23 Hk. destruct (H12 Hk) as [Hk2 F2]. destruct (H23 Hk2) as [Hk3 F3].
  split; [done|by etrans].
Qed.

Lemma applyContainers_isolated h l s : framed (on_db (foreign_keyed h)) (applyContainers h l s).
Proof.
  intros w Hk. unfold applyContainers. destruct (mbind _ now w) as [r w'] eqn:E. simpl.
  rewrite (run_bind now _ w (w_now w) w) in E by done.
  apply bind_cases in E as [(e & -> & E1)|(existing & w1 & E1 & E)].
  { apply (framed_run _ _ _ _ _ (framed_select (on_db (foreign_keyed h)) _)) in E1. by apply E1. }
  apply select_inr in E1 as [-> [fs ->]].
  apply bind_cases in E as [(e & -> & E1)|(known & w2 & E1 & E)].
  { apply (framed_run _ _ _ _ _ (framed_select (on_db (foreign_keyed h)) _)) in E1. by apply E1. }
  apply select_inr in E1 as [-> [fs2 ->]]. simpl in E.
  match type of E with (for_fold _ _ (applyContainer ?p) ≫= ?f) ?w0 = _ =>
    assert (Hm : framed (on_db (isolated h (container_id <$> pass_existing p)))
                   (for_fold l (services_held (pass_existing p)) (applyContainer p) ≫= f))
      by (frame; apply (applyContainer_isolated p)) end.
  apply (framed_run _ _ _ _ _ Hm) in E. destruct E as (? & _ & ? & _); [done| |done].
  intros i r0 (c & -> & Hc)%list_elem_of_fmap Hi. simpl in *.
  apply elem_of_select_where in Hc as [[j Hj] Hh]. apply bool_decide_eq_true in Hh.
  apply Hk in Hj as Hj'. simpl in Hj, Hj'. congruence.
Qed.

(** *** The rest of a pass leaves other hosts' containers alone *)

Lemma foreign_same h d d' : containers d' = containers d → foreign h d d'.
Proof. intros E i r Hi _. exists r. by rewrite E. Qed.

Lemma unchanged_foreign_keyed {A} h (m : M A) :
  framed (on_db (unchanged containers)) m → framed (on_db (foreign_keyed h)) m.
Proof.
  intros Hm w Hk. specialize (Hm w). unfold on_db, unchanged in Hm.
  split; [by rewrite Hm|by apply foreign_same].
Qed.

Lemma foreign_keyed_steps h snapshot :
  (∀ i v, framed (on_db (foreign_keyed h)) (applyInventory h i v)) ∧
  (∀ m, framed (on_db (foreign_keyed h)) (applyMetrics h m)) ∧
  (∀ l, framed (on_db (foreign_keyed h)) (applyContainers h l snapshot)) ∧
  (∀ l, framed (on_db (foreign_keyed h)) (applyProjects h l snapshot)).
Proof.
  split_and!; intros.
  - apply unchanged_foreign_keyed. unfold applyInventory, emit, events_record. frame.
  - apply unchanged_foreign_keyed. unfold applyMetrics. frame.
  - apply applyContainers_isolated.
  - apply unchanged_foreign_keyed. unfold applyProjects, applyProject, emit, events_record. frame.
Qed.

(** The sweep removes rows of its own host only. *)
Lemma drop_stale_foreign h s d d' :
  containers d' = drop_rows (stale_container h s) (containers d) → foreign h d d'.
Proof.
  intros E i r Hi Hh. exists r. split; [|done]. rewrite E, lookup_drop_rows, Hi. simpl.
  unfold stale_container. by rewrite bool_decide_eq_false_2.
Qed.

(** A pass speaks for its own host.  Whatever an agent answers and
    whatever fails, every container of another host is still there after the
    pass, and everything about it is as it was except the marks [keep] and
    [recordIdentityConflict] put on a resource: its identity conflict, its
    snapshot and when it was observed. *)
Theorem sync_isolates_hosts agentId agent w i r :
  db_ok (w_db w) → agents (w_db w) !! agentId = Some agent →
  containers (w_db w) !! i = Some r → container_hostId r ≠ agent_hostId agent →
  ∃ r', containers (w_db (sync agentId w).2) !! i = Some r' ∧ unmarked r' = unmarked r.
Proof.
  intros Hok Hagent Hi Hh. set (h := agent_hostId agent) in *.
  assert (Hk : ∀ i r, containers (w_db w) !! i = Some r → row_id r = i)
    by exact (proj1 (db_ok_rows (R := Container) _ Hok)).
  destruct (sync agentId w) as [res w'] eqn:E. simpl.
  apply (sync_cases (foreign_keyed h)) in E as [[F _]|(x & wm & a & -> & _ & Ha & Hx & _ & F & E)].
  - by apply (proj2 (F Hk)).
  - rewrite Hx in E. apply reconcile_inr in E as [E _].
    apply (drop_stale_foreign (agent_hostId a)) in E.
    assert (Ea : agent_hostId a = h) by (unfold h; congruence). rewrite Ea in E. destruct (F Hk) as [_ F'].
    assert (G : foreign h (w_db w) (w_db w')) by (by etrans). by apply G.
  - intros. apply unchanged_foreign_keyed. eauto with frames.
  - intros a Ha s. simplify_eq. apply foreign_keyed_steps.
Qed.

(** ** What only people decide *)

(** Everything discovery has no say in: which hosts are archived, the agents,
    the stacks with their revisions, attempts and operations, the actions and
    the audit trail. *)
Definition decided (d : DB) :=
  (host_archivedAt <$> hosts d, agents d, stacks d, stackRevisions d,
   stackRevisionEnvironment d, stackDeployments d, stackOperations d, actions d, auditEntries d).

Lemma fmap_change_rows {R T} (π : R → T) p f (t : gmap string R) :
  (∀ r, π (f r) = π r) → π <$> change_rows p f t = π <$> t.
Proof.
  intros Hf. unfold change_rows. rewrite <-map_fmap_compose. apply map_fmap_ext.
  intros i r _. simpl. by destruct (p r).
Qed.

Lemma decided_update_host i f :
  (∀ r, host_archivedAt (f r) = host_archivedAt r) →
  framed (on_db (unchanged decided)) (update_id (R := Host) i f).
Proof.
  intros Hf. apply framed_update; [apply _|]. intros d _. unfold unchanged, decided. simpl.
  by rewrite fmap_change_rows.
Qed.

#[export] Hint Extern 1 (framed (on_db (unchanged decided)) (update_id (R := Host) _ _)) =>
  apply decided_update_host; reflexivity : frames.

(** Unfold a pass down to its statements. *)
Ltac open_sync :=
  unfold sync, sync_step, recordFailure, applyInventory, applyMetrics, applyContainers,
    applyContainer, recordIdentityConflict, keep, mutating, projectId, writeContainer,
    applyProjects, applyProject, reconcile, emit, events_record.

Lemma sync_decided agentId : framed (on_db (unchanged decided)) (sync agentId).
Proof. open_sync. frame. Qed.

Lemma sync_keeps_db_ok agentId : framed (on_db keeps_db_ok) (sync agentId).
Proof. open_sync. frame. Qed.

Lemma sync_same_locks agentId : framed same_locks (sync agentId).
Proof. open_sync. frame. Qed.

#[export] Hint Resolve sync_decided sync_keeps_db_ok sync_same_locks : frames.

(** The requests of a pass: each of them only asks. *)
Definition SYNC_CAPABILITIES : list string :=
  ["host.inventory"; "host.metrics"; "container.list"; "compose.list"].

Lemma sync_sends agentId :
  framed (sends (λ m, sent_capability m ∈ SYNC_CAPABILITIES)) (sync agentId).
Proof.
  open_sync. frame; apply framed_request_sends; intros d; simpl; unfold SYNC_CAPABILITIES; set_solver.
Qed.

(** Discovery decides nothing.  No answer an agent can give, and no
    failure, changes which hosts are archived, the registered agents, the
    stacks, their revisions, attempts and operations, the actions or the audit
    trail; and the database invariant is kept. *)
Theorem sync_decides_nothing agentId w :
  decided (w_db (sync agentId w).2) = decided (w_db w) ∧
  (db_ok (w_db w) → db_ok (w_db (sync agentId w).2)).
Proof. split; [apply sync_decided|apply sync_keeps_db_ok]. Qed.

(** ** Concrete passes

    Agent [agent-1] speaks for host [h1]; container [c1] of [h1] is not running
    any more, [c9] belongs to host [h2]. *)

Definition example_host (id : string) : Host := {|
  host_id := id; host_hostname := id; host_displayName := None; host_os := None;
  host_architecture := None; host_kernel := None; host_dockerVersion := None;
  host_agentVersion := None; host_metrics := None; host_metadata := None;
  host_lastSeenAt := None; host_observedAt := None; host_archivedAt := None |}.

Definition example_agent : Agent := {|
  agent_id := "agent-1"; agent_hostId := "h1"; agent_certificateFingerprint := "f";
  agent_certificateSerial := "s"; agent_certificateNotAfter := 0%Z; agent_version := None;
  agent_protocolVersion := 1%Z; agent_capabilities := []; agent_status := Agent_connected;
  agent_enrolledAt := 0%Z; agent_firstSeenAt := None; agent_lastSeenAt := None;
  agent_revokedAt := None; agent_revocationReason := None |}.

Definition example_container (id host docker : string) : Container :=
  new_container id {|
    values_hostId := host; values_dockerId := docker; values_observedDesiredConfigId := None;
    values_claim := no_claim; values_name := id; values_image := "nginx";
    values_imageId := None; values_state := "running"; values_health := "none";
    values_composeProjectId := None; values_dockerCreatedAt := None;
    values_metadata := JObject []; values_snapshotId := "before"; values_observedAt := 0%Z |}.

Definition two_hosts : DB := empty_db
  <| hosts := {["h1" := example_host "h1"; "h2" := example_host "h2"]} |>
  <| agents := {["agent-1" := example_agent]} |>
  <| containers := {["c1" := example_container "c1" "h1" "d1";
                     "c9" := example_container "c9" "h2" "d9"]} |>.

Definition report (docker : string) (labels : gmap string string) : ContainerSummary := {|
  item_dockerId := Some docker; item_name := Some docker; item_image := Some "nginx";
  item_imageId := None; item_state := Some "running"; item_status := None;
  item_health := None; item_createdAt := None; item_labels := labels |}.

Definition answers (l : list ContainerSummary) : list AgentReply :=
  [Replied Payload_other; Replied Payload_other; Replied (Payload_containers l);
   Replied (Payload_projects [])].

Definition example_pass (l : list ContainerSummary) : World :=
  (quiet_world two_hosts) <| w_replies := answers l |>.

Lemma two_hosts_ok : db_ok two_hosts.
Proof. apply db_okb_true. by vm_compute. Qed.

Lemma sync_isolates_hosts_witness :
  ∃ r', containers (w_db (sync "agent-1" (example_pass [report "d2" ∅])).2) !! "c9" = Some r' ∧
    unmarked r' = unmarked (example_container "c9" "h2" "d9").
Proof.
  apply (sync_isolates_hosts "agent-1" example_agent (example_pass [report "d2" ∅]) "c9");
    [apply two_hosts_ok|reflexivity|reflexivity|done].
Defined.


(** A complete pass that no longer sees [c1] removes it and keeps [c9]. *)
Example sync_sweeps :
  (λ i, bool_decide (is_Some (containers (w_db (sync "agent-1" (example_pass [report "d2" ∅])).2) !! i)))
    <$> ["c1"; "c9"] = [false; true].
Proof. by vm_compute. Qed.

(** The marks do cross hosts: two containers on [h1] that carry the label of
    [c9] put [c9], a container of [h2], into an identity conflict. *)
Theorem sync_marks_another_host :
  let twins := report "d2" {[DOCKPLANE_CONTAINER_ID := "c9"]} ::
               report "d3" {[DOCKPLANE_CONTAINER_ID := "c9"]} :: nil in
  ∃ r, containers (w_db (sync "agent-1" (example_pass twins)).2) !! "c9" = Some r ∧
    container_hostId r = "h2" ∧ container_identityConflict r ≠ None.
Proof.
  intros twins.
  assert (H : match containers (w_db (sync "agent-1" (example_pass twins)).2) !! "c9" with
              | Some r => bool_decide (container_hostId r = "h2") &&
                          bool_decide (is_Some (container_identityConflict r))
              | None => false
              end = true) by (vm_compute; reflexivity).
  destruct (containers _ !! "c9") as [r|]; [|done].
  apply andb_true_iff in H as [H1%bool_decide_eq_true H2%bool_decide_eq_true].
  exists r. split_and!; [done|done|]. destruct H2 as [x ->]. done.
Qed.
