(* ===== verification/Detail.v ===== *)
(** * Detail, read on demand

    [api/src/discovery/detail.service.ts].  A reply is JSON from a machine that
    may have been modified or compromised; what is stored is rebuilt from it
    field by field ([normaliseContainerDetail]).

    [Date] is JavaScript's; which strings it reads and how it writes a moment are
    parameters ([Dates]), with the one law that matters here: what it writes it
    reads back.  Concurrent readers share one dispatch ([coalesce]); the model
    runs one reader at a time, for which sharing changes nothing. *)

From Stdlib Require Import Ascii String NArith ZArith.
From stdpp Require Import gmap strings list pretty.
From S2P Require Import Prelude Schema Store Registry Effects Logic RecoveryFinalizer Discovery.

Class Dates := {
  date_parse : string → option time;
  date_iso : time → string;
  date_roundtrip s t : date_parse s = Some t → date_parse (date_iso t) = Some t
}.

(** ** Reading JSON *)

Definition get (v : json) (key : string) : option json :=
  match v with
  | JObject fields => snd <$> map_get fst fields key
  | _ => None
  end.

(** [s.slice(0, n)] *)
Definition slice (n : nat) (s : string) : string := substring 0 n s.

Definition text_of (v : option json) : option string :=
  match v with
  | Some (JString s) => if bool_decide (s = "") then None else Some (slice 1024 s)
  | _ => None
  end.

Definition number_of (v : option json) : option Z :=
  match v with Some (JNumber n) => Some n | _ => None end.

Definition string_entry (v : json) : option string :=
  match v with JString s => Some (slice 256 s) | _ => None end.

Definition strings_of (v : option json) : list string :=
  match v with Some (JArray l) => omap string_entry l | _ => [] end.

(** Entries of an array that are objects: [typeof entry === 'object' && entry !== null]. *)
Definition is_object (v : json) : bool :=
  match v with JObject _ | JArray _ => true | _ => false end.

Definition objects_of (v : option json) : list json :=
  match v with Some (JArray l) => List.filter is_object l | _ => [] end.

(** ** The projection *)

Record DetailPort := {
  dport_containerPort : Z;
  dport_protocol : string;
  dport_hostPort : option string;
  dport_hostIp : option string
}.

Record DetailMount := {
  dmount_type : string;
  dmount_readOnly : bool;
  dmount_name : option string
}.

Record DetailLimits := {
  limit_memoryBytes : option Z;
  limit_nanoCpus : option Z;
  limit_pidsLimit : option Z
}.

Record ContainerDetail := {
  detail_dockerId : string;
  detail_name : string;
  detail_image : string;
  detail_imageId : option string;
  detail_state : string;
  detail_status : string;
  detail_health : string;
  detail_restartCount : Z;
  detail_restartPolicy : option string;
  detail_createdAt : option string;
  detail_startedAt : option string;
  detail_finishedAt : option string;
  detail_exitCode : option Z;
  detail_ports : list DetailPort;
  detail_networks : list string;
  detail_mounts : list DetailMount;
  detail_limits : option DetailLimits;
  detail_labels : list (string * string)
}.

Definition FORWARDED_LABELS : list string :=
  ["com.docker.compose.project"; "com.docker.compose.service";
   "com.docker.compose.container-number"; "com.docker.compose.oneoff"].

Definition label_entry (entry : string * json) : option (string * string) :=
  match entry with
  | (key, JString s) => if mem key FORWARDED_LABELS then Some (key, slice 256 s) else None
  | _ => None
  end.

Definition composeLabels (v : option json) : list (string * string) :=
  match v with Some (JObject fields) => omap label_entry fields | _ => [] end.

Definition port_of (entry : json) : DetailPort := {|
  dport_containerPort := number_of (get entry "containerPort") ?? 0%Z;
  dport_protocol := text_of (get entry "protocol") ?? "tcp";
  dport_hostPort := text_of (get entry "hostPort");
  dport_hostIp := text_of (get entry "hostIp") |}.

Definition ports (v : option json) : list DetailPort := port_of <$> objects_of v.

Definition mount_of (entry : json) : DetailMount :=
  let type := text_of (get entry "type") ?? "unknown" in {|
  dmount_type := type;
  dmount_readOnly := match get entry "readOnly" with Some (JBool true) => true | _ => false end;
  dmount_name := if bool_decide (type = "volume") then text_of (get entry "name") else None |}.

(** Mounts, without the source path of a bind mount. *)
Definition mounts (v : option json) : list DetailMount := mount_of <$> objects_of v.

Definition limits (v : option json) : option DetailLimits :=
  match v with
  | Some v =>
      let constraints := {|
        limit_memoryBytes := number_of (get v "memoryBytes");
        limit_nanoCpus := number_of (get v "nanoCpus");
        limit_pidsLimit := number_of (get v "pidsLimit") |} in
      match constraints with
      | {| limit_memoryBytes := None; limit_nanoCpus := None; limit_pidsLimit := None |} => None
      | _ => Some constraints
      end
  | None => None
  end.

Section detail.
Context `{Dates}.

Definition timestamp (v : option json) : option string :=
  match v with
  | Some (JString s) => date_iso <$> date_parse s
  | _ => None
  end.

Definition normaliseContainerDetail (raw : json) : option ContainerDetail :=
  match get raw "dockerId" with
  | Some (JString dockerId) =>
      if bool_decide (dockerId = "") then None
      else Some {|
        detail_dockerId := dockerId;
        detail_name := text_of (get raw "name") ?? "";
        detail_image := text_of (get raw "image") ?? "";
        detail_imageId := text_of (get raw "imageId");
        detail_state := text_of (get raw "state") ?? "unknown";
        detail_status := text_of (get raw "status") ?? "unknown";
        detail_health := text_of (get raw "health") ?? "none";
        detail_restartCount := number_of (get raw "restartCount") ?? 0%Z;
        detail_restartPolicy := text_of (get raw "restartPolicy");
        detail_createdAt := timestamp (get raw "createdAt");
        detail_startedAt := timestamp (get raw "startedAt");
        detail_finishedAt := timestamp (get raw "finishedAt");
        detail_exitCode := number_of (get raw "exitCode");
        detail_ports := ports (get raw "ports");
        detail_networks := strings_of (get raw "networks");
        detail_mounts := mounts (get raw "mounts");
        detail_limits := limits (get raw "limits");
        detail_labels := composeLabels (get raw "labels") |}
  | _ => None
  end.

(** *** The projection as it is stored: a field that is absent is left out *)

Definition object_of (fields : list (string * option json)) : json :=
  JObject (omap (λ kv : string * option json, pair kv.1 <$> kv.2) fields).

Definition port_fields (p : DetailPort) : json := object_of [
  ("containerPort", Some (JNumber (dport_containerPort p)));
  ("protocol", Some (JString (dport_protocol p)));
  ("hostPort", JString <$> dport_hostPort p); ("hostIp", JString <$> dport_hostIp p)].

Definition mount_fields (m : DetailMount) : json := object_of [
  ("type", Some (JString (dmount_type m))); ("readOnly", Some (JBool (dmount_readOnly m)));
  ("name", JString <$> dmount_name m)].

Definition limits_fields (l : DetailLimits) : json := object_of [
  ("memoryBytes", JNumber <$> limit_memoryBytes l);
  ("nanoCpus", JNumber <$> limit_nanoCpus l); ("pidsLimit", JNumber <$> limit_pidsLimit l)].

Definition detail_fields (d : ContainerDetail) : list (string * option json) := [
  ("dockerId", Some (JString (detail_dockerId d))); ("name", Some (JString (detail_name d)));
  ("image", Some (JString (detail_image d))); ("state", Some (JString (detail_state d)));
  ("status", Some (JString (detail_status d))); ("health", Some (JString (detail_health d)));
  ("restartCount", Some (JNumber (detail_restartCount d)));
  ("ports", Some (JArray (port_fields <$> detail_ports d)));
  ("networks", Some (JArray (JString <$> detail_networks d)));
  ("mounts", Some (JArray (mount_fields <$> detail_mounts d)));
  ("labels", Some (JObject ((λ l, (l.1, JString l.2)) <$> detail_labels d)));
  ("imageId", JString <$> detail_imageId d); ("restartPolicy", JString <$> detail_restartPolicy d);
  ("createdAt", JString <$> detail_createdAt d); ("startedAt", JString <$> detail_startedAt d);
  ("finishedAt", JString <$> detail_finishedAt d); ("exitCode", JNumber <$> detail_exitCode d);
  ("limits", limits_fields <$> detail_limits d)].

Definition detail_json (d : ContainerDetail) : json := object_of (detail_fields d).

(** ** Lemmas *)

Lemma object_of_keys (fields : list (string * option json)) k v :
  (k, v) ∈ omap (λ kv : string * option json, pair kv.1 <$> kv.2) fields ↔ (k, Some v) ∈ fields.
Proof.
  rewrite list_elem_of_omap. split.
  - intros ([k' [v'|]] & Hin & E); simplify_eq/=. done.
  - intros Hin. by exists (k, Some v).
Qed.

(** A field is read back as it was written, absent ones included. *)
Lemma get_object fields k v :
  NoDup fields.*1 → (k, v) ∈ fields → get (object_of fields) k = v.
Proof.
  intros Hnd Hin. simpl. destruct (map_get fst _ k) as [[k' v']|] eqn:E.
  - apply map_get_Some in E as [Hv <-]. simpl. apply object_of_keys in Hv. simpl in Hin.
    apply list_elem_of_lookup in Hin as [i Hi]. apply list_elem_of_lookup in Hv as [j Hj].
    assert (i = j) as <-.
    { eapply (NoDup_lookup _ _ _ k' Hnd); rewrite list_lookup_fmap, ?Hi, ?Hj; done. }
    simpl. congruence.
  - destruct v as [v|]; [|done]. exfalso. apply object_of_keys in Hin.
    destruct (map_get_is_Some fst _ k _ Hin eq_refl). congruence.
Qed.

(** Read the [i]th field of a record written with distinct keys. *)
Ltac read_field i :=
  erewrite get_object;
    [|apply (bool_decide_unpack _); by vm_compute|by apply (list_elem_of_lookup_2 _ i)].

Lemma slice_slice n s : slice n (slice n s) = slice n s.
Proof.
  unfold slice. revert n. induction s as [|c s IH]; intros [|n]; simpl; [done|done|done|].
  by rewrite IH.
Qed.

Lemma slice_nonempty n s : s ≠ "" → slice (S n) s ≠ "".
Proof. by destruct s. Qed.

(** What one reading yields the next one leaves alone. *)
Lemma text_of_opt v : text_of (JString <$> text_of v) = text_of v.
Proof.
  destruct v as [[]|]; simpl; try done. case_bool_decide as Hs; [done|]. simpl.
  rewrite bool_decide_eq_false_2 by (by apply slice_nonempty). by rewrite slice_slice.
Qed.

Lemma text_of_or v d :
  slice 1024 d = d → text_of (Some (JString (text_of v ?? d))) ?? d = text_of v ?? d.
Proof.
  intros Hd. pose proof (text_of_opt v) as Hv. destruct (text_of v) as [s|]; simpl in Hv |- *.
  - by rewrite Hv.
  - case_bool_decide as E; [by rewrite E|by rewrite Hd].
Qed.

Lemma number_of_opt v : number_of (JNumber <$> number_of v) = number_of v.
Proof. by destruct v as [[]|]. Qed.

Lemma strings_of_strings v : strings_of (Some (JArray (JString <$> strings_of v))) = strings_of v.
Proof.
  destruct v as [[| | | |l|]|]; try done. simpl. induction l as [|x l IH]; [done|].
  destruct x; simpl; try done. rewrite slice_slice. f_equal. exact IH.
Qed.

Lemma composeLabels_labels v :
  composeLabels (Some (JObject ((λ l, (l.1, JString l.2)) <$> composeLabels v))) = composeLabels v.
Proof.
  destruct v as [[| | | | |l]|]; try done. simpl. induction l as [|[k x] l IH]; [done|].
  destruct x; simpl; try done. unfold mem. case_bool_decide; simpl; [|done].
  unfold mem. rewrite bool_decide_eq_true_2 by done. rewrite slice_slice. f_equal. exact IH.
Qed.

Lemma objects_of_map {A} (f : A → json) l :
  (∀ x, is_object (f x) = true) → objects_of (Some (JArray (f <$> l))) = f <$> l.
Proof. intros Hf. simpl. induction l as [|x l IH]; [done|]. simpl. rewrite Hf. f_equal. exact IH. Qed.

Lemma port_of_port entry : port_of (port_fields (port_of entry)) = port_of entry.
Proof.
  unfold port_of at 1, port_fields. read_field 0. read_field 1. read_field 2. read_field 3.
  unfold port_of. simpl dport_hostPort. simpl dport_hostIp. simpl dport_protocol.
  by rewrite !text_of_opt, text_of_or.
Qed.

Lemma ports_ports v : ports (Some (JArray (port_fields <$> ports v))) = ports v.
Proof.
  unfold ports at 1. rewrite objects_of_map by done. unfold ports.
  rewrite <-!list_fmap_compose. apply list_fmap_ext. intros _ e _. apply port_of_port.
Qed.

Lemma mount_of_mount entry : mount_of (mount_fields (mount_of entry)) = mount_of entry.
Proof.
  unfold mount_of at 1, mount_fields. read_field 0. read_field 1. read_field 2.
  unfold mount_of. simpl dmount_type. simpl dmount_name. simpl dmount_readOnly.
  rewrite text_of_or by done. f_equal; [by repeat case_match|].
  case_bool_decide; [apply text_of_opt|done].
Qed.

Lemma mounts_mounts v : mounts (Some (JArray (mount_fields <$> mounts v))) = mounts v.
Proof.
  unfold mounts at 1. rewrite objects_of_map by done. unfold mounts.
  rewrite <-!list_fmap_compose. apply list_fmap_ext. intros _ e _. apply mount_of_mount.
Qed.

Lemma limits_limits v : limits (limits_fields <$> limits v) = limits v.
Proof.
  destruct v as [v|]; [|done]. unfold limits at 2 3.
  destruct (number_of (get v "memoryBytes")) as [a|] eqn:Ea,
    (number_of (get v "nanoCpus")) as [b|] eqn:Eb,
    (number_of (get v "pidsLimit")) as [c|] eqn:Ec; by vm_compute.
Qed.

Lemma timestamp_opt v : timestamp (JString <$> timestamp v) = timestamp v.
Proof.
  destruct v as [[]|]; try done. unfold timestamp at 2 3.
  destruct (date_parse s) as [t|] eqn:E; [|done]. unfold timestamp. simpl.
  by rewrite (date_roundtrip _ _ E).
Qed.

(** What is stored is what would be read again.  Normalising a reply and
    normalising what was stored of it give the same record, so a projection can
    be rewritten any number of times without changing or growing. *)
Theorem normalise_idempotent raw d :
  normaliseContainerDetail raw = Some d → normaliseContainerDetail (detail_json d) = Some d.
Proof.
  unfold normaliseContainerDetail at 1. destruct (get raw "dockerId") as [[| | |id| |]|]; try done.
  case_bool_decide as Hid; [done|]. intros [= <-]. unfold normaliseContainerDetail, detail_json.
  read_field 0. cbv beta iota. simpl detail_dockerId. rewrite bool_decide_eq_false_2 by done.
  read_field 1. read_field 2. read_field 11. read_field 3. read_field 4. read_field 5.
  read_field 6. read_field 12. read_field 13. read_field 14. read_field 15. read_field 16.
  read_field 7. read_field 8. read_field 9. read_field 17. read_field 10.
  cbn [detail_name detail_image detail_imageId detail_state detail_status detail_health
    detail_restartCount detail_restartPolicy detail_createdAt detail_startedAt detail_finishedAt
    detail_exitCode detail_ports detail_networks detail_mounts detail_limits detail_labels].
  rewrite !text_of_opt, !text_of_or, !number_of_opt, !timestamp_opt, ports_ports, mounts_mounts,
    strings_of_strings, composeLabels_labels, limits_limits by done.
  done.
Qed.

(** The fields the product defines. *)
Definition DEFINED_FIELDS : list string :=
  ["dockerId"; "name"; "image"; "imageId"; "state"; "status"; "health"; "restartCount";
   "restartPolicy"; "createdAt"; "startedAt"; "finishedAt"; "exitCode"; "ports"; "networks";
   "mounts"; "limits"; "labels"].

Lemma get_other fields k v key :
  k ≠ key → get (JObject (fields ++ [(k, v)])) key = get (JObject fields) key.
Proof.
  intros Hk. simpl. unfold map_get. rewrite rev_app_distr. simpl.
  by rewrite bool_decide_eq_false_2.
Qed.

Lemma slice_length n s : String.length (slice n s) ≤ n.
Proof.
  unfold slice. revert n. induction s as [|c s IH]; intros [|n]; simpl; try lia.
  specialize (IH n). lia.
Qed.

(** An agent cannot put into the database what the product does not define.
    Of a reply that is accepted, the labels kept are forwarded ones, cut to 256
    characters; a mount that is not a volume keeps no name and no source; and any
    other field, of the container or of one of its mounts, whatever it holds,
    leaves what is stored exactly as it was. *)
Theorem normalise_keeps_only_defined fields d :
  normaliseContainerDetail (JObject fields) = Some d →
  (∀ key value, (key, value) ∈ detail_labels d →
     key ∈ FORWARDED_LABELS ∧ String.length value ≤ 256) ∧
  (∀ m, m ∈ detail_mounts d → dmount_type m ≠ "volume" → dmount_name m = None) ∧
  (∀ key value, key ∉ DEFINED_FIELDS →
     normaliseContainerDetail (JObject (fields ++ [(key, value)])) = Some d) ∧
  (∀ mount key value, key ∉ ["type"; "readOnly"; "name"] →
     mount_of (JObject (mount ++ [(key, value)])) = mount_of (JObject mount)).
Proof.
  intros E. split_and!.
  - unfold normaliseContainerDetail in E. repeat case_match; simplify_eq/=.
    intros key value Hin. unfold composeLabels in Hin.
    destruct (snd <$> map_get fst fields "labels") as [[| | | | |l]|]; 
      try by apply not_elem_of_nil in Hin.
    apply list_elem_of_omap in Hin as ([k []] & _ & Hl); simplify_eq/=.
    unfold mem in Hl. case_bool_decide; simplify_eq. split; [done|apply slice_length].
  - unfold normaliseContainerDetail in E. repeat case_match; simplify_eq/=.
    intros m (e & -> & _)%list_elem_of_fmap Hne.
    unfold mount_of. cbv zeta. cbn [dmount_name]. by rewrite bool_decide_eq_false_2.
  - intros key value Hk. rewrite <-E. unfold normaliseContainerDetail.
    rewrite !get_other by (intros ->; by apply Hk, (bool_decide_unpack _)). done.
  - intros mount key value Hk. unfold mount_of. rewrite !get_other by (intros ->; by apply Hk, (bool_decide_unpack _)). done.
Qed.

(** ** The service *)

Definition FRESH_FOR_MS : Z := 10000.

Definition isFresh (observedAt : option time) (at_ : time) : bool :=
  match observedAt with
  | Some t => (at_ - t <? FRESH_FOR_MS)%Z
  | None => false
  end.

(** The agent that can answer for a host, when it is there. *)
Definition reachableAgent (hostId : string) : M (option string) :=
  agent ← select_first (λ a : Agent,
    bool_decide (agent_hostId a = hostId) && bool_decide (agent_revokedAt a = None));
  match agent with
  | None => mret None
  | Some agent =>
      connected ← isConnected (agent_id agent);
      mret (if connected : bool then Some (agent_id agent) else None)
  end.

(** What a caller is given: the record, when it was observed, whether it is stale. *)
Record DetailView := {
  view_detail : json;
  view_observedAt : option time;
  view_stale : bool
}.

Definition offline (stored : option json) (observedAt : option time) : M DetailView :=
  match stored with
  | None => conflict "CONTAINER_DETAIL_UNAVAILABLE"
  | Some d => mret {| view_detail := d; view_observedAt := observedAt; view_stale := true |}
  end.

(** [payload?.container] *)
Definition container_of (p : Payload) : json :=
  match p with Payload_container v => v | _ => JNull end.

(** Ask the host, and keep what it says. *)
Definition inspect (containerId agentId : string) (row : Container) :
    M (option (json * option time)) :=
  payload ← request agentId "container.inspect"
    (JObject [("containerId", JString (container_dockerId row ?? ""))]);
  match normaliseContainerDetail (container_of payload) with
  | None => mret None
  | Some d =>
      observedAt ← now;
      update_id (R := Container) containerId (λ r, r
        <| container_detail := Some (detail_json d) |>
        <| container_detailObservedAt := Some observedAt |>
        <| container_state :=
             if bool_decide (detail_state d = "") then container_state row else detail_state d |>
        <| container_health :=
             if bool_decide (detail_health d = "") then container_health row else detail_health d |>
        <| container_restartCount := detail_restartCount d |>);;
      mret (Some (detail_json d, Some observedAt))
  end.

(** The work concurrent callers share: refreshing the record. *)
Definition refreshContainer (containerId : string) (force : bool) (agentId : string)
    (row : Container) : M (option (json * option time)) :=
  current ← select_id (R := Container) containerId;
  at_ ← now;
  match current with
  | Some c =>
      if negb force && bool_decide (is_Some (container_detail c)) &&
         isFresh (container_detailObservedAt c) at_
      then mret (Some (container_detail c ?? JNull, container_detailObservedAt c))
      else inspect containerId agentId row
  | None => inspect containerId agentId row
  end.

Definition containerDetail (containerId : string) (force : bool) : M DetailView :=
  row ← select_id (R := Container) containerId;
  match row with
  | None => notFound "CONTAINER_NOT_FOUND"
  | Some row =>
      if negb (truthy (container_dockerId row)) then notFound "CONTAINER_NOT_FOUND"
      else
        let stored := container_detail row in
        at_ ← now;
        if negb force && bool_decide (is_Some stored) &&
           isFresh (container_detailObservedAt row) at_
        then mret {| view_detail := stored ?? JNull;
                     view_observedAt := container_detailObservedAt row; view_stale := false |}
        else
          agentId ← reachableAgent (container_hostId row);
          match agentId with
          | None => offline stored (container_detailObservedAt row)
          | Some agentId =>
              try_catch (
                refreshed ← refreshContainer containerId force agentId row;
                match refreshed with
                | None => offline stored (container_detailObservedAt row)
                | Some (d, at_) =>
                    mret {| view_detail := d; view_observedAt := at_; view_stale := false |}
                end)
              (λ error,
                if bool_decide (error_code error = Some "CONTAINER_NOT_FOUND") then
                  delete_from (λ r : Container, bool_decide (container_id r = containerId));;
                  notFound "CONTAINER_NOT_FOUND"
                else offline stored (container_detailObservedAt row))
          end
  end.

(** *** Compose projects *)

Record ComposeServiceDetail := {
  csd_name : string;
  csd_containerIds : list string;
  csd_running : Z;
  csd_total : Z;
  csd_state : string
}.

Definition service_of (entry : json) : ComposeServiceDetail := {|
  csd_name := text_of (get entry "name") ?? "unknown";
  csd_containerIds := strings_of (get entry "containerIds");
  csd_running := number_of (get entry "running") ?? 0%Z;
  csd_total := number_of (get entry "total") ?? 0%Z;
  csd_state := text_of (get entry "state") ?? "unknown" |}.

Definition normaliseServices (v : option json) : list ComposeServiceDetail :=
  List.filter (λ s, bool_decide (csd_name s ≠ "")) (service_of <$> objects_of v).

Definition services_json (l : list ComposeServiceDetail) : json :=
  JArray ((λ s, object_of [
    ("name", Some (JString (csd_name s)));
    ("containerIds", Some (JArray (JString <$> csd_containerIds s)));
    ("running", Some (JNumber (csd_running s))); ("total", Some (JNumber (csd_total s)));
    ("state", Some (JString (csd_state s)))]) <$> l).

Record ProjectView := {
  pview_services : list ComposeServiceDetail;
  pview_status : string;
  pview_serviceCount : Z;
  pview_runningCount : Z;
  pview_observedAt : option time;
  pview_stale : bool
}.

Definition view_of_project (p : ComposeProject) (stale : bool) : ProjectView := {|
  pview_services := normaliseServices (project_services p); pview_status := project_status p;
  pview_serviceCount := project_serviceCount p; pview_runningCount := project_runningCount p;
  pview_observedAt := project_detailObservedAt p; pview_stale := stale |}.

Definition offlineProject (row : ComposeProject) : M ProjectView :=
  if bool_decide (project_services row = None) then conflict "COMPOSE_DETAIL_UNAVAILABLE"
  else mret (view_of_project row true).

(** [!v] *)
Definition falsy (v : json) : bool :=
  match v with
  | JNull | JBool false | JNumber 0 => true
  | JString s => bool_decide (s = "")
  | _ => false
  end.

(** [payload?.project], when it is there *)
Definition project_of (p : Payload) : option json :=
  match p with Payload_project v => if falsy v then None else Some v | _ => None end.

Definition inspectProject (projectId agentId : string) (row : ComposeProject) :
    M (option ProjectView) :=
  payload ← request agentId "compose.inspect"
    (JObject [("projectName", JString (project_projectName row))]);
  match project_of payload with
  | None => mret None
  | Some project =>
      let services := normaliseServices (get project "services") in
      observedAt ← now;
      let status := match get project "status" with
                    | Some (JString s) => s | _ => project_status row end in
      let serviceCount := number_of (get project "serviceCount") ?? Z.of_nat (length services) in
      let runningCount := number_of (get project "runningCount") ?? project_runningCount row in
      update_id (R := ComposeProject) projectId (λ p, p
        <| project_services := Some (services_json services) |>
        <| project_detailObservedAt := Some observedAt |>
        <| project_status := status |> <| project_serviceCount := serviceCount |>
        <| project_runningCount := runningCount |>);;
      mret (Some {| pview_services := services; pview_status := status;
                    pview_serviceCount := serviceCount; pview_runningCount := runningCount;
                    pview_observedAt := Some observedAt; pview_stale := false |})
  end.

Definition refreshProject (projectId agentId : string) (row : ComposeProject) :
    M (option ProjectView) :=
  current ← select_id (R := ComposeProject) projectId;
  at_ ← now;
  match current with
  | Some c =>
      if isFresh (project_detailObservedAt c) at_ then mret (Some (view_of_project c false))
      else inspectProject projectId agentId row
  | None => inspectProject projectId agentId row
  end.

Definition projectDetail (projectId : string) : M ProjectView :=
  row ← select_id (R := ComposeProject) projectId;
  match row with
  | None => notFound "COMPOSE_PROJECT_NOT_FOUND"
  | Some row =>
      at_ ← now;
      if isFresh (project_detailObservedAt row) at_ then mret (view_of_project row false)
      else
        agentId ← reachableAgent (project_hostId row);
        match agentId with
        | None => offlineProject row
        | Some agentId =>
            try_catch (
              outcome ← refreshProject projectId agentId row;
              match outcome with
              | None => offlineProject row
              | Some view => mret view
              end)
            (λ error,
              if bool_decide (error_code error = Some "COMPOSE_PROJECT_NOT_FOUND")
              then notFound "COMPOSE_PROJECT_NOT_FOUND"
              else offlineProject row)
        end
  end.

(** ** Frames *)

Ltac open_detail :=
  unfold containerDetail, projectDetail, refreshContainer, refreshProject, inspect,
    inspectProject, offline, offlineProject, reachableAgent.

Lemma containerDetail_keeps_db_ok i force : framed (on_db keeps_db_ok) (containerDetail i force).
Proof. open_detail. frame. Qed.

Lemma containerDetail_same_locks i force : framed same_locks (containerDetail i force).
Proof. open_detail. frame. Qed.

Lemma projectDetail_keeps_db_ok i : framed (on_db keeps_db_ok) (projectDetail i).
Proof. open_detail. frame. Qed.

(** Everything but the observed columns of containers and projects, and the
    configurations that go with a container. *)
Definition undescribed (d : DB) :=
  (hosts d, agents d, stacks d, stackRevisions d, stackRevisionEnvironment d,
   stackDeployments d, stackOperations d, actions d, auditEntries d, events d).

Lemma containerDetail_undescribed i force : framed (on_db (unchanged undescribed)) (containerDetail i force).
Proof. open_detail. frame. Qed.

Lemma containerDetail_sends i force :
  framed (sends (λ m, sent_capability m = "container.inspect")) (containerDetail i force).
Proof. open_detail. frame; by apply framed_request_sends. Qed.

(** *** One container *)

(** A container without what is observed of it. *)
Definition unobserved (r : Container) : Container :=
  r <| container_detail := None |> <| container_detailObservedAt := None |>
    <| container_state := "" |> <| container_health := "" |> <| container_restartCount := 0%Z |>.

(** Only container [id] is described anew, or gone. *)
Definition describes (id : string) (d d' : DB) : Prop :=
  (∀ i, i ≠ id → containers d' !! i = containers d !! i) ∧
  (∀ r', containers d' !! id = Some r' →
     ∃ r, containers d !! id = Some r ∧ unobserved r' = unobserved r).

Definition keyed (d : DB) : Prop := ∀ i r, containers d !! i = Some r → container_id r = i.

Definition describes_keyed (id : string) : relation DB := λ d d',
  keyed d → keyed d' ∧ describes id d d'.

#[local] Instance describes_keyed_preorder id : PreOrder (describes_keyed id).
Proof.
  split.
  - intros d Hk. split; [done|]. split; [done|]. intros r Hr. by exists r.
  - intros d1 d2 d3 H12 H23 Hk. destruct (H12 Hk) as [Hk2 [Ho Hd]].
    destruct (H23 Hk2) as [Hk3 [Ho' Hd']]. split; [done|]. split.
    + intros i Hi. by rewrite Ho', Ho.
    + intros r3 (r2 & H2 & E2)%Hd'. apply Hd in H2 as (r1 & H1 & E1). exists r1. by rewrite E2.
Qed.

Lemma describes_update id f :
  (∀ r, container_id (f r) = container_id r ∧ unobserved (f r) = unobserved r) →
  framed (on_db (describes_keyed id)) (update_id (R := Container) id f).
Proof.
  intros Hf. apply framed_update; [apply _|]. intros d _ Hk. rewrite change_rows_id by done.
  assert (Hl : ∀ i r', alter f id (containers d) !! i = Some r' →
    ∃ r, containers d !! i = Some r ∧ (r' = r ∨ i = id ∧ r' = f r)).
  { intros i r'. destruct (decide (id = i)) as [->|Hi].
    - rewrite lookup_alter_eq. intros (r & Hr & ->)%fmap_Some_1. eauto.
    - rewrite lookup_alter_ne by done. eauto. }
  split; [|split].
  - intros i r' (r & Hr & [->|[-> ->]])%Hl; [by apply Hk|]. rewrite (proj1 (Hf r)). by apply Hk.
  - intros i Hi. by apply lookup_alter_ne.
  - intros r' (r & Hr & [->|[_ ->]])%Hl; exists r; split; [done|done|done|apply Hf].
Qed.
#[local] Hint Extern 2 (framed (on_db (describes_keyed _)) (update_id _ _)) =>
  apply describes_update; intros; split; reflexivity : frames.

Lemma describes_delete id :
  framed (on_db (describes_keyed id))
    (delete_from (λ r : Container, bool_decide (container_id r = id))).
Proof.
  apply framed_delete; [apply _|]. intros d Hk. simpl.
  split; [|split].
  - intros i r Hr. simpl in Hr. rewrite lookup_drop_rows in Hr.
    apply bind_Some in Hr as (r0 & Hr0 & Hr). case_bool_decide; simplify_eq. by apply Hk.
  - intros i Hi. simpl. rewrite lookup_drop_rows. destruct (containers d !! i) as [r|] eqn:E; [|done].
    simpl. apply Hk in E. by rewrite bool_decide_eq_false_2 by congruence.
  - intros r' Hr. simpl in Hr. rewrite lookup_drop_rows in Hr.
    apply bind_Some in Hr as (r0 & Hr0 & Hr). case_bool_decide as Hc; simplify_eq.
    destruct Hc. by apply Hk.
Qed.
#[local] Hint Resolve describes_delete : frames.

(** Looking at a container changes nothing but what is known of it.  Whatever
    the host answers and whatever fails, every other container is untouched,
    the container asked about keeps its identity, owner and name if it is still
    there, no stack, attempt, operation, host, agent, action, event or audit entry
    changes, and the only request sent is an inspection. *)
Theorem containerDetail_only_describes id force w :
  let w' := (containerDetail id force w).2 in
  (db_ok (w_db w) → describes id (w_db w) (w_db w')) ∧
  undescribed (w_db w') = undescribed (w_db w) ∧
  ∃ sent, w_outbox w' = w_outbox w ++ sent ∧
    Forall (λ m, sent_capability m = "container.inspect") sent.
Proof.
  simpl. split_and!.
  - intros Hok. assert (Hk : keyed (w_db w)) by exact (proj1 (db_ok_rows (R := Container) _ Hok)).
    enough (framed (on_db (describes_keyed id)) (containerDetail id force)) as Hf by (by apply Hf).
    open_detail. frame.
  - apply containerDetail_undescribed.
  - apply containerDetail_sends.
Qed.

(** *** What the caller is told *)

Definition same_moment : relation World := λ w w', w_db w' = w_db w ∧ w_now w' = w_now w.

#[local] Instance same_moment_frame : Frame same_moment.
Proof.
  unfold same_moment. split; [split|..]; try done; try naive_solver.
  intros w1 w2 w3 [-> ->] [-> ->]. done.
Qed.

Lemma request_same_moment a c plan : framed same_moment (request a c plan).
Proof.
  intros w. unfold request, same_moment. case_bool_decide; [|done].
  by destruct (head (w_replies w)) as [[| | |]|].
Qed.
#[local] Hint Resolve request_same_moment : frames.

Lemma reachableAgent_same_moment h : framed same_moment (reachableAgent h).
Proof. unfold reachableAgent. frame. Qed.

(** The host's answer, kept. *)
Definition refreshed_from (id : string) (w : World) (d : json) (at_ : option time) (w' : World) : Prop :=
  ∃ raw c row', normaliseContainerDetail raw = Some c ∧ d = detail_json c ∧
    at_ = Some (w_now w) ∧ containers (w_db w') !! id = Some row' ∧
    container_detail row' = Some d.

Lemma inspect_cases id agentId row row0 w r w' :
  keyed (w_db w) → containers (w_db w) !! id = Some row0 →
  inspect id agentId row w = (r, w') →
  (w_db w' = w_db w ∧ w_now w' = w_now w ∧ (r = inr None ∨ ∃ e, r = inl e)) ∨
  ∃ d at_, r = inr (Some (d, at_)) ∧ refreshed_from id w d at_ w'.
Proof.
  intros Hk Hrow E. unfold inspect in E.
  apply bind_cases in E as [(e & -> & E)|(p & w1 & E1 & E)].
  { left. apply (framed_run _ _ _ _ _ (request_same_moment _ _ _)) in E as [? ?]. by eauto. }
  apply (framed_run _ _ _ _ _ (request_same_moment _ _ _)) in E1 as [Hdb Hnow].
  destruct (normaliseContainerDetail (container_of p)) as [c|] eqn:En;
    [|left; unfold mret, M_ret in E; simplify_eq; by auto].
  apply bind_cases in E as [(e & -> & E)|(t & w2 & E2 & E)]; [done|].
  apply now_inr in E2 as [-> ->].
  apply bind_cases in E as [(e & -> & E)|(l & w3 & E3 & E)].
  - left. unfold update_id, update, statement in E.
    destruct (next_fault w1); [|destruct (update_where _ _ _) as [|[]]]; simplify_eq/=; by eauto.
  - right. unfold mret, M_ret in E. simplify_eq.
    apply update_inr in E3 as [_ [fs ->]]. rewrite Hdb, Hnow.
    eexists _, _. split; [done|]. eexists _, c, _. split_and!; [exact En|done|done| |].
    + simpl. change (container_id) with (row_id (R := Container)).
      rewrite change_rows_id by exact Hk. rewrite lookup_alter_eq, Hrow. simpl. reflexivity.
    + done.
Qed.

Lemma offline_inr stored observedAt w view w' :
  offline stored observedAt w = (inr view, w') →
  w' = w ∧ stored = Some (view_detail view) ∧ view_observedAt view = observedAt ∧ view_stale view = true.
Proof. destruct stored as [d|]; intros E; unfold offline in E; by unbind. Qed.

Lemma refreshContainer_cases id force agentId row w r w' :
  keyed (w_db w) → containers (w_db w) !! id = Some row →
  negb force && bool_decide (is_Some (container_detail row)) &&
    isFresh (container_detailObservedAt row) (w_now w) = false →
  refreshContainer id force agentId row w = (r, w') →
  (w_db w' = w_db w ∧ w_now w' = w_now w ∧ (r = inr None ∨ ∃ e, r = inl e)) ∨
  ∃ d at_, r = inr (Some (d, at_)) ∧ refreshed_from id w d at_ w'.
Proof.
  intros Hk Hrow Hf E. unfold refreshContainer in E.
  apply (framed_step same_moment _ _ w) in E as [[[? ?] ?]|(o & w1 & E1 & _ & E)];
    [by auto 6| |by frame|reflexivity].
  apply select_id_inr in E1 as [-> [f1 ->]]. simpl in E. rewrite Hrow in E.
  rewrite (run_bind now _ _ _ _ eq_refl) in E. simpl in E. rewrite Hf in E.
  by apply (inspect_cases _ _ _ row) in E.
Qed.

(** A stored description is never passed off as current.  A caller who is
    given one is given what is stored, with the moment it was observed, and it
    is marked stale unless it is recent and no fresh reading was asked for; a
    caller who is given anything else is given what the host just answered,
    normalised, and that is what is stored from then on. *)
Theorem containerDetail_honest id force w view w' :
  db_ok (w_db w) → containerDetail id force w = (inr view, w') →
  ∃ row, containers (w_db w) !! id = Some row ∧
    ((w_db w' = w_db w ∧ container_detail row = Some (view_detail view) ∧
        view_observedAt view = container_detailObservedAt row ∧
        (view_stale view = false →
           force = false ∧ isFresh (container_detailObservedAt row) (w_now w) = true)) ∨
     (view_stale view = false ∧
        refreshed_from id w (view_detail view) (view_observedAt view) w')).
Proof.
  intros Hok E. assert (Hk : keyed (w_db w)) by exact (proj1 (db_ok_rows (R := Container) _ Hok)).
  unfold containerDetail in E.
  apply bind_inr in E as (o & w1 & [-> [f1 ->]]%select_id_inr & E). simpl in E.
  destruct (containers (w_db w) !! id) as [row|] eqn:Hrow; [|by unbind].
  exists row. split; [done|].
  destruct (negb (truthy (container_dockerId row))); [by unbind|].
  apply bind_inr in E as (t & w2 & [-> ->]%now_inr & E). simpl in E.
  destruct (negb force && _ && _) eqn:Ef.
  { apply andb_true_iff in Ef as [[Hforce Hst%bool_decide_eq_true]%andb_true_iff Hfr].
    unbind. left. destruct Hst as [d Hd]. rewrite Hd. by destruct force. }
  apply bind_inr in E as (a & w2 & E1 & E).
  apply (framed_run _ _ _ _ _ (reachableAgent_same_moment _)) in E1 as [Hdb Hnow]. simpl in Hdb, Hnow.
  destruct a as [agentId|]; [|apply offline_inr in E as (-> & ? & ? & ->); left; by split_and!].
  assert (Hoff : ∀ w3, w_db w3 = w_db w →
    offline (container_detail row) (container_detailObservedAt row) w3 = (inr view, w') →
    w_db w' = w_db w ∧ container_detail row = Some (view_detail view) ∧
    view_observedAt view = container_detailObservedAt row ∧
    (view_stale view = false →
       force = false ∧ isFresh (container_detailObservedAt row) (w_now w) = true)).
  { intros w3 H3 (-> & ? & ? & ->)%offline_inr. by split_and!. }
  unfold try_catch in E. match type of E with
    match ?x with _ => _ end = _ => destruct x as [[e|v] w3] eqn:Em end.
  - (* the reading failed: the host said it is gone, or what is stored *)
    assert (H3 : w_db w3 = w_db w).
    { apply bind_cases in Em as [(e' & _ & Em)|(o & w4 & Er & Em)].
      - apply refreshContainer_cases in Em as [(-> & _)|(? & ? & ? & _)];
          [done|done|by rewrite Hdb|by rewrite Hdb|by rewrite Hnow].
      - apply refreshContainer_cases in Er as [(H4 & _ & [[= ->]|[? ?]])|(d & t & [= ->] & _)];
          [|done|done|by rewrite Hdb|by rewrite Hdb|by rewrite Hnow].
        clear Ef E Hoff. unfold offline, conflict, throw, mret, M_ret in Em.
        destruct (container_detail row); simplify_eq; congruence. }
    case_bool_decide; [by unbind|]. left. by apply (Hoff w3).
  - simplify_eq. apply bind_inr in Em as (o & w4 & Er & Em).
    apply refreshContainer_cases in Er as [(H4 & _ & [[= ->]|[? ?]])|(d & t & [= ->] & Hr)];
      [left| | |by rewrite Hdb|by rewrite Hdb|by rewrite Hnow]; [|done|].
    + apply (Hoff w4); [congruence|done].
    + right. unfold mret, M_ret in Em. simplify_eq. split; [done|].
      unfold refreshed_from in *. by rewrite Hnow in Hr.
Qed.
End detail.

(** ** Witnesses

    A clock that knows one moment satisfies what is assumed of [Date]. *)

Definition NEW_YEAR := "2026-01-01T00:00:00.000Z".

#[local] Program Instance one_moment : Dates := {|
  date_parse s := if bool_decide (s = NEW_YEAR) then Some 0%Z else None;
  date_iso _ := NEW_YEAR
|}.
Next Obligation. intros s t. simpl. by repeat case_bool_decide. Qed.

(** A reply with a bind mount, a private label and an environment nobody asked for. *)
Definition inspect_reply : list (string * json) := [
  ("dockerId", JString "d1"); ("state", JString "running"); ("startedAt", JString NEW_YEAR);
  ("mounts", JArray [JObject [("type", JString "bind"); ("source", JString "/srv/secrets");
                              ("name", JString "x")]]);
  ("labels", JObject [("com.docker.compose.project", JString "shop"); ("password", JString "p")]);
  ("env", JArray [JString "DB_PASSWORD=hunter2"])].

Definition inspected : ContainerDetail :=
  {| detail_dockerId := "d1"; detail_name := ""; detail_image := ""; detail_imageId := None;
     detail_state := "running"; detail_status := "unknown"; detail_health := "none";
     detail_restartCount := 0%Z; detail_restartPolicy := None; detail_createdAt := None;
     detail_startedAt := Some NEW_YEAR; detail_finishedAt := None; detail_exitCode := None;
     detail_ports := []; detail_networks := [];
     detail_mounts := [{| dmount_type := "bind"; dmount_readOnly := false; dmount_name := None |}];
     detail_limits := None; detail_labels := [("com.docker.compose.project", "shop")] |}.

Lemma normalise_idempotent_witness :
  normaliseContainerDetail (detail_json inspected) = Some inspected.
Proof. apply (normalise_idempotent (JObject inspect_reply)). by vm_compute. Defined.

Lemma normalise_keeps_only_defined_witness :
  normaliseContainerDetail (JObject (inspect_reply ++ [("hostConfig", JString "anything")])) =
    Some inspected.
Proof.
  destruct (normalise_keeps_only_defined inspect_reply inspected) as (_ & _ & H & _);
    [by vm_compute|]. apply H. by apply (bool_decide_unpack _).
Defined.

(** Container [c1] of host [h1], with the configuration it runs and one that is
    waiting for a replacement to finish. *)
Definition replacing : DB := interrupted_db
  <| hosts := {["h1" := example_host "h1"]} |> <| agents := {["agent-1" := example_agent]} |>
  <| containers := {["c1" := example_container "c1" "h1" "d1"]} |>.

Lemma replacing_ok : db_ok replacing.
Proof. apply db_okb_true. by vm_compute. Qed.

Definition inspecting (reply : AgentReply) : World := (quiet_world replacing) <| w_replies := [reply] |>.

Definition inspect_ok := Replied (Payload_container (JObject inspect_reply)).

Lemma containerDetail_only_describes_witness :
  describes "c1" replacing (w_db (containerDetail "c1" true (inspecting inspect_ok)).2).
Proof.
  destruct (containerDetail_only_describes "c1" true (inspecting inspect_ok)) as [H _].
  apply H, replacing_ok.
Defined.

Lemma containerDetail_honest_witness :
  ∃ view w', containerDetail "c1" true (inspecting inspect_ok) = (inr view, w') ∧
    view_stale view = false ∧ view_detail view = detail_json inspected.
Proof.
  assert (Hv : match (containerDetail "c1" true (inspecting inspect_ok)).1 with
               | inr view => view_stale view = false ∧ view_detail view = detail_json inspected
               | inl _ => False
               end) by (by vm_compute).
  pose proof (λ view w', containerDetail_honest "c1" true (inspecting inspect_ok) view w' replacing_ok)
    as Hh.
  revert Hv Hh. generalize (containerDetail "c1" true (inspecting inspect_ok)).
  intros [[e|view] w'] Hv Hh; [done|].
  destruct (Hh view w' eq_refl) as (row & _ & [(_ & _ & _ & Hf)|_]); [by destruct (Hf (proj1 Hv))|].
  exists view, w'. split; [done|]. exact Hv.
Defined.

(** The old Docker container is gone and its successor has not been reported
    yet; somebody opens the page of the container, the host says there is no such
    container, and the resource is deleted with the configuration it ran, the
    pending one and the environment of both, while the replacement is still
    running. *)
Theorem detail_deletes_during_replacement :
  let w' := (containerDetail "c1" false (inspecting (Refused "CONTAINER_NOT_FOUND"))).2 in
  (config_state <$> containerDesiredConfigs replacing !! "new") = Some "pending" ∧
  (action_status <$> actions (w_db w') !! "a1") = Some Action_running ∧
  containers (w_db w') = ∅ ∧ containerDesiredConfigs (w_db w') = ∅ ∧
  containerEnvironmentVariables (w_db w') = ∅.
Proof. by vm_compute. Qed.
