(* ===== verification/StackPlan.v ===== *)
(** * From a compiled Compose file to what an agent is asked to deploy

    The plan [api/src/stacks/compose-compiler.service.ts] validates, and
    [api/src/stacks/stack-plan.ts], which resolves names and attaches
    identities. *)

From Stdlib Require Import Ascii String NArith ZArith.
From stdpp Require Import gmap strings list pretty.
From S2P Require Import Prelude Schema Store Registry Effects.

(** ** The compiled plan ([planSchema]) *)

Inductive MountType := Mount_volume | Mount_bind.

#[export] Instance MountType_eq_dec : EqDecision MountType.
Proof. solve_decision. Defined.

Record PlanMount := {
  mount_type : MountType;
  mount_source : string;
  mount_target : string;
  mount_readOnly : option bool
}.

#[export] Instance PlanMount_settable : Settable PlanMount := λ m, {|
  mount_type := mount_type m; mount_source := mount_source m;
  mount_target := mount_target m; mount_readOnly := mount_readOnly m |}.

Record PlanPort := {
  port_containerPort : Z;
  port_hostPort : option Z;
  port_protocol : string;
  port_hostIp : option string
}.

Record PlanHealthcheck := {
  health_test : list string;
  health_intervalMs : option Z;
  health_timeoutMs : option Z;
  health_startPeriodMs : option Z;
  health_retries : option Z;
  health_disabled : option bool
}.

Record PlanService := {
  service_serviceName : string;
  service_containerName : option string;
  service_image : string;
  service_hostname : option string;
  service_command : option (list string);
  service_entrypoint : option (list string);
  service_environment : option (list (string * string));
  service_ports : option (list PlanPort);
  service_mounts : option (list PlanMount);
  service_networks : option (list string);
  service_restartPolicy : string;
  service_labels : option (list (string * string));
  service_healthcheck : option PlanHealthcheck;
  service_dependsOn : option (list string)
}.

(** A network or a volume of the plan. *)
Record PlanResource := {
  resource_name : string;
  resource_dockerName : option string;
  resource_external : bool;
  resource_driver : option string
}.

Record StackDeploymentPlan := {
  plan_projectName : string;
  plan_services : list PlanService;
  plan_networks : list PlanResource;
  plan_volumes : list PlanResource
}.

(** ** The plan the agent receives *)

Record AgentNetwork := {
  network_name : string;
  network_dockerName : string;
  network_driver : option string
}.

Record AgentVolume := {
  volume_name : string;
  volume_dockerName : string;
  volume_driver : option string;
  volume_mustExist : bool
}.

(** A health check as the agent expresses one; an interval of zero is left out. *)
Record AgentHealthcheck := {
  check_test : list string;
  check_intervalMs : option Z;
  check_timeoutMs : option Z;
  check_startPeriodMs : option Z;
  check_retries : option Z
}.

Record AgentSpec := {
  aspec_name : string;
  aspec_image : string;
  aspec_hostname : option string;
  aspec_command : option (list string);
  aspec_entrypoint : option (list string);
  aspec_env : list (string * string);
  aspec_ports : list PlanPort;
  aspec_mounts : list PlanMount;
  aspec_networks : list string;
  aspec_restartPolicy : string;
  aspec_labels : option (list (string * string));
  aspec_healthcheck : option AgentHealthcheck
}.

Record AgentStackService := {
  agent_serviceName : string;
  agent_containerId : string;
  agent_containerName : string;
  agent_dependsOn : option (list string);
  agent_spec : AgentSpec
}.

Record AgentStackPlan := {
  agentPlan_planVersion : Z;
  agentPlan_stackId : string;
  agentPlan_revisionId : string;
  agentPlan_projectName : string;
  agentPlan_networks : list AgentNetwork;
  agentPlan_volumes : list AgentVolume;
  agentPlan_services : list AgentStackService
}.

Definition STACK_PLAN_VERSION : Z := 2.
Definition INTERNAL_SERVER_ERROR : Z := 500.

(** [l.map(f)] where [f] may throw. *)
Fixpoint map_throw {A B} (f : A → exn + B) (l : list A) : exn + list B :=
  match l with
  | [] => inr []
  | x :: l' =>
      match f x with
      | inl e => inl e
      | inr y => match map_throw f l' with inl e => inl e | inr ys => inr (y :: ys) end
      end
  end.

(** The name a service's container will have on the host, by service. *)
Definition containerNames (plan : StackDeploymentPlan) : exn + list (string * string) :=
  map_throw (λ service,
    if truthy (service_containerName service)
    then inr (service_serviceName service, service_containerName service ?? "")
    else inl (AppError "STACK_CONFIGURATION_INVALID" INTERNAL_SERVER_ERROR)) (plan_services plan).

(** [s ? { field: s } : {}] *)
Definition truthy_string (s : option string) : option string := if truthy s then s else None.

(** [n ? { field: n } : {}] *)
Definition nonzero (n : option Z) : option Z :=
  match n with Some 0%Z => None | _ => n end.

Definition healthcheckFor (h : PlanHealthcheck) : AgentHealthcheck :=
  if health_disabled h ?? false then
    {| check_test := ["NONE"]; check_intervalMs := None; check_timeoutMs := None;
       check_startPeriodMs := None; check_retries := None |}
  else
    {| check_test := health_test h; check_intervalMs := nonzero (health_intervalMs h);
       check_timeoutMs := nonzero (health_timeoutMs h);
       check_startPeriodMs := nonzero (health_startPeriodMs h);
       check_retries := nonzero (health_retries h) |}.

Definition dockerNameOf (r : PlanResource) : string := resource_dockerName r ?? resource_name r.

(** [new Map(resources.map((r) => [r.name, r.dockerName ?? r.name])).get(name)] *)
Definition dockerName (resources : list PlanResource) (name : string) : option string :=
  dockerNameOf <$> map_get resource_name resources name.

Definition resolve_mount (volumes : list PlanResource) (mount : PlanMount) : PlanMount :=
  mount <| mount_source :=
    if bool_decide (mount_type mount = Mount_volume)
    then dockerName volumes (mount_source mount) ?? mount_source mount
    else mount_source mount |>.

Definition agentServiceFor (plan : StackDeploymentPlan) (names containers : list (string * string))
    (service : PlanService) : exn + AgentStackService :=
  let containerId := snd <$> map_get fst containers (service_serviceName service) in
  if negb (truthy containerId) then inl (AppError "STACK_DEPLOYMENT_FAILED" INTERNAL_SERVER_ERROR)
  else
    let containerName := (snd <$> map_get fst names (service_serviceName service)) ?? "" in
    inr {|
      agent_serviceName := service_serviceName service;
      agent_containerId := containerId ?? "";
      agent_containerName := containerName;
      agent_dependsOn := nonempty (service_dependsOn service);
      agent_spec := {|
        aspec_name := containerName;
        aspec_image := service_image service;
        aspec_hostname := truthy_string (service_hostname service);
        aspec_command := nonempty (service_command service);
        aspec_entrypoint := nonempty (service_entrypoint service);
        aspec_env := service_environment service ?? [];
        aspec_ports := service_ports service ?? [];
        aspec_mounts := resolve_mount (plan_volumes plan) <$> (service_mounts service ?? []);
        aspec_networks :=
          (λ n, dockerName (plan_networks plan) n ?? n) <$> (service_networks service ?? []);
        aspec_restartPolicy := service_restartPolicy service;
        aspec_labels := service_labels service;
        aspec_healthcheck := healthcheckFor <$> service_healthcheck service |} |}.

Definition agentPlanFor (stackId revisionId : string) (plan : StackDeploymentPlan)
    (containers : list (string * string)) (existingVolumes : list string) :
    exn + AgentStackPlan :=
  match containerNames plan with
  | inl e => inl e
  | inr names =>
      match map_throw (agentServiceFor plan names containers) (plan_services plan) with
      | inl e => inl e
      | inr services => inr {|
          agentPlan_planVersion := STACK_PLAN_VERSION;
          agentPlan_stackId := stackId;
          agentPlan_revisionId := revisionId;
          agentPlan_projectName := plan_projectName plan;
          agentPlan_networks := (λ n,
            {| network_name := resource_name n;
               network_dockerName := dockerName (plan_networks plan) (resource_name n) ?? "";
               network_driver := truthy_string (resource_driver n) |}) <$> plan_networks plan;
          agentPlan_volumes := (λ v,
            {| volume_name := resource_name v;
               volume_dockerName := dockerName (plan_volumes plan) (resource_name v) ?? "";
               volume_driver := truthy_string (resource_driver v);
               volume_mustExist := mem (resource_name v) existingVolumes |}) <$> plan_volumes plan;
          agentPlan_services := services |}
      end
  end.

(** ** What the plan says *)

Lemma map_throw_inr {A B} (f : A → exn + B) l ys :
  map_throw f l = inr ys ↔ Forall2 (λ x y, f x = inr y) l ys.
Proof.
  revert ys. induction l as [|x l IH]; intros ys; simpl.
  - split; [intros [= <-]; constructor|]. by inversion 1.
  - destruct (f x) as [e|y] eqn:Ex; [split; [done|inversion 1; congruence]|].
    destruct (map_throw f l) as [e|ys'] eqn:El.
    + split; [done|]. inversion 1 as [|? y' ? ys'' Hx Hl]; subst.
      apply IH in Hl. congruence.
    + split; [intros [= <-]; constructor; [done|by apply IH]|].
      inversion 1 as [|? y' ? ys'' Hx Hl]; subst. apply IH in Hl. congruence.
Qed.

Lemma map_throw_is_inr {A B} (f : A → exn + B) l :
  (∀ x, x ∈ l → ∃ y, f x = inr y) → ∃ ys, map_throw f l = inr ys.
Proof.
  induction l as [|x l IH]; intros H; simpl; [by eexists|].
  destruct (H x) as [y ->]; [by left|].
  destruct IH as [ys ->]; [intros; apply H; by right|]. by eexists.
Qed.

Definition named (s : PlanService) : Prop := truthy (service_containerName s) = true.

Definition allocated_to (containers : list (string * string)) (s : PlanService) (id : string) : Prop :=
  snd <$> map_get fst containers (service_serviceName s) = Some id ∧ id ≠ "".

Lemma containerNames_inr plan names :
  containerNames plan = inr names ↔
  Forall named (plan_services plan) ∧
  names = (λ s, (service_serviceName s, service_containerName s ?? "")) <$> plan_services plan.
Proof.
  unfold containerNames. rewrite map_throw_inr. generalize (plan_services plan). intros l.
  revert names. induction l as [|s l IH]; intros names; simpl.
  - split; [inversion 1; by split|]. intros [_ ->]. constructor.
  - rewrite Forall_cons. unfold named at 1. split.
    + inversion 1 as [|? y ? ys Hs Hl]; subst. apply IH in Hl as [Hn ->].
      destruct (truthy _); [|done]. simplify_eq. done.
    + intros [[Hs Hl] ->]. constructor; [by rewrite Hs|]. by apply IH.
Qed.

(** The container name the plan gives a service. *)
Lemma name_of_service plan names s :
  NoDup (service_serviceName <$> plan_services plan) → s ∈ plan_services plan →
  containerNames plan = inr names →
  snd <$> map_get fst names (service_serviceName s) = Some (service_containerName s ?? "").
Proof.
  intros Hnd Hs [_ ->]%containerNames_inr.
  pose proof (map_get_NoDup fst
    ((λ s, (service_serviceName s, service_containerName s ?? "")) <$> plan_services plan)
    (service_serviceName s, service_containerName s ?? "")) as Hg. simpl in Hg.
  rewrite Hg; [done| |].
  - rewrite <-list_fmap_compose. exact Hnd.
  - by apply (list_elem_of_fmap_2 (λ s, (service_serviceName s, service_containerName s ?? ""))).
Qed.

(** What the agent is told about one service. *)
Definition faithful_service (plan : StackDeploymentPlan) (containers : list (string * string))
    (s : PlanService) (a : AgentStackService) : Prop :=
  agent_serviceName a = service_serviceName s ∧
  allocated_to containers s (agent_containerId a) ∧
  Some (agent_containerName a) = service_containerName s ∧
  aspec_name (agent_spec a) = agent_containerName a ∧
  aspec_image (agent_spec a) = service_image s ∧
  aspec_env (agent_spec a) = (service_environment s ?? []) ∧
  Forall2 (λ m m', mount_type m' = mount_type m ∧ mount_target m' = mount_target m ∧
             mount_readOnly m' = mount_readOnly m ∧
             mount_source m' =
               match mount_type m with
               | Mount_bind => mount_source m
               | Mount_volume => dockerName (plan_volumes plan) (mount_source m) ?? mount_source m
               end)
    (service_mounts s ?? []) (aspec_mounts (agent_spec a)).

Lemma agentServiceFor_inr plan names containers s a :
  NoDup (service_serviceName <$> plan_services plan) → s ∈ plan_services plan →
  containerNames plan = inr names →
  agentServiceFor plan names containers s = inr a → faithful_service plan containers s a.
Proof.
  intros Hnd Hs Hn. unfold agentServiceFor. destruct (truthy _) eqn:Et; simpl; [|done].
  intros [= <-]. apply truthy_Some in Et as (id & Hid & Hne). unfold faithful_service; simpl.
  rewrite (name_of_service _ _ _ Hnd Hs Hn). unfold allocated_to. rewrite Hid. simpl.
  split_and!; [done|done|done| |done|done|done|].
  - apply containerNames_inr in Hn as [Hn _]. rewrite Forall_forall in Hn.
    specialize (Hn s Hs). unfold named in Hn. by destruct (service_containerName s).
  - apply Forall2_fmap_r, Forall_Forall2_diag, Forall_forall. intros m _. simpl.
    by destruct (mount_type m).
Qed.

(** The plan the agent receives is the compiled plan.  For a plan that
    names each service once, building it succeeds exactly when every service
    has a container name and an allocated resource; it then describes the same
    services in the same order, each with its own container name, its allocated
    resource, its image and environment and its mounts, where a named volume's
    source is the name Docker knows and a bind's is left as written; and a
    volume must already exist exactly when the running revision used it. *)
Theorem agentPlanFor_spec stackId revisionId plan containers existingVolumes :
  NoDup (service_serviceName <$> plan_services plan) →
  ((∃ p, agentPlanFor stackId revisionId plan containers existingVolumes = inr p) ↔
   ∀ s, s ∈ plan_services plan → named s ∧ ∃ id, allocated_to containers s id) ∧
  (∀ p, agentPlanFor stackId revisionId plan containers existingVolumes = inr p →
     agentPlan_stackId p = stackId ∧ agentPlan_revisionId p = revisionId ∧
     Forall2 (faithful_service plan containers) (plan_services plan) (agentPlan_services p) ∧
     Forall2 (λ r v, volume_name v = resource_name r ∧
                (volume_mustExist v = true ↔ resource_name r ∈ existingVolumes))
       (plan_volumes plan) (agentPlan_volumes p)).
Proof.
  intros Hnd.
  assert (Hok : ∀ p, agentPlanFor stackId revisionId plan containers existingVolumes = inr p →
    ∃ names, containerNames plan = inr names ∧
      Forall2 (λ s a, agentServiceFor plan names containers s = inr a)
        (plan_services plan) (agentPlan_services p)).
  { intros p. unfold agentPlanFor. destruct (containerNames plan) as [e|names]; [done|].
    destruct (map_throw _ _) as [e|services] eqn:Es; [done|]. intros [= <-].
    exists names. split; [done|]. by apply map_throw_inr. }
  assert (Hfaithful : ∀ p, agentPlanFor stackId revisionId plan containers existingVolumes = inr p →
    Forall2 (faithful_service plan containers) (plan_services plan) (agentPlan_services p)).
  { intros p (names & Hn & Hs)%Hok. eapply Forall2_impl_in; [exact Hs|].
    intros s a Hin Ha. by eapply agentServiceFor_inr. }
  split; [split|].
  - intros [p Hp] s Hs. pose proof (Hfaithful p Hp) as Hf. destruct (Hok p Hp) as (names & Hn & _).
    apply containerNames_inr in Hn as [Hn _]. rewrite Forall_forall in Hn. split; [by apply Hn|].
    apply list_elem_of_lookup in Hs as [i Hi].
    destruct (Forall2_lookup_l _ _ _ _ _ Hf Hi) as (a & _ & Ha). exists (agent_containerId a). apply Ha.
  - intros Hall. unfold agentPlanFor.
    destruct (containerNames plan) as [e|names] eqn:En.
    { exfalso. destruct (map_throw_is_inr (λ service,
        if truthy (service_containerName service)
        then inr (service_serviceName service, service_containerName service ?? "")
        else inl (AppError "STACK_CONFIGURATION_INVALID" INTERNAL_SERVER_ERROR))
        (plan_services plan)) as [ys Hys].
      - intros s Hs. destruct (Hall s Hs) as [Hn _]. unfold named in Hn. rewrite Hn. by eexists.
      - unfold containerNames in En. congruence. }
    destruct (map_throw_is_inr (agentServiceFor plan names containers) (plan_services plan))
      as [ys ->]; [|by eexists].
    intros s Hs. destruct (Hall s Hs) as [_ (id & Hid & Hne)]. unfold agentServiceFor.
    rewrite Hid. destruct id; [done|]. by eexists.
  - intros p Hp. split_and!; [| |by apply Hfaithful|].
    all: unfold agentPlanFor in Hp; destruct (containerNames plan); [done|];
      destruct (map_throw _ _); [done|]; injection Hp as <-; try done.
    simpl. apply Forall2_fmap_r, Forall_Forall2_diag, Forall_forall. intros r _. simpl.
    split; [done|]. apply bool_decide_eq_true.
Qed.

Definition example_service : PlanService := {|
  service_serviceName := "web"; service_containerName := Some "shop-web-1";
  service_image := "nginx"; service_hostname := None; service_command := None;
  service_entrypoint := None; service_environment := Some [("A", "1")]; service_ports := None;
  service_mounts := Some [{| mount_type := Mount_volume; mount_source := "data";
                             mount_target := "/data"; mount_readOnly := None |}];
  service_networks := None; service_restartPolicy := "no"; service_labels := None;
  service_healthcheck := None; service_dependsOn := None |}.

Definition example_plan : StackDeploymentPlan := {|
  plan_projectName := "shop"; plan_services := [example_service]; plan_networks := [];
  plan_volumes := [{| resource_name := "data"; resource_dockerName := Some "shop_data";
                      resource_external := false; resource_driver := None |}] |}.

Lemma agentPlanFor_spec_witness :
  ∃ p, agentPlanFor "s1" "r1" example_plan [("web", "c1")] ["data"] = inr p ∧
    Forall2 (faithful_service example_plan [("web", "c1")]) [example_service] (agentPlan_services p).
Proof.
  destruct (agentPlanFor_spec "s1" "r1" example_plan [("web", "c1")] ["data"]) as [_ H].
  { apply (bool_decide_unpack _). by vm_compute. }
  eexists. split; [reflexivity|]. by apply (H _ eq_refl).
Defined.

(** ** The plan as it is sent *)

Section plan_json.
Definition opt_json {A} (name : string) (f : A → json) (o : option A) : list (string * json) :=
  match o with Some x => [(name, f x)] | None => [] end.

Definition strings_json (l : list string) : json := JArray (JString <$> l).

Definition pairs_json (l : list (string * string)) : json :=
  JArray ((λ p, JObject [("key", JString p.1); ("value", JString p.2)]) <$> l).

Definition mount_json (m : PlanMount) : json := JObject (
  [("type", JString match mount_type m with Mount_volume => "volume" | Mount_bind => "bind" end);
   ("source", JString (mount_source m)); ("target", JString (mount_target m))] ++
  opt_json "readOnly" JBool (mount_readOnly m)).

Definition port_json (p : PlanPort) : json := JObject (
  [("containerPort", JNumber (port_containerPort p))] ++
  opt_json "hostPort" JNumber (port_hostPort p) ++
  [("protocol", JString (port_protocol p))] ++ opt_json "hostIp" JString (port_hostIp p)).

Definition healthcheck_json (h : AgentHealthcheck) : json := JObject (
  [("test", strings_json (check_test h))] ++
  opt_json "intervalMs" JNumber (check_intervalMs h) ++
  opt_json "timeoutMs" JNumber (check_timeoutMs h) ++
  opt_json "startPeriodMs" JNumber (check_startPeriodMs h) ++
  opt_json "retries" JNumber (check_retries h)).

Definition spec_json (s : AgentSpec) : json := JObject (
  [("name", JString (aspec_name s)); ("image", JString (aspec_image s))] ++
  opt_json "hostname" JString (aspec_hostname s) ++
  opt_json "command" strings_json (aspec_command s) ++
  opt_json "entrypoint" strings_json (aspec_entrypoint s) ++
  [("env", pairs_json (aspec_env s)); ("ports", JArray (port_json <$> aspec_ports s));
   ("mounts", JArray (mount_json <$> aspec_mounts s));
   ("networks", strings_json (aspec_networks s));
   ("restartPolicy", JString (aspec_restartPolicy s))] ++
  opt_json "labels" (λ l, JObject ((λ p, (p.1, JString p.2)) <$> l)) (aspec_labels s) ++
  opt_json "healthcheck" healthcheck_json (aspec_healthcheck s)).

Definition service_json (s : AgentStackService) : json := JObject (
  [("serviceName", JString (agent_serviceName s)); ("containerId", JString (agent_containerId s));
   ("containerName", JString (agent_containerName s))] ++
  opt_json "dependsOn" strings_json (agent_dependsOn s) ++
  [("spec", spec_json (agent_spec s))]).

Definition plan_json (p : AgentStackPlan) : json := JObject [
  ("planVersion", JNumber (agentPlan_planVersion p));
  ("stackId", JString (agentPlan_stackId p));
  ("revisionId", JString (agentPlan_revisionId p));
  ("projectName", JString (agentPlan_projectName p));
  ("networks", JArray ((λ n, JObject (
     [("name", JString (network_name n)); ("dockerName", JString (network_dockerName n))] ++
     opt_json "driver" JString (network_driver n))) <$> agentPlan_networks p));
  ("volumes", JArray ((λ v, JObject (
     [("name", JString (volume_name v)); ("dockerName", JString (volume_dockerName v))] ++
     opt_json "driver" JString (volume_driver v) ++
     (if volume_mustExist v then [("mustExist", JBool true)] else []))) <$> agentPlan_volumes p));
  ("services", JArray (service_json <$> agentPlan_services p))].
End plan_json.
