(* ===== verification/StackDeployment.v ===== *)
(** * Applying a revision of a stack

    [api/src/stacks/stack-deployment.service.ts], with
    [assertStackAttribution] of [api/src/stacks/stack-attribution.ts].

    The Compose compiler is a separate Go program the service runs as a process;
    it is a parameter: given a project name, the Compose source and the
    environment it fails, refuses, or answers with a plan. *)

From Stdlib Require Import Ascii String NArith ZArith.
From stdpp Require Import gmap strings list pretty.
From S2P Require Import Prelude Semver Schema Store Registry Effects Logic PendingGuard.
From S2P Require Import StackClassify StackPlan Base64 Environment Discovery.

Class ComposeCompiler :=
  compiler_compile : string → string → list (string * string) → exn + option StackDeploymentPlan.

(** ** Data *)

Record AuthenticatedUser := { actor_id : string; actor_email : string }.

Record RequestContext := {
  context_sourceIp : option string;
  context_userAgent : option string;
  context_requestId : option string
}.

Inductive ApplyKind := initial | redeploy | rollback | repair.

Definition ApplyKind_name (k : ApplyKind) : string :=
  match k with
  | initial => "initial" | redeploy => "redeploy" | rollback => "rollback" | repair => "repair"
  end.

Record DeploymentOutcome := {
  result_deploymentId : string;
  result_stackId : string;
  result_revisionId : string;
  result_kind : ApplyKind;
  result_services : list (string * option string)
}.

Record DispatchedApply := {
  attempt_deploymentId : string;
  attempt_actionId : option string;
  attempt_kind : ApplyKind;
  attempt_stackId : string;
  attempt_stackName : string;
  attempt_hostId : string;
  attempt_revisionId : string;
  attempt_fromRevisionId : option string;
  attempt_targetServices : list string;
  attempt_fromServices : option (list string);
  attempt_agentId : string;
  attempt_containers : list (string * string);
  attempt_payload : AgentStackPlan;
  attempt_actor : AuthenticatedUser;
  attempt_context : RequestContext
}.

Definition SERVICE_UNAVAILABLE : Z := 503.

Definition stackKey (stackId : string) : string := "stack:" +:+ stackId.

Definition UNKNOWN_OUTCOME : list string := ["AGENT_REQUEST_TIMEOUT"; "AGENT_NOT_CONNECTED"].

Definition AUDIT_REQUESTED (k : ApplyKind) : string :=
  match k with
  | initial => "stack.deploy.requested" | redeploy => "stack.redeploy.requested"
  | rollback => "stack.rollback.requested" | repair => "stack.repair.requested"
  end.

Definition AUDIT_SUCCEEDED (k : ApplyKind) : string :=
  match k with
  | initial => "stack.deploy.succeeded" | redeploy => "stack.redeployed"
  | rollback => "stack.rolled_back" | repair => "stack.repaired"
  end.

Definition kindOf (stack : Stack) (target : StackRevision) (from : option StackRevision) :
    option ApplyKind :=
  if bool_decide (stack_status stack = "needs_attention") then Some repair
  else
    match from with
    | None => Some initial
    | Some from =>
        if bool_decide (revision_id from = revision_id target) then None
        else if (revision_number target <? revision_number from)%N then Some rollback
        else Some redeploy
    end.

Definition summaryServices (revision : option StackRevision) : option (list string) :=
  r ← revision; s ← revision_summary r; Some (summary_services s).

Definition summaryVolumes (revision : option StackRevision) : list string :=
  (r ← revision; s ← revision_summary r; Some (summary_volumes s)) ?? [].

(** Resources of this stack that no container on the host claims. *)
Definition unclaimed (stackId : string) (r : Container) : bool :=
  bool_decide (container_stackId r = Some stackId) && bool_decide (container_dockerId r = None).

(** Resources for services the applied revision does not have. *)
Definition orphanedServices (attempt : DispatchedApply) (r : Container) : bool :=
  let kept := snd <$> attempt_containers attempt in
  if (length kept =? 0)%nat then false
  else bool_decide (container_stackId r = Some (attempt_stackId attempt)) &&
       forallb (λ id, bool_decide (container_id r ≠ id)) kept.

(** [map.set(k, v)] on a map kept in insertion order. *)
Fixpoint map_set (l : list (string * string)) (k v : string) : list (string * string) :=
  match l with
  | [] => [(k, v)]
  | (k', v') :: l' => if bool_decide (k' = k) then (k, v) :: l' else (k', v') :: map_set l' k v
  end.

(** What a lost race is reported as. *)
Definition claimed (error : exn) : exn :=
  match error with
  | UniqueViolation name =>
      if bool_decide (name = "stack_deployments_unresolved_unique")
      then AppError "STACK_DEPLOYMENT_CONFLICT" CONFLICT
      else if bool_decide (name = "containers_host_pending_name_unique")
      then AppError "RESOURCE_NAME_CONFLICT" CONFLICT
      else error
  | _ => error
  end.

Definition raise {A} (x : exn + A) : M A :=
  match x with inl e => throw e | inr a => mret a end.

(** ** Guards *)

Definition assertStackAttribution (version : option string) : M unit :=
  if supportsStackAttribution version then mret tt else conflict "AGENT_UPGRADE_REQUIRED".

Definition connectedAgent (hostId : string) : M string :=
  agent ← select_first (λ a : Agent,
    bool_decide (agent_hostId a = hostId) && bool_decide (agent_revokedAt a = None));
  match agent with
  | None => conflict "AGENT_REVOKED"
  | Some agent =>
      assertStackAttribution (agent_version agent);;
      connected ← isConnected (agent_id agent);
      if (connected : bool) then mret (agent_id agent) else conflict "AGENT_OFFLINE"
  end.

Definition find (stackId : string) : M Stack :=
  stack ← select_id (R := Stack) stackId;
  match stack with
  | None => notFound "STACK_NOT_FOUND"
  | Some stack =>
      host ← select_id (R := Host) (stack_hostId stack);
      match host with
      | None => notFound "HOST_NOT_FOUND"
      | Some host => assertNotArchived (host_archivedAt host);; mret stack
      end
  end.

Definition revision (stackId revisionId : string) : M StackRevision :=
  row ← select_first (λ r : StackRevision,
    bool_decide (revision_id r = revisionId) && bool_decide (revision_stackId r = stackId));
  match row with
  | None => notFound "STACK_NOT_FOUND"
  | Some r => mret r
  end.

Definition assertNoUnresolvedDeployment (stackId : string) : M unit :=
  unresolved ← select_first (unresolved_deployment_of stackId);
  match unresolved with
  | Some _ => conflict "STACK_DEPLOYMENT_CONFLICT"
  | None =>
      operating ← select_first (unresolved_operation_of stackId);
      match operating with
      | Some _ => conflict "STACK_OPERATION_CONFLICT"
      | None => mret tt
      end
  end.

Definition stackContainers (stackId : string) : M (list Container) :=
  select (λ r : Container, bool_decide (container_stackId r = Some stackId)).

Fixpoint names_free (taken : list Container) (names : list (string * string)) : M unit :=
  match names with
  | [] => mret tt
  | (_, name) :: rest =>
      match map_get (λ r, lower (container_name r)) taken (lower name) with
      | Some _ => conflict "RESOURCE_NAME_CONFLICT"
      | None => names_free taken rest
      end
  end.

Definition assertNamesAreFree (hostId : string) (names : list (string * string))
    (existing : list Container) : M unit :=
  let ours := container_id <$> existing in
  found ← select (λ r : Container, bool_decide (container_hostId r = hostId));
  names_free (List.filter (λ r, negb (mem (container_id r) ours)) found) names.

Definition resync (hostId : string) : M bool :=
  agent ← select_first (λ a : Agent,
    bool_decide (agent_hostId a = hostId) && bool_decide (agent_revokedAt a = None));
  match agent with
  | None => mret false
  | Some agent => try_catch (sync_complete <$> sync (agent_id agent)) (λ _, mret false)
  end.

(** ** The attempt *)

Section deployment.
Context `{AesGcm} `{ComposeCompiler} (box : list ascii).

(** The variables of a revision, decrypted for the compiler; [None] is an
    envelope the box refuses. *)
Definition compile (projectName : string) (revision : StackRevision) : M StackDeploymentPlan :=
  environment ← select (λ v : StackRevisionVariable,
    bool_decide (revenv_revisionId v = revision_id revision));
  match decrypt box (revision_composeSourceEncrypted revision),
        spec_env box (of_revision_row <$> environment) with
  | Some compose, Some values =>
      result ← raise (compiler_compile projectName compose values);
      match result with
      | Some plan => mret plan
      | None => throw (AppError "STACK_CONFIGURATION_INVALID" CONFLICT)
      end
  | _, _ => throw PlainError
  end.

Definition new_action (id capability targetType targetId hostId correlationId : string)
    (actor : AuthenticatedUser) (at_ : time) : Action := {|
  action_id := id; action_actorUserId := Some (actor_id actor); action_actorKind := Actor_user;
  action_capability := capability; action_targetType := Some targetType;
  action_targetId := Some targetId; action_hostId := Some hostId;
  action_status := Action_running; action_requestedAt := at_; action_startedAt := Some at_;
  action_completedAt := None; action_errorCode := None; action_correlationId := correlationId |}.

(** The resource of a service before anything was created for it. *)
Definition creating_container (id hostId name image stackId service : string) (at_ : time) :
    Container := {|
  container_id := id; container_hostId := hostId; container_dockerId := None;
  container_name := name; container_image := image; container_imageId := None;
  container_state := "creating"; container_health := "none"; container_restartCount := 0;
  container_composeProjectId := None; container_stackId := Some stackId;
  container_stackService := Some service; container_stackRevisionId := None;
  container_dockerCreatedAt := None; container_startedAt := None; container_metadata := None;
  container_detail := None; container_detailObservedAt := None;
  container_identityConflict := None; container_observedDesiredConfigId := None;
  container_snapshotId := None; container_observedAt := at_ |}.

(** The resource a service runs as: the one it has, or a new one. *)
Definition allocate (stack : Stack) (names : list (string * string)) (existing : list Container)
    (allocated : list (string * string)) (service : PlanService) : M (list (string * string)) :=
  let name := service_serviceName service in
  match map_get (λ r, container_stackService r ?? "")
          (List.filter (λ r, bool_decide (container_stackService r ≠ None)) existing) name with
  | Some row => mret (map_set allocated name (container_id row))
  | None =>
      at_ ← now;
      id ← randomUUID;
      insert_into (creating_container id (stack_hostId stack)
        ((snd <$> map_get fst names name) ?? "") (service_image service) (stack_id stack) name at_);;
      mret (map_set allocated name id)
  end.

Definition prepare (stack : Stack) (target : StackRevision) (from : option StackRevision)
    (kind : ApplyKind) (plan : StackDeploymentPlan) (names : list (string * string))
    (existing : list Container) (actor : AuthenticatedUser) (context : RequestContext) :
    M (string * string * list (string * string)) :=
  transaction (
    at_ ← now;
    actionId ← randomUUID;
    correlationId ← match context_requestId context with
                    | Some id => mret id
                    | None => randomUUID
                    end;
    insert_into (new_action actionId "stack.deploy" "stack" (stack_id stack)
      (stack_hostId stack) correlationId actor at_);;
    deploymentId ← randomUUID;
    insert_into {|
      deployment_id := deploymentId; deployment_stackId := stack_id stack;
      deployment_revisionId := revision_id target;
      deployment_fromRevisionId := revision_id <$> from;
      deployment_hostId := stack_hostId stack; deployment_kind := ApplyKind_name kind;
      deployment_status := "running"; deployment_actionId := Some actionId;
      deployment_startedBy := Some (actor_id actor); deployment_detail := None;
      deployment_failureCode := None; deployment_startedAt := at_;
      deployment_resolvedAt := None |};;
    allocated ← for_fold (plan_services plan) [] (allocate stack names existing);
    update_id (R := Stack) (stack_id stack)
      (λ s, s <| stack_desiredRevisionId := Some (revision_id target) |>
              <| stack_status := "deploying" |>);;
    mret (deploymentId, actionId, allocated)).

Definition audit_attempt (attempt : DispatchedApply) (action : string) (result : AuditResult) :
    M unit :=
  audit_record {|
    entry_action := action; entry_result := result;
    entry_actorUserId := Some (actor_id (attempt_actor attempt));
    entry_actorLabel := actor_email (attempt_actor attempt);
    entry_targetType := Some "stack"; entry_targetId := Some (attempt_stackId attempt);
    entry_targetLabel := Some (attempt_stackName attempt);
    entry_reasonCode := Some (attempt_deploymentId attempt);
    entry_sourceIp := context_sourceIp (attempt_context attempt);
    entry_userAgent := context_userAgent (attempt_context attempt) |}.

Definition finish_action (actionId : option string) (f : Action → Action) : M unit :=
  if truthy actionId then update_id (R := Action) (actionId ?? "") f;; mret tt else mret tt.

Definition interrupted {A} (attempt : DispatchedApply) (code : string) : M A :=
  update_id (R := StackDeployment) (attempt_deploymentId attempt)
    (λ r, r <| deployment_status := "interrupted" |> <| deployment_failureCode := Some code |>);;
  audit_attempt attempt "stack.deploy.interrupted" Audit_failure;;
  throw (AppError "OPERATION_OUTCOME_UNKNOWN" SERVICE_UNAVAILABLE).

Definition recordApplied (attempt : DispatchedApply) (detail : list ServiceOutcome) : M unit :=
  at_ ← now;
  transaction (
    update_id (R := StackDeployment) (attempt_deploymentId attempt)
      (λ r, r <| deployment_status := "succeeded" |> <| deployment_detail := Some detail |>
              <| deployment_resolvedAt := Some at_ |>);;
    update_id (R := Stack) (attempt_stackId attempt)
      (λ s, s <| stack_currentRevisionId := Some (attempt_revisionId attempt) |>
              <| stack_desiredRevisionId := None |> <| stack_status := "running" |>
              <| stack_lastDeployedAt := Some at_ |>);;
    delete_from (orphanedServices attempt);;
    finish_action (attempt_actionId attempt)
      (λ a, a <| action_status := Action_succeeded |> <| action_completedAt := Some at_ |>));;
  audit_attempt attempt (AUDIT_SUCCEEDED (attempt_kind attempt)) Audit_success;;
  events_record (Some (attempt_hostId attempt)) "stack.deployed" Severity_info
    ("stack:" +:+ attempt_stackId attempt) (Some (attempt_deploymentId attempt)).

Definition recordNotApplied (attempt : DispatchedApply) (detail : list ServiceOutcome)
    (failure : option string) : M unit :=
  at_ ← now;
  transaction (
    update_id (R := StackDeployment) (attempt_deploymentId attempt)
      (λ r, r <| deployment_status :=
                  if truthy (attempt_fromRevisionId attempt) then "rolled_back" else "failed" |>
              <| deployment_detail := Some detail |>
              <| deployment_failureCode := Some (failure ?? "STACK_APPLY_FAILED") |>
              <| deployment_resolvedAt := Some at_ |>);;
    update_id (R := Stack) (attempt_stackId attempt)
      (λ s, s <| stack_status :=
                  if truthy (attempt_fromRevisionId attempt) then "running" else "not_deployed" |>
              <| stack_desiredRevisionId := None |>);;
    delete_from (unclaimed (attempt_stackId attempt));;
    finish_action (attempt_actionId attempt)
      (λ a, a <| action_status := Action_failed |> <| action_completedAt := Some at_ |>
              <| action_errorCode := failure |>));;
  audit_attempt attempt
    (if truthy (attempt_fromRevisionId attempt) then "stack.apply.rolled_back" else "stack.deploy.failed")
    Audit_failure;;
  events_record (Some (attempt_hostId attempt)) "stack.deployment.failed" Severity_warning
    ("stack:" +:+ attempt_stackId attempt) (Some (attempt_deploymentId attempt)).

Definition recordNeedsAttention (attempt : DispatchedApply) (detail : list ServiceOutcome) :
    M unit :=
  at_ ← now;
  transaction (
    update_id (R := StackDeployment) (attempt_deploymentId attempt)
      (λ r, r <| deployment_status := "needs_attention" |> <| deployment_detail := Some detail |>
              <| deployment_failureCode := Some "STACK_DEPLOYMENT_PARTIAL" |>
              <| deployment_resolvedAt := Some at_ |>);;
    update_id (R := Stack) (attempt_stackId attempt)
      (λ s, s <| stack_status := "needs_attention" |> <| stack_desiredRevisionId := None |>);;
    finish_action (attempt_actionId attempt)
      (λ a, a <| action_status := Action_failed |> <| action_completedAt := Some at_ |>
              <| action_errorCode := Some "STACK_DEPLOYMENT_PARTIAL" |>));;
  audit_attempt attempt "stack.deploy.needs_attention" Audit_failure;;
  events_record (Some (attempt_hostId attempt)) "stack.deployment.failed" Severity_critical
    ("stack:" +:+ attempt_stackId attempt) (Some (attempt_deploymentId attempt)).

(** ** Establishing what happened *)

Definition observed_service (row : Container) : Apply.ObservedService := {|
  Apply.serviceName := container_stackService row ?? "";
  Apply.containerId := container_id row;
  Apply.dockerId := container_dockerId row;
  Apply.state := if truthy (container_dockerId row) then Some (container_state row) else None;
  Apply.revisionId := container_stackRevisionId row |}.

Definition classification (attempt : DispatchedApply) (complete : bool) (rows : list Container) :
    Apply.StackApplyInput := {|
  Apply.fromRevisionId := attempt_fromRevisionId attempt;
  Apply.targetRevisionId := attempt_revisionId attempt;
  Apply.targetServices := attempt_targetServices attempt;
  Apply.fromServices := attempt_fromServices attempt;
  Apply.observed := observed_service <$> rows;
  Apply.snapshotComplete := complete |}.

Definition observe (attempt : DispatchedApply) :
    M (list Apply.ObservedService * Apply.StackApplyOutcome) :=
  complete ← resync (attempt_hostId attempt);
  rows ← stackContainers (attempt_stackId attempt);
  mret (observed_service <$> rows,
        Apply.classifyStackApply (classification attempt complete rows)).

Definition detail_of (observed : list Apply.ObservedService) : list ServiceOutcome :=
  (λ s, {| outcome_serviceName := Apply.serviceName s; outcome_containerId := Apply.containerId s;
           outcome_state := truthy_string (Apply.state s); outcome_errorCode := None |})
  <$> List.filter Apply.is_live observed.

Definition settle (attempt : DispatchedApply) (observed : list Apply.ObservedService)
    (outcome : Apply.StackApplyOutcome) (failure : option string) : M DeploymentOutcome :=
  let detail := detail_of observed in
  match outcome with
  | Apply.unknown _ => interrupted attempt "HOST_NOT_READABLE"
  | Apply.finalize_target =>
      recordApplied attempt detail;;
      mret {| result_deploymentId := attempt_deploymentId attempt;
              result_stackId := attempt_stackId attempt;
              result_revisionId := attempt_revisionId attempt;
              result_kind := attempt_kind attempt;
              result_services := (λ s, (Apply.serviceName s, Apply.state s))
                                 <$> List.filter Apply.is_live observed |}
  | Apply.needs_attention _ =>
      recordNeedsAttention attempt detail;;
      throw (AppError "STACK_DEPLOYMENT_PARTIAL" CONFLICT)
  | Apply.finalize_from | Apply.finalize_not_applied =>
      recordNotApplied attempt detail failure;;
      if bool_decide (failure = Some "STACK_STATE_AMBIGUOUS")
      then conflict "STACK_REPAIR_AMBIGUOUS"
      else throw (AppError (failure ?? "STACK_APPLY_FAILED") CONFLICT)
  end.

Definition run (attempt : DispatchedApply) : M DeploymentOutcome :=
  failure ← try_catch
    (request (attempt_agentId attempt) "stack.deploy" (plan_json (attempt_payload attempt));;
     mret (inr None))
    (λ error,
       let code := error_code error ?? "DOCKER_OPERATION_FAILED" in
       if mem code UNKNOWN_OUTCOME then mret (inl code) else mret (inr (error_code error)));
  match failure with
  | inl code => interrupted attempt code
  | inr failure =>
      '(observed, outcome) ← observe attempt;
      settle attempt observed outcome failure
  end.

(** What [deploy] does while it holds the stack: the [try] block. *)
Definition deploy_locked (stackId revisionId : string) (stack : Stack) (target : StackRevision)
    (from : option StackRevision) (kind : ApplyKind) (agentId : string)
    (actor : AuthenticatedUser) (context : RequestContext) : M DeploymentOutcome :=
  plan ← compile (stack_name stack) target;
  names ← raise (containerNames plan);
  existing ← stackContainers stackId;
  assertNamesAreFree (stack_hostId stack) names existing;;
  '(deploymentId, actionId, containers) ←
    try_catch (prepare stack target from kind plan names existing actor context)
      (λ error, throw (claimed error));
  audit_record {|
    entry_action := AUDIT_REQUESTED kind; entry_result := Audit_success;
    entry_actorUserId := Some (actor_id actor); entry_actorLabel := actor_email actor;
    entry_targetType := Some "stack"; entry_targetId := Some stackId;
    entry_targetLabel := Some (stack_name stack); entry_reasonCode := Some deploymentId;
    entry_sourceIp := context_sourceIp context;
    entry_userAgent := context_userAgent context |};;
  payload ← raise (agentPlanFor stackId revisionId plan containers (summaryVolumes from));
  run {|
    attempt_deploymentId := deploymentId; attempt_actionId := Some actionId;
    attempt_kind := kind; attempt_stackId := stackId;
    attempt_stackName := stack_name stack; attempt_hostId := stack_hostId stack;
    attempt_revisionId := revisionId; attempt_fromRevisionId := revision_id <$> from;
    attempt_targetServices := service_serviceName <$> plan_services plan;
    attempt_fromServices := summaryServices from; attempt_agentId := agentId;
    attempt_containers := containers; attempt_payload := payload;
    attempt_actor := actor; attempt_context := context |}.

Definition deploy (stackId revisionId : string) (actor : AuthenticatedUser)
    (context : RequestContext) : M DeploymentOutcome :=
  stack ← find stackId;
  target ← revision stackId revisionId;
  from ← (if truthy (stack_currentRevisionId stack)
          then Some <$> revision stackId (stack_currentRevisionId stack ?? "")
          else mret None);
  match kindOf stack target from with
  | None => conflict "STACK_REVISION_ALREADY_DEPLOYED"
  | Some kind =>
      agentId ← connectedAgent (stack_hostId stack);
      assertNoUnresolvedDeployment stackId;;
      release ← acquire_lock (stackKey stackId) "deploy";
      try_finally (deploy_locked stackId revisionId stack target from kind agentId actor context)
        (release_lock release)
  end.

(** ** What is on record about attempts *)

(** Every attempt and its status. *)
Definition attempts (d : DB) : gmap string string := deployment_status <$> stackDeployments d.

(** The revision each stack is confirmed to be running. *)
Definition confirmed (d : DB) : gmap string (option string) :=
  stack_currentRevisionId <$> stacks d.

(** What people have saved: each stack's newest revision, and every revision. *)
Definition saved (d : DB) :=
  (stack_latestRevisionId <$> stacks d, stackRevisions d, stackRevisionEnvironment d).

(** [d] is the database right after a complete reading of the host. *)
Definition read_back (hostId : string) (d : DB) : Prop :=
  ∃ w w', resync hostId w = (inr true, w') ∧ w_db w' = d.

(** What a complete reading that left [d] means for an attempt. *)
Definition judged (attempt : DispatchedApply) (d : DB) : Apply.StackApplyOutcome :=
  Apply.classifyStackApply (classification attempt true
    (select_where (λ r : Container, bool_decide (container_stackId r = Some (attempt_stackId attempt))) d)).

Definition status_of (o : Apply.StackApplyOutcome) (from : option string) : string :=
  match o with
  | Apply.finalize_target => "succeeded"
  | Apply.needs_attention _ => "needs_attention"
  | Apply.unknown _ => "interrupted"
  | Apply.finalize_from | Apply.finalize_not_applied =>
      if truthy from then "rolled_back" else "failed"
  end.

(** ** Lemmas *)

Definition on_record (d : DB) := (attempts d, confirmed d).

Lemma sync_on_record agentId : framed (on_db (unchanged on_record)) (sync agentId).
Proof.
  apply (framed_via decided (λ x, let '(_, _, s, _, _, t, _, _, _) := x in
    (deployment_status <$> t, stack_currentRevisionId <$> s))), sync_decided.
Qed.
#[local] Hint Resolve sync_on_record : frames.

Ltac open_attempt :=
  unfold run, settle, observe, resync, stackContainers, interrupted, recordApplied,
    recordNotApplied, recordNeedsAttention, finish_action, audit_attempt, audit_record,
    events_record.

Ltac open_deploy :=
  unfold deploy, deploy_locked, find, revision, assertNotArchived, connectedAgent, assertStackAttribution,
    assertNoUnresolvedDeployment, compile, raise, assertNamesAreFree, prepare, allocate,
    audit_record.

Lemma names_free_reads taken names : reads (names_free taken names).
Proof. induction names as [|[k v] names IH]; simpl; [reads|]. reads. apply IH. Qed.

Lemma names_free_framed R `{!Frame R} taken names : framed R (names_free taken names).
Proof. apply reads_framed; [done|]. apply names_free_reads. Qed.
#[local] Hint Resolve names_free_framed : frames.

Lemma run_keeps_db_ok attempt : framed (on_db keeps_db_ok) (run attempt).
Proof. open_attempt. frame. Qed.

Lemma run_same_locks attempt : framed same_locks (run attempt).
Proof. open_attempt. frame. Qed.
#[local] Hint Resolve run_keeps_db_ok run_same_locks : frames.

Lemma deploy_keeps_db_ok stackId revisionId actor context :
  framed (on_db keeps_db_ok) (deploy stackId revisionId actor context).
Proof. open_deploy. frame. Qed.

Lemma deploy_balanced stackId revisionId actor context :
  framed balanced (deploy stackId revisionId actor context).
Proof.
  open_deploy. repeat ((apply framed_with_lock; [done|intros ?]) || frame_step).
  all: frame.
Qed.

(** *** What an attempt leaves on record *)

(** A settlement: one row of each table, and then writes that are not on
    record. *)
Lemma settlement_on_record {A} (k : M A) id fd s sid fs u w r w' :
  db_ok (w_db w) →
  (∀ row, deployment_status (fd row) = s) →
  (∀ row, stack_currentRevisionId (fs row) = u (stack_currentRevisionId row)) →
  framed (on_db (unchanged on_record)) k →
  (update_id (R := StackDeployment) id fd;; update_id (R := Stack) sid fs;; k) w = (inr r, w') →
  on_record (w_db w') =
    (alter (λ _, s) id (attempts (w_db w)), alter u sid (confirmed (w_db w))).
Proof.
  intros Hok Hd Hs Hk E.
  apply bind_inr in E as (l1 & w1 & E1 & E). apply bind_inr in E as (l2 & w2 & E2 & E).
  apply update_id_inr in E1 as [f1 ->]; [|apply (db_ok_rows _ Hok)].
  apply update_id_inr in E2 as [f2 ->]; [|exact (db_ok_rows (R := Stack) _ Hok)].
  apply (framed_run _ _ _ _ _ Hk) in E. unfold on_db, unchanged in E. rewrite E.
  unfold on_record, attempts, confirmed. simpl. f_equal; [by apply fmap_alter_const|by apply fmap_alter_via].
Qed.

Lemma interrupted_on_record {A} attempt code w (r : exn + A) w' :
  db_ok (w_db w) → interrupted attempt code w = (r, w') →
  (∃ e, r = inl e) ∧ confirmed (w_db w') = confirmed (w_db w) ∧
  (attempts (w_db w') = attempts (w_db w) ∨
   attempts (w_db w') =
     alter (λ _, "interrupted") (attempt_deploymentId attempt) (attempts (w_db w))).
Proof.
  intros Hok E. unfold interrupted in E.
  apply bind_cases in E as [(e & -> & E)|(l & w1 & E1 & E)].
  { unfold update_id, update, statement in E. destruct (next_fault w); [by simplify_eq; eauto|].
    destruct (update_where _ _ _) as [|[]]; simplify_eq; eauto. }
  apply update_id_inr in E1 as [f1 ->]; [|apply (db_ok_rows _ Hok)].
  assert (Hk : framed (on_db (unchanged on_record))
    (audit_attempt attempt "stack.deploy.interrupted" Audit_failure;;
     throw (A := A) (AppError "OPERATION_OUTCOME_UNKNOWN" SERVICE_UNAVAILABLE))).
  { unfold audit_attempt, audit_record. frame. }
  pose proof (framed_run _ _ _ _ _ Hk E) as Hr. unfold on_db, unchanged, on_record, attempts in Hr.
  simpl in Hr. rewrite (fmap_alter_const _ _ "interrupted") in Hr by done.
  injection Hr as Ha Hc. split; [|by eauto]. clear Ha Hc.
  apply bind_cases in E as [(e & -> & E)|(u & w2 & E & E2)]; [eauto|].
  unfold throw in E2. simplify_eq. eauto.
Qed.

(** A settlement is on record whole, or not at all. *)
Definition recorded (id s sid : string) (u : option string → option string) (d d' : DB) : Prop :=
  on_record d' = (alter (λ _, s) id (attempts d), alter u sid (confirmed d)).

(** The settlements share their shape: a transaction, an audit entry, an event. *)
Ltac settlement Hok E :=
  apply bind_cases in E as [(? & -> & E)|(? & ? & [-> ->]%now_inr & E)]; [done|];
  apply (transaction_then on_record) in E as [?|(? & ? & E & Ew)];
    [by left| |intros; unfold audit_attempt, audit_record, events_record; frame];
  right; unfold recorded; rewrite Ew; clear Ew;
  eapply settlement_on_record; [exact Hok| | | |exact E]; [done|done|];
  unfold finish_action; frame.

Lemma recordApplied_on_record attempt detail w r w' :
  db_ok (w_db w) → recordApplied attempt detail w = (r, w') →
  (∃ e, r = inl e) ∧ on_record (w_db w') = on_record (w_db w) ∨
  recorded (attempt_deploymentId attempt) "succeeded" (attempt_stackId attempt)
    (λ _, Some (attempt_revisionId attempt)) (w_db w) (w_db w').
Proof.
  intros Hok E. unfold recordApplied in E. settlement Hok E.
Qed.

Lemma recordNotApplied_on_record attempt detail failure w r w' :
  db_ok (w_db w) → recordNotApplied attempt detail failure w = (r, w') →
  (∃ e, r = inl e) ∧ on_record (w_db w') = on_record (w_db w) ∨
  recorded (attempt_deploymentId attempt)
    (if truthy (attempt_fromRevisionId attempt) then "rolled_back" else "failed")
    (attempt_stackId attempt) (λ u, u) (w_db w) (w_db w').
Proof.
  intros Hok E. unfold recordNotApplied in E. settlement Hok E.
Qed.

Lemma recordNeedsAttention_on_record attempt detail w r w' :
  db_ok (w_db w) → recordNeedsAttention attempt detail w = (r, w') →
  (∃ e, r = inl e) ∧ on_record (w_db w') = on_record (w_db w) ∨
  recorded (attempt_deploymentId attempt) "needs_attention" (attempt_stackId attempt)
    (λ u, u) (w_db w) (w_db w').
Proof.
  intros Hok E. unfold recordNeedsAttention in E. settlement Hok E.
Qed.

(** What settling on an outcome does to the confirmed revision of the stack. *)
Definition confirms (attempt : DispatchedApply) (o : Apply.StackApplyOutcome)
    (u : option string) : option string :=
  match o with Apply.finalize_target => Some (attempt_revisionId attempt) | _ => u end.

Lemma settle_on_record attempt observed o failure w r w' :
  db_ok (w_db w) → (∀ reason, o ≠ Apply.unknown reason) →
  settle attempt observed o failure w = (r, w') →
  ((∃ e, r = inl e) ∧ on_record (w_db w') = on_record (w_db w)) ∨
  recorded (attempt_deploymentId attempt) (status_of o (attempt_fromRevisionId attempt))
    (attempt_stackId attempt) (confirms attempt o) (w_db w) (w_db w') ∧
  (∀ res, r = inr res → o = Apply.finalize_target).
Proof.
  intros Hok Hu E. unfold settle in E.
  destruct o as [| | |reason|reason]; [| | | |by destruct (Hu reason)].
  - apply bind_exit in E as (r0 & E & Hr); [|done].
    apply recordApplied_on_record in E as [[? ?]|?]; [left|right|done]; eauto.
  - apply bind_throws in E as (r0 & E & [e ->]); [|case_bool_decide; by eexists].
    apply recordNotApplied_on_record in E as [[_ ?]|?]; [left|right|done]; by eauto.
  - apply bind_throws in E as (r0 & E & [e ->]); [|case_bool_decide; by eexists].
    apply recordNotApplied_on_record in E as [[_ ?]|?]; [left|right|done]; by eauto.
  - apply bind_throws in E as (r0 & E & [e ->]); [|by eexists].
    apply recordNeedsAttention_on_record in E as [[_ ?]|?]; [left|right|done]; by eauto.
Qed.

(** Nothing is concluded: the attempt is as it was, or marked interrupted. *)
Definition undecided (id : string) (d d' : DB) : Prop :=
  confirmed d' = confirmed d ∧
  (attempts d' = attempts d ∨ attempts d' = alter (λ _, "interrupted") id (attempts d)).

Lemma resync_db hostId w r w' :
  resync hostId w = (r, w') →
  on_record (w_db w') = on_record (w_db w) ∧ (db_ok (w_db w) → db_ok (w_db w')).
Proof.
  intros E. split.
  - assert (Hf : framed (on_db (unchanged on_record)) (resync hostId)) by (unfold resync; frame).
    by apply (framed_run _ _ _ _ _ Hf) in E.
  - assert (Hf : framed (on_db keeps_db_ok) (resync hostId)) by (unfold resync; frame).
    by apply (framed_run _ _ _ _ _ Hf) in E.
Qed.

Lemma judged_complete attempt rows :
  (∀ reason, Apply.classifyStackApply (classification attempt true rows) ≠ Apply.unknown reason).
Proof. intros reason. unfold Apply.classifyStackApply. simpl. repeat case_match; congruence. Qed.

Lemma classified_incomplete attempt rows :
  ∃ reason, Apply.classifyStackApply (classification attempt false rows) = Apply.unknown reason.
Proof. by eexists. Qed.

(** Establishing what happened, once the agent has answered. *)
Lemma observe_settle_on_record attempt failure w r w' :
  db_ok (w_db w) →
  ('(observed, outcome) ← observe attempt; settle attempt observed outcome failure) w = (r, w') →
  ((∃ e, r = inl e) ∧ undecided (attempt_deploymentId attempt) (w_db w) (w_db w')) ∨
  ∃ d, read_back (attempt_hostId attempt) d ∧
    recorded (attempt_deploymentId attempt)
      (status_of (judged attempt d) (attempt_fromRevisionId attempt)) (attempt_stackId attempt)
      (confirms attempt (judged attempt d)) (w_db w) (w_db w') ∧
    (∀ res, r = inr res → judged attempt d = Apply.finalize_target).
Proof.
  intros Hok E. unfold recorded, undecided.
  apply bind_cases in E as [(e & -> & E)|([observed o] & w1 & E & Es)]; unfold observe in E.
  { left. split; [by eauto|].
    assert (Hf : framed (on_db (unchanged on_record)) (observe attempt))
      by (unfold observe, resync, stackContainers; frame).
    apply (framed_run _ _ _ _ _ Hf) in E. unfold on_db, unchanged, on_record in E.
    injection E as -> ->. auto. }
  apply bind_inr in E as (complete & w2 & E1 & E).
  apply bind_inr in E as (rows & w3 & E2 & E). apply ret_inr in E as [[= -> ->] ->].
  pose proof (resync_db _ _ _ _ E1) as [Hrec Hok2]. specialize (Hok2 Hok).
  apply select_inr in E2 as [-> [fs ->]]. unfold on_record in Hrec. injection Hrec as Ha Hc.
  rewrite <-Ha, <-Hc. destruct complete.
  - apply settle_on_record in Es; [|done|apply judged_complete].
    destruct Es as [[? Er]|[Hr Ho]]; [left|right].
    + split; [done|]. unfold on_record in Er. simpl in Er. injection Er as -> ->. auto.
    + exists (w_db w2). split; [by exists w, w2|]. done.
  - left. simpl in Es. apply interrupted_on_record in Es; [|done]. simpl in Es. done.
Qed.

Lemma run_on_record attempt w r w' :
  db_ok (w_db w) → run attempt w = (r, w') →
  ((∃ e, r = inl e) ∧ undecided (attempt_deploymentId attempt) (w_db w) (w_db w')) ∨
  ∃ d, read_back (attempt_hostId attempt) d ∧
    recorded (attempt_deploymentId attempt)
      (status_of (judged attempt d) (attempt_fromRevisionId attempt)) (attempt_stackId attempt)
      (confirms attempt (judged attempt d)) (w_db w) (w_db w') ∧
    (∀ res, r = inr res → judged attempt d = Apply.finalize_target).
Proof.
  intros Hok E. unfold run in E.
  match type of E with (?m ≫= _) _ = _ =>
    assert (Hf : framed (on_db (unchanged (λ d, d))) m) by frame end.
  apply bind_cases in E as [(e & -> & E)|([code|failure] & w1 & E & Es)];
    apply (framed_run _ _ _ _ _ Hf) in E; unfold on_db, unchanged in E; clear Hf.
  - left. unfold undecided. rewrite E. eauto.
  - left. unfold undecided. rewrite <-E in *. by apply interrupted_on_record in Es.
  - rewrite <-E in *. by apply observe_settle_on_record in Es.
Qed.

(** *** What is written before the agent is asked *)

(** An attempt that is not over, for this revision of this stack. *)
Definition written_ahead (stackId revisionId hostId did : string) (d : DB) : Prop :=
  ∃ row, stackDeployments d !! did = Some row ∧ deployment_status row = "running" ∧
    deployment_stackId row = stackId ∧ deployment_revisionId row = revisionId ∧
    deployment_hostId row = hostId.

Lemma prepare_inr stack target from kind plan names existing actor context w x w' :
  prepare stack target from kind plan names existing actor context w = (inr x, w') →
  let did := x.1.1 in
  attempts (w_db w) !! did = None ∧
  on_record (w_db w') = (<[did := "running"]> (attempts (w_db w)), confirmed (w_db w)) ∧
  written_ahead (stack_id stack) (revision_id target) (stack_hostId stack) did (w_db w').
Proof.
  intros (w1 & E & [fs ->])%transaction_inr. simpl.
  apply bind_inr in E as (at_ & w2 & [-> ->]%now_inr & E).
  apply bind_inr in E as (aid & w3 & E3 & E). unfold randomUUID in E3. simplify_eq.
  apply bind_inr in E as (cid & w4 & E4 & E).
  assert (Hw4 : w_db w4 = w_db w).
  { destruct (context_requestId context); unfold mret, M_ret, randomUUID in E4; by simplify_eq. }
  apply bind_inr in E as ([] & w5 & [_ [f5 ->]]%insert_inr & E).
  apply bind_inr in E as (did & w6 & E6 & E). unfold randomUUID in E6. simplify_eq/=.
  apply bind_inr in E as ([] & w7 & [Hno [f7 ->]]%insert_inr & E). simpl in Hno.
  apply bind_inr in E as (allocated & w8 & E8 & E).
  match type of E8 with ?m _ = _ =>
    assert (Hf : framed (on_db (unchanged (λ d, (stackDeployments d, stacks d)))) m)
      by (unfold allocate; frame) end.
  apply (framed_run _ _ _ _ _ Hf) in E8. unfold on_db, unchanged in E8. simpl in E8.
  injection E8 as Hd Hs. rewrite Hw4 in *.
  apply bind_inr in E as (l & w9 & E9 & E). apply ret_inr in E as [-> ->].
  apply update_inr in E9 as [_ [f9 ->]]. simpl.
  unfold on_record, attempts, confirmed, written_ahead. simpl. rewrite Hd, Hs. split_and!.
  - by rewrite lookup_fmap, Hno.
  - rewrite fmap_insert. simpl. f_equal. by apply fmap_change_rows.
  - eexists. rewrite lookup_insert_eq. by split_and!.
Qed.

(** Preparing asks no agent. *)
Lemma prepare_sends stack target from kind plan names existing actor context w r w' :
  prepare stack target from kind plan names existing actor context w = (r, w') →
  w_outbox w' = w_outbox w.
Proof.
  intros E. apply (sends_nothing _ _ _ _ E). unfold prepare, allocate. frame.
Qed.

(** Writing to the trail: no attempt, no stack, no request. *)
Definition trail : relation World := λ w w',
  stackDeployments (w_db w') = stackDeployments (w_db w) ∧ stacks (w_db w') = stacks (w_db w) ∧
  (db_ok (w_db w) → db_ok (w_db w')) ∧ w_outbox w' = w_outbox w.

#[local] Instance trail_frame : Frame trail.
Proof.
  unfold trail. split; [split|..]; try done.
  - intros w1 w2 w3 (-> & -> & H12 & ->) (-> & -> & H23 & ->). split_and!; auto.
  - intros w w' (_ & _ & _ & Ho). by split_and!.
Qed.

Lemma audit_record_trail entry : framed trail (audit_record entry).
Proof.
  assert (H1 : framed (on_db (unchanged (λ d, (stackDeployments d, stacks d)))) (audit_record entry))
    by (unfold audit_record; frame).
  assert (H2 : framed (on_db keeps_db_ok) (audit_record entry)) by (unfold audit_record; frame).
  intros w. specialize (H1 w). specialize (H2 w).
  unfold on_db, unchanged in H1. injection H1 as Hd1 Hs1. split_and!; [done..|].
  destruct (audit_record entry w) as [r w'] eqn:E. apply (sends_nothing _ _ _ _ E).
  unfold audit_record. frame.
Qed.
#[local] Hint Resolve audit_record_trail : frames.

(** The attempt a call has written when it gets to ask the agent. *)
Definition prepared_at (w : World) (stackId revisionId did : string) (w1 : World) : Prop :=
  ∃ stack, stacks (w_db w) !! stackId = Some stack ∧
    attempts (w_db w) !! did = None ∧
    on_record (w_db w1) = (<[did := "running"]> (attempts (w_db w)), confirmed (w_db w)) ∧
    written_ahead stackId revisionId (stack_hostId stack) did (w_db w1) ∧
    w_outbox w1 = w_outbox w ∧ db_ok (w_db w1).

(** What it then asks for. *)
Definition attempt_for (w : World) (stackId revisionId did : string) (attempt : DispatchedApply) :
    Prop :=
  ∃ stack, stacks (w_db w) !! stackId = Some stack ∧
    attempt_stackId attempt = stackId ∧ attempt_revisionId attempt = revisionId ∧
    attempt_deploymentId attempt = did ∧ attempt_hostId attempt = stack_hostId stack ∧
    attempt_fromRevisionId attempt = truthy_string (stack_currentRevisionId stack).

Lemma prepare_prepared stackId revisionId stack target from kind plan names existing actor
    context w w1 x w2 w3 :
  db_ok (w_db w) → stacks (w_db w) !! stackId = Some stack → revision_id target = revisionId →
  quiet w w1 →
  prepare stack target from kind plan names existing actor context w1 = (inr x, w2) →
  trail w2 w3 → prepared_at w stackId revisionId x.1.1 w3.
Proof.
  intros Hok Hs Ht [Hdb Hout] E (Hd3 & Hs3 & Hok3 & Hout3).
  assert (Hsid : stack_id stack = stackId) by exact (proj1 (db_ok_rows (R := Stack) _ Hok) _ _ Hs).
  assert (Hk : framed (on_db keeps_db_ok)
    (prepare stack target from kind plan names existing actor context))
    by (unfold prepare, allocate; frame).
  apply (framed_run _ _ _ _ _ Hk) in E as Hok2.
  apply prepare_sends in E as Hs2.
  apply prepare_inr in E as (Hnew & Hrec & Hrow). rewrite Hdb, ?Hsid, ?Ht in *.
  exists stack. unfold on_record, attempts, confirmed, written_ahead in *.
  rewrite Hd3, Hs3, Hout3, Hs2, Hout. split_and!; try done.
  apply Hok3, Hok2. by rewrite Hdb.
Qed.

(** The three places a call ends: before anything is written, after the attempt
    is written and before the agent is asked, and in [run]. *)
Definition call_ends (w : World) (stackId revisionId : string) (r : exn + DeploymentOutcome)
    (w' : World) : Prop :=
  (quiet w w' ∧ ∃ e, r = inl e) ∨
  ∃ did w1 w2, prepared_at w stackId revisionId did w1 ∧ quiet w2 w' ∧
    ((∃ e, r = inl e) ∧ w2 = w1 ∨
     ∃ attempt, attempt_for w stackId revisionId did attempt ∧ run attempt w1 = (r, w2)).

Lemma deploy_locked_cases stackId revisionId stack target from kind agentId actor context w0 w r w' :
  db_ok (w_db w0) → stacks (w_db w0) !! stackId = Some stack → revision_id target = revisionId →
  revision_id <$> from = truthy_string (stack_currentRevisionId stack) → quiet w0 w →
  deploy_locked stackId revisionId stack target from kind agentId actor context w = (r, w') →
  call_ends w0 stackId revisionId r w'.
Proof.
  intros Hok Hs Ht Hfrom Hq E. unfold deploy_locked in E.
  apply (framed_step quiet _ _ w0) in E as [?|(plan & w1 & _ & H1 & E)];
    [by left| |unfold compile, raise; by frame|done].
  apply (framed_step quiet _ _ w0) in E as [?|(names & w2 & _ & H2 & E)];
    [by left| |unfold raise; by frame|done].
  apply (framed_step quiet _ _ w0) in E as [?|(existing & w3 & _ & H3 & E)];
    [by left| |unfold stackContainers; by frame|done].
  apply (framed_step quiet _ _ w0) in E as [?|([] & w4 & _ & H4 & E)];
    [by left| |unfold assertNamesAreFree; by frame|done].
  apply bind_cases in E as [(e & -> & E)|(x & w5 & E5 & E)].
  { left. apply catch_rethrow in E as [(e' & _ & E)|(? & ? & _)]; [|done]. split; [|by eauto].
    etrans; [exact H4|]. split; [by apply transaction_inl in E|by apply prepare_sends in E]. }
  apply catch_rethrow in E5 as [(e' & ? & _)|(x' & [= <-] & E5)]; [done|].
  destruct x as [[did aid] allocated]. right.
  pose proof (λ w3, prepare_prepared _ _ _ _ _ _ _ _ _ _ _ _ _ _ _ w3 Hok Hs Ht H4 E5) as Hprep.
  simpl in Hprep.
  apply (framed_step trail _ _ w5) in E as [[Ht6 [e ->]]|([] & w6 & _ & Ht6 & E)];
    [| |by frame|reflexivity].
  { exists did, w', w'. split_and!; [by apply Hprep|done|left; eauto]. }
  apply bind_cases in E as [(e & -> & E)|(payload & w7 & E7 & E)].
  { exists did, w', w'. split_and!; [|done|left; by eauto]. apply Hprep.
    unfold raise in E. case_match; unfold throw, mret, M_ret in E; by simplify_eq. }
  exists did, w7, w'. split_and!; [|done|right].
  { apply Hprep. unfold raise in E7. case_match; unfold throw, mret, M_ret in E7; by simplify_eq. }
  eexists. split; [|exact E]. by exists stack.
Qed.

Lemma find_inr stackId w stack w' :
  find stackId w = (inr stack, w') → stacks (w_db w) !! stackId = Some stack.
Proof.
  intros E. unfold find in E. unbind.
  destruct (stacks (w_db w) !! stackId) as [s|]; [|by unbind]. unbind.
  destruct (hosts (w_db w) !! stack_hostId s) as [h|]; by unbind.
Qed.

Lemma revision_inr stackId revisionId w r w' :
  revision stackId revisionId w = (inr r, w') → revision_id r = revisionId.
Proof.
  intros E. unfold revision in E. unbind. case_match eqn:Eh; [|by unbind]. unbind.
  apply head_select_Some in Eh as [_ [Hid%bool_decide_eq_true _]%andb_true_iff]. done.
Qed.

Lemma deploy_cases stackId revisionId actor context w r w' :
  db_ok (w_db w) → deploy stackId revisionId actor context w = (r, w') →
  call_ends w stackId revisionId r w'.
Proof.
  intros Hok E. unfold deploy in E.
  assert (Hq : quiet w w) by reflexivity.
  apply (framed_step quiet _ _ w) in E as [?|(stack & w1 & E1%find_inr & H1 & E)];
    [by left| |unfold find, assertNotArchived; by frame|done].
  apply (framed_step quiet _ _ w) in E as [?|(target & w2 & E2%revision_inr & H2 & E)];
    [by left| |unfold revision; by frame|done].
  apply (framed_step quiet _ _ w) in E as [?|(from & w3 & E3 & H3 & E)];
    [by left| |unfold revision; by frame|done].
  assert (Hfrom : revision_id <$> from = truthy_string (stack_currentRevisionId stack)).
  { unfold truthy_string. destruct (truthy _) eqn:Et; [|by apply ret_inr in E3 as [-> _]].
    apply fmap_inr in E3 as (f & -> & E3%revision_inr). simpl. rewrite E3.
    by destruct (stack_currentRevisionId stack). }
  destruct (kindOf stack target from) as [kind|];
    [|left; unfold conflict, throw in E; simplify_eq; split; [done|by eexists]].
  apply (framed_step quiet _ _ w) in E as [?|(agentId & w4 & _ & H4 & E)];
    [by left| |unfold connectedAgent, assertStackAttribution; by frame|done].
  apply (framed_step quiet _ _ w) in E as [?|([] & w5 & _ & H5 & E)];
    [by left| |unfold assertNoUnresolvedDeployment; by frame|done].
  apply (framed_step quiet _ _ w) in E as [?|(h & w6 & _ & H6 & E)]; [by left| |by frame|done].
  apply try_finally_release in E as (w7 & E & H7).
  apply (deploy_locked_cases _ _ _ _ _ _ _ _ _ w) in E as [[? ?]|(did & wa & wb & Hp & Hb & Hr)];
    try done; [left; split; [by transitivity w7|done]|].
  right. exists did, wa, wb. split_and!; [done|by transitivity w7|done].
Qed.

(** *** What is sent *)

Definition only_reads (m : Sent) : Prop := sent_capability m ∈ SYNC_CAPABILITIES.

Lemma sync_only_reads agentId : framed (sends only_reads) (sync agentId).
Proof. apply sync_sends. Qed.
#[local] Hint Resolve sync_only_reads : frames.

(** The one request that changes the host, and then only readings. *)
Lemma run_sends attempt w r w' :
  run attempt w = (r, w') →
  ∃ first rest, w_outbox w' = w_outbox w ++ first ++ rest ∧ Forall only_reads rest ∧
    (first = [] ∨ first = [
      {| sent_agent := attempt_agentId attempt; sent_capability := "stack.deploy";
         sent_plan := plan_json (attempt_payload attempt); sent_db := w_db w |}]).
Proof.
  intros E. unfold run in E. set (asked := try_catch _ _) in E.
  assert (Ha : ∃ x w1, asked w = (inr x, w1) ∧ ∃ r0,
    request (attempt_agentId attempt) "stack.deploy" (plan_json (attempt_payload attempt)) w = (r0, w1)).
  { unfold asked, try_catch, mbind, M_bind.
    destruct (request _ _ _ w) as [[e|p] w1]; [|by eauto 6]. destruct (mem _ _); by eauto 6. }
  destruct Ha as (x & w1 & Ex & r0 & Hr). rewrite (run_bind _ _ _ _ _ Ex) in E.
  assert (Hs : sends only_reads w1 w').
  { eapply framed_run; [|exact E]. open_attempt. frame. }
  destruct Hs as (rest & Hw & Hrest). apply request_cases in Hr as [_ [Hr|Hr]]; rewrite Hw, Hr.
  - exists [], rest. auto.
  - eexists _, rest. rewrite <-app_assoc. auto.
Qed.

(** *** What people saved *)

Lemma saved_update_stack i f :
  (∀ s, stack_latestRevisionId (f s) = stack_latestRevisionId s) →
  framed (on_db (unchanged saved)) (update_id (R := Stack) i f).
Proof.
  intros Hf. apply framed_update; [apply _|]. intros d _. unfold unchanged, saved. simpl.
  by rewrite fmap_change_rows.
Qed.
#[local] Hint Extern 1 (framed (on_db (unchanged saved)) (update_id (R := Stack) _ _)) =>
  apply saved_update_stack; reflexivity : frames.

Lemma sync_saved agentId : framed (on_db (unchanged saved)) (sync agentId).
Proof.
  apply (framed_via decided (λ x, let '(_, _, s, r, v, _, _, _, _) := x in
    (stack_latestRevisionId <$> s, r, v))), sync_decided.
Qed.
#[local] Hint Resolve sync_saved : frames.

Lemma run_saved attempt : framed (on_db (unchanged saved)) (run attempt).
Proof. open_attempt. frame. Qed.
#[local] Hint Resolve run_saved : frames.

(** ** Theorems *)

(** C2: intent is written before the agent is asked, and asked once.  Whatever
    fails, the requests a call sends are readings, except for at most one
    [stack.deploy], which comes first, and when it is sent the database already
    holds a new running attempt for that revision of that stack on its host. *)
Theorem deploy_writes_ahead stackId revisionId actor context w r w' :
  db_ok (w_db w) → deploy stackId revisionId actor context w = (r, w') →
  ∃ first rest, w_outbox w' = w_outbox w ++ first ++ rest ∧ Forall only_reads rest ∧
    (first = [] ∨ ∃ stack did m, first = [m] ∧ sent_capability m = "stack.deploy" ∧
       stacks (w_db w) !! stackId = Some stack ∧ stackDeployments (w_db w) !! did = None ∧
       written_ahead stackId revisionId (stack_hostId stack) did (sent_db m)).
Proof.
  intros Hok E. apply deploy_cases in E as [[[_ Ho] _]|(did & w1 & w2 & Hp & [_ Ho] & Hr)]; [| |done].
  { exists [], []. rewrite Ho, app_nil_r. auto. }
  destruct Hp as (stack & Hs & Hnew & _ & Hahead & Ho1 & _). rewrite Ho.
  destruct Hr as [[_ ->]|(attempt & _ & E)].
  { exists [], []. rewrite Ho1, app_nil_r. auto. }
  apply run_sends in E as (first & rest & -> & Hrest & Hf). rewrite Ho1.
  exists first, rest. split_and!; [done|done|]. destruct Hf as [->| ->]; [by left|right].
  eexists stack, did, _. split_and!; [done|done|done| |done].
  unfold attempts in Hnew. rewrite lookup_fmap in Hnew. by apply fmap_None in Hnew.
Qed.

(** A call gives back what it takes and breaks nothing.  Whatever fails, the
    locks held after a call are those held before it, so a failed deployment
    never leaves a stack locked; the newest revision of every stack, and every
    revision and its environment, are what they were; and the database
    invariant is kept, so that no stack ever has two unresolved attempts. *)
Theorem deploy_keeps_invariants stackId revisionId actor context w :
  let w' := (deploy stackId revisionId actor context w).2 in
  (registry_ok (w_registry w) →
     registry_ok (w_registry w') ∧ held (w_registry w') = held (w_registry w)) ∧
  saved (w_db w') = saved (w_db w) ∧
  (db_ok (w_db w) → db_ok (w_db w') ∧
     ∀ i j a b, stackDeployments (w_db w') !! i = Some a → stackDeployments (w_db w') !! j = Some b →
       deployment_stackId a = deployment_stackId b →
       unresolved_status (deployment_status a) = true →
       unresolved_status (deployment_status b) = true → i = j).
Proof.
  simpl. split_and!.
  - apply deploy_balanced.
  - enough (framed (on_db (unchanged saved)) (deploy stackId revisionId actor context)) as Hf
      by apply Hf.
    open_deploy. frame.
  - intros Hok. pose proof (deploy_keeps_db_ok stackId revisionId actor context w Hok) as Hok'.
    split; [done|]. intros i j a b Ha Hb Hs Hua Hub.
    pose proof (db_ok_rows (R := StackDeployment) _ Hok') as [_ Hu].
    apply Forall_cons in Hu as [Hu _]. eapply Hu; [done|done| |]; simpl.
    + by rewrite Hua.
    + rewrite Hub, Hs. done.
Qed.

End deployment.

(** ** A stack moved from one revision to the next

    Stack [S1] on host [h1] runs revision [R1] with one service; [R2] was saved
    after it.  The compiler is one that always answers with the same plan. *)

#[local] Existing Instance clear_cipher.
#[local] Instance example_compiler : ComposeCompiler := λ _ _ _, inr (Some example_plan).

Definition S1 := "11111111-1111-1111-1111-111111111111".
Definition R1 := "22222222-2222-2222-2222-222222222221".
Definition R2 := "22222222-2222-2222-2222-222222222222".
Definition C1 := "33333333-3333-3333-3333-333333333333".

Definition example_stack : Stack := {|
  stack_id := S1; stack_hostId := "h1"; stack_name := "shop"; stack_sourceType := "compose";
  stack_status := "running"; stack_latestRevisionId := Some R2;
  stack_currentRevisionId := Some R1; stack_desiredRevisionId := None; stack_createdBy := None;
  stack_lastDeployedAt := None; stack_adoptedAt := None; stack_composeProjectId := None |}.

Definition example_revision (id : string) (number : N) : StackRevision := {|
  revision_id := id; revision_stackId := S1; revision_number := number;
  revision_composeSourceEncrypted := encrypt [] (random_iv 0) "services: {}";
  revision_environmentSnapshot := None; revision_changeSummary := None;
  revision_compilerProtocolVersion := None; revision_planVersion := None;
  revision_validatedAt := None;
  revision_summary := Some {| summary_services := ["web"]; summary_networks := [];
                              summary_volumes := []; summary_dependsOn := None |};
  revision_createdBy := None; revision_createdAt := 0%Z |}.

Definition shop_container (revision : string) : Container :=
  (example_container C1 "h1" "d1")
    <| container_name := "shop-web-1" |> <| container_stackId := Some S1 |>
    <| container_stackService := Some "web" |> <| container_stackRevisionId := Some revision |>.

Definition shop : DB := empty_db
  <| hosts := {["h1" := example_host "h1"]} |>
  <| agents := {["agent-1" := example_agent <| agent_version := Some "99.0.0" |> ]} |>
  <| containers := {[C1 := shop_container R1]} |>
  <| stacks := {[S1 := example_stack]} |>
  <| stackRevisions := {[R1 := example_revision R1 1; R2 := example_revision R2 2]} |>.

Lemma shop_ok : db_ok shop.
Proof. apply db_okb_true. by vm_compute. Qed.

Definition shop_labels (revision : string) : gmap string string :=
  {[DOCKPLANE_MANAGED := "true"; DOCKPLANE_CONTAINER_ID := C1; DOCKPLANE_STACK_ID := S1;
    DOCKPLANE_STACK_SERVICE := "web"; DOCKPLANE_STACK_REVISION_ID := revision]}.

(** The agent says it is done, and the host shows a container of [revision]. *)
Definition shop_world (revision : string) : World :=
  (quiet_world shop)
    <| w_replies := Replied Payload_other :: answers [report "d2" (shop_labels revision)] |>.

Definition operator : AuthenticatedUser := {| actor_id := "u1"; actor_email := "op@example.com" |}.
Definition from_ui : RequestContext :=
  {| context_sourceIp := None; context_userAgent := None; context_requestId := None |}.

(** The target was read back: the stack is on [R2]. *)
Example deploy_confirms :
  confirmed (w_db (deploy [] S1 R2 operator from_ui (shop_world R2)).2) !! S1 = Some (Some R2).
Proof. by vm_compute. Qed.

(** The agent said the same, and the host still shows [R1]: nothing is claimed. *)
Example deploy_not_believed :
  (deploy [] S1 R2 operator from_ui (shop_world R1)).1 = inl (AppError "STACK_APPLY_FAILED" CONFLICT) ∧
  confirmed (w_db (deploy [] S1 R2 operator from_ui (shop_world R1)).2) !! S1 = Some (Some R1).
Proof. by vm_compute. Qed.


Example deploy_asks_first :
  head (sent_capability <$> w_outbox (deploy [] S1 R2 operator from_ui (shop_world R2)).2) =
    Some "stack.deploy".
Proof. by vm_compute. Qed.

Lemma deploy_writes_ahead_witness :
  ∃ m rest, w_outbox (deploy [] S1 R2 operator from_ui (shop_world R2)).2 = m :: rest ∧
    sent_capability m = "stack.deploy" ∧ Forall only_reads rest ∧
    ∃ did, written_ahead S1 R2 "h1" did (sent_db m).
Proof.
  pose proof deploy_asks_first as Ho.
  pose proof (deploy_writes_ahead [] S1 R2 operator from_ui (shop_world R2) _ _ shop_ok
    (surjective_pairing _)) as Hw.
  revert Ho Hw. generalize (deploy [] S1 R2 operator from_ui (shop_world R2)). intros [r w'].
  change (w_outbox (shop_world R2)) with (@nil Sent). unfold snd.
  intros Ho (first & rest & Hw & Hrest & Hf). rewrite app_nil_l in Hw. rewrite Hw in *.
  destruct Hf as [->|(stack & did & m & -> & Hm & Hs & _ & Ha)].
  - exfalso. destruct Hrest as [|x rest Hx _]; [done|]. injection Ho as Ho.
    unfold only_reads in Hx. rewrite Ho in Hx. by apply (bool_decide_pack _) in Hx.
  - exists m, rest. split_and!; [done|done|done|]. exists did.
    assert (Hx : stacks (w_db (shop_world R2)) !! S1 = Some example_stack) by (by vm_compute).
    rewrite Hx in Hs. injection Hs as <-. exact Ha.
Defined.

Lemma deploy_keeps_invariants_witness :
  held (w_registry (deploy [] S1 R2 operator from_ui (shop_world R2)).2) = ∅ ∧
  db_ok (w_db (deploy [] S1 R2 operator from_ui (shop_world R2)).2).
Proof.
  destruct (deploy_keeps_invariants [] S1 R2 operator from_ui (shop_world R2)) as (Hl & _ & Hd).
  split; [apply Hl, empty_registry_ok|apply Hd, shop_ok].
Defined.

Definition stopped_report : ContainerSummary := {|
  item_dockerId := Some "d1"; item_name := Some "shop-web-1"; item_image := Some "nginx";
  item_imageId := None; item_state := Some "exited"; item_status := None; item_health := None;
  item_createdAt := None; item_labels := shop_labels R1 |}.

(** A stack that was stopped, whose containers are still there and still
    stopped, and an agent that refuses the new revision. *)
Definition stopped_shop : World :=
  (quiet_world (shop <| stacks := {[S1 := example_stack <| stack_status := "stopped" |> ]} |>))
    <| w_replies := Refused "IMAGE_PULL_FAILED" ::
         answers [stopped_report] |>.

(** The attempt did not take and the host is as it was, but the stack is
    not: a stopped stack is recorded as running. *)
Theorem not_applied_marks_running :
  let w' := (deploy [] S1 R2 operator from_ui stopped_shop).2 in
  (stack_status <$> stacks (w_db stopped_shop) !! S1) = Some "stopped" ∧
  (container_state <$> containers (w_db w') !! C1) = Some "exited" ∧
  (deployment_status <$> (map_to_list (stackDeployments (w_db w'))).*2) = ["rolled_back"] ∧
  (stack_status <$> stacks (w_db w') !! S1) = Some "running".
Proof. by vm_compute. Qed.
