(* ===== verification/StackLifecycle.v ===== *)
(** * Starting, stopping and restarting a stack

    [api/src/stacks/stack-lifecycle.service.ts].  [connectedAgent], [resync] and
    the guard on unresolved work are the deployment service's, which this file
    repeats word for word. *)

From Stdlib Require Import Ascii String NArith ZArith.
From stdpp Require Import gmap strings list pretty.
From S2P Require Import Prelude Semver Schema Store Registry Effects Logic PendingGuard.
From S2P Require Import StackClassify StackPlan Base64 Environment Discovery Detail.
From S2P Require Import StackDeployment.

Import StackClassify.Lifecycle.

(** ** Data *)

Record StackOperationOutcome := {
  opresult_operationId : string;
  opresult_stackId : string;
  opresult_operation : StackLifecycleKind;
  opresult_services : list (string * option string)
}.

Record DeployedService := {
  deployed_serviceName : string;
  deployed_containerId : string;
  deployed_dockerId : string;
  deployed_dependsOn : list string
}.

Record DispatchedOperation := {
  op_operationId : string;
  op_actionId : option string;
  op_operation : StackLifecycleKind;
  op_stackId : string;
  op_stackName : string;
  op_hostId : string;
  op_revisionId : string;
  op_expectedServices : list string;
  op_fingerprint : option (list ServiceFingerprint);
  op_agentId : string;
  op_payload : json;
  op_actor : AuthenticatedUser;
  op_context : RequestContext
}.

Definition kind_name (k : StackLifecycleKind) : string :=
  match k with start => "start" | stop => "stop" | restart => "restart" end.

Definition CAPABILITY (k : StackLifecycleKind) : string :=
  match k with start => "stack.start" | stop => "stack.stop" | restart => "stack.restart" end.

Definition RESULT_STATUS (k : StackLifecycleKind) : string :=
  match k with start => "running" | stop => "stopped" | restart => "running" end.

Definition FAILED (k : StackLifecycleKind) : string :=
  match k with
  | start => "STACK_START_FAILED" | stop => "STACK_STOP_FAILED" | restart => "STACK_RESTART_FAILED"
  end.

Definition EVENT (k : StackLifecycleKind) : string :=
  match k with
  | start => "stack.started" | stop => "stack.stopped" | restart => "stack.restarted"
  end.

Definition REQUESTED (k : StackLifecycleKind) : string :=
  match k with
  | start => "stack.start.requested" | stop => "stack.stop.requested"
  | restart => "stack.restart.requested"
  end.

Definition COMPLETED (k : StackLifecycleKind) : string :=
  match k with
  | start => "stack.started" | stop => "stack.stopped" | restart => "stack.restarted"
  end.

Definition AUDIT_FAILED (k : StackLifecycleKind) : string :=
  match k with
  | start => "stack.start.failed" | stop => "stack.stop.failed" | restart => "stack.restart.failed"
  end.

Definition LIFECYCLE_PLAN_VERSION : Z := 1.

(** What a lost race is reported as. *)
Definition operation_claimed (error : exn) : exn :=
  match error with
  | UniqueViolation name =>
      if bool_decide (name = "stack_operations_unresolved_unique")
      then AppError "STACK_OPERATION_CONFLICT" CONFLICT else error
  | _ => error
  end.

(** ** Guards *)

Definition assertNothingUnresolved (stackId : string) : M unit :=
  deployment ← select_first (unresolved_deployment_of stackId);
  match deployment with
  | Some _ => conflict "STACK_DEPLOYMENT_CONFLICT"
  | None =>
      operation ← select_first (unresolved_operation_of stackId);
      match operation with
      | Some _ => conflict "STACK_OPERATION_CONFLICT"
      | None => mret tt
      end
  end.

Definition operableStack (stackId : string) : M Stack :=
  stack ← select_id (R := Stack) stackId;
  match stack with
  | None => notFound "STACK_NOT_FOUND"
  | Some stack =>
      host ← select_id (R := Host) (stack_hostId stack);
      match host with
      | None => notFound "HOST_NOT_FOUND"
      | Some host =>
          assertNotArchived (host_archivedAt host);;
          if negb (truthy (stack_currentRevisionId stack)) then conflict "STACK_NOT_DEPLOYED"
          else if bool_decide (stack_status stack = "needs_attention")
          then conflict "STACK_NEEDS_ATTENTION"
          else assertNothingUnresolved stackId;; mret stack
      end
  end.

(** The containers holding the services of a revision, by its stored summary. *)
Definition held_services (rows : list Container) (dependsOn : list (string * list string))
    (expected : list string) : exn + list DeployedService :=
  map_throw (λ serviceName,
    match map_get (λ r, container_stackService r ?? "")
            (List.filter (λ r, bool_decide (container_stackService r ≠ None)) rows) serviceName with
    | Some row =>
        if truthy (container_dockerId row) then
          inr {| deployed_serviceName := serviceName; deployed_containerId := container_id row;
                 deployed_dockerId := container_dockerId row ?? "";
                 deployed_dependsOn := (snd <$> map_get fst dependsOn serviceName) ?? [] |}
        else inl (AppError "STACK_SERVICE_MISSING" CONFLICT)
    | None => inl (AppError "STACK_SERVICE_MISSING" CONFLICT)
    end) expected.

Definition deployedServices (stackId revisionId : string) : M (list DeployedService) :=
  revision ← select_id (R := StackRevision) revisionId;
  let summary := revision ≫= revision_summary in
  let expected := (summary_services <$> summary) ?? [] in
  if (length expected =? 0)%nat then conflict "STACK_NOT_DEPLOYED"
  else
    rows ← stackContainers stackId;
    raise (held_services rows ((summary ≫= summary_dependsOn) ?? []) expected).

(** ** The operation *)

Section lifecycle.
Context `{Dates}.

(** [detail?.startedAt], as the instant it names. *)
Definition started_at (detail : json) : option time :=
  match get detail "startedAt" with Some (JString s) => date_parse s | _ => None end.

Definition fingerprintOf (services : list DeployedService) : M (list ServiceFingerprint) :=
  for_fold services [] (λ fingerprint service,
    observed ← containerDetail (deployed_containerId service) true;
    mret (fingerprint ++ [{|
      fingerprint_serviceName := deployed_serviceName service;
      fingerprint_containerId := deployed_containerId service;
      fingerprint_dockerId :=
        match get (view_detail observed) "dockerId" with
        | Some (JString s) => s | _ => deployed_dockerId service end;
      fingerprint_startedAt := started_at (view_detail observed) |}])).

Definition observedRuntime (stackId : string) (withStartTimes : bool) : M (list ObservedRuntime) :=
  rows ← stackContainers stackId;
  for_fold rows [] (λ observed row,
    startedAt ← (if withStartTimes && truthy (container_dockerId row)
                 then try_catch (detail ← containerDetail (container_id row) true;
                                 mret (started_at (view_detail detail)))
                        (λ _, mret None)
                 else mret None);
    mret (observed ++ [{|
      serviceName := container_stackService row ?? ""; containerId := container_id row;
      dockerId := container_dockerId row;
      state := if truthy (container_dockerId row) then Some (container_state row) else None;
      revisionId := container_stackRevisionId row; startedAt := startedAt |}])).

Definition prepareOperation (stack : Stack) (revisionId : string) (operation : StackLifecycleKind)
    (fingerprint : option (list ServiceFingerprint)) (actor : AuthenticatedUser)
    (context : RequestContext) : M (string * string) :=
  transaction (
    at_ ← now;
    actionId ← randomUUID;
    correlationId ← match context_requestId context with
                    | Some id => mret id
                    | None => randomUUID
                    end;
    insert_into (new_action actionId (CAPABILITY operation) "stack" (stack_id stack)
      (stack_hostId stack) correlationId actor at_);;
    operationId ← randomUUID;
    insert_into {|
      operation_id := operationId; operation_stackId := stack_id stack;
      operation_revisionId := revisionId; operation_hostId := stack_hostId stack;
      operation_type := kind_name operation; operation_status := "running";
      operation_actionId := Some actionId; operation_startedBy := Some (actor_id actor);
      operation_fingerprint := fingerprint; operation_detail := None;
      operation_failureCode := None; operation_startedAt := at_;
      operation_resolvedAt := None |};;
    mret (operationId, actionId)).

Definition audit_operation (attempt : DispatchedOperation) (action : string)
    (result : AuditResult) : M unit :=
  audit_record {|
    entry_action := action; entry_result := result;
    entry_actorUserId := Some (actor_id (op_actor attempt));
    entry_actorLabel := actor_email (op_actor attempt);
    entry_targetType := Some "stack"; entry_targetId := Some (op_stackId attempt);
    entry_targetLabel := Some (op_stackName attempt);
    entry_reasonCode := Some (op_operationId attempt);
    entry_sourceIp := context_sourceIp (op_context attempt);
    entry_userAgent := context_userAgent (op_context attempt) |}.

Definition operationInterrupted {A} (attempt : DispatchedOperation) (code : string) : M A :=
  update_id (R := StackOperation) (op_operationId attempt)
    (λ r, r <| operation_status := "interrupted" |> <| operation_failureCode := Some code |>);;
  audit_operation attempt "stack.operation.interrupted" Audit_failure;;
  throw (AppError "OPERATION_OUTCOME_UNKNOWN" SERVICE_UNAVAILABLE).

Definition recordOperationApplied (attempt : DispatchedOperation) (detail : list ServiceOutcome) :
    M unit :=
  at_ ← now;
  transaction (
    update_id (R := StackOperation) (op_operationId attempt)
      (λ r, r <| operation_status := "succeeded" |> <| operation_detail := Some detail |>
              <| operation_resolvedAt := Some at_ |>);;
    update_id (R := Stack) (op_stackId attempt)
      (λ s, s <| stack_status := RESULT_STATUS (op_operation attempt) |>);;
    finish_action (op_actionId attempt)
      (λ a, a <| action_status := Action_succeeded |> <| action_completedAt := Some at_ |>));;
  audit_operation attempt (COMPLETED (op_operation attempt)) Audit_success;;
  events_record (Some (op_hostId attempt)) (EVENT (op_operation attempt)) Severity_info
    ("stack:" +:+ op_stackId attempt) (Some (op_operationId attempt)).

Definition recordOperationNotApplied (attempt : DispatchedOperation)
    (detail : list ServiceOutcome) (failure : option string) : M unit :=
  at_ ← now;
  transaction (
    update_id (R := StackOperation) (op_operationId attempt)
      (λ r, r <| operation_status := "failed" |> <| operation_detail := Some detail |>
              <| operation_failureCode := Some (failure ?? FAILED (op_operation attempt)) |>
              <| operation_resolvedAt := Some at_ |>);;
    finish_action (op_actionId attempt)
      (λ a, a <| action_status := Action_failed |> <| action_completedAt := Some at_ |>
              <| action_errorCode := failure |>));;
  audit_operation attempt (AUDIT_FAILED (op_operation attempt)) Audit_failure;;
  events_record (Some (op_hostId attempt)) "stack.operation.failed" Severity_warning
    ("stack:" +:+ op_stackId attempt) (Some (op_operationId attempt)).

Definition recordOperationNeedsAttention (attempt : DispatchedOperation)
    (detail : list ServiceOutcome) : M unit :=
  at_ ← now;
  transaction (
    update_id (R := StackOperation) (op_operationId attempt)
      (λ r, r <| operation_status := "needs_attention" |> <| operation_detail := Some detail |>
              <| operation_failureCode := Some "STACK_LIFECYCLE_PARTIAL" |>
              <| operation_resolvedAt := Some at_ |>);;
    update_id (R := Stack) (op_stackId attempt)
      (λ s, s <| stack_status := "needs_attention" |>);;
    finish_action (op_actionId attempt)
      (λ a, a <| action_status := Action_failed |> <| action_completedAt := Some at_ |>
              <| action_errorCode := Some "STACK_LIFECYCLE_PARTIAL" |>));;
  audit_operation attempt "stack.operation.needs_attention" Audit_failure;;
  events_record (Some (op_hostId attempt)) "stack.operation.failed" Severity_critical
    ("stack:" +:+ op_stackId attempt) (Some (op_operationId attempt)).

Definition lifecycle_input (attempt : DispatchedOperation) (complete : bool)
    (observed : list ObservedRuntime) : StackLifecycleInput := {|
  operation := op_operation attempt; deployedRevisionId := op_revisionId attempt;
  expectedServices := op_expectedServices attempt; observed := observed;
  fingerprint := op_fingerprint attempt; snapshotComplete := complete |}.

Definition observeOperation (attempt : DispatchedOperation) :
    M (list ObservedRuntime * StackLifecycleOutcome) :=
  complete ← resync (op_hostId attempt);
  observed ← observedRuntime (op_stackId attempt)
    (bool_decide (op_operation attempt = restart));
  mret (observed, classifyStackLifecycle (lifecycle_input attempt complete observed)).

Definition present (s : ObservedRuntime) : bool := bool_decide (dockerId s ≠ None).

Definition settleOperation (attempt : DispatchedOperation) (observed : list ObservedRuntime)
    (outcome : StackLifecycleOutcome) (failure : option string) : M StackOperationOutcome :=
  let detail :=
    (λ s, {| outcome_serviceName := serviceName s; outcome_containerId := containerId s;
             outcome_state := truthy_string (state s); outcome_errorCode := None |})
    <$> List.filter present observed in
  match outcome with
  | unknown _ => operationInterrupted attempt "HOST_NOT_READABLE"
  | applied =>
      recordOperationApplied attempt detail;;
      mret {| opresult_operationId := op_operationId attempt;
              opresult_stackId := op_stackId attempt;
              opresult_operation := op_operation attempt;
              opresult_services := (λ s, (serviceName s, state s)) <$> List.filter present observed |}
  | needs_attention _ =>
      recordOperationNeedsAttention attempt detail;;
      throw (AppError "STACK_LIFECYCLE_PARTIAL" CONFLICT)
  | not_applied =>
      recordOperationNotApplied attempt detail failure;;
      if bool_decide (failure = Some "STACK_STATE_AMBIGUOUS") then
        conflict "STACK_REPAIR_AMBIGUOUS"
      else if bool_decide (failure = Some "STACK_SERVICE_MISSING") then
        conflict "STACK_SERVICE_MISSING"
      else throw (AppError (FAILED (op_operation attempt)) CONFLICT)
  end.

Definition dispatchAndSettle (attempt : DispatchedOperation) : M StackOperationOutcome :=
  failure ← try_catch
    (request (op_agentId attempt) (CAPABILITY (op_operation attempt)) (op_payload attempt);;
     mret (inr None))
    (λ error,
       let code := error_code error ?? "DOCKER_OPERATION_FAILED" in
       if mem code UNKNOWN_OUTCOME then mret (inl code) else mret (inr (error_code error)));
  match failure with
  | inl code => operationInterrupted attempt code
  | inr failure =>
      '(observed, outcome) ← observeOperation attempt;
      settleOperation attempt observed outcome failure
  end.

Definition lifecycle_plan (stackId revisionId : string) (services : list DeployedService) : json :=
  JObject [
    ("planVersion", JNumber LIFECYCLE_PLAN_VERSION); ("stackId", JString stackId);
    ("revisionId", JString revisionId);
    ("services", JArray ((λ service, JObject (
      [("serviceName", JString (deployed_serviceName service));
       ("containerId", JString (deployed_containerId service))] ++
      match deployed_dependsOn service with
      | [] => []
      | l => [("dependsOn", JArray (JString <$> l))]
      end)) <$> services))].

(** What [run] does while it holds the stack: the [try] block. *)
Definition operate_locked (operation : StackLifecycleKind) (stackId : string) (stack : Stack)
    (agentId : string) (actor : AuthenticatedUser) (context : RequestContext) :
    M StackOperationOutcome :=
  let revisionId := stack_currentRevisionId stack ?? "" in
  services ← deployedServices stackId revisionId;
  fingerprint ← (if bool_decide (operation = restart)
                 then Some <$> fingerprintOf services else mret None);
  '(operationId, actionId) ←
    try_catch (prepareOperation stack revisionId operation fingerprint actor context)
      (λ error, throw (operation_claimed error));
  audit_record {|
    entry_action := REQUESTED operation; entry_result := Audit_success;
    entry_actorUserId := Some (actor_id actor); entry_actorLabel := actor_email actor;
    entry_targetType := Some "stack"; entry_targetId := Some stackId;
    entry_targetLabel := Some (stack_name stack); entry_reasonCode := Some operationId;
    entry_sourceIp := context_sourceIp context;
    entry_userAgent := context_userAgent context |};;
  dispatchAndSettle {|
    op_operationId := operationId; op_actionId := Some actionId; op_operation := operation;
    op_stackId := stackId; op_stackName := stack_name stack; op_hostId := stack_hostId stack;
    op_revisionId := revisionId; op_expectedServices := deployed_serviceName <$> services;
    op_fingerprint := fingerprint; op_agentId := agentId;
    op_payload := lifecycle_plan stackId revisionId services;
    op_actor := actor; op_context := context |}.

Definition operate (operation : StackLifecycleKind) (stackId : string)
    (actor : AuthenticatedUser) (context : RequestContext) : M StackOperationOutcome :=
  stack ← operableStack stackId;
  agentId ← connectedAgent (stack_hostId stack);
  release ← acquire_lock (stackKey stackId) (kind_name operation);
  try_finally (operate_locked operation stackId stack agentId actor context)
    (release_lock release).

(** ** What is on record about operations *)

Definition operations (d : DB) : gmap string string := operation_status <$> stackOperations d.

Definition stack_states (d : DB) : gmap string string := stack_status <$> stacks d.

(** Everything about stacks but their status: what is saved, what is confirmed,
    and every attempt to apply a revision. *)
Definition deployed_as (d : DB) :=
  ((λ s, s <| stack_status := "" |>) <$> stacks d, stackRevisions d, stackRevisionEnvironment d,
   stackDeployments d).

(** ** Lemmas *)

Lemma deployed_as_update i f :
  (∀ s, (f s) <| stack_status := "" |> = s <| stack_status := "" |>) →
  framed (on_db (unchanged deployed_as)) (update_id (R := Stack) i f).
Proof.
  intros Hf. apply framed_update; [apply _|]. intros d _. unfold unchanged, deployed_as. simpl.
  by rewrite fmap_change_rows.
Qed.
#[local] Hint Extern 1 (framed (on_db (unchanged deployed_as)) (update_id (R := Stack) _ _)) =>
  apply deployed_as_update; reflexivity : frames.

Lemma sync_deployed_as agentId : framed (on_db (unchanged deployed_as)) (sync agentId).
Proof.
  apply (framed_via decided (λ x, let '(_, _, s, r, v, t, _, _, _) := x in
    ((λ s : Stack, s <| stack_status := "" |>) <$> s, r, v, t))), sync_decided.
Qed.

Lemma containerDetail_deployed_as i force : framed (on_db (unchanged deployed_as)) (containerDetail i force).
Proof.
  apply (framed_via undescribed (λ x, let '(_, _, s, r, v, t, _, _, _, _) := x in
    ((λ s : Stack, s <| stack_status := "" |>) <$> s, r, v, t))), containerDetail_undescribed.
Qed.
#[local] Hint Resolve sync_deployed_as containerDetail_deployed_as containerDetail_keeps_db_ok
  containerDetail_same_locks : frames.

Ltac open_operation :=
  unfold dispatchAndSettle, settleOperation, observeOperation, observedRuntime, resync,
    stackContainers, operationInterrupted, recordOperationApplied, recordOperationNotApplied,
    recordOperationNeedsAttention, finish_action, audit_operation, audit_record, events_record.

Ltac open_operate :=
  unfold operate, operate_locked, operableStack, assertNotArchived, assertNothingUnresolved,
    connectedAgent, assertStackAttribution, deployedServices, stackContainers, raise,
    fingerprintOf, prepareOperation, audit_record.

Lemma dispatchAndSettle_frames attempt :
  framed (on_db (unchanged deployed_as)) (dispatchAndSettle attempt) ∧
  framed (on_db keeps_db_ok) (dispatchAndSettle attempt) ∧
  framed same_locks (dispatchAndSettle attempt).
Proof. split_and!; open_operation; frame. Qed.

(** *** What an operation leaves on record *)

Definition on_ops (d : DB) := (operations d, stack_states d).

Lemma sync_on_ops agentId : framed (on_db (unchanged on_ops)) (sync agentId).
Proof.
  apply (framed_via decided (λ x, let '(_, _, s, _, _, _, o, _, _) := x in
    (operation_status <$> o, stack_status <$> s))), sync_decided.
Qed.

Lemma containerDetail_on_ops i force : framed (on_db (unchanged on_ops)) (containerDetail i force).
Proof.
  apply (framed_via undescribed (λ x, let '(_, _, s, _, _, _, o, _, _, _) := x in
    (operation_status <$> o, stack_status <$> s))), containerDetail_undescribed.
Qed.
#[local] Hint Resolve sync_on_ops containerDetail_on_ops : frames.

(** Requests that only look. *)
Definition looks (m : Sent) : Prop :=
  sent_capability m ∈ "container.inspect" :: SYNC_CAPABILITIES.

Lemma sends_weaken {A} (P Q : Sent → Prop) (m : M A) :
  (∀ x, P x → Q x) → framed (sends P) m → framed (sends Q) m.
Proof.
  intros HPQ Hm w. destruct (Hm w) as (sent & E & Hs). exists sent. split; [done|].
  by eapply Forall_impl.
Qed.

Lemma sync_looks agentId : framed (sends looks) (sync agentId).
Proof. eapply sends_weaken; [|apply sync_sends]. intros x Hx. by right. Qed.

Lemma containerDetail_looks i force : framed (sends looks) (containerDetail i force).
Proof. eapply sends_weaken; [|apply containerDetail_sends]. intros x Hx. unfold looks. rewrite Hx. by left. Qed.
#[local] Hint Resolve sync_looks containerDetail_looks : frames.

(** Looking, and writing nothing that is on record. *)
Definition looking : relation World :=
  both (on_db (unchanged on_ops)) (both (on_db keeps_db_ok) (sends looks)).

(** What settling on an outcome does to the status of the stack. *)
Definition moves (k : StackLifecycleKind) (o : StackLifecycleOutcome) (s : string) : string :=
  match o with
  | applied => RESULT_STATUS k
  | needs_attention _ => "needs_attention"
  | _ => s
  end.

Definition operation_outcome (o : StackLifecycleOutcome) : string :=
  match o with
  | applied => "succeeded" | not_applied => "failed"
  | needs_attention _ => "needs_attention" | unknown _ => "interrupted"
  end.

(** A settlement is on record whole, or not at all. *)
Definition op_recorded (id s sid : string) (u : string → string) (d d' : DB) : Prop :=
  on_ops d' = (alter (λ _, s) id (operations d), alter u sid (stack_states d)).

Lemma operation_on_ops {A} (k : M A) id fo s w r w' :
  db_ok (w_db w) → (∀ row, operation_status (fo row) = s) →
  framed (on_db (unchanged on_ops)) k →
  (update_id (R := StackOperation) id fo;; k) w = (inr r, w') →
  on_ops (w_db w') = (alter (λ _, s) id (operations (w_db w)), stack_states (w_db w)).
Proof.
  intros Hok Ho Hk E. apply bind_inr in E as (l & w1 & E1 & E).
  apply update_id_inr in E1 as [f1 ->]; [|exact (db_ok_rows (R := StackOperation) _ Hok)].
  apply (framed_run _ _ _ _ _ Hk) in E. unfold on_db, unchanged in E. rewrite E.
  unfold on_ops, operations. simpl. by rewrite (fmap_alter_const _ _ s).
Qed.

Lemma operation_settlement {A} (k : M A) id fo s sid fs u w r w' :
  db_ok (w_db w) → (∀ row, operation_status (fo row) = s) →
  (∀ row, stack_status (fs row) = u (stack_status row)) →
  framed (on_db (unchanged on_ops)) k →
  (update_id (R := StackOperation) id fo;; update_id (R := Stack) sid fs;; k) w = (inr r, w') →
  op_recorded id s sid u (w_db w) (w_db w').
Proof.
  intros Hok Ho Hs Hk E.
  apply bind_inr in E as (l1 & w1 & E1 & E). apply bind_inr in E as (l2 & w2 & E2 & E).
  apply update_id_inr in E1 as [f1 ->]; [|exact (db_ok_rows (R := StackOperation) _ Hok)].
  apply update_id_inr in E2 as [f2 ->]; [|exact (db_ok_rows (R := Stack) _ Hok)].
  apply (framed_run _ _ _ _ _ Hk) in E. unfold on_db, unchanged in E. unfold op_recorded. rewrite E.
  unfold on_ops, operations, stack_states. simpl.
  by rewrite (fmap_alter_const _ _ s), (fmap_alter_via _ _ u).
Qed.

(** The three settlements: on record whole, or an error and nothing. *)
Ltac op_settlement E lem :=
  apply bind_cases in E as [(? & -> & E)|(? & ? & [-> ->]%now_inr & E)]; [done|];
  apply (transaction_then on_ops) in E as [?|(? & ? & E & Ew)];
    [by left| |intros; unfold audit_operation, audit_record, events_record; frame];
  right; rewrite Ew; clear Ew; eapply lem; [..|exact E]; try done;
  unfold finish_action; frame.

Lemma recordOperationApplied_on_ops attempt detail w r w' :
  db_ok (w_db w) → recordOperationApplied attempt detail w = (r, w') →
  (∃ e, r = inl e) ∧ on_ops (w_db w') = on_ops (w_db w) ∨
  on_ops (w_db w') =
    (alter (λ _, "succeeded") (op_operationId attempt) (operations (w_db w)),
     alter (λ _, RESULT_STATUS (op_operation attempt)) (op_stackId attempt) (stack_states (w_db w))).
Proof. intros Hok E. unfold recordOperationApplied in E. op_settlement E @operation_settlement. Qed.

Lemma recordOperationNotApplied_on_ops attempt detail failure w r w' :
  db_ok (w_db w) → recordOperationNotApplied attempt detail failure w = (r, w') →
  (∃ e, r = inl e) ∧ on_ops (w_db w') = on_ops (w_db w) ∨
  on_ops (w_db w') =
    (alter (λ _, "failed") (op_operationId attempt) (operations (w_db w)), stack_states (w_db w)).
Proof. intros Hok E. unfold recordOperationNotApplied in E. op_settlement E @operation_on_ops. Qed.

Lemma recordOperationNeedsAttention_on_ops attempt detail w r w' :
  db_ok (w_db w) → recordOperationNeedsAttention attempt detail w = (r, w') →
  (∃ e, r = inl e) ∧ on_ops (w_db w') = on_ops (w_db w) ∨
  on_ops (w_db w') =
    (alter (λ _, "needs_attention") (op_operationId attempt) (operations (w_db w)),
     alter (λ _, "needs_attention") (op_stackId attempt) (stack_states (w_db w))).
Proof.
  intros Hok E. unfold recordOperationNeedsAttention in E. op_settlement E @operation_settlement.
Qed.

Lemma alter_same {A} (i : string) (t : gmap string A) : alter (λ x, x) i t = t.
Proof.
  apply map_eq. intros j. destruct (decide (i = j)) as [->|Hij].
  - rewrite lookup_alter_eq. by destruct (t !! j).
  - by rewrite lookup_alter_ne.
Qed.

Lemma settleOperation_on_ops attempt observed o failure w r w' :
  db_ok (w_db w) → (∀ reason, o ≠ unknown reason) →
  settleOperation attempt observed o failure w = (r, w') →
  ((∃ e, r = inl e) ∧ on_ops (w_db w') = on_ops (w_db w)) ∨
  op_recorded (op_operationId attempt) (operation_outcome o) (op_stackId attempt)
    (moves (op_operation attempt) o) (w_db w) (w_db w') ∧
  (∀ res, r = inr res → o = applied).
Proof.
  intros Hok Hu E. unfold settleOperation in E. unfold op_recorded.
  destruct o as [| |reason|reason]; [| | |by destruct (Hu reason)]; simpl.
  - apply bind_exit in E as (r0 & E & Hr); [|done].
    apply recordOperationApplied_on_ops in E as [[? ?]|?]; [left|right|done]; eauto.
  - apply bind_throws in E as (r0 & E & [e ->]); [|repeat case_bool_decide; by eexists].
    rewrite alter_same.
    apply recordOperationNotApplied_on_ops in E as [[_ ?]|?]; [left|right|done]; by eauto.
  - apply bind_throws in E as (r0 & E & [e ->]); [|by eexists].
    apply recordOperationNeedsAttention_on_ops in E as [[_ ?]|?]; [left|right|done]; by eauto.
Qed.

Definition op_undecided (id : string) (d d' : DB) : Prop :=
  stack_states d' = stack_states d ∧
  (operations d' = operations d ∨ operations d' = alter (λ _, "interrupted") id (operations d)).

Lemma operationInterrupted_on_ops {A} attempt code w (r : exn + A) w' :
  db_ok (w_db w) → operationInterrupted attempt code w = (r, w') →
  (∃ e, r = inl e) ∧ op_undecided (op_operationId attempt) (w_db w) (w_db w').
Proof.
  intros Hok E. unfold operationInterrupted in E. unfold op_undecided.
  apply bind_cases in E as [(e & -> & E)|(l & w1 & E1 & E)].
  { unfold update_id, update, statement in E. destruct (next_fault w); [by simplify_eq; eauto|].
    destruct (update_where _ _ _) as [|[]]; simplify_eq; eauto. }
  apply update_id_inr in E1 as [f1 ->]; [|exact (db_ok_rows (R := StackOperation) _ Hok)].
  assert (Hk : framed (on_db (unchanged on_ops))
    (audit_operation attempt "stack.operation.interrupted" Audit_failure;;
     throw (A := A) (AppError "OPERATION_OUTCOME_UNKNOWN" SERVICE_UNAVAILABLE))).
  { unfold audit_operation, audit_record. frame. }
  pose proof (framed_run _ _ _ _ _ Hk E) as Hr. unfold on_db, unchanged, on_ops, operations in Hr.
  simpl in Hr. rewrite (fmap_alter_const _ _ "interrupted") in Hr by done.
  injection Hr as Ha Hc. split; [|by eauto]. clear Ha Hc.
  apply bind_throws in E as (r0 & _ & Hr); [done|by eexists].
Qed.

(** A complete reading of the host, and what it was judged to mean. *)
Definition judged_complete_as (attempt : DispatchedOperation) (o : StackLifecycleOutcome) : Prop :=
  ∃ w1 w2 observed w3, resync (op_hostId attempt) w1 = (inr true, w2) ∧
    observedRuntime (op_stackId attempt) (bool_decide (op_operation attempt = restart)) w2
      = (inr observed, w3) ∧
    o = classifyStackLifecycle (lifecycle_input attempt true observed).

Lemma resync_looking hostId : framed looking (resync hostId).
Proof. apply framed_both; [|apply framed_both]; unfold resync; frame. Qed.

Lemma observedRuntime_looking stackId b : framed looking (observedRuntime stackId b).
Proof. apply framed_both; [|apply framed_both]; unfold observedRuntime, stackContainers; frame. Qed.
#[local] Hint Resolve resync_looking observedRuntime_looking : frames.

Lemma observe_settleOperation_on_ops attempt failure w r w' :
  db_ok (w_db w) →
  ('(observed, outcome) ← observeOperation attempt;
   settleOperation attempt observed outcome failure) w = (r, w') →
  ((∃ e, r = inl e) ∧ op_undecided (op_operationId attempt) (w_db w) (w_db w')) ∨
  ∃ o, judged_complete_as attempt o ∧
    op_recorded (op_operationId attempt) (operation_outcome o) (op_stackId attempt)
      (moves (op_operation attempt) o) (w_db w) (w_db w') ∧
    (∀ res, r = inr res → o = applied).
Proof.
  intros Hok E. assert (Hw : looking w w) by reflexivity.
  apply (framed_step looking _ _ w) in E as [[[Hrec _] Hr]|([observed o] & w1 & E1 & Hl & E)];
    [| |unfold observeOperation; by frame|done].
  { left. split; [done|]. unfold on_db, unchanged, on_ops in Hrec. injection Hrec as Ho Hs.
    split; auto. }
  destruct Hl as (Hrec & Hok1 & _). specialize (Hok1 Hok). unfold on_db, unchanged, on_ops in Hrec.
  injection Hrec as Ho Hs. unfold op_undecided, op_recorded. rewrite <-Ho, <-Hs.
  assert (Hcase : (∃ reason, o = unknown reason) ∨ ¬ ∃ reason, o = unknown reason)
    by (destruct o; [right..|left]; naive_solver).
  destruct Hcase as [[reason ->]|Hn].
  { left. simpl in E. by apply operationInterrupted_on_ops in E. }
  apply settleOperation_on_ops in E as [[Hr E]|[Hr Hj]]; [left|right|done|naive_solver].
  { split; [done|]. unfold on_ops in E. injection E as -> ->. auto. }
  exists o. split; [|done]. unfold observeOperation in E1.
  apply bind_inr in E1 as (complete & w2 & E1 & E2).
  apply bind_inr in E2 as (obs & w3 & E2 & E3). apply ret_inr in E3 as [[= -> ->] ->].
  destruct complete; [|by destruct Hn; eexists]. by exists w, w2, obs, w3.
Qed.

Lemma dispatchAndSettle_on_ops attempt w r w' :
  db_ok (w_db w) → dispatchAndSettle attempt w = (r, w') →
  ((∃ e, r = inl e) ∧ op_undecided (op_operationId attempt) (w_db w) (w_db w')) ∨
  ∃ o, judged_complete_as attempt o ∧
    op_recorded (op_operationId attempt) (operation_outcome o) (op_stackId attempt)
      (moves (op_operation attempt) o) (w_db w) (w_db w') ∧
    (∀ res, r = inr res → o = applied).
Proof.
  intros Hok E. unfold dispatchAndSettle in E.
  match type of E with (?m ≫= _) _ = _ =>
    assert (Hf : framed (on_db (unchanged (λ d, d))) m) by frame end.
  apply bind_cases in E as [(e & -> & E)|([code|failure] & w1 & E & Es)];
    apply (framed_run _ _ _ _ _ Hf) in E; unfold on_db, unchanged in E; clear Hf.
  - left. unfold op_undecided. rewrite E. eauto.
  - left. rewrite <-E in *. by apply operationInterrupted_on_ops in Es.
  - rewrite <-E in *. by apply observe_settleOperation_on_ops in Es.
Qed.

(** *** Before the host is asked *)

(** An operation that is not over, for this stack and its deployed revision. *)
Definition op_written_ahead (k : StackLifecycleKind) (stackId oid : string) (d : DB) : Prop :=
  ∃ row, stackOperations d !! oid = Some row ∧ operation_status row = "running" ∧
    operation_stackId row = stackId ∧ operation_type row = kind_name k.

Lemma prepareOperation_inr stack revisionId k fp actor context w x w' :
  prepareOperation stack revisionId k fp actor context w = (inr x, w') →
  operations (w_db w) !! x.1 = None ∧
  on_ops (w_db w') = (<[x.1 := "running"]> (operations (w_db w)), stack_states (w_db w)) ∧
  op_written_ahead k (stack_id stack) x.1 (w_db w').
Proof.
  intros (w1 & E & [fs ->])%transaction_inr.
  apply bind_inr in E as (at_ & w2 & [-> ->]%now_inr & E).
  apply bind_inr in E as (aid & w3 & E3 & E). unfold randomUUID in E3. simplify_eq.
  apply bind_inr in E as (cid & w4 & E4 & E).
  assert (Hw4 : w_db w4 = w_db w).
  { destruct (context_requestId context); unfold mret, M_ret, randomUUID in E4; by simplify_eq. }
  apply bind_inr in E as ([] & w5 & [_ [f5 ->]]%insert_inr & E).
  apply bind_inr in E as (oid & w6 & E6 & E). unfold randomUUID in E6. simplify_eq/=.
  apply bind_inr in E as ([] & w7 & [Hno [f7 ->]]%insert_inr & E). simpl in Hno.
  apply ret_inr in E as [-> ->]. rewrite Hw4 in *. simpl.
  unfold on_ops, operations, stack_states, op_written_ahead. simpl. split_and!.
  - by rewrite lookup_fmap, Hno.
  - by rewrite fmap_insert.
  - eexists. rewrite lookup_insert_eq. by split_and!.
Qed.

Lemma quiet_looking w w' : quiet w w' → looking w w'.
Proof.
  intros [Hdb Ho]. unfold looking, both, on_db, unchanged, keeps_db_ok. rewrite Hdb.
  split_and!; [done|done|]. exists []. by rewrite app_nil_r.
Qed.

Lemma framed_quiet_looking {A} (m : M A) : framed quiet m → framed looking m.
Proof. intros Hm w. apply quiet_looking, Hm. Qed.

Lemma audit_record_looking entry : framed looking (audit_record entry).
Proof. apply framed_both; [|apply framed_both]; unfold audit_record; frame. Qed.

Lemma fingerprintOf_looking services : framed looking (fingerprintOf services).
Proof. apply framed_both; [|apply framed_both]; unfold fingerprintOf; frame. Qed.
#[local] Hint Resolve audit_record_looking fingerprintOf_looking : frames.

(** The operation a call has written when it gets to ask the agent. *)
Definition op_prepared (w : World) (k : StackLifecycleKind) (stackId oid : string) (w1 : World) :
    Prop :=
  operations (w_db w) !! oid = None ∧
  on_ops (w_db w1) = (<[oid := "running"]> (operations (w_db w)), stack_states (w_db w)) ∧
  op_written_ahead k stackId oid (w_db w1) ∧ sends looks w w1 ∧ db_ok (w_db w1).

(** What it then asks for. *)
Definition op_for (w : World) (k : StackLifecycleKind) (stackId oid : string)
    (attempt : DispatchedOperation) : Prop :=
  ∃ stack, stacks (w_db w) !! stackId = Some stack ∧ op_operationId attempt = oid ∧
    op_operation attempt = k ∧ op_stackId attempt = stackId ∧
    op_hostId attempt = stack_hostId stack ∧
    Some (op_revisionId attempt) = stack_currentRevisionId stack.

Definition op_call_ends (w : World) (k : StackLifecycleKind) (stackId : string)
    (r : exn + StackOperationOutcome) (w' : World) : Prop :=
  (looking w w' ∧ ∃ e, r = inl e) ∨
  ∃ oid w1 w2, op_prepared w k stackId oid w1 ∧ quiet w2 w' ∧
    ((∃ e, r = inl e) ∧ w2 = w1 ∨
     ∃ attempt, op_for w k stackId oid attempt ∧ dispatchAndSettle attempt w1 = (r, w2)).

Lemma prepareOperation_prepared w w1 k stackId stack revisionId fp actor context x w2 :
  db_ok (w_db w) → looking w w1 → stack_id stack = stackId →
  prepareOperation stack revisionId k fp actor context w1 = (inr x, w2) →
  op_prepared w k stackId x.1 w2.
Proof.
  intros Hok (Hrec & Hok1 & Hs1) Hid E. specialize (Hok1 Hok).
  unfold on_db, unchanged, on_ops in Hrec. injection Hrec as Ho Hs.
  assert (Hk : framed (both (on_db keeps_db_ok) (sends looks))
    (prepareOperation stack revisionId k fp actor context))
    by (apply framed_both; unfold prepareOperation; frame).
  destruct (framed_run _ _ _ _ _ Hk E) as [Hok2 Hs2].
  apply prepareOperation_inr in E as (Hn & Hr & Hw). rewrite Ho, Hs, Hid in *.
  split_and!; [done|done|done|by etrans|by apply Hok2].
Qed.

(** Writing to the trail keeps it that way. *)
Lemma audit_prepared w k stackId oid w1 entry r w2 :
  op_prepared w k stackId oid w1 → audit_record entry w1 = (r, w2) →
  op_prepared w k stackId oid w2.
Proof.
  intros (Hn & Hr & Hw & Hs & Hok) E.
  destruct (framed_run _ _ _ _ _ (audit_record_looking entry) E) as (Hrec & Hok2 & Hs2).
  assert (Hso : framed (on_db (unchanged stackOperations)) (audit_record entry))
    by (unfold audit_record; frame).
  apply (framed_run _ _ _ _ _ Hso) in E. unfold on_db, unchanged in E, Hrec.
  unfold op_prepared, op_written_ahead. rewrite E, Hrec.
  split_and!; [done|done|done|by etrans|by apply Hok2].
Qed.

Lemma operate_locked_cases k stackId stack agentId actor context w0 w r w' :
  db_ok (w_db w0) → stacks (w_db w0) !! stackId = Some stack → stack_id stack = stackId →
  truthy (stack_currentRevisionId stack) = true → looking w0 w →
  operate_locked k stackId stack agentId actor context w = (r, w') →
  op_call_ends w0 k stackId r w'.
Proof.
  intros Hok Hs Hid Hcur Hl E. unfold operate_locked in E.
  apply (framed_step looking _ _ w0) in E as [?|(services & w1 & _ & H1 & E)];
    [by left| |apply framed_quiet_looking; unfold deployedServices, stackContainers, raise; by frame|done].
  apply (framed_step looking _ _ w0) in E as [?|(fp & w2 & _ & H2 & E)]; [by left| |by frame|done].
  apply bind_cases in E as [(e & -> & E)|(x & w3 & E3 & E)].
  { left. apply catch_rethrow in E as [(e' & _ & E)|(? & ? & _)]; [|done]. split; [|by eauto].
    etrans; [exact H2|]. apply quiet_looking. split; [by apply transaction_inl in E|].
    apply (sends_nothing _ _ _ _ E). unfold prepareOperation. frame. }
  apply catch_rethrow in E3 as [(e' & ? & _)|(x' & [= <-] & E3)]; [done|].
  destruct x as [oid aid]. right.
  eapply prepareOperation_prepared in E3; [|done|exact H2|exact Hid]. simpl in E3.
  apply bind_cases in E as [(e & -> & E)|([] & w4 & E4 & E)].
  { exists oid, w', w'. split_and!; [by eapply audit_prepared|done|left; by eauto]. }
  exists oid, w4, w'. split_and!; [by eapply audit_prepared|done|right].
  eexists. split; [|exact E]. exists stack. split_and!; try done. simpl.
  by destruct (stack_currentRevisionId stack).
Qed.

Lemma operableStack_inr stackId w stack w' :
  operableStack stackId w = (inr stack, w') →
  stacks (w_db w) !! stackId = Some stack ∧ truthy (stack_currentRevisionId stack) = true ∧
  stack_status stack ≠ "needs_attention".
Proof.
  intros E. unfold operableStack in E. unbind.
  destruct (stacks (w_db w) !! stackId) as [s|]; [|by unbind]. unbind.
  destruct (hosts (w_db w) !! stack_hostId s) as [h|]; [|by unbind]. unbind.
  destruct (truthy (stack_currentRevisionId s)) eqn:Et; simpl in *; [|by unbind].
  case_bool_decide; [by unbind|]. by unbind.
Qed.

Lemma operate_cases k stackId actor context w r w' :
  db_ok (w_db w) → operate k stackId actor context w = (r, w') →
  op_call_ends w k stackId r w'.
Proof.
  intros Hok E. unfold operate in E. assert (Hq : looking w w) by reflexivity.
  apply (framed_step looking _ _ w) in E as [?|(stack & w1 & E1%operableStack_inr & H1 & E)];
    [by left| |apply framed_quiet_looking; unfold operableStack, assertNotArchived,
      assertNothingUnresolved; by frame|done].
  destruct E1 as (Hs & Hcur & _).
  assert (Hid : stack_id stack = stackId) by exact (proj1 (db_ok_rows (R := Stack) _ Hok) _ _ Hs).
  apply (framed_step looking _ _ w) in E as [?|(agentId & w2 & _ & H2 & E)];
    [by left| |apply framed_quiet_looking; unfold connectedAgent, assertStackAttribution; by frame|done].
  apply (framed_step looking _ _ w) in E as [?|(h & w3 & _ & H3 & E)];
    [by left| |apply framed_quiet_looking; by frame|done].
  apply try_finally_release in E as (w4 & E & H4).
  apply (operate_locked_cases _ _ _ _ _ _ w) in E as [[? ?]|(oid & wa & wb & Hp & Hb & Hr)];
    try done; [left; split; [transitivity w4; [done|by apply quiet_looking]|done]|].
  right. exists oid, wa, wb. split_and!; [done|by transitivity w4|done].
Qed.

(** The one request that changes the host, and then only looking. *)
Lemma dispatchAndSettle_sends attempt w r w' :
  dispatchAndSettle attempt w = (r, w') →
  ∃ first rest, w_outbox w' = w_outbox w ++ first ++ rest ∧ Forall looks rest ∧
    (first = [] ∨ first = [
      {| sent_agent := op_agentId attempt; sent_capability := CAPABILITY (op_operation attempt);
         sent_plan := op_payload attempt; sent_db := w_db w |}]).
Proof.
  intros E. unfold dispatchAndSettle in E. set (asked := try_catch _ _) in E.
  assert (Ha : ∃ x w1, asked w = (inr x, w1) ∧ ∃ r0,
    request (op_agentId attempt) (CAPABILITY (op_operation attempt)) (op_payload attempt) w = (r0, w1)).
  { unfold asked, try_catch, mbind, M_bind.
    destruct (request _ _ _ w) as [[e|p] w1]; [|by eauto 6]. destruct (mem _ _); by eauto 6. }
  destruct Ha as (x & w1 & Ex & r0 & Hr). rewrite (run_bind _ _ _ _ _ Ex) in E.
  assert (Hs : sends looks w1 w').
  { eapply framed_run; [|exact E]. open_operation. frame. }
  destruct Hs as (rest & Hw & Hrest). apply request_cases in Hr as [_ [Hr|Hr]]; rewrite Hw, Hr.
  - exists [], rest. auto.
  - eexists _, rest. rewrite <-app_assoc. auto.
Qed.

(** ** Theorems *)


(** An operation is written down before the host is asked for it, and asked
    for once.  Whatever fails, the requests of a call only look, except for at
    most one, the operation itself, and when that is sent the database already
    holds a new running operation of that kind for that stack. *)
Theorem operate_writes_ahead k stackId actor context w r w' :
  db_ok (w_db w) → operate k stackId actor context w = (r, w') →
  ∃ before asked after, w_outbox w' = w_outbox w ++ before ++ asked ++ after ∧
    Forall looks before ∧ Forall looks after ∧
    (asked = [] ∨ ∃ oid m, asked = [m] ∧ sent_capability m = CAPABILITY k ∧
       stackOperations (w_db w) !! oid = None ∧ op_written_ahead k stackId oid (sent_db m)).
Proof.
  intros Hok E.
  apply operate_cases in E as [[(_ & _ & s & Hs & Hf) _]|(oid & w1 & w2 & Hp & [_ Ho] & Hr)]; [| |done].
  { exists s, [], []. rewrite Hs, !app_nil_r. auto. }
  destruct Hp as (Hnew & _ & Hahead & (s & Hs & Hf) & _). rewrite Ho.
  destruct Hr as [[_ ->]|(attempt & (stack & _ & _ & Hk & _) & E)].
  { exists s, [], []. rewrite Hs, !app_nil_r. auto. }
  apply dispatchAndSettle_sends in E as (first & rest & -> & Hrest & Hfirst). rewrite Hs.
  exists s, first, rest. rewrite <-app_assoc. split_and!; [done|done|done|].
  destruct Hfirst as [->| ->]; [by left|right]. eexists oid, _.
  split_and!; [done|by rewrite <-Hk| |done].
  unfold operations in Hnew. rewrite lookup_fmap in Hnew. by apply fmap_None in Hnew.
Qed.

(** Starting, stopping and restarting deploys nothing.  Whatever fails,
    every stack keeps the revision it runs, the one it is going to and the newest
    one saved, every revision, environment and attempt to apply one is what it
    was, the locks held are those held before, and the database invariant is
    kept. *)
Theorem operate_deploys_nothing k stackId actor context w :
  let w' := (operate k stackId actor context w).2 in
  deployed_as (w_db w') = deployed_as (w_db w) ∧
  (registry_ok (w_registry w) →
     registry_ok (w_registry w') ∧ held (w_registry w') = held (w_registry w)) ∧
  (db_ok (w_db w) → db_ok (w_db w')).
Proof.
  assert (Hd := dispatchAndSettle_frames).
  assert (Hd1 : ∀ a, framed (on_db (unchanged deployed_as)) (dispatchAndSettle a)) by apply Hd.
  assert (Hd2 : ∀ a, framed (on_db keeps_db_ok) (dispatchAndSettle a)) by apply Hd.
  assert (Hd3 : ∀ a, framed same_locks (dispatchAndSettle a)) by apply Hd.
  assert (Hne : ∀ k, kind_name k ≠ "") by (by intros []).
  simpl. split_and!.
  - enough (framed (on_db (unchanged deployed_as)) (operate k stackId actor context)) as Hf
      by apply Hf.
    open_operate. frame.
  - enough (framed balanced (operate k stackId actor context)) as Hf by apply Hf.
    open_operate. repeat ((apply framed_with_lock; [done|intros ?]) || frame_step).
  - enough (framed (on_db keeps_db_ok) (operate k stackId actor context)) as Hf by apply Hf.
    open_operate. frame.
Qed.
End lifecycle.

(** ** The stack of the deployment example, stopped *)

#[local] Existing Instance one_moment.

(** The agent says it is done, and the host shows the container in [state]. *)
Definition stopping (state : string) : World :=
  (quiet_world shop) <| w_replies := Replied Payload_other :: answers [{|
    item_dockerId := Some "d1"; item_name := Some "shop-web-1"; item_image := Some "nginx";
    item_imageId := None; item_state := Some state; item_status := None; item_health := None;
    item_createdAt := None; item_labels := shop_labels R1 |}] |>.

Example stop_is_seen :
  stack_states (w_db (operate stop S1 operator from_ui (stopping "exited")).2) !! S1 = Some "stopped".
Proof. by vm_compute. Qed.

(** The agent said the same and the container is still running. *)
Example stop_not_believed :
  (operate stop S1 operator from_ui (stopping "running")).1 = inl (AppError "STACK_STOP_FAILED" CONFLICT) ∧
  stack_states (w_db (operate stop S1 operator from_ui (stopping "running")).2) !! S1 = Some "running".
Proof. by vm_compute. Qed.


Example stop_asks_first :
  head (sent_capability <$> w_outbox (operate stop S1 operator from_ui (stopping "exited")).2) =
    Some "stack.stop".
Proof. by vm_compute. Qed.

Lemma operate_writes_ahead_witness :
  ∃ m oid, m ∈ w_outbox (operate stop S1 operator from_ui (stopping "exited")).2 ∧
    sent_capability m = "stack.stop" ∧ op_written_ahead stop S1 oid (sent_db m).
Proof.
  pose proof stop_asks_first as Ho.
  pose proof (operate_writes_ahead stop S1 operator from_ui (stopping "exited") _ _ shop_ok
    (surjective_pairing _)) as H.
  revert Ho H. generalize (operate stop S1 operator from_ui (stopping "exited")). intros [r w'].
  change (w_outbox (stopping "exited")) with (@nil Sent). unfold fst, snd.
  intros Ho (before & asked & after & Hw & Hb & Ha & Hm). rewrite app_nil_l in Hw. rewrite Hw in *.
  assert (Hno : ∀ l, Forall looks l → head (sent_capability <$> l) ≠ Some "stack.stop").
  { intros l Hl. destruct Hl as [|x l Hx _]; [done|]. intros [= E]. unfold looks in Hx.
    rewrite E in Hx. by apply (bool_decide_pack _) in Hx. }
  destruct Hm as [->|(oid & m & -> & Hc & _ & Hahead)].
  - exfalso. apply (Hno (before ++ after)); [by apply Forall_app|exact Ho].
  - exists m, oid. split_and!; [set_solver|done|done].
Defined.

Lemma operate_deploys_nothing_witness :
  held (w_registry (operate stop S1 operator from_ui (stopping "exited")).2) = ∅ ∧
  db_ok (w_db (operate stop S1 operator from_ui (stopping "exited")).2).
Proof.
  destruct (operate_deploys_nothing stop S1 operator from_ui (stopping "exited")) as (_ & Hl & Hd).
  split; [apply Hl, empty_registry_ok|apply Hd, shop_ok].
Defined.
