(* ===== verification/Reconciliation.v ===== *)
(** * Reconciling container operations

    [api/src/containers/reconciliation.service.ts], which reads the host, decides
    and writes down what an operation turned out to mean, and
    [api/src/containers/recovery.orchestrator.ts], which does so for the
    operations whose owner is gone.  [resync] is the deployment service's, which
    the reconciliation service repeats word for word. *)

From Stdlib Require Import Ascii String NArith ZArith.
From stdpp Require Import gmap strings list pretty.
From S2P Require Import Prelude Semver Schema Store Registry Effects Logic Recovery PendingGuard.
From S2P Require Import RecoveryFinalizer StackClassify StackPlan Base64 Environment Discovery.
From S2P Require Import StackDeployment.

(** An operation that has been started and not yet resolved. *)
Record PendingOperation := {
  pending_containerId : string;
  pending_containerName : string;
  pending_hostId : string;
  pending_operation : RecoveryOperation;
  pending_actionId : option string
}.

(** ** ReconciliationService *)

(** What the resource looks like from the host. *)
Definition claims_of (container : option Container) : list ObservedClaim :=
  match container with
  | Some r =>
      if truthy (container_dockerId r)
      then [{| claim_dockerId := container_dockerId r ?? "";
               claim_desiredConfigId := container_observedDesiredConfigId r |}]
      else []
  | None => []
  end.

(** [configs.find((row) => row.state === state)?.id ?? null] *)
Definition config_in (state : string) (configs : list DesiredConfig) : option string :=
  config_id <$> find_first (λ c, bool_decide (config_state c = state)) configs.

Definition evidence (operation : RecoveryOperation) (container : option Container)
    (configs : list DesiredConfig) (complete : bool) : RecoveryInput := {|
  Recovery.operation := operation;
  currentDesiredConfigId := config_in "current" configs;
  pendingDesiredConfigId := config_in "pending" configs;
  claims := claims_of container;
  snapshotComplete := complete;
  recoveryEligible := true;
  identityConflict := bool_decide (is_Some (r ← container; container_identityConflict r)) |}.

Definition config_of_container (containerId : string) (c : DesiredConfig) : bool :=
  bool_decide (config_containerId c = containerId).

Definition classify (operation : PendingOperation) (complete : bool) : M RecoveryDecision :=
  container ← select_id (R := Container) (pending_containerId operation);
  configs ← select (config_of_container (pending_containerId operation));
  mret (classifyRecovery (evidence (pending_operation operation) container configs complete)).

(** The Docker containers on record as claiming this resource. *)
Definition claimedDockerIds (containerId : string) : M (list string) :=
  row ← select_id (R := Container) containerId;
  mret match row ≫= container_identityConflict with
       | Some conflict => conflict_dockerIds conflict
       | None => claim_dockerId <$> claims_of row
       end.

Definition context_of (operation : PendingOperation) (observed : list string) : RecoveryContext := {|
  ctx_containerId := pending_containerId operation;
  ctx_containerName := pending_containerName operation;
  ctx_hostId := pending_hostId operation;
  ctx_operation := pending_operation operation;
  ctx_actionId := pending_actionId operation;
  ctx_observedDockerIds := Some observed |}.

Definition is_no_action (decision : RecoveryDecision) : bool :=
  match decision with no_action _ => true | _ => false end.

Definition reconcileAndFinalize (operation : PendingOperation) : M RecoveryDecision :=
  complete ← resync (pending_hostId operation);
  decision ← classify operation complete;
  when (negb (is_no_action decision))
    (observed ← claimedDockerIds (pending_containerId operation);
     finalize (context_of operation observed) decision;;
     mret tt);;
  mret decision.

(** ** RecoveryOrchestrator *)

Definition MANAGEMENT : list string := ["container.create"; "container.replace"; "container.remove"].

(** [capability.replace('container.', '') as RecoveryOperation] *)
Definition operation_named (capability : string) : option RecoveryOperation :=
  if bool_decide (capability = "container.create") then Some create
  else if bool_decide (capability = "container.replace") then Some replace
  else if bool_decide (capability = "container.remove") then Some remove
  else None.

Definition left_open (hostId : string) (a : Action) : bool :=
  bool_decide (action_hostId a = Some hostId) &&
  bool_decide (action_targetType a = Some "container") &&
  mem (action_status a) [Action_queued; Action_running] &&
  mem (action_capability a) MANAGEMENT.

(** [actions LEFT JOIN containers]: the resource may already be gone. *)
Definition unresolved (hostId : string) (d : DB) : list PendingOperation :=
  omap (λ a,
    operation ← operation_named (action_capability a);
    if truthy (action_targetId a) then
      let containerId := action_targetId a ?? "" in
      Some {| pending_containerId := containerId;
              pending_containerName :=
                (container_name <$> containers d !! containerId) ?? "a removed container";
              pending_hostId := hostId;
              pending_operation := operation;
              pending_actionId := Some (action_id a) |}
    else None)
    (select_where (left_open hostId) d).

(** One turn of the loop: nothing while somebody holds the container. *)
Definition recoverContainer (recovered : nat) (operation : PendingOperation) : M nat :=
  held ← busy (pending_containerId operation);
  if (held : bool) then mret recovered
  else
    decision ← reconcileAndFinalize operation;
    mret (if is_no_action decision then recovered else S recovered).

Definition recoverHost (hostId : string) : M nat :=
  unfinished ← statement (λ d, inr (unresolved hostId d, d));
  for_fold unfinished 0 recoverContainer.

(** ** What settling an operation does to the database *)

Definition of_container (containerId : string) (r : Container) : bool :=
  bool_decide (container_id r = containerId).

(** The meaning of a decision, written down at [at_]. *)
Definition settled (context : RecoveryContext) (decision : RecoveryDecision) (at_ : time) (d : DB) : DB :=
  match decision with
  | promote_pending id =>
      let d1 := delete_configs (current_config_of (ctx_containerId context)) d in
      finished context Action_succeeded None at_
        (d1 <| containerDesiredConfigs :=
          change_rows (pending_config id) promoted_config (containerDesiredConfigs d1) |>)
  | discard_pending id =>
      if bool_decide (ctx_operation context = create)
      then finished context Action_failed (Some "CONTAINER_CREATE_FAILED") at_
        (delete_containers (λ r, of_container (ctx_containerId context) r &&
                                 bool_decide (container_dockerId r = None)) d)
      else finished context Action_failed (Some "REPLACEMENT_FAILED") at_
        (delete_configs (pending_config id) d)
  | finalize_remove =>
      finished context Action_succeeded None at_
        (delete_containers (of_container (ctx_containerId context)) d)
  | fail_operation _ => finished context Action_failed (Some "CONTAINER_REMOVE_FAILED") at_ d
  | identity_conflict _ =>
      finished context Action_failed (Some "CONTAINER_IDENTITY_CONFLICT") at_
        (d <| containers := change_rows (of_container (ctx_containerId context))
          (λ r, r <| container_identityConflict := Some
            {| conflict_dockerIds := ctx_observedDockerIds context ?? [];
               conflict_observedAt := at_ |} |>) (containers d) |>)
  | needs_attention _ => finished context Action_failed (Some "CONTAINER_STATE_UNRESOLVED") at_ d
  | no_action _ => d
  end.

(** ** Lemmas *)

Lemma apply_decision_settled context decision w o w' :
  apply_decision context decision w = (inr (Some o), w') →
  w_db w' = settled context decision (w_now w) (w_db w).
Proof.
  destruct decision; simpl; unfold promote, discard, finalizeRemove, failOperation,
    record_conflict, needsAttention; intros E; unwind; try done.
Qed.

(** A call of [finalize] leaves the database alone, or settles the operation and
    writes to the audit trail. *)
Lemma finalize_settled context decision w r w' :
  finalize context decision w = (r, w') →
  w_db w' = w_db w ∧ r ≠ inr true ∨
  claimable context (config_of decision) (w_db w) = true ∧
    unaudited (w_db w') = unaudited (settled context decision (w_now w) (w_db w)) ∧
    r ≠ inr false.
Proof.
  intros [?|(o & w1 & Ha & Hd & Hr)]%finalize_cases; [by left|right].
  split_and!; [by eapply apply_decision_claimed| |done].
  rewrite Hd. by apply apply_decision_settled in Ha as ->.
Qed.

(** What [classify] decides, read off a database. *)
Definition decision_at (operation : PendingOperation) (complete : bool) (d : DB) : RecoveryDecision :=
  classifyRecovery (evidence (pending_operation operation)
    (containers d !! pending_containerId operation)
    (select_where (config_of_container (pending_containerId operation)) d) complete).

Definition observed_at (containerId : string) (d : DB) : list string :=
  match (r ← containers d !! containerId; container_identityConflict r) with
  | Some conflict => conflict_dockerIds conflict
  | None => claim_dockerId <$> claims_of (containers d !! containerId)
  end.

Lemma classify_inr operation complete w decision w' :
  classify operation complete w = (inr decision, w') →
  decision = decision_at operation complete (w_db w) ∧ only_faults w w'.
Proof. unfold classify. intros E. unbind. split; [done|]. eexists. reflexivity. Qed.

Lemma claimedDockerIds_inr containerId w ids w' :
  claimedDockerIds containerId w = (inr ids, w') →
  ids = observed_at containerId (w_db w) ∧ only_faults w w'.
Proof. unfold claimedDockerIds. intros E. unbind. split; [done|]. by eexists. Qed.

Lemma classify_quiet operation complete : framed quiet (classify operation complete).
Proof. unfold classify. frame. Qed.

Lemma claimedDockerIds_quiet containerId : framed quiet (claimedDockerIds containerId).
Proof. unfold claimedDockerIds. frame. Qed.

(** A reading of [hostId] that ended in [d]. *)
Definition context_at (operation : PendingOperation) (d : DB) : RecoveryContext :=
  context_of operation (observed_at (pending_containerId operation) d).

(** What one reconciliation leaves, after a reading that ended in [d]. *)
Definition reconciled (operation : PendingOperation) (complete : bool) (at_ : time) (d d' : DB) : Prop :=
  unaudited d' = unaudited d ∨
  let decision := decision_at operation complete d in
  is_no_action decision = false ∧
  claimable (context_at operation d) (config_of decision) d = true ∧
  unaudited d' = unaudited (settled (context_at operation d) decision at_ d).

Lemma reconcile_cases operation w r w' :
  reconcileAndFinalize operation w = (r, w') →
  (∃ e, r = inl e ∧ resync (pending_hostId operation) w = (inl e, w')) ∨
  ∃ complete w1, resync (pending_hostId operation) w = (inr complete, w1) ∧
    reconciled operation complete (w_now w1) (w_db w1) (w_db w') ∧
    (∀ decision, r = inr decision → decision = decision_at operation complete (w_db w1)).
Proof.
  intros E. unfold reconcileAndFinalize in E.
  apply bind_cases in E as [(e & -> & E)|(complete & w1 & E1 & E)]; [by left; eauto|right].
  exists complete, w1. split; [done|].
  apply bind_cases in E as [(e & -> & E)|(decision & w2 & E2 & E)].
  { apply (framed_run _ _ _ _ _ (classify_quiet _ _)) in E as [Hd _].
    split; [left; by rewrite Hd|done]. }
  apply classify_inr in E2 as [-> [f2 ->]].
  destruct (is_no_action _) eqn:Ed; simpl in E.
  { rewrite (run_bind _ _ _ _ _ (run_ret tt _)) in E. unfold mret, M_ret in E.
    simplify_eq/=. split; [by left|]. by intros ? [= <-]. }
  apply bind_cases in E as [(e & -> & E)|([] & w5 & E3 & E)].
  - split; [|done].
    apply bind_cases in E as [(e' & [= <-] & E)|(ids & w3 & E3 & E)].
    { apply (framed_run _ _ _ _ _ (claimedDockerIds_quiet _)) in E as [Hd _].
      left. by rewrite Hd. }
    apply claimedDockerIds_inr in E3 as [-> [f3 ->]].
    apply bind_cases in E as [(e' & [= <-] & E)|(b & w4 & _ & E)]; [|by simplify_eq].
    apply finalize_settled in E as [[Hd _]|(Hc & Hd & _)]; [left; by rewrite Hd|by right].
  - unfold mret, M_ret in E. simplify_eq.
    split; [|by intros ? [= <-]].
    apply bind_inr in E3 as (ids & w3 & E3 & E). apply claimedDockerIds_inr in E3 as [-> [f3 ->]].
    apply bind_inr in E as (b & w4 & E & [_ ->]%ret_inr).
    apply finalize_settled in E as [[Hd _]|(Hc & Hd & _)]; [left; by rewrite Hd|by right].
Qed.

(** A reconciliation that came back with a decision went through. *)
Lemma reconcileAndFinalize_inr operation w decision w' :
  reconcileAndFinalize operation w = (inr decision, w') →
  ∃ complete w1, resync (pending_hostId operation) w = (inr complete, w1) ∧
    decision = decision_at operation complete (w_db w1) ∧
    (is_no_action decision = true ∧ w_db w' = w_db w1 ∨ ∃ fs b,
       finalize (context_at operation (w_db w1)) decision (w1 <| w_faults := fs |>) = (inr b, w')).
Proof.
  intros E. unfold reconcileAndFinalize in E.
  apply bind_inr in E as (complete & w1 & E1 & E). exists complete, w1. split; [done|].
  apply bind_inr in E as (decision' & w2 & [-> [f2 ->]]%classify_inr & E).
  apply bind_inr in E as ([] & w3 & E & [-> ->]%ret_inr). split; [done|].
  destruct (is_no_action _); simpl in E; [left; by apply ret_inr in E as [_ ->]|right].
  apply bind_inr in E as (ids & w4 & [-> [f3 ->]]%claimedDockerIds_inr & E).
  apply bind_inr in E as (b & w5 & E & [_ ->]%ret_inr). exists f3, b. exact E.
Qed.

Definition is_success (decision : RecoveryDecision) : bool :=
  match decision with promote_pending _ | finalize_remove => true | _ => false end.

(** Nothing in promoting a candidate that is there throws [StaleRecovery]. *)
Lemma statement_stale {A} (f : DB → exn + (A * DB)) w w' :
  (∀ d, f d ≠ inl StaleRecovery) → statement f w ≠ (inl StaleRecovery, w').
Proof.
  intros Hf. unfold statement. destruct (next_fault w); [done|].
  specialize (Hf (w_db w)). destruct (f (w_db w)) as [e|[]]; congruence.
Qed.

Lemma update_stale `{Table T} (p : T → bool) f w w' : update p f w ≠ (inl StaleRecovery, w').
Proof. apply statement_stale. intros d. by destruct (update_where p f d). Qed.

Lemma finishAction_stale context status code w w' :
  finishAction context status code w ≠ (inl StaleRecovery, w').
Proof.
  unfold finishAction. destruct (truthy _); simpl; [|done].
  intros [(e & [= <-] & E)|(t & w1 & [-> ->]%now_inr & E)]%bind_cases; [done|].
  apply bind_cases in E as [(e & [= <-] & E)|(l & w2 & _ & E)]; [|done].
  by apply update_stale in E.
Qed.

Lemma claim_stale context o w w' : claim context o w ≠ (inl StaleRecovery, w').
Proof.
  unfold claim. destruct (truthy _).
  - intros [(e & [= <-] & E)|(? & ? & _ & E)]%bind_cases; [|done]. by apply statement_stale in E.
  - destruct (truthy o); simpl; [|done].
    intros [(e & [= <-] & E)|(? & ? & _ & E)]%bind_cases; [|done]. by apply statement_stale in E.
Qed.

Definition candidate_pending (context : RecoveryContext) (decision : RecoveryDecision) (d : DB) : Prop :=
  ∀ id, decision = promote_pending id →
    ∃ c, containerDesiredConfigs d !! id = Some c ∧ config_id c = id ∧ config_state c = "pending".

Lemma candidate_kept context id d :
  candidate_pending context (promote_pending id) d →
  select_where (pending_config id)
    (delete_configs (current_config_of (ctx_containerId context)) d) ≠ [].
Proof.
  intros H. destruct (H id eq_refl) as (c & Hc & Hid & Hp). rewrite select_where_nil. intros Hn.
  specialize (Hn id c). unfold delete_configs in Hn. simpl in Hn.
  unfold pending_config in Hn. rewrite Hid, Hp in Hn. specialize (Hn ltac:(
    rewrite lookup_drop_rows, Hc; simpl; unfold current_config_of; rewrite Hp; by rewrite andb_false_r)).
  by rewrite !bool_decide_eq_true_2 in Hn.
Qed.

Lemma success_not_stale context decision w w' :
  is_success decision = true → claimable context (config_of decision) (w_db w) = true →
  candidate_pending context decision (w_db w) →
  apply_decision context decision w ≠ (inl StaleRecovery, w').
Proof.
  intros Hs Hc Hp E. destruct decision; try done; simpl in E.
  - unfold promote in E.
    apply bind_cases in E as [(e & [= <-] & E)|(cl & w3 & [-> [f ->]]%claim_inr & E)];
      [by apply claim_stale in E|]. simpl in *. rewrite Hc in E. simpl in E.
    apply bind_cases in E as [(e & [= <-] & E)|(l & w4 & [-> [f4 ->]]%delete_inr & E)];
      [by apply statement_stale in E|]. simpl in *.
    apply bind_cases in E as [(e & [= <-] & E)|(l & w5 & [-> [f5 ->]]%update_inr & E)];
      [by apply update_stale in E|]. simpl in *.
    destruct (bool_decide _) eqn:Eb.
    + apply bool_decide_eq_true, fmap_nil_inv in Eb. by apply (candidate_kept _ _ _ Hp).
    + apply bind_cases in E as [(e & [= <-] & E)|(? & ? & _ & E)]; [|done].
      by apply finishAction_stale in E.
  - unfold finalizeRemove in E.
    apply bind_cases in E as [(e & [= <-] & E)|(cl & w3 & [-> [f ->]]%claim_inr & E)];
      [by apply claim_stale in E|]. simpl in *. rewrite Hc in E. simpl in E.
    apply bind_cases in E as [(e & [= <-] & E)|(l & w4 & _ & E)]; [by apply statement_stale in E|].
    apply bind_cases in E as [(e & [= <-] & E)|(? & ? & _ & E)]; [|done].
    by apply finishAction_stale in E.
Qed.

(** A settlement that means success is written when the operation is there to be
    settled, or throws. *)
Lemma finalize_success context decision w b w' :
  is_success decision = true → claimable context (config_of decision) (w_db w) = true →
  candidate_pending context decision (w_db w) →
  finalize context decision w = (inr b, w') → b = true.
Proof.
  intros Hs Hc Hp E. destruct b; [done|exfalso].
  assert (HN : settle_decision context decision w = (inr None, w')).
  { destruct decision; simpl in Hs; try done; unfold finalize in E;
      apply bind_inr in E as (o & w1 & E1 & E2); (destruct o as [o|];
      [by apply bind_inr in E2 as (? & ? & _ & [? _]%ret_inr)|by apply ret_inr in E2 as [_ ->]]). }
  clear E. unfold settle_decision, try_catch in HN.
  destruct (transaction _ w) as [[e|o] w1] eqn:E.
  - case_bool_decide as He; [subst e|by unfold throw in HN].
    apply transaction_throws in E as [[w2 E]|?]; [by eapply success_not_stale|done].
  - injection HN as -> ->. apply transaction_inr in E as (w2 & E & _).
    destruct decision; simpl in Hs; try done; simpl in E; unfold promote, finalizeRemove in E;
      apply bind_inr in E as (cl & w3 & [-> [f ->]]%claim_inr & E); simpl in *; rewrite Hc in E;
      simpl in E; unwind.
Qed.

(** ** What recovery may do

    One step of a pass over a host: reading the host, writing to the audit trail,
    or settling one of the operations [ops] that were listed, that nobody holds
    and that is still open, by what the reading that just ended shows. *)

Definition passes (hostId : string) (d d' : DB) : Prop :=
  ∃ w r w', resync hostId w = (r, w') ∧ w_db w = d ∧ w_db w' = d'.

Definition has_read (hostId : string) (complete : bool) (d : DB) : Prop :=
  ∃ w w', resync hostId w = (inr complete, w') ∧ w_db w' = d.

Inductive reconcile_step (hostId : string) (locks : MutationRegistry) (ops : list PendingOperation) :
    relation DB :=
  | host_read d d' : passes hostId d d' → reconcile_step hostId locks ops d d'
  | audit_written d d' : unaudited d' = unaudited d → reconcile_step hostId locks ops d d'
  | operation_resolved op complete at_ d d' :
      op ∈ ops → isBusy (pending_containerId op) locks = false → has_read hostId complete d →
      is_no_action (decision_at op complete d) = false →
      claimable (context_at op d) (config_of (decision_at op complete d)) d = true →
      unaudited d' = unaudited (settled (context_at op d) (decision_at op complete d) at_ d) →
      reconcile_step hostId locks ops d d'.

Definition recovering (hostId : string) (ops : list PendingOperation) : relation World := λ w w',
  w_registry w' = w_registry w ∧
  rtc (reconcile_step hostId (w_registry w) ops) (w_db w) (w_db w').

#[local] Instance recovering_frame hostId ops : Frame (recovering hostId ops).
Proof.
  unfold recovering. split; [split|..].
  - intros w. by split.
  - intros w1 w2 w3 [Hr1 H1] [Hr2 H2]. rewrite Hr1 in *. split; [done|by etrans].
  - intros w fs. by split.
  - intros w n. by split.
  - intros w w' [Hr _]. by split.
Qed.

Lemma resync_same_locks hostId : framed same_locks (resync hostId).
Proof. unfold resync. frame. Qed.

Ltac open_reconcile :=
  unfold reconcileAndFinalize, classify, claimedDockerIds, resync, finalize, apply_decision, promote,
    discard, finalizeRemove, failOperation, record_conflict, needsAttention, finishAction, claim,
    audit_record.

Lemma reconcile_same_locks operation : framed same_locks (reconcileAndFinalize operation).
Proof. open_reconcile. frame. Qed.

Lemma reconcile_keeps_db_ok operation : framed (on_db keeps_db_ok) (reconcileAndFinalize operation).
Proof. open_reconcile. frame. Qed.

#[local] Hint Resolve sync_only_reads : frames.

Lemma reconcile_only_reads operation : framed (sends only_reads) (reconcileAndFinalize operation).
Proof. open_reconcile. frame. Qed.

Lemma recoverContainer_recovering hostId ops n op :
  op ∈ ops → pending_hostId op = hostId → framed (recovering hostId ops) (recoverContainer n op).
Proof.
  intros Hop Hhost w. unfold recoverContainer, busy, mbind, M_bind.
  destruct (isBusy _ _) eqn:Eb; [reflexivity|].
  pose proof (reconcile_same_locks op w) as Hl.
  destruct (reconcileAndFinalize op w) as [r w'] eqn:E.
  assert (Hs : rtc (reconcile_step hostId (w_registry w) ops) (w_db w) (w_db w')).
  { apply reconcile_cases in E as [(e & -> & E)|(complete & w1 & E & [Hu|(Hn & Hc & Hu)] & _)];
      rewrite Hhost in E.
    - apply rtc_once, host_read. by eexists _, _, _.
    - eapply rtc_l; [apply host_read; by eexists _, _, _|]. by apply rtc_once, audit_written.
    - eapply rtc_l; [apply host_read; by eexists _, _, _|].
      eapply rtc_once, operation_resolved; [done|done| |done|done|done]. by exists w, w1. }
  by destruct r.
Qed.

Lemma unresolved_host hostId d op : op ∈ unresolved hostId d → pending_hostId op = hostId.
Proof.
  intros (a & _ & Ha)%list_elem_of_omap. destruct (operation_named _); [|done]. simpl in Ha.
  destruct (truthy _); [|done]. by simplify_eq.
Qed.

Lemma recoverHost_recovering hostId w r w' :
  recoverHost hostId w = (r, w') → recovering hostId (unresolved hostId (w_db w)) w w'.
Proof.
  intros E. unfold recoverHost in E.
  apply bind_cases in E as [(e & -> & E)|(ops & w1 & E1 & E)].
  { refine (framed_run _ _ _ _ _ _ E). apply framed_read, _. }
  apply read_inr in E1 as [-> [fs ->]].
  refine (framed_run (recovering hostId (unresolved hostId (w_db w))) _ _ _ _ _ E).
  apply framed_for_fold_in; [apply _|]. intros n op Hop.
  apply recoverContainer_recovering; [done|by eapply unresolved_host].
Qed.

(** *** What becomes of the actions *)

(** The status and the code a decision closes the action with. *)
Definition decision_status (decision : RecoveryDecision) : ActionStatus :=
  match decision with
  | promote_pending _ | finalize_remove => Action_succeeded
  | _ => Action_failed
  end.

Definition decision_code (operation : RecoveryOperation) (decision : RecoveryDecision) : option string :=
  match decision with
  | promote_pending _ | finalize_remove | no_action _ => None
  | discard_pending _ =>
      Some (if bool_decide (operation = create) then "CONTAINER_CREATE_FAILED"
            else "REPLACEMENT_FAILED")
  | fail_operation _ => Some "CONTAINER_REMOVE_FAILED"
  | identity_conflict _ => Some "CONTAINER_IDENTITY_CONFLICT"
  | needs_attention _ => Some "CONTAINER_STATE_UNRESOLVED"
  end.

Lemma settled_actions context decision at_ d :
  is_no_action decision = false →
  actions (settled context decision at_ d) =
    actions (finished context (decision_status decision)
      (decision_code (ctx_operation context) decision) at_ d).
Proof.
  intros Hn. destruct decision; simpl; try done; unfold finished; try (by destruct (truthy _)).
  case_bool_decide; simpl; by destruct (truthy _).
Qed.

Lemma finished_lookup context status code at_ d id i :
  db_ok d → ctx_actionId context = Some id → id ≠ "" →
  actions (finished context status code at_ d) !! i =
    if bool_decide (i = id) then finish status code at_ <$> actions d !! i else actions d !! i.
Proof.
  intros Hok Hc Hne. unfold finished. rewrite Hc. destruct (truthy (Some id)) eqn:Et; [|by destruct id].
  simpl. rewrite lookup_change_rows. destruct (actions d !! i) as [a|] eqn:Ea; simpl; [|by case_bool_decide].
  pose proof (proj1 (db_ok_rows (R := Action) _ Hok) _ _ Ea) as Hi. simpl in Hi. rewrite Hi.
  by case_bool_decide.
Qed.

Lemma unresolved_action hostId d op :
  op ∈ unresolved hostId d → ∃ a, action_id a ∈ (action_id <$> select_where (left_open hostId) d) ∧
    pending_actionId op = Some (action_id a).
Proof.
  intros (a & Hin & Ha)%list_elem_of_omap. exists a.
  destruct (operation_named _); [|done]. simpl in Ha. destruct (truthy _); [|done]. simplify_eq.
  split; [|done]. by apply list_elem_of_fmap_2.
Qed.

Definition is_open (a : Action) : bool := mem (action_status a) [Action_queued; Action_running].

(** Action [i] was open, and was closed by what a reading of the host showed of
    the operation that was listed for it and that nobody held. *)
Definition closed_by (hostId : string) (locks : MutationRegistry) (ops : list PendingOperation)
    (i : string) (a a' : Action) : Prop :=
  is_open a = true ∧
  ∃ op complete d at_, op ∈ ops ∧ pending_actionId op = Some i ∧
    isBusy (pending_containerId op) locks = false ∧ has_read hostId complete d ∧
    is_no_action (decision_at op complete d) = false ∧
    a' = finish (decision_status (decision_at op complete d))
           (decision_code (pending_operation op) (decision_at op complete d)) at_ a.

Lemma finish_closed decision code at_ a :
  is_no_action decision = false → is_open (finish (decision_status decision) code at_ a) = false.
Proof.
  intros Hn. unfold is_open, mem, finish. apply bool_decide_eq_false_2.
  destruct decision, code; simpl in *; try done; set_solver.
Qed.

Section stepping_actions.
Context (hostId : string) (locks : MutationRegistry) (ops : list PendingOperation).

Definition keyed_actions (d : DB) : Prop := ∀ i a, actions d !! i = Some a → action_id a = i.

(** Only a settlement moves an action, and only the one it is about. *)
Lemma reconcile_step_actions d d' i :
  keyed_actions d → reconcile_step hostId locks ops d d' →
  actions d' !! i = actions d !! i ∨
  ∃ a a', actions d !! i = Some a ∧ actions d' !! i = Some a' ∧ closed_by hostId locks ops i a a'.
Proof.
  intros Hkey Hs. destruct Hs as [d d' Hp|d d' Hu|op complete at_ d d' Hop Hb Hr Hn Hc Hu].
  - left. destruct Hp as (w & r & w' & E & <- & <-).
    assert (Hf : framed (on_db (unchanged decided)) (resync hostId)) by (unfold resync; frame).
    apply (framed_run _ _ _ _ _ Hf) in E. unfold on_db, unchanged, decided in E.
    injection E as _ _ _ _ _ _ _ E _. by rewrite E.
  - left. apply (f_equal actions) in Hu. simpl in Hu. by rewrite Hu.
  - assert (Ha : actions d' = actions (settled (context_at op d) (decision_at op complete d) at_ d)).
    { change (actions (unaudited d') = actions (unaudited
        (settled (context_at op d) (decision_at op complete d) at_ d))). by rewrite Hu. }
    rewrite Ha, settled_actions by done. clear Ha Hu. simpl. unfold finished, claimable in *.
    simpl in *. destruct (truthy (pending_actionId op)) eqn:Et; [|by left].
    apply truthy_Some in Et as (id & Hid & Hne). rewrite Hid in *. simpl in *.
    rewrite lookup_change_rows. destruct (actions d !! i) as [a|] eqn:Ea; [|by left]. simpl.
    apply Hkey in Ea as Hi. destruct (bool_decide (action_id a = id)) eqn:Hii; [|by left].
    apply bool_decide_eq_true in Hii. right.
    eexists a, _. split_and!; [done|done|]. split.
    + apply bool_decide_eq_true in Hc. destruct (select_where _ d) as [|b l] eqn:El; simpl in Hc; [lia|].
      assert (Hin : b ∈ select_where (open_action id) d) by (rewrite El; by left).
      apply elem_of_select_where in Hin as [[j Hj] [Hb1 Hb2]%andb_true_iff]. simpl in Hj.
      apply bool_decide_eq_true in Hb1. apply Hkey in Hj as Hj'.
      assert (b = a) as -> by (simplify_eq; congruence). exact Hb2.
    + exists op, complete, d, at_. split_and!; try done. congruence.
Qed.

Lemma reconcile_step_keyed d d' : keyed_actions d → reconcile_step hostId locks ops d d' → keyed_actions d'.
Proof.
  intros Hkey Hs i a Ha. destruct (reconcile_step_actions _ _ i Hkey Hs) as [E|(a0 & a' & E & E' & H)].
  - rewrite E in Ha. by apply Hkey.
  - rewrite E' in Ha. destruct H as [_ (op & c & d0 & t & _ & _ & _ & _ & _ & H)]. simplify_eq.
    apply Hkey in E. unfold finish. by destruct (decision_code _ _).
Qed.

Lemma reconcile_steps_actions d0 d i :
  keyed_actions d0 → rtc (reconcile_step hostId locks ops) d0 d →
  keyed_actions d ∧ (actions d !! i = actions d0 !! i ∨
  ∃ a a', actions d0 !! i = Some a ∧ actions d !! i = Some a' ∧ closed_by hostId locks ops i a a').
Proof.
  intros Hkey Hs. pattern d. refine (rtc_ind_r _ d0 _ _ d Hs); [by auto|].
  clear d Hs. intros d d' _ Hstep [Hk IH]. split; [by eapply reconcile_step_keyed|].
  destruct (reconcile_step_actions _ _ i Hk Hstep) as [->|(a1 & a' & E1 & E' & Hcl)]; [done|].
  destruct IH as [E|(a & a2 & E & E2 & Ha)].
  - right. rewrite E in E1. by eexists _, _.
  - exfalso. simplify_eq. destruct Ha as [_ (op & c & d1 & t & _ & _ & _ & _ & Hn & ->)].
    destruct Hcl as [Ho _]. by rewrite finish_closed in Ho.
Qed.
End stepping_actions.

(** *** What one reconciliation establishes *)

(** The candidate of a promotion is one of the configurations that were read. *)
Lemma decision_candidate op complete d context :
  db_ok d → candidate_pending context (decision_at op complete d) d.
Proof.
  intros Hok id Hd. unfold decision_at in Hd.
  pose proof (classifyRecovery_sound (evidence (pending_operation op)
    (containers d !! pending_containerId op)
    (select_where (config_of_container (pending_containerId op)) d) complete)) as Hs.
  rewrite Hd in Hs. simpl in Hs. destruct Hs as (_ & _ & _ & Hp & _).
  unfold config_in in Hp. apply fmap_Some in Hp as (c & Hf & ->).
  apply find_first_Some in Hf as [Hin Hst]. apply bool_decide_eq_true in Hst.
  apply elem_of_select_where in Hin as [[j Hj] _]. simpl in Hj.
  pose proof (proj1 (db_ok_rows (R := DesiredConfig) _ Hok) _ _ Hj) as Hk. simpl in Hk.
  exists c. rewrite Hk. done.
Qed.

Lemma resync_decided hostId w r w' :
  resync hostId w = (r, w') →
  actions (w_db w') = actions (w_db w) ∧ (db_ok (w_db w) → db_ok (w_db w')).
Proof.
  intros E. assert (Hf : framed (both (on_db (unchanged decided)) (on_db keeps_db_ok)) (resync hostId))
    by (apply framed_both; unfold resync; frame).
  apply (framed_run _ _ _ _ _ Hf) in E as [E Hok]. split; [|exact Hok].
  unfold on_db, unchanged, decided in E. by injection E as _ _ _ _ _ _ _ E _.
Qed.

Lemma open_claimable context o d aid a :
  ctx_actionId context = Some aid → aid ≠ "" → actions d !! aid = Some a → action_id a = aid →
  is_open a = true → claimable context o d = true.
Proof.
  intros Hc Hne Ha Hid Ho. unfold claimable. rewrite Hc.
  destruct (truthy (Some aid)) eqn:Et; [|by destruct aid]. simpl.
  apply not_false_is_true. intros Hf. rewrite length_pos_select in Hf. specialize (Hf aid a Ha).
  unfold open_action in Hf. rewrite Hid, bool_decide_eq_true_2 in Hf by done.
  unfold is_open in Ho. by rewrite Ho in Hf.
Qed.

(** Operation [op] was settled, from the database [d0] to [d], by a reading of its
    host that was judged to mean [decision]. *)
Definition established (op : PendingOperation) (decision : RecoveryDecision) (d0 d : DB) : Prop :=
  ∃ complete read at_, passes (pending_hostId op) d0 read ∧
    has_read (pending_hostId op) complete read ∧
    decision = decision_at op complete read ∧ is_no_action decision = false ∧
    unaudited d = unaudited (settled (context_at op read) decision at_ read).

(** Reconciling an operation that is open either concludes nothing and leaves it
    open, or settles it as the host says; and a decision that means success was
    written. *)
Lemma reconcile_established op aid a w r w' :
  db_ok (w_db w) → pending_actionId op = Some aid → aid ≠ "" →
  actions (w_db w) !! aid = Some a → is_open a = true → reconcileAndFinalize op w = (r, w') →
  actions (w_db w') = actions (w_db w) ∧ (∀ decision, r = inr decision → is_success decision = false) ∨
  ∃ decision, established op decision (w_db w) (w_db w') ∧ (∀ x, r = inr x → x = decision).
Proof.
  intros Hok Haid Hne Ha Ho E.
  assert (Hcases : actions (w_db w') = actions (w_db w) ∨
    ∃ decision, established op decision (w_db w) (w_db w') ∧ (∀ x, r = inr x → x = decision)).
  { apply reconcile_cases in E as [(e & _ & E)|(complete & w2 & E & Hr & Hx)].
    - left. by apply resync_decided in E as [-> _].
    - apply resync_decided in E as Hs. destruct Hs as [Hact _].
      destruct Hr as [Hu|(Hn & _ & Hu)].
      + left. apply (f_equal actions) in Hu. simpl in Hu. by rewrite Hu.
      + right. eexists. split; [|done]. exists complete, (w_db w2), (w_now w2).
        split_and!; try done; [by exists w, (inr complete), w2|by exists w, w2]. }
  destruct Hcases as [Hact'|?]; [|by right].
  destruct r as [e|x]; [by left|]. destruct (is_success x) eqn:Es; [|left; naive_solver].
  right. exists x. split; [|by intros ? [= <-]].
  apply reconcileAndFinalize_inr in E as (complete & w2 & E & -> & [[Hf _]|(fs & b & Hf)]);
    [by destruct (decision_at _ _ _)|].
  apply resync_decided in E as Hs. destruct Hs as [Hact Hok2]. specialize (Hok2 Hok).
  assert (Hc : ∀ o, claimable (context_at op (w_db w2)) o (w_db w2) = true).
  { intros o. apply (open_claimable _ _ _ aid a); try done; [by rewrite Hact|].
    exact (proj1 (db_ok_rows (R := Action) _ Hok) _ _ Ha). }
  apply finalize_success in Hf as Hb; [subst b|done|apply Hc|by apply decision_candidate].
  apply finalize_settled in Hf as [[_ ?]|(_ & Hu & _)]; [done|].
  exists complete, (w_db w2), (w_now w2).
  split_and!; try done; [by exists w, (inr complete), w2|by exists w, w2|by destruct (decision_at _ _ _)].
Qed.

(** ** Theorems *)

(** C10: recovering a host's container operations refines its specification.
    Whatever statements fail and whatever the agent answers, a pass is a sequence
    of readings of that host, writes to the audit trail, and settlements, each of
    one operation that was open on the host when the pass began, that nobody
    holds and that is still open, exactly as the decision on the reading that
    just ended says; the locks are left alone, the agents are only asked to look,
    and the database invariant is kept. *)
Theorem recoverHost_follows_reading hostId w r w' :
  recoverHost hostId w = (r, w') →
  rtc (reconcile_step hostId (w_registry w) (unresolved hostId (w_db w))) (w_db w) (w_db w') ∧
  w_registry w' = w_registry w ∧ sends only_reads w w' ∧ (db_ok (w_db w) → db_ok (w_db w')).
Proof.
  intros E. destruct (recoverHost_recovering _ _ _ _ E) as [Hl Hs].
  assert (Hk : framed (both (sends only_reads) (on_db keeps_db_ok)) (recoverHost hostId)).
  { pose proof reconcile_only_reads. pose proof reconcile_keeps_db_ok.
    apply framed_both; unfold recoverHost, recoverContainer; frame. }
  destruct (framed_run _ _ _ _ _ Hk E) as [Hr Hok]. by split_and!.
Qed.

(** What a reading has to show for an operation to have succeeded: for a removal
    that no container is left, otherwise that the one container claiming the
    resource runs the pending configuration. *)
Definition shows_done (op : PendingOperation) (d : DB) : Prop :=
  let claims := claims_of (containers d !! pending_containerId op) in
  match pending_operation op with
  | remove => claims = []
  | _ => ∃ id docker,
      config_in "pending" (select_where (config_of_container (pending_containerId op)) d) = Some id ∧
      claims = [{| claim_dockerId := docker; claim_desiredConfigId := Some id |}]
  end.

Lemma succeeded_shows op complete d :
  decision_status (decision_at op complete d) = Action_succeeded → complete = true ∧ shows_done op d.
Proof.
  unfold shows_done, decision_at. intros Hs.
  pose proof (classifyRecovery_sound (evidence (pending_operation op)
    (containers d !! pending_containerId op)
    (select_where (config_of_container (pending_containerId op)) d) complete)) as H.
  destruct (classifyRecovery _); simpl in Hs; try done; simpl in H; unfold conclusive, observed_running in H;
    simpl in H.
  - destruct H as ((_ & _ & _ & ->) & Hop & _ & Hp & docker & Hc). split; [done|].
    destruct (pending_operation op); try done; by eauto.
  - destruct H as ((_ & _ & _ & ->) & -> & Hc). done.
Qed.

(** Recovery closes only what was abandoned, and calls it done only when the
    host shows it.  After a pass every action is what it was, or it was open on
    that host when the pass began, for a container nobody holds, and is closed;
    and one that is closed as succeeded is so because a complete reading showed
    what was asked for. *)
Theorem recoverHost_closes_abandoned hostId w r w' i a' :
  db_ok (w_db w) → recoverHost hostId w = (r, w') → actions (w_db w') !! i = Some a' →
  actions (w_db w) !! i = Some a' ∨
  ∃ a op, actions (w_db w) !! i = Some a ∧ is_open a = true ∧ is_open a' = false ∧
    op ∈ unresolved hostId (w_db w) ∧ pending_actionId op = Some i ∧
    isBusy (pending_containerId op) (w_registry w) = false ∧
    (action_status a' = Action_succeeded →
       ∃ d, has_read hostId true d ∧ shows_done op d).
Proof.
  intros Hok E Ha'. destruct (recoverHost_recovering _ _ _ _ E) as [_ Hs].
  apply (reconcile_steps_actions _ _ _ _ _ i) in Hs as
    [_ [Ei|(a & a1 & Ea & Ea1 & Ho & op & complete & d & t & Hop & Hid & Hb & Hr & Hn & ->)]].
  - left. congruence.
  - right. simplify_eq. exists a, op. split_and!; try done; [by apply finish_closed|].
    intros Hst. assert (Hd : decision_status (decision_at op complete d) = Action_succeeded).
    { unfold finish in Hst. by destruct (decision_code _ _). }
    apply succeeded_shows in Hd as [-> ?]. by exists d.
  - exact (proj1 (db_ok_rows (R := Action) _ Hok)).
Qed.
