(* ===== verification/ContainerManagement.v ===== *)
(** * Creating, replacing and removing a container

    [api/src/containers/container-management.service.ts], and [configurationOf] of
    [api/src/containers/desired-config.ts].  The three operations are [create],
    [replace] and [remove] there; those names are the kinds of operation here.
    The rows of an environment are inserted by one statement there and by one
    statement each here; both are inside the transaction that is rolled back when
    one fails. *)

From Stdlib Require Import Ascii String NArith ZArith.
From stdpp Require Import gmap strings list pretty.
From S2P Require Import Prelude Semver Schema Store Registry Effects Logic Recovery PendingGuard.
From S2P Require Import RecoveryFinalizer StackClassify StackPlan Base64 Environment Discovery Detail.
From S2P Require Import StackDeployment Reconciliation.

(** ** Data *)

(** The configuration fields of a request. *)
Record RequestedConfiguration := {
  requested_image : string;
  requested_hostname : option string;
  requested_command : option (list string);
  requested_entrypoint : option (list string);
  requested_ports : list json;
  requested_mounts : list json;
  requested_networks : list string;
  requested_restartPolicy : string;
  requested_labels : list (string * string);
  requested_healthcheck : option json;
  requested_environment : list EnvironmentChange
}.

Record CreateContainerRequest := {
  create_hostId : string;
  create_name : string;
  create_configuration : RequestedConfiguration
}.

Record ReplaceContainerRequest := {
  replace_name : option string;
  replace_configuration : RequestedConfiguration
}.

Record RemoveContainerRequest := { remove_stopFirst : bool }.

(** What the caller is told; [managed_dockerId] is absent for a missing row and
    for a row without one. *)
Record ManagementOutcome := {
  managed_actionId : string;
  managed_containerId : string;
  managed_state : option string;
  managed_dockerId : option string
}.

Record MutableTarget := {
  target_containerId : string;
  target_name : string;
  target_hostId : string
}.

Record DispatchedOperation := {
  dispatched_operation : RecoveryOperation;
  dispatched_agentId : string;
  dispatched_containerId : string;
  dispatched_containerName : string;
  dispatched_hostId : string;
  dispatched_actionId : option string;
  dispatched_actor : AuthenticatedUser;
  dispatched_context : RequestContext;
  dispatched_payload : json
}.

(** What [prepareCreate] and [prepareReplace] hand on. *)
Record Prepared := {
  prepared_containerId : string;
  prepared_name : string;
  prepared_actionId : string;
  prepared_desiredConfigId : string;
  prepared_spec : ContainerSpec
}.

(** [capability], which is also the prefix of the audit entries ([AUDIT]). *)
Definition CAPABILITY (o : RecoveryOperation) : string :=
  match o with
  | create => "container.create" | replace => "container.replace" | remove => "container.remove"
  end.

Definition EVENT (o : RecoveryOperation) : string :=
  match o with
  | create => "container.created" | replace => "container.replaced" | remove => "container.removed"
  end.

Definition OUTCOME_FAILURE (o : RecoveryOperation) : string :=
  match o with
  | create => "CONTAINER_CREATE_FAILED" | replace => "REPLACEMENT_FAILED"
  | remove => "CONTAINER_REMOVE_FAILED"
  end.

(** ** Rows and payloads *)

(** [configurationOf] with the identity and state around it. *)
Definition configurationOf (id containerId state : string) (actionId createdBy : option string)
    (request : RequestedConfiguration) : DesiredConfig := {|
  config_id := id; config_containerId := containerId; config_state := state;
  config_actionId := actionId; config_image := requested_image request;
  config_hostname := requested_hostname request; config_command := requested_command request;
  config_entrypoint := requested_entrypoint request; config_ports := requested_ports request;
  config_mounts := requested_mounts request; config_networks := requested_networks request;
  config_restartPolicy := requested_restartPolicy request;
  config_labels := requested_labels request;
  config_healthcheck := requested_healthcheck request; config_createdBy := createdBy |}.

Definition variable_row (id desiredConfigId : string) (v : StoredVariable) : ContainerVariable := {|
  conenv_id := id; conenv_desiredConfigId := desiredConfigId; conenv_key := variable_key v;
  conenv_value := variable_value v; conenv_valueEncrypted := variable_valueEncrypted v;
  conenv_isSecret := variable_isSecret v |}.

Definition creating_resource (id hostId name image : string) (at_ : time) : Container := {|
  container_id := id; container_hostId := hostId; container_dockerId := None;
  container_name := name; container_image := image; container_imageId := None;
  container_state := "creating"; container_health := "none"; container_restartCount := 0;
  container_composeProjectId := None; container_stackId := None;
  container_stackService := None; container_stackRevisionId := None;
  container_dockerCreatedAt := None; container_startedAt := None; container_metadata := None;
  container_detail := None; container_detailObservedAt := None;
  container_identityConflict := None; container_observedDesiredConfigId := None;
  container_snapshotId := None; container_observedAt := at_ |}.

Definition strings_json (l : list string) : json := JArray (JString <$> l).

(** The object [specFor] returns. *)
Definition spec_json (s : ContainerSpec) : json := object_of [
  ("name", Some (JString (spec_name s))); ("image", Some (JString (spec_image s)));
  ("hostname", JString <$> spec_hostname s);
  ("command", strings_json <$> spec_command s);
  ("entrypoint", strings_json <$> spec_entrypoint s);
  ("env", Some (JArray ((λ kv : string * string,
     JObject [("key", JString kv.1); ("value", JString kv.2)]) <$> spec_environment s)));
  ("ports", Some (JArray (spec_ports s))); ("mounts", Some (JArray (spec_mounts s)));
  ("networks", Some (strings_json (spec_networks s)));
  ("restartPolicy", Some (JString (spec_restartPolicy s)));
  ("labels", Some (JObject ((λ kv : string * string, (kv.1, JString kv.2)) <$> spec_labels s)));
  ("healthcheck", spec_healthcheck s)].

(** ** Guards *)

Definition mutable (containerId : string) : M MutableTarget :=
  row ← select_id (R := Container) containerId;
  match row with
  | None => notFound "CONTAINER_NOT_FOUND"
  | Some row =>
      assertOperable containerId;;
      if truthy (container_composeProjectId row) || truthy (container_stackId row)
      then conflict "MANAGED_BY_STACK"
      else
        managed ← select_first (config_of_container containerId);
        match managed with
        | None => conflict "CONTAINER_NOT_MANAGED"
        | Some _ =>
            mret {| target_containerId := container_id row; target_name := container_name row;
                    target_hostId := container_hostId row |}
        end
  end.

Definition dockerId (containerId : string) : M string :=
  row ← select_id (R := Container) containerId;
  if truthy (row ≫= container_dockerId) then mret ((row ≫= container_dockerId) ?? "")
  else notFound "CONTAINER_NOT_FOUND".

Definition host (hostId : string) : M string :=
  row ← select_id (R := Host) hostId;
  match row with
  | None => notFound "HOST_NOT_FOUND"
  | Some row => assertNotArchived (host_archivedAt row);; mret (host_id row)
  end.

Definition connectedAgent (hostId : string) : M string :=
  agent ← select_first (λ a : Agent,
    bool_decide (agent_hostId a = hostId) && bool_decide (agent_revokedAt a = None));
  match agent with
  | None => conflict "AGENT_REVOKED"
  | Some agent =>
      connected ← isConnected (agent_id agent);
      if (connected : bool) then mret (agent_id agent) else conflict "AGENT_OFFLINE"
  end.

(** ** Writing down what is wanted *)

Definition auditRequested (action actionId containerId name : string) (actor : AuthenticatedUser)
    (context : RequestContext) : M unit :=
  audit_record {|
    entry_action := action; entry_result := Audit_success;
    entry_actorUserId := Some (actor_id actor); entry_actorLabel := actor_email actor;
    entry_targetType := Some "container"; entry_targetId := Some containerId;
    entry_targetLabel := Some name; entry_reasonCode := Some actionId;
    entry_sourceIp := context_sourceIp context; entry_userAgent := context_userAgent context |}.

(** [tx.insert(actions).values({...})] *)
Definition insertAction (o : RecoveryOperation) (containerId hostId : string)
    (actor : AuthenticatedUser) (context : RequestContext) : M string :=
  at_ ← now;
  actionId ← randomUUID;
  correlationId ← match context_requestId context with
                  | Some id => mret id
                  | None => randomUUID
                  end;
  insert_into (new_action actionId (CAPABILITY o) "container" containerId hostId correlationId actor at_);;
  mret actionId.

(** [tx.insert(containerDesiredConfigs)] and its environment. *)
Definition insertCandidate (containerId actionId : string) (actor : AuthenticatedUser)
    (request : RequestedConfiguration) (environment : list StoredVariable) : M string :=
  configId ← randomUUID;
  insert_into (configurationOf configId containerId "pending" (Some actionId)
    (Some (actor_id actor)) request);;
  for_each environment (λ variable,
    id ← randomUUID; insert_into (variable_row id configId variable));;
  mret configId.

Section management.
Context `{AesGcm} (box : list ascii).

(** Reading the candidate back and building the specification from it. *)
Definition specOf (name configId : string) : M ContainerSpec :=
  config ← select_id (R := DesiredConfig) configId;
  stored ← select (λ v : ContainerVariable, bool_decide (conenv_desiredConfigId v = configId));
  match config with
  | Some config =>
      match specFor box name config stored with
      | Some spec => mret spec
      | None => throw PlainError
      end
  | None => throw PlainError
  end.

Definition prepareCreate (request : CreateContainerRequest) (hostId : string)
    (actor : AuthenticatedUser) (context : RequestContext) : M Prepared :=
  environment ← resolveEnvironment box (requested_environment (create_configuration request)) [];
  '(containerId, actionId, configId) ← transaction (
    at_ ← now;
    containerId ← randomUUID;
    insert_into (creating_resource containerId hostId (create_name request)
      (requested_image (create_configuration request)) at_);;
    actionId ← insertAction create containerId hostId actor context;
    configId ← insertCandidate containerId actionId actor (create_configuration request) environment;
    mret (containerId, actionId, configId));
  auditRequested "container.create.requested" actionId containerId (create_name request) actor context;;
  spec ← specOf (create_name request) configId;
  mret {| prepared_containerId := containerId; prepared_name := create_name request;
          prepared_actionId := actionId; prepared_desiredConfigId := configId;
          prepared_spec := spec |}.

Definition current_of (containerId : string) (c : DesiredConfig) : bool :=
  bool_decide (config_containerId c = containerId) && bool_decide (config_state c = "current").

Definition prepareReplace (containerId : string) (request : ReplaceContainerRequest)
    (actor : AuthenticatedUser) (context : RequestContext) : M Prepared :=
  container ← select_id (R := Container) containerId;
  current ← select_first (current_of containerId);
  match current with
  | None => conflict "CONTAINER_NOT_MANAGED"
  | Some current =>
      previous ← select (λ v : ContainerVariable,
        bool_decide (conenv_desiredConfigId v = config_id current));
      environment ← resolveEnvironment box
        (requested_environment (replace_configuration request)) previous;
      match container with
      | None => throw PlainError
      | Some container =>
          let name := replace_name request ?? container_name container in
          '(actionId, configId) ← transaction (
            actionId ← insertAction replace containerId (container_hostId container) actor context;
            configId ← insertCandidate containerId actionId actor (replace_configuration request)
              environment;
            mret (actionId, configId));
          auditRequested "container.replace.requested" actionId containerId name actor context;;
          spec ← specOf name configId;
          mret {| prepared_containerId := containerId; prepared_name := name;
                  prepared_actionId := actionId; prepared_desiredConfigId := configId;
                  prepared_spec := spec |}
      end
  end.

(** ** Asking, and establishing what happened *)

Definition audit_dispatched (operation : DispatchedOperation) (suffix : string)
    (result : AuditResult) (reason : option string) : M unit :=
  audit_record {|
    entry_action := CAPABILITY (dispatched_operation operation) +:+ suffix; entry_result := result;
    entry_actorUserId := Some (actor_id (dispatched_actor operation));
    entry_actorLabel := actor_email (dispatched_actor operation);
    entry_targetType := Some "container";
    entry_targetId := Some (dispatched_containerId operation);
    entry_targetLabel := Some (dispatched_containerName operation);
    entry_reasonCode := reason;
    entry_sourceIp := context_sourceIp (dispatched_context operation);
    entry_userAgent := context_userAgent (dispatched_context operation) |}.

(** [unresolved] of the service: the server cannot say what happened. *)
Definition outcomeUnknown {A} (operation : DispatchedOperation) (code : string) : M A :=
  audit_dispatched operation ".interrupted" Audit_failure
    (Some (dispatched_actionId operation ?? code));;
  throw (AppError "OPERATION_OUTCOME_UNKNOWN" SERVICE_UNAVAILABLE).

Definition report (operation : DispatchedOperation) (decision : RecoveryDecision)
    (failure : option string) : M ManagementOutcome :=
  container ← select_id (R := Container) (dispatched_containerId operation);
  let succeeded := is_success decision in
  audit_dispatched operation (if succeeded then ".succeeded" else ".failed")
    (if succeeded then Audit_success else Audit_failure) (dispatched_actionId operation);;
  if succeeded then
    events_record (Some (dispatched_hostId operation)) (EVENT (dispatched_operation operation))
      Severity_info ("container:" +:+ dispatched_containerId operation)
      (dispatched_actionId operation);;
    mret {| managed_actionId := dispatched_actionId operation ?? "";
            managed_containerId := dispatched_containerId operation;
            managed_state := container_state <$> container;
            managed_dockerId := container ≫= container_dockerId |}
  else
    match decision with
    | discard_pending _ | fail_operation _ =>
        throw (AppError (failure ?? OUTCOME_FAILURE (dispatched_operation operation)) CONFLICT)
    | identity_conflict _ => conflict "CONTAINER_IDENTITY_CONFLICT"
    | _ => throw (AppError "OPERATION_OUTCOME_UNKNOWN" SERVICE_UNAVAILABLE)
    end.

Definition pending_of (operation : DispatchedOperation) : PendingOperation := {|
  pending_containerId := dispatched_containerId operation;
  pending_containerName := dispatched_containerName operation;
  pending_hostId := dispatched_hostId operation;
  pending_operation := dispatched_operation operation;
  pending_actionId := dispatched_actionId operation |}.

Definition runOperation (operation : DispatchedOperation) : M ManagementOutcome :=
  failure ← try_catch
    (request (dispatched_agentId operation) (CAPABILITY (dispatched_operation operation))
       (dispatched_payload operation);;
     mret (inr None))
    (λ error,
       let code := error_code error ?? "DOCKER_OPERATION_FAILED" in
       if mem code UNKNOWN_OUTCOME then mret (inl code) else mret (inr (error_code error)));
  match failure with
  | inl code => outcomeUnknown operation code
  | inr failure =>
      decision ← reconcileAndFinalize (pending_of operation);
      report operation decision failure
  end.

(** ** The operations *)

(** What runs under the lock of a creation, and of a replacement. *)
Definition create_locked (request : CreateContainerRequest) (hostId agentId : string)
    (actor : AuthenticatedUser) (context : RequestContext) : M ManagementOutcome :=
  prepared ← prepareCreate request hostId actor context;
  runOperation {|
    dispatched_operation := create; dispatched_agentId := agentId;
    dispatched_containerId := prepared_containerId prepared;
    dispatched_containerName := create_name request; dispatched_hostId := hostId;
    dispatched_actionId := Some (prepared_actionId prepared);
    dispatched_actor := actor; dispatched_context := context;
    dispatched_payload := JObject [
      ("containerId", JString (prepared_containerId prepared));
      ("desiredConfigId", JString (prepared_desiredConfigId prepared));
      ("spec", spec_json (prepared_spec prepared))] |}.

Definition createContainer (request : CreateContainerRequest) (actor : AuthenticatedUser)
    (context : RequestContext) : M ManagementOutcome :=
  hostId ← host (create_hostId request);
  agentId ← connectedAgent hostId;
  assertNameFree hostId (create_name request);;
  release ← acquire_lock (nameKey hostId (create_name request)) "create";
  try_finally (create_locked request hostId agentId actor context) (release_lock release).

Definition replace_locked (containerId : string) (request : ReplaceContainerRequest)
    (hostId agentId : string) (actor : AuthenticatedUser) (context : RequestContext) :
    M ManagementOutcome :=
  docker ← dockerId containerId;
  prepared ← prepareReplace containerId request actor context;
  runOperation {|
    dispatched_operation := replace; dispatched_agentId := agentId;
    dispatched_containerId := containerId;
    dispatched_containerName := prepared_name prepared; dispatched_hostId := hostId;
    dispatched_actionId := Some (prepared_actionId prepared);
    dispatched_actor := actor; dispatched_context := context;
    dispatched_payload := JObject [
      ("dockerId", JString docker); ("containerId", JString containerId);
      ("desiredConfigId", JString (prepared_desiredConfigId prepared));
      ("spec", spec_json (prepared_spec prepared))] |}.

Definition replaceContainer (containerId : string) (request : ReplaceContainerRequest)
    (actor : AuthenticatedUser) (context : RequestContext) : M ManagementOutcome :=
  target ← mutable containerId;
  agentId ← connectedAgent (target_hostId target);
  release ← acquire_lock containerId "replace";
  try_finally (replace_locked containerId request (target_hostId target) agentId actor context)
    (release_lock release).

Definition remove_locked (containerId : string) (request : RemoveContainerRequest)
    (target : MutableTarget) (agentId : string) (actor : AuthenticatedUser)
    (context : RequestContext) : M ManagementOutcome :=
  docker ← dockerId containerId;
  actionId ← transaction (insertAction remove containerId (target_hostId target) actor context);
  auditRequested "container.remove.requested" actionId (target_containerId target)
    (target_name target) actor context;;
  runOperation {|
    dispatched_operation := remove; dispatched_agentId := agentId;
    dispatched_containerId := containerId;
    dispatched_containerName := target_name target; dispatched_hostId := target_hostId target;
    dispatched_actionId := Some actionId;
    dispatched_actor := actor; dispatched_context := context;
    dispatched_payload := JObject [
      ("dockerId", JString docker); ("stopFirst", JBool (remove_stopFirst request))] |}.

Definition removeContainer (containerId : string) (request : RemoveContainerRequest)
    (actor : AuthenticatedUser) (context : RequestContext) : M ManagementOutcome :=
  target ← mutable containerId;
  agentId ← connectedAgent (target_hostId target);
  release ← acquire_lock containerId "remove";
  try_finally (remove_locked containerId request target agentId actor context)
    (release_lock release).
End management.

(** ** Reading a configuration *)

Record ConfigurationView := {
  shown_name : string;
  shown_config : DesiredConfig;
  shown_environment : list (string * bool * option string);
  shown_reconciling : bool
}.

Definition configuration (containerId : string) : M ConfigurationView :=
  container ← select_id (R := Container) containerId;
  match container with
  | None => notFound "CONTAINER_NOT_FOUND"
  | Some container =>
      configs ← select (config_of_container containerId);
      match find_first (λ c, bool_decide (config_state c = "current")) configs with
      | None => conflict "CONTAINER_NOT_MANAGED"
      | Some current =>
          environment ← select (λ v : ContainerVariable,
            bool_decide (conenv_desiredConfigId v = config_id current));
          mret {| shown_name := container_name container; shown_config := current;
                  shown_environment := presentEnvironment environment;
                  shown_reconciling :=
                    existsb (λ c, bool_decide (config_state c = "pending")) configs |}
      end
  end.

(** ** One interface for the three *)

Inductive Command :=
  | Create (request : CreateContainerRequest)
  | Replace (containerId : string) (request : ReplaceContainerRequest)
  | Remove_container (containerId : string) (request : RemoveContainerRequest).

Definition command_operation (c : Command) : RecoveryOperation :=
  match c with Create _ => create | Replace _ _ => replace | Remove_container _ _ => remove end.

Definition command_configuration (c : Command) : option RequestedConfiguration :=
  match c with
  | Create request => Some (create_configuration request)
  | Replace _ request => Some (replace_configuration request)
  | Remove_container _ _ => None
  end.

(** ** Lemmas *)

(** Everything but the audit trail and the events. *)
Definition untrailed (d : DB) : DB := d <| auditEntries := ∅ |> <| events := ∅ |>.

#[local] Notation mute :=
  (both (on_db (unchanged untrailed)) (both (on_db keeps_db_ok) (sends (λ _, False)))).

#[local] Instance mute_frame : Frame mute := _.

Lemma audit_mute entry : framed mute (audit_record entry).
Proof. repeat apply framed_both; unfold audit_record; frame. Qed.

Lemma reads_mute {A} (m : M A) : reads m → framed mute m.
Proof. apply reads_framed, _. Qed.

Lemma uuid_nonempty n : uuid n ≠ "".
Proof. done. Qed.

Section lemmas.
Context `{AesGcm} (box : list ascii).

Lemma resolveEnvironment_framed R `{!Frame R} entries previous :
  framed R (resolveEnvironment box entries previous).
Proof. apply resolve_entries_framed, _. Qed.

Lemma specOf_mute name configId : framed mute (specOf box name configId).
Proof. unfold specOf. frame. Qed.

Lemma insertAction_inr o containerId hostId actor context w aid w' :
  insertAction o containerId hostId actor context w = (inr aid, w') →
  ∃ correlation fs n, aid ≠ "" ∧ actions (w_db w) !! aid = None ∧
    w' = w <| w_seed := n |> <| w_faults := fs |> <| w_db := (w_db w) <| actions :=
      <[aid := new_action aid (CAPABILITY o) "container" containerId hostId correlation actor (w_now w)]>
        (actions (w_db w)) |> |>.
Proof.
  unfold insertAction. intros E. unbind.
  repeat match goal with H : now _ = _ |- _ => apply now_inr in H as [-> ->] end.
  unfold randomUUID in *. simplify_eq/=.
  destruct (context_requestId context) as [id|]; unbind; simplify_eq/=;
    match goal with H : insert_into _ _ = _ |- _ => apply insert_inr in H as [Hn [fs ->]] end;
    simpl in *; eexists _, fs, _; (split_and!; [apply uuid_nonempty|exact Hn|by destruct w]).
Qed.

Lemma insertCandidate_inr containerId actionId actor request environment w cid w' :
  insertCandidate containerId actionId actor request environment w = (inr cid, w') →
  containerDesiredConfigs (w_db w) !! cid = None ∧
  containerDesiredConfigs (w_db w') =
    <[cid := configurationOf cid containerId "pending" (Some actionId) (Some (actor_id actor)) request]>
      (containerDesiredConfigs (w_db w)) ∧
  actions (w_db w') = actions (w_db w) ∧ containers (w_db w') = containers (w_db w).
Proof.
  unfold insertCandidate. intros E. apply bind_inr in E as (id & w1 & E1 & E).
  unfold randomUUID in E1. simplify_eq/=.
  apply bind_inr in E as (u & w2 & [Hn [fs ->]]%insert_inr & E). simpl in *.
  apply bind_inr in E as (v & w3 & E3 & [-> ->]%ret_inr).
  assert (Hf : framed (on_db (unchanged (λ d, (containerDesiredConfigs d, actions d, containers d))))
    (for_each environment (λ variable, id ← randomUUID; insert_into (variable_row id (uuid (w_seed w)) variable))))
    by frame.
  apply (framed_run _ _ _ _ _ Hf) in E3. unfold on_db, unchanged in E3. simpl in E3.
  injection E3 as -> -> ->. done.
Qed.

Definition perform (c : Command) (actor : AuthenticatedUser) (context : RequestContext) :
    M ManagementOutcome :=
  match c with
  | Create request => createContainer box request actor context
  | Replace containerId request => replaceContainer box containerId request actor context
  | Remove_container containerId request => removeContainer containerId request actor context
  end.

(** What is in the database when the agent is asked: one new running action for
    the container, and, except for a removal, the configuration that was asked
    for, pending under that action; a creation has also added the resource. *)
Definition candidate (c : Command) (actor : AuthenticatedUser) (containerId aid : string)
    (d d1 : DB) : Prop :=
  match command_configuration c with
  | None => True
  | Some request => ∃ cid, containerDesiredConfigs d !! cid = None ∧
      containerDesiredConfigs d1 = <[cid := configurationOf cid containerId "pending" (Some aid)
        (Some (actor_id actor)) request]> (containerDesiredConfigs d)
  end.

Definition resource (c : Command) (containerId hostId : string) (d d1 : DB) : Prop :=
  match c with
  | Create request => containers d !! containerId = None ∧
      ∃ at_, containers d1 = <[containerId := creating_resource containerId hostId
        (create_name request) (requested_image (create_configuration request)) at_]> (containers d)
  | Replace id _ | Remove_container id _ => containerId = id ∧ containers d1 = containers d
  end.

Record written_down (c : Command) (actor : AuthenticatedUser) (op : DispatchedOperation)
    (aid : string) (a : Action) (w w1 : World) : Prop := {
  down_operation : dispatched_operation op = command_operation c;
  down_actionId : dispatched_actionId op = Some aid;
  down_named : aid ≠ "";
  down_new : actions (w_db w) !! aid = None;
  down_action : actions (w_db w1) = <[aid := a]> (actions (w_db w));
  down_running : action_status a = Action_running;
  down_capability : action_capability a = CAPABILITY (command_operation c);
  down_target : action_targetType a = Some "container" ∧
    action_targetId a = Some (dispatched_containerId op);
  down_id : action_id a = aid;
  down_candidate : candidate c actor (dispatched_containerId op) aid (w_db w) (w_db w1);
  down_resource : resource c (dispatched_containerId op) (dispatched_hostId op) (w_db w) (w_db w1);
  down_silent : w_outbox w1 = w_outbox w;
  down_ok : db_ok (w_db w) → db_ok (w_db w1)
}.

(** What [mute] keeps. *)
Lemma mute_keeps w w' :
  mute w w' → actions (w_db w') = actions (w_db w) ∧ containers (w_db w') = containers (w_db w) ∧
    containerDesiredConfigs (w_db w') = containerDesiredConfigs (w_db w) ∧
    w_outbox w' = w_outbox w ∧ (db_ok (w_db w) → db_ok (w_db w')).
Proof.
  intros [Hd [Hok (s & Hs & Hf)]]. destruct s; [|by inversion Hf]. rewrite app_nil_r in Hs.
  unfold on_db, unchanged in Hd. split_and!; [| | |done|done].
  - by apply (f_equal actions) in Hd.
  - by apply (f_equal containers) in Hd.
  - by apply (f_equal containerDesiredConfigs) in Hd.
Qed.

Lemma quiet_mute w w' : quiet w w' → mute w w'.
Proof.
  intros [Hd Ho]. unfold both, on_db, unchanged, keeps_db_ok. rewrite Hd. split_and!; [done|done|].
  exists []. by rewrite app_nil_r.
Qed.

Lemma written_down_before c actor op aid a w0 w w1 :
  mute w0 w → written_down c actor op aid a w w1 → written_down c actor op aid a w0 w1.
Proof.
  intros (Ha & Hc & Hd & Ho & Hok)%mute_keeps []. split; try done; try congruence; try by auto.
  - unfold candidate in *. case_match; [|done]. by rewrite <-Hd.
  - unfold resource in *. destruct c; by rewrite <-Hc.
Qed.

Lemma written_down_after c actor op aid a w w1 w2 :
  mute w1 w2 → written_down c actor op aid a w w1 → written_down c actor op aid a w w2.
Proof.
  intros (Ha & Hc & Hd & Ho & Hok)%mute_keeps []. split; try done; try congruence; try by auto.
  - unfold candidate in *. case_match; [|done]. by rewrite Hd.
  - unfold resource in *. destruct c; by rewrite Hc.
Qed.

(** How a call ends: refused or failed before anything was written, after the
    operation was written down, or after the agent was to be asked. *)
Definition call_ends (c : Command) (actor : AuthenticatedUser) (w : World)
    (r : exn + ManagementOutcome) (w' : World) : Prop :=
  mute w w' ∧ (∃ e, r = inl e) ∨
  ∃ op aid a w1, written_down c actor op aid a w w1 ∧
    (mute w1 w' ∧ (∃ e, r = inl e) ∨ ∃ w2, runOperation op w1 = (r, w2) ∧ quiet w2 w').

Lemma call_ends_before c actor w0 w r w' : mute w0 w → call_ends c actor w r w' → call_ends c actor w0 r w'.
Proof.
  intros Hm [[H1 H2]|(op & aid & a & w1 & Hw & He)]; [left; split; [by etrans|done]|right].
  exists op, aid, a, w1. split; [by eapply written_down_before|done].
Qed.

Lemma call_ends_after c actor w r w1 w' : quiet w1 w' → call_ends c actor w r w1 → call_ends c actor w r w'.
Proof.
  intros Hq [[H1 H2]|(op & aid & a & w2 & Hw & He)].
  - left. split; [etrans; [exact H1|by apply quiet_mute]|done].
  - right. exists op, aid, a, w2. split; [done|]. destruct He as [[H1 H2]|(w3 & E & H3)].
    + left. split; [etrans; [exact H1|by apply quiet_mute]|done].
    + right. exists w3. split; [done|by etrans].
Qed.

Lemma transaction_mute {A} (m : M A) w e w' :
  transaction m w = (inl e, w') → framed (sends (λ _, False)) m → mute w w'.
Proof.
  intros E Hm. apply quiet_mute. split; [by apply transaction_inl in E|].
  apply (sends_nothing _ _ _ _ E). by apply framed_transaction; [apply _|].
Qed.

Lemma insertAction_silent o containerId hostId actor context :
  framed (sends (λ _, False)) (insertAction o containerId hostId actor context).
Proof. unfold insertAction. frame. Qed.

Lemma insertCandidate_silent containerId actionId actor request environment :
  framed (sends (λ _, False)) (insertCandidate containerId actionId actor request environment).
Proof. unfold insertCandidate. frame. Qed.

Lemma insertAction_ok o containerId hostId actor context :
  framed (on_db keeps_db_ok) (insertAction o containerId hostId actor context).
Proof. unfold insertAction. frame. Qed.

Lemma insertCandidate_ok containerId actionId actor request environment :
  framed (on_db keeps_db_ok) (insertCandidate containerId actionId actor request environment).
Proof. unfold insertCandidate. frame. Qed.

#[local] Hint Resolve insertAction_silent insertCandidate_silent insertAction_ok
  insertCandidate_ok : frames.

(** The fields of a dispatch that say what it is about. *)
Definition about (o : RecoveryOperation) (containerId hostId aid : string) (op : DispatchedOperation) :
    Prop :=
  dispatched_operation op = o ∧ dispatched_actionId op = Some aid ∧
  dispatched_containerId op = containerId ∧ dispatched_hostId op = hostId.

Definition some_dispatch (o : RecoveryOperation) (containerId hostId aid : string)
    (actor : AuthenticatedUser) (context : RequestContext) : DispatchedOperation := {|
  dispatched_operation := o; dispatched_agentId := ""; dispatched_containerId := containerId;
  dispatched_containerName := ""; dispatched_hostId := hostId; dispatched_actionId := Some aid;
  dispatched_actor := actor; dispatched_context := context; dispatched_payload := JNull |}.

(** Once the operation is written down by a transaction, what follows either
    fails without another write or asks the agent. *)
Lemma prepared_ends {A} c actor (context : RequestContext) w containerId hostId aid a (rest : M A)
    (k : A → DispatchedOperation) w1 r w' :
  (∀ op, about (command_operation c) containerId hostId aid op → written_down c actor op aid a w w1) →
  framed mute rest →
  (∀ x w2, rest w1 = (inr x, w2) → about (command_operation c) containerId hostId aid (k x)) →
  (x ← rest; runOperation (k x)) w1 = (r, w') → call_ends c actor w r w'.
Proof.
  intros Hw Hrest Hk E. right.
  apply bind_cases in E as [(e & -> & E)|(x & w2 & E1 & E)].
  - exists (some_dispatch (command_operation c) containerId hostId aid actor context), aid, a, w1.
    split; [by apply Hw|left]. split; [by apply (framed_run _ _ _ _ _ Hrest) in E|by eauto].
  - exists (k x), aid, a, w2. split; [|right; by exists w'].
    apply (framed_run _ _ _ _ _ Hrest) in E1 as Hm. eapply written_down_after; [exact Hm|].
    by apply Hw, (Hk x w2).
Qed.

Lemma bind_assoc {A B C} (m : M A) (f : A → M B) (g : B → M C) w :
  ((m ≫= f) ≫= g) w = (m ≫= λ a, f a ≫= g) w.
Proof. unfold mbind, M_bind. by destruct (m w) as [[e|a] w']. Qed.

Lemma create_locked_cases request hostId agentId actor context w r w' :
  create_locked box request hostId agentId actor context w = (r, w') →
  call_ends (Create request) actor w r w'.
Proof.
  intros E. unfold create_locked, prepareCreate in E. rewrite bind_assoc in E.
  apply (framed_step mute _ _ w) in E as [?|(environment & w1 & _ & H1 & E)];
    [by left| |apply resolveEnvironment_framed, _|reflexivity].
  apply (call_ends_before _ _ w w1); [done|]. clear w H1. rewrite bind_assoc in E.
  apply bind_cases in E as [(e & -> & E)|([[k aid] cid] & w2 & E2 & E)].
  { left. split; [|by eauto]. apply (transaction_mute _ _ _ _ E). frame. }
  match type of E2 with ?m ?v = _ => assert (Hdb : on_db keeps_db_ok v w2)
    by (refine (framed_run _ m _ _ _ _ E2); frame) end.
  apply transaction_inr in E2 as (w3 & E2 & [fs ->]).
  apply bind_inr in E2 as (at_ & w4 & [-> ->]%now_inr & E2).
  apply bind_inr in E2 as (k0 & w4 & E4 & E2). unfold randomUUID in E4. simplify_eq/=.
  apply bind_inr in E2 as (u & w5 & [Hk [f5 ->]]%insert_inr & E2). simpl in *.
  apply bind_inr in E2 as (aid0 & w6 & E6 & E2).
  apply insertAction_inr in E6 as (corr & f6 & n & Hne & Hnew & ->). simpl in *.
  apply bind_inr in E2 as (cid0 & w7 & E7 & [[= -> -> ->] ->]%ret_inr).
  apply insertCandidate_inr in E7 as Hc. destruct Hc as (Hcid & Hcfg & Hact & Hcon). simpl in *.
  eapply (prepared_ends (Create request) actor context _ _ hostId aid0
    (new_action aid0 "container.create" "container" (uuid (w_seed w1)) hostId corr actor (w_now w1)));
    [| |intros p w8 E8|exact E].
  - intros op (Ho1 & Ho2 & Ho3 & Ho4). split; rewrite ?Ho3, ?Ho4; simpl; try done.
    + by eexists.
    + split; [done|]. eexists. exact Hcon.
    + apply (sends_nothing _ _ _ _ E7). frame.
  - unfold auditRequested. pose proof audit_mute. pose proof specOf_mute. frame.
  - apply bind_inr in E8 as (u1 & w9 & _ & E8). apply bind_inr in E8 as (spec & w10 & _ & E8).
    by apply ret_inr in E8 as [-> ->].
Qed.

Lemma replace_locked_cases containerId request hostId agentId actor context w r w' :
  replace_locked box containerId request hostId agentId actor context w = (r, w') →
  call_ends (Replace containerId request) actor w r w'.
Proof.
  intros E. unfold replace_locked, prepareReplace in E.
  apply (framed_step mute _ _ w) in E as [?|(docker & w1 & _ & H1 & E)];
    [by left| |unfold dockerId; frame|reflexivity].
  rewrite bind_assoc in E.
  apply (framed_step mute _ _ w) in E as [?|(container & w2 & _ & H2 & E)]; [by left| |frame|done].
  rewrite bind_assoc in E.
  apply (framed_step mute _ _ w) in E as [?|(current & w3 & _ & H3 & E)]; [by left| |frame|done].
  destruct current as [current|]; [|unfold conflict, mbind, M_bind, throw in E; simplify_eq; left; eauto].
  rewrite bind_assoc in E.
  apply (framed_step mute _ _ w) in E as [?|(previous & w4 & _ & H4 & E)]; [by left| |frame|done].
  rewrite bind_assoc in E.
  apply (framed_step mute _ _ w) in E as [?|(environment & w5 & _ & H5 & E)];
    [by left| |apply resolveEnvironment_framed, _|done].
  destruct container as [container|]; [|unfold mbind, M_bind, throw in E; simplify_eq; left; eauto].
  apply (call_ends_before _ _ w w5); [done|]. clear w w1 w2 w3 w4 H1 H2 H3 H4 H5.
  rewrite bind_assoc in E.
  apply bind_cases in E as [(e & -> & E)|([aid cid] & w2 & E2 & E)].
  { left. split; [|by eauto]. apply (transaction_mute _ _ _ _ E). frame. }
  match type of E2 with ?m ?v = _ => assert (Hdb : on_db keeps_db_ok v w2)
    by (refine (framed_run _ m _ _ _ _ E2); frame) end.
  apply transaction_inr in E2 as (w3 & E2 & [fs ->]).
  apply bind_inr in E2 as (aid0 & w6 & E6 & E2).
  apply insertAction_inr in E6 as (corr & f6 & n & Hne & Hnew & ->). simpl in *.
  apply bind_inr in E2 as (cid0 & w7 & E7 & [[= -> ->] ->]%ret_inr).
  apply insertCandidate_inr in E7 as Hc. destruct Hc as (Hcid & Hcfg & Hact & Hcon). simpl in *.
  eapply (prepared_ends (Replace containerId request) actor context _ containerId hostId aid0
    (new_action aid0 "container.replace" "container" containerId (container_hostId container) corr
      actor (w_now w5))); [| |intros p w8 E8|exact E].
  - intros op (Ho1 & Ho2 & Ho3 & Ho4). split; rewrite ?Ho3, ?Ho4; simpl; try done.
    + by eexists.
    + apply (sends_nothing _ _ _ _ E7). frame.
  - unfold auditRequested. pose proof audit_mute. pose proof specOf_mute. frame.
  - apply bind_inr in E8 as (u1 & w9 & _ & E8). apply bind_inr in E8 as (spec & w10 & _ & E8).
    by apply ret_inr in E8 as [-> ->].
Qed.

Lemma remove_locked_cases containerId request target agentId actor context w r w' :
  remove_locked containerId request target agentId actor context w = (r, w') →
  call_ends (Remove_container containerId request) actor w r w'.
Proof.
  intros E. unfold remove_locked in E.
  apply (framed_step mute _ _ w) in E as [?|(docker & w1 & _ & H1 & E)];
    [by left| |unfold dockerId; frame|reflexivity].
  apply (call_ends_before _ _ w w1); [done|]. clear w H1.
  apply bind_cases in E as [(e & -> & E)|(aid & w2 & E2 & E)].
  { left. split; [|by eauto]. apply (transaction_mute _ _ _ _ E). frame. }
  match type of E2 with ?m ?v = _ => assert (Hdb : on_db keeps_db_ok v w2)
    by (refine (framed_run _ m _ _ _ _ E2); frame) end.
  apply transaction_inr in E2 as (w3 & E2 & [fs ->]).
  apply insertAction_inr in E2 as (corr & f6 & n & Hne & Hnew & ->). simpl in *.
  eapply (prepared_ends (Remove_container containerId request) actor context _ containerId
    (target_hostId target) aid
    (new_action aid "container.remove" "container" containerId (target_hostId target) corr
      actor (w_now w1))); [| |intros p w8 E8|exact E].
  - intros op (Ho1 & Ho2 & Ho3 & Ho4). split; rewrite ?Ho3, ?Ho4; simpl; try done.
  - unfold auditRequested. pose proof audit_mute. frame.
  - done.
Qed.

Lemma mutable_mute containerId : framed mute (mutable containerId).
Proof. apply reads_mute. unfold mutable. reads. apply assertOperable_reads. Qed.

Lemma connectedAgent_mute hostId : framed mute (connectedAgent hostId).
Proof. unfold connectedAgent. frame. Qed.

Lemma acquire_mute key operation : framed mute (acquire_lock key operation).
Proof. intros w. apply quiet_mute, framed_acquire_quiet. Qed.

(** Every call of the service, taken apart. *)
Lemma perform_cases c actor context w r w' :
  perform c actor context w = (r, w') → call_ends c actor w r w'.
Proof.
  intros E. destruct c as [request|containerId request|containerId request]; simpl in E.
  - unfold createContainer in E.
    apply (framed_step mute _ _ w) in E as [?|(hostId & w1 & _ & H1 & E)];
      [by left| |unfold host, assertNotArchived; frame|reflexivity].
    apply (framed_step mute _ _ w) in E as [?|(agentId & w2 & _ & H2 & E)];
      [by left| |apply connectedAgent_mute|done].
    apply (framed_step mute _ _ w) in E as [?|(u & w3 & _ & H3 & E)];
      [by left| |unfold assertNameFree; frame|done].
    apply (framed_step mute _ _ w) in E as [?|(h & w4 & _ & H4 & E)]; [by left| |apply acquire_mute|done].
    apply try_finally_release in E as (w5 & E & Hq). eapply call_ends_after; [done|].
    eapply call_ends_before; [done|]. by eapply create_locked_cases.
  - unfold replaceContainer in E.
    apply (framed_step mute _ _ w) in E as [?|(target & w1 & _ & H1 & E)];
      [by left| |apply mutable_mute|reflexivity].
    apply (framed_step mute _ _ w) in E as [?|(agentId & w2 & _ & H2 & E)];
      [by left| |apply connectedAgent_mute|done].
    apply (framed_step mute _ _ w) in E as [?|(h & w4 & _ & H4 & E)]; [by left| |apply acquire_mute|done].
    apply try_finally_release in E as (w5 & E & Hq). eapply call_ends_after; [done|].
    eapply call_ends_before; [done|]. by eapply replace_locked_cases.
  - unfold removeContainer in E.
    apply (framed_step mute _ _ w) in E as [?|(target & w1 & _ & H1 & E)];
      [by left| |apply mutable_mute|reflexivity].
    apply (framed_step mute _ _ w) in E as [?|(agentId & w2 & _ & H2 & E)];
      [by left| |apply connectedAgent_mute|done].
    apply (framed_step mute _ _ w) in E as [?|(h & w4 & _ & H4 & E)]; [by left| |apply acquire_mute|done].
    apply try_finally_release in E as (w5 & E & Hq). eapply call_ends_after; [done|].
    eapply call_ends_before; [done|]. by eapply remove_locked_cases.
Qed.
End lemmas.

(** *** Asking the agent and establishing what happened *)

Lemma outcomeUnknown_mute {A} op code : framed mute (outcomeUnknown (A := A) op code).
Proof. unfold outcomeUnknown, audit_dispatched. pose proof audit_mute. frame. Qed.

Lemma report_mute op decision failure : framed mute (report op decision failure).
Proof. repeat apply framed_both; unfold report, audit_dispatched, audit_record, events_record; frame. Qed.

(** A report of success, and what it says. *)
Lemma report_inr op decision failure w out w' :
  report op decision failure w = (inr out, w') →
  is_success decision = true ∧ managed_actionId out = dispatched_actionId op ?? "" ∧
  managed_containerId out = dispatched_containerId op ∧
  managed_dockerId out = (r ← containers (w_db w) !! dispatched_containerId op; container_dockerId r) ∧
  managed_state out = container_state <$> containers (w_db w) !! dispatched_containerId op.
Proof.
  unfold report. intros E. apply bind_inr in E as (container & w1 & [-> _]%select_id_inr & E).
  apply bind_inr in E as (u & w2 & _ & E). destruct (is_success decision) eqn:Es.
  - apply bind_inr in E as (v & w3 & _ & [-> _]%ret_inr). done.
  - by destruct decision.
Qed.

Lemma runOperation_cases op w r w' :
  runOperation op w = (r, w') →
  ∃ w1, w_db w1 = w_db w ∧ (w_outbox w1 = w_outbox w ∨ w_outbox w1 = w_outbox w ++
      [{| sent_agent := dispatched_agentId op; sent_capability := CAPABILITY (dispatched_operation op);
          sent_plan := dispatched_payload op; sent_db := w_db w |}]) ∧
    (mute w1 w' ∧ (∃ e, r = inl e) ∨
     (∃ e, r = inl e ∧ reconcileAndFinalize (pending_of op) w1 = (inl e, w')) ∨
     ∃ decision failure w2, reconcileAndFinalize (pending_of op) w1 = (inr decision, w2) ∧
       report op decision failure w2 = (r, w')).
Proof.
  intros E. unfold runOperation in E. set (asked := try_catch _ _) in E.
  assert (Ha : ∃ x w1, asked w = (inr x, w1) ∧ ∃ r0, request (dispatched_agentId op)
    (CAPABILITY (dispatched_operation op)) (dispatched_payload op) w = (r0, w1)).
  { unfold asked, try_catch, mbind, M_bind.
    destruct (request _ _ _ w) as [[e|p] w1]; [|by eauto 6]. destruct (mem _ _); by eauto 6. }
  destruct Ha as (x & w1 & Ex & r0 & [Hd Ho]%request_cases).
  rewrite (run_bind _ _ _ _ _ Ex) in E. exists w1. split_and!; [done|done|].
  destruct x as [code|failure].
  - left. split; [by apply (framed_run _ _ _ _ _ (outcomeUnknown_mute _ _)) in E|].
    unfold outcomeUnknown in E. by apply bind_throws in E as (? & _ & ?); [|eexists].
  - right. apply bind_cases in E as [(e & -> & E)|(decision & w2 & E2 & E)]; [left|right]; eauto.
Qed.

(** The actions after a settlement: the one it is about is closed. *)
Lemma settled_closes op d decision at_ aid a d' :
  db_ok d → pending_actionId op = Some aid → aid ≠ "" → actions d !! aid = Some a →
  is_no_action decision = false → untrailed d' = untrailed (settled (context_at op d) decision at_ d) →
  actions d' = <[aid := finish (decision_status decision)
    (decision_code (pending_operation op) decision) at_ a]> (actions d).
Proof.
  intros Hok Hid Hne Ha Hn Hd. apply (f_equal actions) in Hd. simpl in Hd. rewrite Hd.
  rewrite settled_actions by done. apply map_eq. intros i.
  rewrite (finished_lookup _ _ _ _ _ aid) by done. simpl. case_bool_decide as Hi.
  - subst i. by rewrite Ha, lookup_insert_eq.
  - by rewrite lookup_insert_ne.
Qed.

Lemma unaudited_untrailed d d' : unaudited d = unaudited d' → untrailed d = untrailed d'.
Proof.
  intros E. change ((unaudited d) <| events := ∅ |> = (unaudited d') <| events := ∅ |>). by rewrite E.
Qed.

(** Dispatching an operation whose action is open: nothing is concluded and it is
    still open, or it was settled as a reading of the host says; and a call that
    comes back with a value was settled as a success. *)
Lemma runOperation_established op aid a w r w' :
  db_ok (w_db w) → dispatched_actionId op = Some aid → aid ≠ "" →
  actions (w_db w) !! aid = Some a → is_open a = true → runOperation op w = (r, w') →
  (∃ e, r = inl e) ∧ actions (w_db w') = actions (w_db w) ∨
  ∃ decision d, established (pending_of op) decision (w_db w) d ∧
    untrailed (w_db w') = untrailed d ∧
    ∀ out, r = inr out → is_success decision = true ∧
      managed_actionId out = aid ∧ managed_containerId out = dispatched_containerId op ∧
      managed_dockerId out =
        (r ← containers (w_db w') !! dispatched_containerId op; container_dockerId r).
Proof.
  intros Hok Haid Hne Ha Ho E.
  apply runOperation_cases in E as (w1 & Hd & _ & [[Hm Hr]|[(e & -> & E)|(decision & failure & w2 & E & Er)]]).
  - left. split; [done|]. apply mute_keeps in Hm as [-> _]. by rewrite Hd.
  - rewrite <-Hd in *. eapply reconcile_established in E as [[Hact _]|(decision & He & _)];
      [left; by eauto| |done..].
    right. exists decision, (w_db w'). by split_and!.
  - rewrite <-Hd in *. apply (framed_run _ _ _ _ _ (report_mute _ _ _)) in Er as Hm.
    assert (Ht : untrailed (w_db w') = untrailed (w_db w2)) by apply Hm.
    apply mute_keeps in Hm as (Ham & Hcm & _).
    assert (Hout : ∀ out, r = inr out → is_success decision = true ∧ managed_actionId out = aid ∧
      managed_containerId out = dispatched_containerId op ∧ managed_dockerId out =
        (r ← containers (w_db w') !! dispatched_containerId op; container_dockerId r)).
    { intros out ->. apply report_inr in Er as (Hs & H1 & H2 & H3 & _). rewrite Haid in H1.
      split_and!; try done. by rewrite Hcm. }
    eapply reconcile_established in E as [[Hact Hs]|(decision' & He & Hx)]; [| |done..].
    + left. split; [|congruence]. destruct r as [e|out]; [by eauto|].
      destruct (Hout out eq_refl) as [Hf _]. by rewrite (Hs decision eq_refl) in Hf.
    + right. rewrite <-(Hx decision eq_refl) in He. by exists decision, (w_db w2).
Qed.

(** *** A reading adds no configuration *)

Definition shrinks : relation DB := λ d d',
  containerDesiredConfigs d' ⊆ containerDesiredConfigs d.

#[local] Instance shrinks_preorder : PreOrder shrinks.
Proof. unfold shrinks. split; [by intros d|]. intros d1 d2 d3 H1 H2. by etrans. Qed.

#[local] Hint Extern 3 (framed (on_db shrinks) (insert_into _)) =>
  apply framed_insert; [apply _|intros; unfold shrinks; reflexivity] : frames.
#[local] Hint Extern 3 (framed (on_db shrinks) (update_id _ _)) =>
  apply framed_update; [apply _|intros; unfold shrinks; reflexivity] : frames.
#[local] Hint Extern 3 (framed (on_db shrinks) (delete_from _)) =>
  apply framed_delete; [apply _|intros d; unfold shrinks; simpl;
    first [reflexivity|apply drop_rows_subseteq]] : frames.

Lemma sync_shrinks agentId : framed (on_db shrinks) (sync agentId).
Proof. open_sync. frame. Qed.

Lemma passes_shrinks hostId d d' : passes hostId d d' → shrinks d d'.
Proof.
  intros (w & r & w' & E & <- & <-). pose proof sync_shrinks as Hs.
  assert (Hf : framed (on_db shrinks) (resync hostId)) by (unfold resync; frame).
  by apply (framed_run _ _ _ _ _ Hf) in E.
Qed.

Lemma passes_ok hostId d d' : passes hostId d d' → actions d' = actions d ∧ (db_ok d → db_ok d').
Proof. intros (w & r & w' & E & <- & <-). by apply resync_decided in E. Qed.

(** At most one configuration of a container is pending. *)
Lemma pending_unique d i j c c' :
  db_ok d → containerDesiredConfigs d !! i = Some c → containerDesiredConfigs d !! j = Some c' →
  config_state c = "pending" → config_state c' = "pending" →
  config_containerId c = config_containerId c' → i = j.
Proof.
  intros Hok Hi Hj Hc Hc' Hcc. destruct (db_ok_rows (R := DesiredConfig) _ Hok) as [_ Hu].
  rewrite Forall_forall in Hu.
  refine (Hu ("container_desired_pending_unique", _) _ i j c c' [config_containerId c] Hi Hj _ _);
    [by right; left| |]; simpl; rewrite bool_decide_eq_true_2 by done; [done|by rewrite Hcc].
Qed.

(** What a promotion leaves: the container that was read runs the candidate, and
    the candidate is what the container is meant to be. *)
Lemma established_promoted op decision d0 d cid cfg :
  db_ok d0 → established op decision d0 d → is_success decision = true →
  pending_operation op ≠ remove →
  containerDesiredConfigs d0 !! cid = Some cfg → config_state cfg = "pending" →
  config_containerId cfg = pending_containerId op →
  containerDesiredConfigs d !! cid = Some (promoted_config cfg) ∧
  ∃ row docker, containers d !! pending_containerId op = Some row ∧
    container_dockerId row = Some docker ∧ docker ≠ "" ∧
    container_observedDesiredConfigId row = Some cid.
Proof.
  intros Hok (complete & read & at_ & Hp & _ & -> & Hn & Hu) Hs Hop Hcid Hpend Hcont.
  pose proof (passes_shrinks _ _ _ Hp) as Hsub. apply passes_ok in Hp as [_ Hok1].
  specialize (Hok1 Hok).
  pose proof (classifyRecovery_sound (evidence (pending_operation op)
    (containers read !! pending_containerId op)
    (select_where (config_of_container (pending_containerId op)) read) complete)) as Hspec.
  unfold decision_at in *. destruct (classifyRecovery _) as [id| | | | | |]; simpl in Hs; try done;
    simpl in Hspec; [|by destruct Hspec as (_ & ? & _)].
  destruct Hspec as (_ & _ & Hne & Hpid & docker & Hcl).
  apply fmap_Some in Hpid as (c0 & Hf & ->). apply find_first_Some in Hf as [Hin Hst].
  apply bool_decide_eq_true in Hst. apply elem_of_select_where in Hin as [[j Hj] Hc0].
  apply bool_decide_eq_true in Hc0. simpl in Hj.
  assert (Hk : config_id c0 = j) by exact (proj1 (db_ok_rows (R := DesiredConfig) _ Hok1) _ _ Hj).
  assert (j = cid) as ->.
  { eapply pending_unique; [exact Hok|by eapply lookup_weaken|exact Hcid|done|done|congruence]. }
  assert (c0 = cfg) as -> by (eapply lookup_weaken in Hj; [|exact Hsub]; congruence).
  rewrite Hk in *. pose proof (f_equal containerDesiredConfigs Hu) as Hcfg.
  apply (f_equal containers) in Hu. simpl in Hu, Hcfg. rewrite finished_configs in Hcfg. rewrite Hcfg, Hu.
  split.
  - simpl. apply promoted_configs_lookup; [done|].
    apply (pending_config_true _ _ _ (db_ok_rows (R := DesiredConfig) _ Hok1) Hj Hpend).
  - rewrite finished_containers. simpl.
    destruct (containers read !! _) as [row|]; [|done]. unfold evidence, claims_of in Hcl. simpl in Hcl.
    destruct (truthy (container_dockerId row)) eqn:Et; [|done].
    apply truthy_Some in Et as (x & Hx & Hxne). exists row, x. by simplify_eq.
Qed.

(** What a finished removal leaves: nothing. *)
Lemma established_removed op decision d0 d :
  db_ok d0 → established op decision d0 d → is_success decision = true →
  pending_operation op = remove → containers d !! pending_containerId op = None.
Proof.
  intros Hok (complete & read & at_ & Hp & _ & -> & Hn & Hu) Hs Hop.
  apply passes_ok in Hp as [_ Hok1]. specialize (Hok1 Hok).
  pose proof (classifyRecovery_sound (evidence (pending_operation op)
    (containers read !! pending_containerId op)
    (select_where (config_of_container (pending_containerId op)) read) complete)) as Hspec.
  unfold decision_at in *. destruct (classifyRecovery _); simpl in Hs; try done; simpl in Hspec;
    [by destruct Hspec as (_ & ? & _)|].
  apply (f_equal containers) in Hu. simpl in Hu. rewrite finished_containers in Hu. rewrite Hu. simpl.
  rewrite lookup_drop_rows. destruct (containers read !! _) as [row|] eqn:Er; simpl; [|done].
  pose proof (proj1 (db_ok_rows (R := Container) _ Hok1) _ _ Er) as Hk. simpl in Hk.
  unfold of_container. by rewrite bool_decide_eq_true_2.
Qed.

Section theorems.
Context `{AesGcm} (box : list ascii).

(** The action a call opened, for the operation it asked for. *)
Definition opened (c : Command) (op : PendingOperation) (aid : string) (a : Action) : Prop :=
  pending_operation op = command_operation c ∧ pending_actionId op = Some aid ∧
  action_status a = Action_running ∧ action_capability a = CAPABILITY (command_operation c) ∧
  action_targetType a = Some "container" ∧ action_targetId a = Some (pending_containerId op).


(** C9: what a call reports as done is done.  When creating or replacing returns
    normally, the resource has a Docker container, the one reported, that says it
    runs a configuration that is the current one and is exactly the one
    requested; a created resource is one that did not exist before.  When removing
    returns normally the resource is gone. *)
Theorem manage_does_as_asked c actor context w out w' :
  db_ok (w_db w) → perform box c actor context w = (inr out, w') →
  match command_configuration c with
  | Some request => ∃ cid row docker,
      containers (w_db w') !! managed_containerId out = Some row ∧
      container_dockerId row = Some docker ∧ docker ≠ "" ∧ managed_dockerId out = Some docker ∧
      container_observedDesiredConfigId row = Some cid ∧
      containerDesiredConfigs (w_db w) !! cid = None ∧
      containerDesiredConfigs (w_db w') !! cid =
        Some (configurationOf cid (managed_containerId out) "current" None (Some (actor_id actor)) request)
  | None => containers (w_db w') !! managed_containerId out = None
  end ∧
  match c with
  | Create _ => containers (w_db w) !! managed_containerId out = None
  | Replace id _ | Remove_container id _ => managed_containerId out = id
  end.
Proof.
  intros Hok E. apply perform_cases in E as [[_ [e ?]]|(op & aid & a & w1 & Hw & He)]; [done|].
  destruct Hw as [Hop Haid Hne Hnew Hact Hrun _ _ Hid Hcand Hres _ Hok1]. specialize (Hok1 Hok).
  destruct He as [[_ [e ?]]|(w2 & E & [Hd _])]; [done|].
  apply (runOperation_established _ aid a) in E as [[[e ?] _]|(decision & d & He & Hu & Hout)];
    [done| |done..|by rewrite Hact, lookup_insert_eq|unfold is_open; by rewrite Hrun].
  destruct (Hout out eq_refl) as (Hs & _ & Hcid & Hdocker). rewrite Hd, Hcid, Hdocker.
  pose proof (f_equal containers Hu) as Hcon. pose proof (f_equal containerDesiredConfigs Hu) as Hcfg.
  simpl in Hcon, Hcfg. rewrite Hcon, Hcfg. split.
  - unfold candidate in Hcand. destruct (command_configuration c) as [request|] eqn:Ec.
    + destruct Hcand as (cid & Hnc & Hc1).
      edestruct (established_promoted (pending_of op) decision (w_db w1) d cid) as (H1 & row & docker & H2 & H3 & H4 & H5);
        [done|done|done|simpl; rewrite Hop; by destruct c|by rewrite Hc1, lookup_insert_eq|done|done|].
      exists cid, row, docker. simpl in H2. rewrite H2. simpl. by split_and!.
    + eapply (established_removed (pending_of op)); [done|done|done|]. simpl. rewrite Hop. by destruct c.
  - unfold resource in Hres. destruct c; by destruct Hres.
Qed.

(** An operation is written down before the host is asked for it, and asked
    for once.  Whatever fails, the requests of a call only read the host, except
    for at most one, the operation itself; and when that is sent the database
    already holds a new running action for that container, and the requested
    configuration, pending under that action. *)
Theorem manage_writes_ahead c actor context w r w' :
  perform box c actor context w = (r, w') →
  ∃ asked after, w_outbox w' = w_outbox w ++ asked ++ after ∧ Forall only_reads after ∧
    (asked = [] ∨ ∃ m op aid a, asked = [m] ∧
       sent_capability m = CAPABILITY (command_operation c) ∧ opened c op aid a ∧
       actions (w_db w) !! aid = None ∧ actions (sent_db m) !! aid = Some a ∧
       candidate c actor (pending_containerId op) aid (w_db w) (sent_db m)).
Proof.
  intros E. apply perform_cases in E as [[(_ & _ & _ & Ho & _)%mute_keeps Hr]|(op & aid & a & w1 & Hw & He)].
  { exists [], []. rewrite app_nil_r. auto. }
  destruct Hw as [Hop Haid Hne Hnew Hact Hrun Hcap [Htt Hti] Hid Hcand _ Hsilent _].
  destruct He as [[(_ & _ & _ & Ho & _)%mute_keeps Hr]|(w2 & E & [_ Ho])].
  { exists [], []. rewrite app_nil_r, Ho. auto. }
  rewrite Ho. clear Ho.
  apply runOperation_cases in E as (w3 & _ & Hsent & Hrest).
  assert (Hafter : ∃ after, w_outbox w2 = w_outbox w3 ++ after ∧ Forall only_reads after).
  { destruct Hrest as [[(_ & _ & _ & Ho & _)%mute_keeps _]|[(e & _ & E)|(decision & failure & w4 & E & Er)]].
    - exists []. by rewrite app_nil_r.
    - by apply (framed_run _ _ _ _ _ (reconcile_only_reads _)) in E.
    - apply (framed_run _ _ _ _ _ (report_mute _ _ _)) in Er as (_ & _ & _ & Ho & _)%mute_keeps.
      apply (framed_run _ _ _ _ _ (reconcile_only_reads _)) in E. by rewrite Ho. }
  destruct Hafter as (after & -> & Hf). destruct Hsent as [-> | ->]; rewrite Hsilent.
  - exists [], after. auto.
  - eexists _, after. rewrite <-app_assoc. split_and!; [done|done|right].
    eexists _, (pending_of op), aid, a. split_and!; try done; simpl; try by split_and!.
    + by rewrite Hop.
    + by rewrite Hact, lookup_insert_eq.
Qed.

(** What a container operation has no say in. *)
Definition elsewhere (d : DB) :=
  (host_archivedAt <$> hosts d, agents d, stacks d, stackRevisions d, stackRevisionEnvironment d,
   stackDeployments d, stackOperations d).

#[local] Notation still := (on_db (unchanged elsewhere)).

Lemma sync_elsewhere agentId : framed still (sync agentId).
Proof.
  apply (framed_via decided (λ x, let '(h, a, s, v, e, t, o, _, _) := x in (h, a, s, v, e, t, o))),
    sync_decided.
Qed.

Lemma reconcile_elsewhere op : framed still (reconcileAndFinalize op).
Proof. pose proof sync_elsewhere. open_reconcile. frame. Qed.

#[local] Hint Resolve resolveEnvironment_framed sync_elsewhere reconcile_elsewhere reconcile_same_locks
  reconcile_keeps_db_ok : frames.

Ltac open_manage :=
  unfold create_locked, replace_locked, remove_locked, prepareCreate, prepareReplace, specOf,
    insertAction, insertCandidate, auditRequested, runOperation, outcomeUnknown, report,
    audit_dispatched, audit_record, events_record, dockerId.

Lemma create_locked_frames request hostId agentId actor context :
  framed still (create_locked box request hostId agentId actor context) ∧
  framed (on_db keeps_db_ok) (create_locked box request hostId agentId actor context) ∧
  framed same_locks (create_locked box request hostId agentId actor context).
Proof. split_and!; open_manage; frame. Qed.

Lemma replace_locked_frames containerId request hostId agentId actor context :
  framed still (replace_locked box containerId request hostId agentId actor context) ∧
  framed (on_db keeps_db_ok) (replace_locked box containerId request hostId agentId actor context) ∧
  framed same_locks (replace_locked box containerId request hostId agentId actor context).
Proof. split_and!; open_manage; frame. Qed.

Lemma remove_locked_frames containerId request target agentId actor context :
  framed still (remove_locked containerId request target agentId actor context) ∧
  framed (on_db keeps_db_ok) (remove_locked containerId request target agentId actor context) ∧
  framed same_locks (remove_locked containerId request target agentId actor context).
Proof. split_and!; open_manage; frame. Qed.

Lemma mutable_framed R `{!Frame R} containerId : framed R (mutable containerId).
Proof. apply reads_framed; [done|]. unfold mutable. reads. apply assertOperable_reads. Qed.
#[local] Hint Resolve mutable_framed : frames.

Lemma manage_keeps_db_ok c actor context :
  framed (on_db keeps_db_ok) (perform box c actor context).
Proof.
  destruct c; simpl; unfold createContainer, replaceContainer, removeContainer, host,
    assertNotArchived, connectedAgent, assertNameFree; frame;
    [apply create_locked_frames|apply replace_locked_frames|apply remove_locked_frames].
Qed.

(** Container operations keep to themselves.  Whatever fails, a call leaves
    every stack, revision, attempt and operation of a stack, every agent and the
    archiving of hosts as they were, holds the locks that were held before, and
    keeps the database invariant. *)
Theorem manage_keeps_invariants c actor context w :
  let w' := (perform box c actor context w).2 in
  elsewhere (w_db w') = elsewhere (w_db w) ∧
  (registry_ok (w_registry w) →
     registry_ok (w_registry w') ∧ held (w_registry w') = held (w_registry w)) ∧
  (db_ok (w_db w) → db_ok (w_db w')).
Proof.
  simpl. split_and!.
  - enough (framed still (perform box c actor context)) as Hf by apply Hf.
    destruct c; simpl; unfold createContainer, replaceContainer, removeContainer, host,
      assertNotArchived, connectedAgent, assertNameFree; frame;
      [apply create_locked_frames|apply replace_locked_frames|apply remove_locked_frames].
  - enough (framed balanced (perform box c actor context)) as Hf by apply Hf.
    destruct c; simpl; unfold createContainer, replaceContainer, removeContainer, host,
      assertNotArchived, connectedAgent, assertNameFree;
      repeat ((apply framed_with_lock; [done|intros ?]) || frame_step);
      [apply create_locked_frames|apply replace_locked_frames|apply remove_locked_frames].
  - apply manage_keeps_db_ok.
Qed.
End theorems.

(** ** A container created on [h1] *)

#[local] Existing Instance clear_cipher.

Definition web : RequestedConfiguration := {|
  requested_image := "nginx"; requested_hostname := None; requested_command := None;
  requested_entrypoint := None; requested_ports := []; requested_mounts := [];
  requested_networks := []; requested_restartPolicy := "no"; requested_labels := [];
  requested_healthcheck := None; requested_environment := [Set_secret "TOKEN" "t"] |}.

Definition create_web : CreateContainerRequest :=
  {| create_hostId := "h1"; create_name := "web"; create_configuration := web |}.

(** What the agent labels the container of resource [id] and configuration [config] with. *)
Definition web_report (id config : string) : ContainerSummary :=
  Discovery.report "d7" {[DOCKPLANE_MANAGED := "true"; DOCKPLANE_CONTAINER_ID := id;
                          DOCKPLANE_DESIRED_CONFIG_ID := config]}.

(** The agent says it is done and the host shows the container. *)
Definition web_made : World := (quiet_world two_hosts)
  <| w_replies := Replied Payload_other :: answers [web_report (uuid 1) (uuid 4)] |>.

Definition made := perform [] (Create create_web) operator from_ui web_made.

Example create_is_seen :
  managed_dockerId <$> match made.1 with inr out => Some out | inl _ => None end = Some (Some "d7") ∧
  (config_state <$> containerDesiredConfigs (w_db made.2) !! uuid 4) = Some "current".
Proof. by vm_compute. Qed.

(** The agent says it is done and the host shows nothing new. *)
Example create_not_believed :
  (createContainer [] create_web operator from_ui ((quiet_world two_hosts)
    <| w_replies := Replied Payload_other :: answers [] |>)).1 =
  inl (AppError "CONTAINER_CREATE_FAILED" CONFLICT).
Proof. by vm_compute. Qed.

Lemma made_done : match made.1 with inr _ => true | inl _ => false end = true.
Proof. by vm_compute. Qed.


Lemma manage_does_as_asked_witness :
  ∃ id cid row, containers (w_db made.2) !! id = Some row ∧ containers two_hosts !! id = None ∧
    containerDesiredConfigs (w_db made.2) !! cid =
      Some (configurationOf cid id "current" None (Some "u1") web).
Proof.
  pose proof made_done as Hr.
  pose proof (λ out w', manage_does_as_asked [] (Create create_web) operator from_ui web_made out w'
    two_hosts_ok) as H. fold made in H.
  revert Hr H. generalize made. intros [[e|out] w'] Hr H; [done|].
  destruct (H out w' eq_refl) as [(cid & row & docker & H1 & _ & _ & _ & _ & _ & H2) H3].
  exists (managed_containerId out), cid, row. split_and!; [exact H1|exact H3|exact H2].
Defined.

Example create_asks_first :
  head (sent_capability <$> w_outbox made.2) = Some "container.create".
Proof. by vm_compute. Qed.

Lemma manage_writes_ahead_witness :
  ∃ m op aid a, m ∈ w_outbox made.2 ∧ opened (Create create_web) op aid a ∧
    actions (sent_db m) !! aid = Some a.
Proof.
  pose proof create_asks_first as Ho.
  pose proof (manage_writes_ahead [] (Create create_web) operator from_ui web_made _ _
    (surjective_pairing _)) as H. fold made in H.
  revert Ho H. generalize made. intros [r w']. change (w_outbox web_made) with (@nil Sent). unfold fst, snd.
  intros Ho (asked & after & Hw & Hf & Hm). rewrite app_nil_l in Hw. rewrite Hw in *.
  destruct Hm as [->|(m & op & aid & a & -> & _ & Hop & _ & Ha & _)].
  - exfalso. destruct Hf as [|x l Hx _]; [done|]. injection Ho as Hx'. unfold only_reads in Hx.
    rewrite Hx' in Hx. by apply (bool_decide_pack _) in Hx.
  - exists m, op, aid, a. split_and!; [set_solver|done|done].
Defined.

Lemma manage_keeps_invariants_witness :
  held (w_registry made.2) = ∅ ∧ db_ok (w_db made.2).
Proof.
  destruct (manage_keeps_invariants [] (Create create_web) operator from_ui web_made) as (_ & Hl & Hd).
  split; [apply Hl, empty_registry_ok|apply Hd, two_hosts_ok].
Defined.

(** *** Recovering one that lost its answer *)

(** The agent never answered; later the host is read and shows the container. *)
Definition lost : World :=
  (perform [] (Create create_web) operator from_ui (quiet_world two_hosts)).2
    <| w_replies := answers [web_report (uuid 1) (uuid 4)] |>.

Example create_outcome_unknown :
  (createContainer [] create_web operator from_ui (quiet_world two_hosts)).1 =
    inl (AppError "OPERATION_OUTCOME_UNKNOWN" SERVICE_UNAVAILABLE) ∧
  (is_open <$> actions (w_db lost) !! uuid 2) = Some true.
Proof. by vm_compute. Qed.

Lemma lost_ok : db_ok (w_db lost).
Proof.
  pose proof (manage_keeps_db_ok [] (Create create_web) operator from_ui (quiet_world two_hosts)
    two_hosts_ok) as H. revert H. unfold lost. generalize (perform [] (Create create_web) operator from_ui
    (quiet_world two_hosts)). intros [r w'] H. exact H.
Qed.

Definition found := recoverHost "h1" lost.

Example found_succeeds :
  (action_status <$> actions (w_db found.2) !! uuid 2) = Some Action_succeeded ∧
  (action_status <$> actions (w_db lost) !! uuid 2) = Some Action_running.
Proof. by vm_compute. Qed.

Lemma recoverHost_follows_reading_witness :
  rtc (reconcile_step "h1" (w_registry lost) (unresolved "h1" (w_db lost))) (w_db lost) (w_db found.2) ∧
  w_db found.2 ≠ w_db lost.
Proof.
  pose proof found_succeeds as Hs.
  pose proof (recoverHost_follows_reading "h1" lost _ _ (surjective_pairing _)) as H. fold found in H.
  revert Hs H. generalize found lost (uuid 2). intros p l i [H1 H2] [Hs _]. split; [exact Hs|].
  intros Heq. rewrite Heq in H1. congruence.
Defined.

Lemma recoverHost_closes_abandoned_witness :
  ∃ op d, op ∈ unresolved "h1" (w_db lost) ∧ has_read "h1" true d ∧ shows_done op d.
Proof.
  pose proof found_succeeds as Hs.
  pose proof (λ a', recoverHost_closes_abandoned "h1" lost _ _ (uuid 2) a' lost_ok
    (surjective_pairing _)) as H. fold found in H.
  revert Hs H. generalize found lost (uuid 2). intros p l i [H1 H2] H.
  apply fmap_Some in H1 as (a' & Ha' & Hst).
  destruct (H a' Ha') as [Ha|(a & op & _ & _ & _ & Hop & _ & _ & Hs)].
  - exfalso. rewrite Ha in H2. injection H2 as H2. congruence.
  - destruct (Hs (eq_sym Hst)) as (d & Hd & Hsh). by exists op, d.
Defined.

(** *** Recovery and a creation that is still running *)

(** The request has taken its lock and written everything down, and is about to
    ask the agent, or waits for its answer. *)
Definition creating :=
  (acquire_lock (nameKey "h1" "web") "create" ≫= λ _,
     prepareCreate [] create_web "h1" operator from_ui) (quiet_world two_hosts).

(** What a scheduled pass over that host does meanwhile. *)
Definition overtaken := recoverHost "h1" (creating.2 <| w_replies := answers [] |>).

(** Recovery discards a creation that is still running.  A creation holds the
    lock of the name it was given, and recovery asks whether the id of the
    container is locked, which nobody holds: a pass over the host while the agent
    is still creating the container deletes the resource with its configuration
    and records the creation as failed, although its owner is alive and the agent
    is still at work. *)
Theorem recovery_discards_live_create :
  isBusy (nameKey "h1" "web") (w_registry creating.2) = true ∧
  (action_status <$> actions (w_db creating.2) !! uuid 2) = Some Action_running ∧
  is_Some (containers (w_db creating.2) !! uuid 1) ∧
  w_registry overtaken.2 = w_registry creating.2 ∧
  (action_errorCode <$> actions (w_db overtaken.2) !! uuid 2) = Some (Some "CONTAINER_CREATE_FAILED") ∧
  containers (w_db overtaken.2) !! uuid 1 = None ∧
  containerDesiredConfigs (w_db overtaken.2) !! uuid 4 = None.
Proof. vm_compute. by split_and!; try eexists. Qed.

(** *** A replacement whose container disappeared *)

Definition vanished := replaceContainer [] (uuid 1)
  {| replace_name := None; replace_configuration := web |} operator from_ui
  (made.2 <| w_replies := Refused "DOCKER_OPERATION_FAILED" :: answers [] |>).

(** A replacement whose container is gone is never settled.  The reading that
    precedes the decision removes the resource, since the host no longer has its
    container, and the pending configuration goes with it; so what is decided is
    that nothing is pending, never that the container is gone entirely, and the
    action stays open: after the call itself, and after every later pass that
    finds the host the same. *)
Theorem replace_of_vanished_stays_open :
  vanished.1 = inl (AppError "OPERATION_OUTCOME_UNKNOWN" SERVICE_UNAVAILABLE) ∧
  containers (w_db vanished.2) !! uuid 1 = None ∧
  let again := recoverHost "h1" (vanished.2 <| w_replies := answers [] |>) in
  again.1 = inr 0 ∧
  (action_status <$> actions (w_db vanished.2) !! uuid 14) = Some Action_running ∧
  (action_status <$> actions (w_db again.2) !! uuid 14) = Some Action_running.
Proof. by vm_compute. Qed.

