(* ===== verification/ContainerLifecycle.v ===== *)
(** * Starting, stopping and restarting a container

    [api/src/operations/lifecycle.service.ts].  [connectedAgent] is the container
    management service's, which this one repeats word for word. *)

From Stdlib Require Import Ascii String NArith ZArith.
From stdpp Require Import gmap strings list pretty.
From S2P Require Import Prelude Semver Schema Store Registry Effects Logic Recovery PendingGuard.
From S2P Require Import RecoveryFinalizer StackClassify StackPlan Base64 Environment Discovery Detail.
From S2P Require Import StackDeployment Reconciliation ContainerManagement.

(** ** Data *)

Inductive Operation := start | stop | restart.

Definition operation_name (o : Operation) : string :=
  match o with start => "start" | stop => "stop" | restart => "restart" end.

(** [OPERATIONS], one function per field. *)
Definition capability (o : Operation) : string := "container." +:+ operation_name o.
Definition requested (o : Operation) : string := capability o +:+ ".requested".
Definition succeeded (o : Operation) : string := capability o +:+ ".succeeded".
Definition failed (o : Operation) : string := capability o +:+ ".failed".
Definition event (o : Operation) : string :=
  match o with
  | start => "container.started" | stop => "container.stopped" | restart => "container.restarted"
  end.

Record ActionOutcome := {
  action_outcome_id : string;
  action_outcome_status : ActionStatus;
  action_outcome_state : option string;
  action_outcome_health : option string;
  action_outcome_observedAt : option time;
  action_outcome_errorCode : option string
}.

Record Target := {
  operated_containerId : string;
  operated_dockerId : string;
  operated_name : string;
  operated_hostId : string
}.

(** What a re-reading of the container said. *)
Record Observed := {
  seen_state : option string;
  seen_health : option string;
  seen_observedAt : option time
}.

(** ** The service *)

(** [containers INNER JOIN hosts] *)
Definition resolve (containerId : string) : M Target :=
  row ← statement (λ d, inr (
    r ← containers d !! containerId; h ← hosts d !! container_hostId r; Some (r, h), d));
  match row with
  | None => notFound "CONTAINER_NOT_FOUND"
  | Some (row, host) =>
      assertNotArchived (host_archivedAt host);;
      if truthy (container_dockerId row)
      then mret {| operated_containerId := container_id row;
                   operated_dockerId := container_dockerId row ?? "";
                   operated_name := container_name row;
                   operated_hostId := container_hostId row |}
      else notFound "CONTAINER_NOT_FOUND"
  end.

Section lifecycle.
Context `{Dates}.

Definition text_field (v : json) (key : string) : option string :=
  match get v key with Some (JString s) => Some s | _ => None end.

Definition reconcile (target : Target) : M (option Observed) :=
  try_catch
    (detail ← containerDetail (operated_containerId target) true;
     mret (Some {| seen_state := text_field (view_detail detail) "state";
                   seen_health := text_field (view_detail detail) "health";
                   seen_observedAt := view_observedAt detail |}))
    (λ _, mret None).

Definition audit_action (action : string) (result : AuditResult) (target : Target) (reason : string)
    (actor : AuthenticatedUser) (context : RequestContext) : M unit :=
  audit_record {|
    entry_action := action; entry_result := result;
    entry_actorUserId := Some (actor_id actor); entry_actorLabel := actor_email actor;
    entry_targetType := Some "container"; entry_targetId := Some (operated_containerId target);
    entry_targetLabel := Some (operated_name target); entry_reasonCode := Some reason;
    entry_sourceIp := context_sourceIp context; entry_userAgent := context_userAgent context |}.

(** [AgentResult] *)
Definition result_state (p : Payload) : option string :=
  match p with Payload_result state _ => state | _ => None end.
Definition result_health (p : Payload) : option string :=
  match p with Payload_result _ health => health | _ => None end.

Definition succeed (actionId : string) (operation : Operation) (target : Target)
    (actor : AuthenticatedUser) (context : RequestContext) (result : Payload) : M ActionOutcome :=
  completedAt ← now;
  update_id (R := Action) actionId
    (λ a, a <| action_status := Action_succeeded |> <| action_completedAt := Some completedAt |>);;
  audit_action (succeeded operation) Audit_success target actionId actor context;;
  events_record (Some (operated_hostId target)) (event operation) Severity_info
    ("container:" +:+ operated_dockerId target) (Some actionId);;
  observed ← reconcile target;
  mret {| action_outcome_id := actionId; action_outcome_status := Action_succeeded;
          action_outcome_state := or_null (o ← observed; seen_state o) (result_state result);
          action_outcome_health := or_null (o ← observed; seen_health o) (result_health result);
          action_outcome_observedAt := or_null (o ← observed; seen_observedAt o) (Some completedAt);
          action_outcome_errorCode := None |}.

Definition fail (actionId : string) (operation : Operation) (target : Target)
    (actor : AuthenticatedUser) (context : RequestContext) (error : exn) : M ActionOutcome :=
  let code := error_code error ?? "DOCKER_OPERATION_FAILED" in
  let timedOut := bool_decide (code = "AGENT_REQUEST_TIMEOUT") in
  at_ ← now;
  update_id (R := Action) actionId
    (λ a, a <| action_status := if timedOut then Action_timed_out else Action_failed |>
            <| action_completedAt := Some at_ |> <| action_errorCode := Some code |>);;
  audit_action (failed operation) Audit_failure target code actor context;;
  if timedOut then
    observed ← reconcile target;
    mret {| action_outcome_id := actionId; action_outcome_status := Action_timed_out;
            action_outcome_state := o ← observed; seen_state o;
            action_outcome_health := o ← observed; seen_health o;
            action_outcome_observedAt := o ← observed; seen_observedAt o;
            action_outcome_errorCode := Some code |}
  else throw (AppError code CONFLICT).

(** What is asked of the agent and written down about its answer. *)
Definition operated (actionId : string) (operation : Operation) (target : Target) (agentId : string)
    (actor : AuthenticatedUser) (context : RequestContext) : M ActionOutcome :=
  try_catch
    (result ← request agentId (capability operation)
       (JObject [("containerId", JString (operated_dockerId target))]);
     succeed actionId operation target actor context result)
    (fail actionId operation target actor context).

Definition run (operation : Operation) (containerId : string) (actor : AuthenticatedUser)
    (context : RequestContext) : M ActionOutcome :=
  assertOperable containerId;;
  target ← resolve containerId;
  agentId ← connectedAgent (operated_hostId target);
  release ← acquire_lock containerId (operation_name operation);
  correlationId ← match context_requestId context with
                  | Some id => mret id
                  | None => randomUUID
                  end;
  requestedAt ← now;
  actionId ← randomUUID;
  insert_into (new_action actionId (capability operation) "container"
    (operated_containerId target) (operated_hostId target) correlationId actor requestedAt);;
  audit_action (requested operation) Audit_success target actionId actor context;;
  try_finally (operated actionId operation target agentId actor context) (release_lock release).
End lifecycle.

(** ** Lemmas *)

(** Neither asking nor being answered. *)
Definition unasked : relation World := λ w w',
  w_replies w' = w_replies w ∧ w_connected w' = w_connected w.

#[local] Instance unasked_off_db : OffDb unasked.
Proof.
  unfold unasked. split; [split; [split|..]|]; try done.
  intros w1 w2 w3 [] []. split; congruence.
Qed.

Lemma acquire_unasked key operation : framed unasked (acquire_lock key operation).
Proof. intros w. unfold acquire_lock. by destruct (acquire _ _ _) as [[]|]. Qed.
#[local] Hint Resolve acquire_unasked : frames.

(** What a closed action records. *)
Definition close_as (status : ActionStatus) (code : option string) (at_ : time) (a : Action) : Action :=
  a <| action_status := status |> <| action_completedAt := Some at_ |> <| action_errorCode := code |>.

(** The status and code an agent's answer, or its absence, is recorded with. *)
Definition answered (reply : option AgentReply) : ActionStatus * option string :=
  match reply with
  | Some (Replied _) => (Action_succeeded, None)
  | None => (Action_timed_out, Some "AGENT_REQUEST_TIMEOUT")
  | Some (Refused code) =>
      (if bool_decide (code = "AGENT_REQUEST_TIMEOUT") then Action_timed_out else Action_failed, Some code)
  | Some Disconnected => (Action_failed, Some "AGENT_NOT_CONNECTED")
  | Some Unsent => (Action_failed, Some "DOCKER_OPERATION_FAILED")
  end.

(** A program whose exceptions are the database's. *)
Definition plain {A} (m : M A) : Prop := ∀ w e w', m w = (inl e, w') → error_code e = None.

Lemma plain_bind {A B} (m : M A) (f : A → M B) : plain m → (∀ a, plain (f a)) → plain (m ≫= f).
Proof.
  intros Hm Hf w e w' [(e' & [= <-] & E)|(a & w1 & _ & E)]%bind_cases; [by eapply Hm|by eapply Hf].
Qed.

Lemma plain_insert `{Table T} (r : T) : plain (insert_into r).
Proof.
  intros w e w' E. unfold insert_into, statement in E.
  destruct (next_fault w); [by simplify_eq|]. destruct (insert_row _ _); by simplify_eq.
Qed.

Lemma plain_update `{Table T} (p : T → bool) f : plain (update p f).
Proof.
  intros w e w' E. unfold update, statement in E.
  destruct (next_fault w); [by simplify_eq|]. destruct (update_where _ _ _) as [|[]]; by simplify_eq.
Qed.

Lemma plain_update_id `{Table T} i (f : T → T) : plain (update_id i f).
Proof. apply plain_update. Qed.

Lemma plain_audit entry : plain (audit_record entry).
Proof. unfold audit_record. repeat (apply plain_bind; [done|intros ?]). apply plain_insert. Qed.

Lemma plain_event h t s res c : plain (events_record h t s res c).
Proof. unfold events_record. repeat (apply plain_bind; [done|intros ?]). apply plain_insert. Qed.

Section lifecycle_lemmas.
Context `{Dates}.

#[local] Notation same_actions := (on_db (unchanged actions)).

Lemma reconcile_actions target : framed same_actions (reconcile target).
Proof.
  unfold reconcile.
  assert (Hd : framed same_actions (containerDetail (operated_containerId target) true)).
  { apply (framed_via undescribed (λ x, let '(_, _, _, _, _, _, _, a, _, _) := x in a)),
      containerDetail_undescribed. }
  frame.
Qed.

Lemma plain_reconcile target : plain (reconcile target).
Proof.
  intros w e w' E. unfold reconcile, try_catch in E.
  match type of E with context [match ?x with _ => _ end] => destruct x as [[] ?] end; done.
Qed.

(** Updating one row, by id. *)
Lemma update_action aid a f w l w' :
  db_ok (w_db w) → actions (w_db w) !! aid = Some a →
  update_id (R := Action) aid f w = (inr l, w') → actions (w_db w') = <[aid := f a]> (actions (w_db w)).
Proof.
  intros Hok Ha E. apply update_id_inr in E as [fs ->]; [|exact (db_ok_rows (R := Action) _ Hok)].
  simpl. apply map_eq. intros i. destruct (decide (i = aid)) as [->|Hi].
  - by rewrite lookup_alter_eq, lookup_insert_eq, Ha.
  - by rewrite lookup_alter_ne, lookup_insert_ne.
Qed.

Lemma audit_action_actions action result target reason actor context :
  framed same_actions (audit_action action result target reason actor context).
Proof. unfold audit_action. apply audit_record_actions. Qed.

Lemma events_actions h t s res c : framed same_actions (events_record h t s res c).
Proof. unfold events_record. frame. Qed.

#[local] Hint Resolve reconcile_actions audit_action_actions events_actions : frames.

(** A success that was recorded, or a database that failed. *)
Lemma succeed_cases aid a operation target actor context result w r w' :
  db_ok (w_db w) → actions (w_db w) !! aid = Some a →
  succeed aid operation target actor context result w = (r, w') →
  (∃ e, r = inl e ∧ error_code e = None) ∧
    (actions (w_db w') = actions (w_db w) ∨
     actions (w_db w') = <[aid := close_as Action_succeeded (action_errorCode a) (w_now w) a]> (actions (w_db w))) ∨
  ∃ out, r = inr out ∧ action_outcome_id out = aid ∧ action_outcome_status out = Action_succeeded ∧
    actions (w_db w') = <[aid := close_as Action_succeeded (action_errorCode a) (w_now w) a]> (actions (w_db w)).
Proof.
  intros Hok Ha E. unfold succeed in E.
  apply bind_cases in E as [(e & -> & E)|(t & w1 & [-> ->]%now_inr & E)]; [done|].
  apply bind_cases in E as [(e & -> & E)|(l & w2 & E2 & E)].
  { left. split; [exists e; split; [done|exact (plain_update_id _ _ _ _ _ E)]|left].
    unfold update_id, update, statement in E. destruct (next_fault w); [by simplify_eq|].
    destruct (update_where _ _ _) as [|[]]; by simplify_eq. }
  eapply update_action in E2; [|done..].
  assert (Hclose : close_as Action_succeeded (action_errorCode a) (w_now w) a =
    a <| action_status := Action_succeeded |> <| action_completedAt := Some (w_now w) |>) by (by destruct a).
  rewrite Hclose.
  match type of E with ?m ?v = _ => assert (Hf : framed same_actions m) by frame; assert (Hp : plain m) end.
  { apply plain_bind; [apply plain_audit|intros ?]. apply plain_bind; [apply plain_event|intros ?].
    apply plain_bind; [apply plain_reconcile|intros ?]. done. }
  rewrite <-E2. apply (framed_run _ _ _ _ _ Hf) in E as Hact. destruct r as [e|out].
  - left. split; [exists e; split; [done|by eapply Hp]|]. right. exact Hact.
  - right. exists out. do 3 apply bind_inr in E as (? & ? & _ & E). apply ret_inr in E as [-> _].
    by split_and!.
Qed.

Lemma fail_cases aid operation target actor context error w r w' a :
  db_ok (w_db w) → actions (w_db w) !! aid = Some a →
  fail aid operation target actor context error w = (r, w') →
  let code := error_code error ?? "DOCKER_OPERATION_FAILED" in
  let status := if bool_decide (code = "AGENT_REQUEST_TIMEOUT") then Action_timed_out else Action_failed in
  (∃ e, r = inl e) ∧ actions (w_db w') = actions (w_db w) ∨
  actions (w_db w') = <[aid := close_as status (Some code) (w_now w) a]> (actions (w_db w)) ∧
    ∀ out, r = inr out → status = Action_timed_out ∧ action_outcome_id out = aid ∧
      action_outcome_status out = status.
Proof.
  intros Hok Ha E code status. unfold fail in E. fold code in E.
  apply bind_cases in E as [(e & -> & E)|(t & w1 & [-> ->]%now_inr & E)]; [done|].
  apply bind_cases in E as [(e & -> & E)|(l & w2 & E2 & E)].
  { left. split; [by eauto|]. unfold update_id, update, statement in E. destruct (next_fault w); [by simplify_eq|].
    destruct (update_where _ _ _) as [|[]]; by simplify_eq. }
  right. eapply update_action in E2; [|done..].
  match type of E with ?m ?v = _ => assert (Hf : framed same_actions m) by frame end.
  apply (framed_run _ _ _ _ _ Hf) in E as Hact. unfold on_db, unchanged in Hact. rewrite Hact, E2.
  split; [done|]. intros out ->. subst status. apply bind_inr in E as (u & w3 & _ & E).
  case_bool_decide; [|done]. apply bind_inr in E as (o & w4 & _ & [-> _]%ret_inr). done.
Qed.

Lemma request_answers agentId capability plan w r w' :
  agentId ∈ w_connected w → request agentId capability plan w = (r, w') →
  w_db w' = w_db w ∧
  match r with
  | inr p => head (w_replies w) = Some (Replied p)
  | inl e => (∀ p, head (w_replies w) ≠ Some (Replied p)) ∧
      let code := error_code e ?? "DOCKER_OPERATION_FAILED" in
      answered (head (w_replies w)) =
        (if bool_decide (code = "AGENT_REQUEST_TIMEOUT") then Action_timed_out else Action_failed, Some code)
  end.
Proof.
  intros Hc E. unfold request in E. rewrite bool_decide_eq_true_2 in E by done.
  destruct (head (w_replies w)) as [[]|]; simplify_eq/=; done.
Qed.

(** How an action that was opened ends, given what the agent answered. *)
Definition concluded (aid : string) (a : Action) (reply : option AgentReply)
    (r : exn + ActionOutcome) (t t' : gmap string Action) : Prop :=
  (∃ e, r = inl e) ∧ t' = t ∨
  ∃ status code at_, t' = <[aid := close_as status code at_ a]> t ∧
    ((status, code) = answered reply ∧
       (∀ out, r = inr out → action_outcome_id out = aid ∧ action_outcome_status out = status) ∨
     (∃ p, reply = Some (Replied p)) ∧ (∃ e, r = inl e) ∧
       status = Action_failed ∧ code = Some "DOCKER_OPERATION_FAILED").

Lemma close_again status code at_ status' code' at' a :
  close_as status code at_ (close_as status' code' at' a) = close_as status code at_ a.
Proof. by destruct a. Qed.

Lemma operated_concluded aid a operation target agentId actor context w r w' :
  db_ok (w_db w) → actions (w_db w) !! aid = Some a → action_errorCode a = None →
  agentId ∈ w_connected w → operated aid operation target agentId actor context w = (r, w') →
  concluded aid a (head (w_replies w)) r (actions (w_db w)) (actions (w_db w')).
Proof.
  intros Hok Ha Hcode Hc E. unfold operated in E.
  unfold try_catch, mbind, M_bind in E.
  destruct (request _ _ _ w) as [[e|p] w1] eqn:Er; apply request_answers in Er as [Hd Hr]; try done.
  - rewrite <-Hd in Hok, Ha. apply (fail_cases _ _ _ _ _ _ _ _ _ a) in E; [|done..]. simpl in E.
    destruct Hr as [_ Hans]. rewrite <-Hd. destruct E as [?|[Hact Hout]]; [by left|right].
    eexists _, _, _. split; [exact Hact|]. left. rewrite Hans. split; [done|]. intros out Ho.
    by destruct (Hout out Ho) as (_ & ? & ?).
  - rewrite <-Hd in *. assert (Hok1 : framed (on_db keeps_db_ok) (succeed aid operation target actor context p)).
    { unfold succeed, audit_action, audit_record, events_record, reconcile.
      pose proof containerDetail_keeps_db_ok. frame. }
    destruct (succeed _ _ _ _ _ _ w1) as [[e|out] w2] eqn:Es;
      apply (framed_run _ _ _ _ _ Hok1) in Es as Hok2; specialize (Hok2 Hok);
      apply (succeed_cases _ a) in Es; try done.
    + destruct Es as [[(e' & [= <-] & He) Hact]|(out & ? & _)]; [|done].
      assert (Ha2 : ∃ a2, actions (w_db w2) !! aid = Some a2 ∧
        ∀ s c t, close_as s c t a2 = close_as s c t a).
      { destruct Hact as [-> | ->]; [by exists a|]. eexists. rewrite lookup_insert_eq.
        split; [done|]. intros. apply close_again. }
      destruct Ha2 as (a2 & Ha2 & Hcl).
      assert (Hins : ∀ x, <[aid := x]> (actions (w_db w2)) = <[aid := x]> (actions (w_db w1))).
      { intros x. destruct Hact as [-> | ->]; [done|]. apply insert_insert_eq. }
      apply (fail_cases _ _ _ _ _ _ _ _ _ a2) in E; [|done..]. rewrite He in E. simpl in E.
      destruct E as [[He' Hact']|[Hact' Hout]].
      * destruct Hact as [Hact|Hact]; [left; split; [done|congruence]|right].
        eexists _, _, _. split; [by rewrite Hact', Hact, Hcode|]. left. rewrite Hr.
        split; [done|]. destruct He' as [? ->]. done.
      * right. eexists _, _, _. split; [by rewrite Hact', Hins, Hcl|]. right.
        split_and!; [by eexists|destruct r as [|out]; [by eauto|by destruct (Hout out eq_refl)]|done|done].
    + destruct Es as [[(? & ? & _) _]|(out' & [= <-] & H1 & H2 & Hact)]; [done|]. simplify_eq. right.
      eexists _, _, _. split; [by rewrite Hact, Hcode|]. left. rewrite Hr. split; [done|].
      by intros out0 [= <-].
Qed.

#[local] Notation looking_on :=
  (both same_actions (both (on_db keeps_db_ok) unasked)).

#[local] Instance looking_on_frame : Frame looking_on := _.

Lemma looking_on_ends w w' :
  looking_on w w' → actions (w_db w') = actions (w_db w) ∧ (db_ok (w_db w) → db_ok (w_db w')) ∧
    w_replies w' = w_replies w ∧ w_connected w' = w_connected w.
Proof. intros (H1 & H2 & H3 & H4). by split_and!. Qed.

Lemma looking_on_reads {A} (m : M A) : reads m → framed looking_on m.
Proof. apply reads_framed, _. Qed.

Lemma resolve_looking containerId : framed looking_on (resolve containerId).
Proof. unfold resolve, assertNotArchived. frame. Qed.

Lemma connectedAgent_looking hostId : framed looking_on (connectedAgent hostId).
Proof. unfold connectedAgent. frame. Qed.

Lemma acquire_looking key operation : framed looking_on (acquire_lock key operation).
Proof. apply framed_both; [frame|apply framed_both; [frame|apply acquire_unasked]]. Qed.

Lemma audit_looking action result target reason actor context :
  framed looking_on (audit_action action result target reason actor context).
Proof.
  apply framed_both; [apply audit_action_actions|apply framed_both]; unfold audit_action, audit_record; frame.
Qed.

Lemma connectedAgent_inr hostId w agentId w' :
  connectedAgent hostId w = (inr agentId, w') → agentId ∈ w_connected w'.
Proof.
  intros E. unfold connectedAgent in E. apply bind_inr in E as (o & w0 & _ & E).
  destruct o as [agent|]; [|done]. apply bind_inr in E as (b & w1 & E1 & E).
  unfold isConnected in E1. simplify_eq/=. case_bool_decide; [|done]. by apply ret_inr in E as [-> ->].
Qed.

(** The action a call opens. *)
Definition opens (operation : Operation) (a : Action) : Prop :=
  action_status a = Action_running ∧ action_capability a = capability operation ∧
  action_targetType a = Some "container" ∧ action_errorCode a = None ∧ action_completedAt a = None.

(** Starting, stopping or restarting a container records what the agent
    answered.  Whatever fails, a call opens no action and throws; or it opens one
    and throws, leaving it running; or it closes the one it opened with exactly
    the status and code the agent's answer calls for, and a call that returns
    reports that status; or, when the agent answered that it is done and the
    database failed afterwards, the action is closed as failed.  No other action
    is changed. *)
Theorem run_records_answer operation containerId actor context w r w' :
  db_ok (w_db w) → run operation containerId actor context w = (r, w') →
  (∃ e, r = inl e) ∧ actions (w_db w') = actions (w_db w) ∨
  ∃ aid a, actions (w_db w) !! aid = None ∧ opens operation a ∧
    concluded aid a (head (w_replies w)) r (<[aid := a]> (actions (w_db w))) (actions (w_db w')).
Proof.
  intros Hok E. unfold run in E.
  assert (HR : ∀ x, looking_on w x → actions (w_db x) = actions (w_db w)) by (by intros x []).
  apply (framed_step looking_on _ _ w) in E as [[? ?]|(u & w1 & _ & H1 & E)];
    [left; auto| |apply looking_on_reads, assertOperable_reads|reflexivity].
  apply (framed_step looking_on _ _ w) in E as [[? ?]|(target & w2 & _ & H2 & E)];
    [left; auto| |apply resolve_looking|done].
  apply (framed_step looking_on _ _ w) in E as [[? ?]|(agentId & w3 & E3 & H3 & E)];
    [left; auto| |apply connectedAgent_looking|done].
  apply connectedAgent_inr in E3.
  apply (framed_step looking_on _ _ w) in E as [[? ?]|(h & w4 & E4 & H4 & E)];
    [left; auto| |apply acquire_looking|done].
  apply (framed_step looking_on _ _ w) in E as [[? ?]|(corr & w5 & E5 & H5 & E)];
    [left; auto| |destruct (context_requestId context); frame|done].
  apply (framed_step looking_on _ _ w) in E as [[? ?]|(at_ & w6 & E6 & H6 & E)]; [left; auto| |frame|done].
  apply (framed_step looking_on _ _ w) in E as [[? ?]|(aid & w7 & E7 & H7 & E)]; [left; auto| |frame|done].
  apply looking_on_ends in H3 as (_ & _ & _ & Hc3). apply looking_on_ends in H7 as (Ha7 & Hok7 & Hr7 & Hc7).
  specialize (Hok7 Hok).
  apply bind_cases in E as [(e & -> & E)|(v & w8 & E8 & E)].
  { left. split; [by eauto|]. rewrite <-Ha7. unfold insert_into, statement in E.
    destruct (next_fault w7); [by simplify_eq|]. destruct (insert_row _ _); by simplify_eq. }
  assert (Hok8 : db_ok (w_db w8)).
  { refine (framed_run (on_db keeps_db_ok) _ _ _ _ _ E8 Hok7). frame. }
  apply insert_inr in E8 as [Hnew [fs ->]]. simpl in Hnew, Hok8.
  right. exists aid, (new_action aid (capability operation) "container" (operated_containerId target)
    (operated_hostId target) corr actor at_). split; [by rewrite <-Ha7|]. split; [by split_and!|].
  rewrite <-Ha7. unfold concluded.
  apply bind_cases in E as [(e & -> & E)|(x & w9 & E9 & E)].
  { left. split; [by eauto|]. by apply (framed_run _ _ _ _ _ (audit_action_actions _ _ _ _ _ _)) in E. }
  apply (framed_run _ _ _ _ _ (audit_looking _ _ _ _ _ _)) in E9 as (Ha9 & Hok9 & Hr9 & Hc9)%looking_on_ends.
  simpl in Ha9, Hok9, Hr9, Hc9. specialize (Hok9 Hok8).
  apply try_finally_release in E as (w10 & E & [Hd _]). rewrite Hd.
  eapply operated_concluded in E; [|done|by rewrite Ha9, lookup_insert_eq|done|congruence].
  rewrite Hr9, Hr7, Ha9 in E. exact E.
Qed.
End lifecycle_lemmas.

(** ** Stopping container [c1] of the discovery example *)

#[local] Existing Instance one_moment.

Definition stopping (faults : list bool) (reply : list AgentReply) : World :=
  (quiet_world two_hosts) <| w_faults := faults |> <| w_replies := reply |>.

Definition done_reply : list AgentReply := [Replied (Payload_result (Some "exited") None)].

Example stop_reports :
  match (run stop "c1" operator from_ui (stopping [] done_reply)).1 with
  | inr out => Some (action_outcome_status out, action_outcome_state out) | inl _ => None
  end = Some (Action_succeeded, Some "exited").
Proof. by vm_compute. Qed.

Lemma run_records_answer_witness :
  ∃ aid a, actions two_hosts !! aid = None ∧ opens stop a ∧
    actions (w_db (run stop "c1" operator from_ui (stopping [] done_reply)).2) !! aid ≠ None.
Proof.
  pose proof stop_reports as Hr.
  pose proof (run_records_answer stop "c1" operator from_ui (stopping [] done_reply) _ _ two_hosts_ok
    (surjective_pairing _)) as Hx.
  revert Hr Hx. generalize (run stop "c1" operator from_ui (stopping [] done_reply)).
  intros [[e|out] w'] Hr Hx; [done|]. unfold fst, snd in *.
  destruct Hx as [[[e ?] _]|(aid & a & Hnew & Ho & [[[e ?] _]|(status & code & at_ & Ha & _)])]; [done|done|].
  exists aid, a. split_and!; [exact Hnew|exact Ho|]. by rewrite Ha, lookup_insert_eq.
Defined.

(** The write of the action fails. *)
Definition unrecorded := run stop "c1" operator from_ui
  (stopping (replicate 6 false ++ [true]) done_reply).

(** A failed write leaves the container locked.  The lock is taken before the
    action and its audit entry are written, and what releases it begins after
    them; so a call whose first write fails never releases the lock, and every
    later operation on that container is refused as if one were running. *)
Theorem failed_write_keeps_lock :
  unrecorded.1 = inl DatabaseError ∧ w_db unrecorded.2 = two_hosts ∧
  isBusy "c1" (w_registry unrecorded.2) = true ∧
  (run start "c1" operator from_ui (unrecorded.2 <| w_faults := [] |>)).1 =
    inl (AppError "ACTION_CONFLICT" CONFLICT).
Proof. vm_compute. by split_and!. Qed.

(** The agent has answered, the action is marked succeeded, and the audit entry
    cannot be written. *)
Definition unaudited_stop := run stop "c1" operator from_ui
  (stopping (replicate 9 false ++ [true]) done_reply).

(** An operation that was carried out can be recorded as failed.  What is
    written after the agent's answer is inside the block whose failures are taken
    for the agent's; so when the audit entry of a success cannot be written, the
    action, already marked succeeded, is marked failed. *)
Theorem done_is_recorded_failed :
  unaudited_stop.1 = inl (AppError "DOCKER_OPERATION_FAILED" CONFLICT) ∧
  (λ a, (action_status a, action_errorCode a)) <$> (map_to_list (actions (w_db unaudited_stop.2))).*2 =
    [(Action_failed, Some "DOCKER_OPERATION_FAILED")].
Proof. by vm_compute. Qed.
