(* ===== verification/ContainerSpec.v ===== *)
(** * What a container may be asked to be

    [api/src/containers/container-spec.ts]: the rules a request has to pass.  The
    schemas are written with Zod, which decodes a JSON body into the shapes below
    (unknown fields refused, defaults filled in); what is modelled is what the
    schemas say of the decoded values: patterns, bounds, and the refinements, each
    as the list of the issues it adds.  A string's length is that of its bytes.

    [z.uuid()] is Zod's and a parameter. *)

From Stdlib Require Import Ascii String NArith ZArith.
From stdpp Require Import gmap strings list pretty.
From S2P Require Import Prelude Schema Store Registry Effects Base64 Environment Discovery.

(** ** Patterns *)

(** [/^[first][rest]{0,max}$/] *)
Definition pattern (first rest : ascii → bool) (max : nat) (s : string) : bool :=
  match chars s with
  | [] => false
  | c :: cs => first c && (length cs <=? max)%nat && forallb rest cs
  end.

Definition one_of (l : string) (c : ascii) : bool := mem c (chars l).

Definition NAME : string → bool := pattern is_alnum (λ c, is_alnum c || one_of "_.-" c) 127.
Definition IMAGE : string → bool := pattern is_alnum (λ c, is_alnum c || one_of "._:/@-" c) 254.
Definition ENV_KEY : string → bool :=
  pattern (λ c, is_alpha c || one_of "_" c) (λ c, is_alnum c || one_of "_" c) 254.
Definition VOLUME_NAME : string → bool := pattern is_alnum (λ c, is_alnum c || one_of "_.-" c) 127.
Definition NETWORK : string → bool := pattern is_alnum (λ c, is_alnum c || one_of "_.-" c) 127.
Definition LABEL_KEY : string → bool := pattern is_alnum (λ c, is_alnum c || one_of "._-" c) 127.

(** [/^[a-zA-Z0-9]([a-zA-Z0-9-]{0,61}[a-zA-Z0-9])?$/] *)
Definition HOSTNAME (s : string) : bool :=
  match chars s with
  | [] => false
  | c :: cs =>
      is_alnum c &&
      match reverse cs with
      | [] => true
      | last :: middle =>
          is_alnum last && (length middle <=? 61)%nat && forallb (λ c, is_alnum c || one_of "-" c) middle
      end
  end.

Definition RESERVED_LABEL_PREFIX : string := "io.dockplane.".

(** [s.includes(sub)] *)
Fixpoint includes (sub s : string) : bool :=
  String.prefix sub s || match s with EmptyString => false | String _ s' => includes sub s' end.

(** ** Bind sources *)

Definition FORBIDDEN_BIND_SOURCES : list string :=
  ["/var/run/docker.sock"; "/run/docker.sock"; "/var/lib/docker"; "/proc"; "/sys"; "/dev"; "/boot";
   "/etc/shadow"; "/root/.ssh"; "/var/lib/dockplane-agent"].

Definition slash : ascii := "/".

(** [source.replace(/\/+$/, '')] *)
Definition clean (source : string) : string :=
  text (reverse (drop_while (λ c, bool_decide (c = slash)) (reverse (chars source)))).

Definition forbiddenBind (source : string) : bool :=
  existsb (λ forbidden, bool_decide (clean source = forbidden) ||
                        String.prefix (forbidden +:+ "/") (clean source))
    FORBIDDEN_BIND_SOURCES.

(** ** Fields *)

Record PortSpec := {
  port_containerPort : Z;
  port_hostPort : Z;
  port_protocol : string;
  port_hostIp : option string
}.

Record MountSpec := {
  mount_type : string;
  mount_source : string;
  mount_target : string;
  mount_readOnly : bool
}.

Record HealthcheckSpec := {
  health_test : list string;
  health_intervalMs : option Z;
  health_timeoutMs : option Z;
  health_startPeriodMs : option Z;
  health_retries : option Z
}.

Definition between (lo hi x : Z) : bool := (lo <=? x)%Z && (x <=? hi)%Z.
Definition optional {A} (p : A → bool) (x : option A) : bool := match x with Some a => p a | None => true end.
Definition at_most (n : nat) (s : string) : bool := (String.length s <=? n)%nat.

Definition portSchema (p : PortSpec) : bool :=
  between 1 65535 (port_containerPort p) && between 0 65535 (port_hostPort p) &&
  mem (port_protocol p) ["tcp"; "udp"] &&
  optional (λ ip, mem ip ["127.0.0.1"; "0.0.0.0"; "::1"; "::"]) (port_hostIp p).

(** The issues of a mount, by the field they are reported on. *)
Definition absolute (path : string) : bool := String.prefix "/" path && negb (includes ".." path).

Definition mount_refinement (m : MountSpec) : list string :=
  (if absolute (mount_target m) then [] else ["target"]) ++
  (if bool_decide (mount_type m = "volume") && negb (VOLUME_NAME (mount_source m)) then ["source"]
   else if bool_decide (mount_type m = "bind") then
     if negb (absolute (mount_source m)) then ["source"]
     else if bool_decide (clean (mount_source m) = "") then ["source"]
     else if forbiddenBind (mount_source m) then ["source"] else []
   else []).

Definition mountSchema (m : MountSpec) : bool :=
  mem (mount_type m) ["volume"; "bind"] &&
  (1 <=? String.length (mount_source m))%nat && at_most 4096 (mount_source m) &&
  (1 <=? String.length (mount_target m))%nat && at_most 4096 (mount_target m) &&
  bool_decide (mount_refinement m = []).

(** [!/[\0\n\r]/.test(value)] *)
Definition one_line (value : string) : bool :=
  forallb (λ c, negb (mem c ["000"%char; "010"%char; "013"%char])) (chars value).

Definition environmentEntrySchema (e : EnvironmentChange) : bool :=
  match e with
  | Set_value key value => ENV_KEY key && at_most 32768 value && one_line value
  | Set_secret key value =>
      ENV_KEY key && (1 <=? String.length value)%nat && at_most 32768 value && one_line value
  | Unchanged key | Remove key => ENV_KEY key
  end.

Definition healthcheckSchema (h : HealthcheckSpec) : bool :=
  forallb (at_most 1024) (health_test h) && (1 <=? length (health_test h))%nat &&
  (length (health_test h) <=? 32)%nat &&
  optional (between 0 3600000) (health_intervalMs h) &&
  optional (between 0 3600000) (health_timeoutMs h) &&
  optional (between 0 3600000) (health_startPeriodMs h) && optional (between 0 100) (health_retries h).

Definition labelsSchema (labels : list (string * string)) : bool :=
  forallb (λ kv : string * string, LABEL_KEY kv.1 && at_most 4096 kv.2 &&
                    negb (String.prefix RESERVED_LABEL_PREFIX kv.1)) labels.

(** ** A configuration *)

Record ConfigurationSpec := {
  config_spec_image : string;
  config_spec_hostname : option string;
  config_spec_command : option (list string);
  config_spec_entrypoint : option (list string);
  config_spec_ports : list PortSpec;
  config_spec_mounts : list MountSpec;
  config_spec_environment : list EnvironmentChange;
  config_spec_networks : list string;
  config_spec_restartPolicy : string;
  config_spec_labels : list (string * string);
  config_spec_healthcheck : option HealthcheckSpec
}.

Definition words (l : list string) : bool :=
  forallb (at_most 4096) l && (length l <=? 128)%nat.

Definition configurationShape (c : ConfigurationSpec) : bool :=
  IMAGE (config_spec_image c) && optional HOSTNAME (config_spec_hostname c) &&
  optional words (config_spec_command c) && optional words (config_spec_entrypoint c) &&
  forallb portSchema (config_spec_ports c) && (length (config_spec_ports c) <=? 128)%nat &&
  forallb mountSchema (config_spec_mounts c) && (length (config_spec_mounts c) <=? 64)%nat &&
  forallb environmentEntrySchema (config_spec_environment c) &&
  (length (config_spec_environment c) <=? 512)%nat &&
  forallb NETWORK (config_spec_networks c) && (length (config_spec_networks c) <=? 16)%nat &&
  mem (config_spec_restartPolicy c) ["no"; "always"; "unless-stopped"; "on-failure"] &&
  labelsSchema (config_spec_labels c) && optional healthcheckSchema (config_spec_healthcheck c).

Definition entry_key (e : EnvironmentChange) : string :=
  match e with Set_value k _ | Set_secret k _ | Unchanged k | Remove k => k end.

Definition pretty_Z (n : Z) : string := pretty (Z.to_N n).

(** [`${port.hostIp ?? ''}:${port.hostPort}/${port.protocol}`] *)
Definition binding_key (p : PortSpec) : string :=
  (port_hostIp p ?? "") +:+ ":" +:+ pretty_Z (port_hostPort p) +:+ "/" +:+ port_protocol p.

(** One loop of [refineConfiguration]: an issue on [path] for every key that was
    seen before. *)
Fixpoint repeated (path : string) (seen : gset string) (keys : list string) : list string :=
  match keys with
  | [] => []
  | k :: keys' =>
      (if bool_decide (k ∈ seen) then [path] else []) ++ repeated path ({[k]} ∪ seen) keys'
  end.

Definition is_bound (p : PortSpec) : bool := negb (port_hostPort p =? 0)%Z.

Definition refineConfiguration (c : ConfigurationSpec) : list string :=
  repeated "ports" ∅ (binding_key <$> List.filter is_bound (config_spec_ports c)) ++
  repeated "mounts" ∅ (mount_target <$> config_spec_mounts c) ++
  repeated "environment" ∅ (entry_key <$> config_spec_environment c).

Definition accepts (c : ConfigurationSpec) : bool :=
  configurationShape c && bool_decide (refineConfiguration c = []).

Section requests.
Context (z_uuid : string → bool).

Definition createContainerSchema (hostId name : string) (c : ConfigurationSpec) : bool :=
  z_uuid hostId && NAME name && accepts c.

Definition replaceContainerSchema (name : option string) (c : ConfigurationSpec) : bool :=
  optional NAME name && accepts c.
End requests.

(** [removeContainerSchema]: a container is stopped first only when it is asked. *)
Definition removeContainerSchema (stopFirst : option bool) : bool := stopFirst ?? false.

(** ** Paths

    What a path names once the kernel has walked it: empty and [.] components
    change nothing.  ([..] is refused before this is asked.) *)

Definition walks (component : list ascii) : bool := negb (mem component [[]; chars "."]).

Definition walked (path : string) : list (list ascii) :=
  List.filter walks (split_on slash (chars path)).

Definition reaches (forbidden path : string) : Prop := walked forbidden `prefix_of` walked path.

(** A path written with no empty and no [.] component, apart from slashes at its
    end. *)
Definition canonical (path : string) : bool :=
  forallb walks (tail (split_on slash (chars (clean path)))).

Lemma split_on_snoc sep l : split_on sep (l ++ [sep]) = split_on sep l ++ [[]].
Proof.
  induction l as [|c l IH]; simpl; [by rewrite decide_True|].
  rewrite IH. case_decide; [done|].
  pose proof (split_on_nonempty sep l). by destruct (split_on sep l).
Qed.

Lemma walked_trailing l n :
  List.filter walks (split_on slash (l ++ replicate n slash)) = List.filter walks (split_on slash l).
Proof.
  induction n as [|n IH]; [by rewrite app_nil_r|].
  rewrite replicate_S_end, app_assoc, split_on_snoc, List.filter_app, IH. simpl. apply app_nil_r.
Qed.

Lemma drop_while_slashes l :
  ∃ n, l = replicate n slash ++ drop_while (λ c, bool_decide (c = slash)) l.
Proof.
  induction l as [|c l [n IH]]; simpl; [by exists 0|].
  case_bool_decide as Hc; [|by exists 0]. exists (S n). simpl. by rewrite <-IH, Hc.
Qed.

Lemma clean_trailing s : ∃ n, chars s = chars (clean s) ++ replicate n slash.
Proof.
  destruct (drop_while_slashes (reverse (chars s))) as [n Hn]. exists n.
  unfold clean. rewrite chars_text.
  apply (f_equal reverse) in Hn. rewrite reverse_involutive, reverse_app, reverse_replicate in Hn.
  done.
Qed.

Lemma walked_clean s : walked s = walked (clean s).
Proof. unfold walked. destruct (clean_trailing s) as [n ->]. apply walked_trailing. Qed.

Lemma filter_all {A} (p : A → bool) l : forallb p l = true → List.filter p l = l.
Proof. induction l as [|x l IH]; simpl; [done|]. intros [-> H]%andb_true_iff. by rewrite IH. Qed.

Lemma join_with_app sep (a b : list (list ascii)) :
  a ≠ [] → b ≠ [] → join_with sep (a ++ b) = join_with sep a ++ sep :: join_with sep b.
Proof.
  intros Ha Hb. induction a as [|x a IH]; [done|]. destruct a as [|y a].
  - simpl. by destruct b.
  - change (x ++ sep :: join_with sep ((y :: a) ++ b)
      = (x ++ sep :: join_with sep (y :: a)) ++ sep :: join_with sep b).
    rewrite IH by done. by rewrite <-app_assoc.
Qed.

Lemma chars_app a b : chars (a +:+ b) = chars a ++ chars b.
Proof. induction a as [|c a IH]; simpl; [done|]. by f_equal. Qed.

Lemma prefix_chars a b : String.prefix a b = true ↔ ∃ r, chars b = chars a ++ r.
Proof.
  revert b. induction a as [|x a IH]; intros b; simpl.
  { split; [by exists (chars b)|by destruct b]. }
  destruct b as [|y b]; simpl; [split; [done|intros [? ?]; done]|].
  destruct (ascii_dec x y) as [->|Hne].
  - rewrite IH. split; intros [r Hr]; exists r; [by rewrite Hr|by injection Hr].
  - split; [done|]. intros [r Hr]. by injection Hr.
Qed.

(** A path that starts at the root is its components, each after a slash. *)
Lemma split_absolute s :
  String.prefix "/" s = true → ∃ ws, split_on slash (chars s) = [] :: ws.
Proof.
  intros [r Hr]%prefix_chars. rewrite Hr. simpl. by eexists.
Qed.

(** The test finds a forbidden path above a canonical one: the test of prefixes of
    strings is the test of prefixes of components. *)
Lemma forbidden_above f s :
  canonical s = true → String.prefix "/" (clean s) = true →
  String.prefix "/" f = true → canonical f = true → clean f = f →
  reaches f s → clean s = f ∨ String.prefix (f +:+ "/") (clean s) = true.
Proof.
  unfold canonical, reaches. intros Hs Has Haf Hf Hcf Hp.
  rewrite (walked_clean s) in Hp. unfold walked in Hp. rewrite Hcf in Hf.
  pose proof (join_split slash (chars f)) as Jf. pose proof (join_split slash (chars (clean s))) as Js.
  destruct (split_absolute _ Has) as [ws Hws], (split_absolute _ Haf) as [fs Hfs].
  rewrite Hws in *. rewrite Hfs in *. simpl in Hs, Hf, Hp.
  rewrite !filter_all in Hp by done. destruct Hp as [rest ->].
  destruct (decide (rest = [])) as [->|Hr].
  - left. rewrite app_nil_r, Jf in Js. by rewrite <-(text_chars f), <-(text_chars (clean s)), Js.
  - right. apply prefix_chars. exists (join_with slash rest).
    rewrite app_comm_cons, join_with_app, Jf in Js by done. rewrite <-Js.
    by rewrite chars_app, <-app_assoc.
Qed.

(** ** Repeated keys *)

Lemma repeated_nil path seen keys :
  repeated path seen keys = [] ↔ NoDup keys ∧ ∀ k, k ∈ keys → k ∉ seen.
Proof.
  revert seen. induction keys as [|k keys IH]; intros seen; simpl.
  { split; [|done]. intros _. split; [constructor|by intros k ?%not_elem_of_nil]. }
  rewrite NoDup_cons. case_bool_decide as Hk; simpl.
  { split; [done|]. intros [_ H]. destruct (H k); [by left|done]. }
  rewrite IH. split.
  - intros [Hnd H]. repeat split; [|done|].
    + intros Hin. by apply (H k Hin), elem_of_union_l, elem_of_singleton.
    + intros k' [->|Hin]%elem_of_cons; [done|]. specialize (H k' Hin). set_solver.
  - intros [[Hn Hnd] H]. split; [done|]. intros k' Hin.
    rewrite elem_of_union, elem_of_singleton. intros [->|Hs]; [done|].
    by apply (H k'); [right|].
Qed.

Lemma repeated_empty path keys : repeated path ∅ keys = [] ↔ NoDup keys.
Proof. rewrite repeated_nil. split; [by intros [? _]|]. intros ?; split; [done|]. set_solver. Qed.

Lemma pretty_digits (n : N) : Forall (λ c, is_digit c = true) (chars (pretty n)).
Proof.
  unfold pretty, pretty_N. case_decide; [by repeat constructor|].
  cut (∀ s, Forall (λ c, is_digit c = true) (chars s) →
            Forall (λ c, is_digit c = true) (chars (pretty_N_go n s))).
  { intros H'. by apply H'. }
  clear. induction (N.lt_wf_0 n) as [n _ IH]. intros s Hs.
  assert (n = 0 ∨ 0 < n)%N as [->|Hn] by lia; [by rewrite pretty_N_go_0|].
  rewrite pretty_N_go_step by done. apply IH; [by apply N.div_lt|]. simpl.
  constructor; [|done]. unfold pretty_N_char. by repeat case_match.
Qed.

(** What comes before a separator it does not contain is determined. *)
Lemma app_sep_inj {A} (sep : A) a b x y :
  sep ∉ a → sep ∉ b → a ++ sep :: x = b ++ sep :: y → a = b ∧ x = y.
Proof.
  revert b. induction a as [|c a IH]; intros [|d b] Ha Hb H; simpl in *;
    simplify_eq; try set_solver.
  rewrite not_elem_of_cons in Ha, Hb. destruct Ha, Hb. by destruct (IH b) as [-> ->].
Qed.

Lemma digits_not c l : is_digit c = false → Forall (λ c, is_digit c = true) l → c ∉ l.
Proof. intros Hc Hl Hin. rewrite Forall_forall in Hl. specialize (Hl _ Hin). congruence. Qed.

(** [port/protocol] determines both. *)
Lemma printed_inj n m p q :
  pretty_Z n +:+ "/" +:+ p = pretty_Z m +:+ "/" +:+ q → (0 <= n)%Z → (0 <= m)%Z → n = m ∧ p = q.
Proof.
  intros H Hn Hm. apply (f_equal chars) in H. rewrite !chars_app in H. simpl in H.
  apply app_sep_inj in H as [Hd Hp];
    [|by apply digits_not, pretty_digits|by apply digits_not, pretty_digits].
  apply (f_equal text) in Hd, Hp. rewrite !text_chars in Hd, Hp. unfold pretty_Z in Hd.
  apply (inj pretty) in Hd. split; [lia|done].
Qed.

Lemma printed_not_colon n p s : pretty_Z n +:+ "/" +:+ p ≠ String ":" s.
Proof.
  intros H. apply (f_equal chars) in H. rewrite !chars_app in H. simpl in H.
  pose proof (pretty_digits (Z.to_N n)) as Hd. fold (pretty_Z n) in Hd.
  destruct (chars (pretty_Z n)) as [|c l]; simpl in H; [done|].
  simplify_eq. by inversion_clear Hd.
Qed.

Definition bound_to (p : PortSpec) : option string * Z * string :=
  (port_hostIp p, port_hostPort p, port_protocol p).

Lemma mem_true {A} `{EqDecision A} (x : A) l : mem x l = true ↔ x ∈ l.
Proof. apply bool_decide_eq_true. Qed.

(** Two bindings have the same key only when they are the same binding. *)
Lemma binding_key_inj p q :
  portSchema p = true → portSchema q = true → binding_key p = binding_key q → bound_to p = bound_to q.
Proof.
  unfold portSchema, between. rewrite !andb_true_iff, !Z.leb_le, !mem_true.
  intros [[[_ [Hp _]] _] Hip] [[[_ [Hq _]] _] Hiq] Hk.
  unfold binding_key in Hk. unfold bound_to.
  set (rp := pretty_Z (port_hostPort p) +:+ "/" +:+ port_protocol p) in Hk.
  set (rq := pretty_Z (port_hostPort q) +:+ "/" +:+ port_protocol q) in Hk.
  assert (rp = rq → (port_hostPort p, port_protocol p) = (port_hostPort q, port_protocol q)) as Hr.
  { intros H. apply printed_inj in H as [-> ->]; done. }
  assert (∀ s, rp ≠ String ":" s) as Np by (intros s; apply printed_not_colon).
  assert (∀ s, rq ≠ String ":" s) as Nq by (intros s; apply printed_not_colon).
  clearbody rp rq.
  assert (port_hostIp p = port_hostIp q ∧ rp = rq) as [-> E]; [|by injection (Hr E) as -> ->].
  destruct (port_hostIp p) as [a|], (port_hostIp q) as [b|]; simpl in Hip, Hiq, Hk;
    rewrite ?mem_true, ?elem_of_cons, ?elem_of_nil in Hip;
    rewrite ?mem_true, ?elem_of_cons, ?elem_of_nil in Hiq;
    destruct_or?; subst; simpl in Hk; simplify_eq; try done;
    exfalso; try (by eapply Np); by eapply Nq.
Qed.

(** ** What an accepted configuration is *)

Lemma forallb_elem {A} (p : A → bool) l x : forallb p l = true → x ∈ l → p x = true.
Proof. rewrite forallb_forall. intros H Hx. by apply H, list_elem_of_In. Qed.

Lemma NoDup_fmap_same {A B C} (f : A → B) (g : A → C) l :
  (∀ x y, x ∈ l → y ∈ l → f x = f y ↔ g x = g y) → NoDup (f <$> l) ↔ NoDup (g <$> l).
Proof.
  induction l as [|x l IH]; intros H; simpl; [split; constructor|].
  rewrite !NoDup_cons, IH by (intros y z ? ?; apply H; by right).
  enough (f x ∈ f <$> l ↔ g x ∈ g <$> l) by tauto.
  rewrite !list_elem_of_fmap. split; intros (y & E & Hy); exists y; split; try done;
    by apply (H x y); [left|right|].
Qed.

Lemma shape_ports c : configurationShape c = true → forallb portSchema (config_spec_ports c) = true.
Proof. unfold configurationShape. rewrite !andb_true_iff. tauto. Qed.

Lemma shape_mounts c : configurationShape c = true → forallb mountSchema (config_spec_mounts c) = true.
Proof. unfold configurationShape. rewrite !andb_true_iff. tauto. Qed.

(** The source of an accepted bind mount passed each of the tests. *)
Lemma mountSchema_bind m :
  mountSchema m = true → mount_type m = "bind" →
  absolute (mount_source m) = true ∧ clean (mount_source m) ≠ "" ∧ forbiddenBind (mount_source m) = false.
Proof.
  intros [_ H]%andb_true_iff Ht. rewrite bool_decide_eq_true in H. unfold mount_refinement in H.
  apply app_nil in H as [_ H]. rewrite Ht in H. simpl in H.
  destruct (absolute (mount_source m)); [|done]. simpl in H. case_bool_decide; [done|].
  by destruct (forbiddenBind (mount_source m)).
Qed.

(** Cleaning keeps the first slash unless nothing is left. *)
Lemma clean_absolute s :
  absolute s = true → clean s ≠ "" → String.prefix "/" (clean s) = true.
Proof.
  intros [[r Hr]%prefix_chars _]%andb_true_iff Hne.
  destruct (clean_trailing s) as [n Hn]. destruct (clean s) as [|c cs] eqn:Hc; [done|].
  apply prefix_chars. rewrite Hr in Hn. simpl in Hn. simplify_eq. by eexists.
Qed.

(** An accepted configuration has the fields the patterns and bounds allow and
    says nothing twice: no binding of a host port, no mount point and no variable
    is given more than once. *)
Theorem accepts_iff c :
  accepts c = true ↔
  configurationShape c = true ∧
  NoDup (bound_to <$> List.filter is_bound (config_spec_ports c)) ∧
  NoDup (mount_target <$> config_spec_mounts c) ∧
  NoDup (entry_key <$> config_spec_environment c).
Proof.
  unfold accepts, refineConfiguration.
  rewrite andb_true_iff, bool_decide_eq_true, !app_nil, !repeated_empty.
  cut (configurationShape c = true →
    NoDup (binding_key <$> List.filter is_bound (config_spec_ports c)) ↔
    NoDup (bound_to <$> List.filter is_bound (config_spec_ports c))); [tauto|].
  intros Hs. apply NoDup_fmap_same. intros p q Hp Hq.
  pose proof (shape_ports _ Hs) as Hok. split.
  - apply list_elem_of_In, filter_In in Hp as [Hp%list_elem_of_In _].
    apply list_elem_of_In, filter_In in Hq as [Hq%list_elem_of_In _].
    apply binding_key_inj; by eapply forallb_elem.
  - intros E. unfold bound_to in E. injection E as E1 E2 E3. unfold binding_key.
    by rewrite E1, E2, E3.
Qed.

(** An accepted bind mount whose source is written canonically is outside every
    forbidden path, however many slashes end it: the test on strings is the test
    on what the path names. *)
Theorem accepted_bind_outside c m f :
  accepts c = true → m ∈ config_spec_mounts c → mount_type m = "bind" →
  canonical (mount_source m) = true → f ∈ FORBIDDEN_BIND_SOURCES →
  ¬ reaches f (mount_source m).
Proof.
  intros [Hs _]%andb_true_iff Hm Ht Hc Hf Hr.
  pose proof (forallb_elem _ _ _ (shape_mounts _ Hs) Hm) as Hok.
  apply mountSchema_bind in Hok as (Habs & Hne & Hforb); [|done].
  assert (String.prefix "/" (clean (mount_source m)) = true) as Ha by by apply clean_absolute.
  assert (String.prefix "/" f = true ∧ canonical f = true ∧ clean f = f) as (F1 & F2 & F3).
  { revert Hf. clear. unfold FORBIDDEN_BIND_SOURCES. rewrite !elem_of_cons, elem_of_nil.
    intros Hf. destruct_or?; subst; repeat split; done. }
  enough (forbiddenBind (mount_source m) = true) by congruence.
  apply existsb_exists. exists f. split; [by apply list_elem_of_In|].
  apply orb_true_iff. rewrite bool_decide_eq_true. by apply forbidden_above.
Qed.

Definition sample_port : PortSpec :=
  {| port_containerPort := 80; port_hostPort := 8080; port_protocol := "tcp"; port_hostIp := None |}.

Definition sample_spec (ports : list PortSpec) (source : string) : ConfigurationSpec :=
  {| config_spec_image := "nginx:1.27"; config_spec_hostname := Some "web";
     config_spec_command := None; config_spec_entrypoint := None; config_spec_ports := ports;
     config_spec_mounts :=
       [{| mount_type := "bind"; mount_source := source; mount_target := "/data"; mount_readOnly := true |}];
     config_spec_environment := [Set_value "MODE" "web"]; config_spec_networks := [];
     config_spec_restartPolicy := "always"; config_spec_labels := []; config_spec_healthcheck := None |}.

Lemma accepted_bind_outside_witness :
  ¬ reaches "/var/lib/docker" "/var/lib/docker-backups/".
Proof.
  apply (accepted_bind_outside (sample_spec [sample_port] "/var/lib/docker-backups/")
    {| mount_type := "bind"; mount_source := "/var/lib/docker-backups/"; mount_target := "/data";
       mount_readOnly := true |}); [by vm_compute|by left|done|done|].
  apply mem_true. by vm_compute.
Defined.

(** The comment on the forbidden paths says they are never a legitimate bind
    source.  A second slash, or a component [.], hides one from the test while it
    names the same file: the Docker socket may be mounted after all. *)
Theorem forbidden_source_accepted :
  ∃ source, accepts (sample_spec [] source) = true ∧ reaches "/var/run/docker.sock" source.
Proof.
  exists "/var/./run//docker.sock". split; [by vm_compute|].
  exists []. by vm_compute.
Qed.

(** The same host port may be asked for twice when one binding names no address
    and the other names every address, which is the same thing. *)
Theorem same_host_port_accepted :
  let everywhere := {| port_containerPort := 81; port_hostPort := 8080; port_protocol := "tcp";
                       port_hostIp := Some "0.0.0.0" |} in
  accepts (sample_spec [sample_port; everywhere] "/srv/data") = true.
Proof. by vm_compute. Qed.
