(* ===== verification/StackDelete.v ===== *)
(** * Deleting a stack

    [api/src/stacks/stack-delete.service.ts]: the containers go from the host,
    and then the configuration goes from the database.  [connectedAgent] and
    [resync] are the deployment service's, and [claimed] is the lifecycle
    service's, which the source repeats word for word. *)

From Stdlib Require Import Ascii String NArith ZArith.
From stdpp Require Import gmap strings list pretty.
From S2P Require Import Prelude Semver Schema Store Registry Effects Logic PendingGuard.
From S2P Require Import StackClassify StackPlan Base64 Environment Discovery Detail.
From S2P Require Import StackDeployment StackLifecycle.

(** ** Data *)

Record StackDeleteResult := {
  deleted_stackId : string;
  deleted_retainedVolumes : list string
}.

Record DispatchedDelete := {
  del_operationId : string;
  del_actionId : option string;
  del_stackId : string;
  del_stackName : string;
  del_hostId : string;
  del_revisionId : string;
  del_expectedServices : list string;
  del_retainedVolumes : list string;
  del_agentId : string;
  del_payload : json;
  del_actor : AuthenticatedUser;
  del_context : RequestContext
}.

(** ** Guards *)

Definition deletable (stackId : string) : M Stack :=
  stack ← select_id (R := Stack) stackId;
  match stack with
  | None => notFound "STACK_NOT_FOUND"
  | Some stack =>
      host ← select_id (R := Host) (stack_hostId stack);
      match host with
      | None => notFound "HOST_NOT_FOUND"
      | Some host =>
          assertNotArchived (host_archivedAt host);;
          if bool_decide (stack_status stack = "needs_attention")
          then conflict "STACK_NEEDS_ATTENTION"
          else assertNothingUnresolved stackId;; mret stack
      end
  end.

(** The services of the deployed revision, with the containers holding them;
    unlike a start, a revision without a summary is one without services. *)
Definition removableServices (stackId revisionId : string) : M (list DeployedService) :=
  revision ← select_id (R := StackRevision) revisionId;
  let summary := revision ≫= revision_summary in
  rows ← stackContainers stackId;
  raise (held_services rows ((summary ≫= summary_dependsOn) ?? [])
           ((summary_services <$> summary) ?? [])).

Definition volumesOf (stack : Stack) : M (list string) :=
  let revisionId := or_null (stack_currentRevisionId stack) (stack_latestRevisionId stack) in
  if negb (truthy revisionId) then mret []
  else
    revision ← select_id (R := StackRevision) (revisionId ?? "");
    mret (summaryVolumes revision).

(** ** The removal *)

Definition prepareDelete (stack : Stack) (actor : AuthenticatedUser) (context : RequestContext) :
    M (string * string) :=
  transaction (
    at_ ← now;
    actionId ← randomUUID;
    correlationId ← match context_requestId context with
                    | Some id => mret id
                    | None => randomUUID
                    end;
    insert_into (new_action actionId "stack.remove" "stack" (stack_id stack)
      (stack_hostId stack) correlationId actor at_);;
    operationId ← randomUUID;
    insert_into {|
      operation_id := operationId; operation_stackId := stack_id stack;
      operation_revisionId := stack_currentRevisionId stack ?? "";
      operation_hostId := stack_hostId stack; operation_type := "delete";
      operation_status := "running"; operation_actionId := Some actionId;
      operation_startedBy := Some (actor_id actor); operation_fingerprint := None;
      operation_detail := None; operation_failureCode := None; operation_startedAt := at_;
      operation_resolvedAt := None |};;
    mret (operationId, actionId)).

Definition of_stack (stackId : string) (r : Container) : bool :=
  bool_decide (container_stackId r = Some stackId).

Definition purge (stackId : string) (actionId : option string) : M unit :=
  at_ ← now;
  transaction (
    finish_action actionId
      (λ a, a <| action_status := Action_succeeded |> <| action_completedAt := Some at_ |>);;
    delete_from (of_stack stackId);;
    delete_from (λ s : Stack, bool_decide (stack_id s = stackId));;
    mret tt).

Definition audit_delete (attempt : DispatchedDelete) (action : string) (result : AuditResult) :
    M unit :=
  audit_record {|
    entry_action := action; entry_result := result;
    entry_actorUserId := Some (actor_id (del_actor attempt));
    entry_actorLabel := actor_email (del_actor attempt);
    entry_targetType := Some "stack"; entry_targetId := Some (del_stackId attempt);
    entry_targetLabel := Some (del_stackName attempt);
    entry_reasonCode := Some (del_operationId attempt);
    entry_sourceIp := context_sourceIp (del_context attempt);
    entry_userAgent := context_userAgent (del_context attempt) |}.

Definition deleteInterrupted {A} (attempt : DispatchedDelete) (code : string) : M A :=
  update_id (R := StackOperation) (del_operationId attempt)
    (λ r, r <| operation_status := "interrupted" |> <| operation_failureCode := Some code |>);;
  audit_delete attempt "stack.delete.interrupted" Audit_failure;;
  throw (AppError "OPERATION_OUTCOME_UNKNOWN" SERVICE_UNAVAILABLE).

Definition deleteNotApplied (attempt : DispatchedDelete) (failure : option string) : M unit :=
  at_ ← now;
  transaction (
    update_id (R := StackOperation) (del_operationId attempt)
      (λ r, r <| operation_status := "failed" |>
              <| operation_failureCode := Some (failure ?? "STACK_DELETE_FAILED") |>
              <| operation_resolvedAt := Some at_ |>);;
    finish_action (del_actionId attempt)
      (λ a, a <| action_status := Action_failed |> <| action_completedAt := Some at_ |>
              <| action_errorCode := failure |>));;
  audit_delete attempt "stack.delete.failed" Audit_failure.

Definition deleteNeedsAttention (attempt : DispatchedDelete) : M unit :=
  at_ ← now;
  transaction (
    update_id (R := StackOperation) (del_operationId attempt)
      (λ r, r <| operation_status := "needs_attention" |>
              <| operation_failureCode := Some "STACK_DELETE_PARTIAL" |>
              <| operation_resolvedAt := Some at_ |>);;
    update_id (R := Stack) (del_stackId attempt)
      (λ s, s <| stack_status := "needs_attention" |>);;
    finish_action (del_actionId attempt)
      (λ a, a <| action_status := Action_failed |> <| action_completedAt := Some at_ |>
              <| action_errorCode := Some "STACK_DELETE_PARTIAL" |>));;
  audit_delete attempt "stack.delete.needs_attention" Audit_failure;;
  events_record (Some (del_hostId attempt)) "stack.operation.failed" Severity_critical
    ("stack:" +:+ del_stackId attempt) (Some (del_operationId attempt)).

Definition claim_of (row : Container) : Delete.ObservedClaim := {|
  Delete.serviceName := container_stackService row ?? "";
  Delete.containerId := container_id row;
  Delete.dockerId := container_dockerId row |}.

Definition observedClaims (stackId : string) : M (list Delete.ObservedClaim) :=
  rows ← stackContainers stackId;
  mret (claim_of <$> rows).

Definition settleDelete (attempt : DispatchedDelete) (outcome : Delete.StackDeleteOutcome)
    (failure : option string) : M StackDeleteResult :=
  match outcome with
  | Delete.unknown _ => deleteInterrupted attempt "HOST_NOT_READABLE"
  | Delete.finalize_deleted =>
      purge (del_stackId attempt) (del_actionId attempt);;
      audit_delete attempt "stack.deleted" Audit_success;;
      events_record (Some (del_hostId attempt)) "stack.deleted" Severity_info
        ("stack:" +:+ del_stackId attempt) (Some (del_operationId attempt));;
      mret {| deleted_stackId := del_stackId attempt;
              deleted_retainedVolumes := del_retainedVolumes attempt |}
  | Delete.needs_attention _ =>
      deleteNeedsAttention attempt;;
      throw (AppError "STACK_DELETE_PARTIAL" CONFLICT)
  | Delete.finalize_not_applied =>
      deleteNotApplied attempt failure;;
      if bool_decide (failure = Some "STACK_STATE_AMBIGUOUS")
      then conflict "STACK_REPAIR_AMBIGUOUS"
      else throw (AppError "STACK_DELETE_FAILED" CONFLICT)
  end.

Definition removeThenFinalize (attempt : DispatchedDelete) : M StackDeleteResult :=
  failure ← try_catch
    (request (del_agentId attempt) "stack.remove" (del_payload attempt);; mret (inr None))
    (λ error,
       let code := error_code error ?? "DOCKER_OPERATION_FAILED" in
       if mem code UNKNOWN_OUTCOME then mret (inl code) else mret (inr (error_code error)));
  match failure with
  | inl code => deleteInterrupted attempt code
  | inr failure =>
      snapshotComplete ← resync (del_hostId attempt);
      observed ← observedClaims (del_stackId attempt);
      settleDelete attempt (Delete.classifyStackDelete {|
        Delete.expectedServices := del_expectedServices attempt;
        Delete.observed := observed;
        Delete.snapshotComplete := snapshotComplete |}) failure
  end.

(** A stack that never ran, removed without asking a host for anything. *)
Definition deleteNeverDeployed (stack : Stack) (retainedVolumes : list string)
    (actor : AuthenticatedUser) (context : RequestContext) : M StackDeleteResult :=
  claimed ← select_first (λ r, of_stack (stack_id stack) r && bool_decide (container_dockerId r ≠ None));
  match claimed with
  | Some _ => conflict "STACK_STATE_AMBIGUOUS"
  | None =>
      attempted ← select_first (λ d : StackDeployment,
        bool_decide (deployment_stackId d = stack_id stack));
      match attempted with
      | Some _ =>
          agent ← select_first (λ a : Agent,
            bool_decide (agent_hostId a = stack_hostId stack) && bool_decide (agent_revokedAt a = None));
          assertStackAttribution (agent ≫= agent_version)
      | None => mret tt
      end;;
      purge (stack_id stack) None;;
      audit_record {|
        entry_action := "stack.deleted"; entry_result := Audit_success;
        entry_actorUserId := Some (actor_id actor); entry_actorLabel := actor_email actor;
        entry_targetType := Some "stack"; entry_targetId := Some (stack_id stack);
        entry_targetLabel := Some (stack_name stack); entry_reasonCode := None;
        entry_sourceIp := context_sourceIp context;
        entry_userAgent := context_userAgent context |};;
      mret {| deleted_stackId := stack_id stack; deleted_retainedVolumes := retainedVolumes |}
  end.

(** What [delete] does while it holds the stack: the [try] block. *)
Definition delete_locked (stackId : string) (stack : Stack) (actor : AuthenticatedUser)
    (context : RequestContext) : M StackDeleteResult :=
  retainedVolumes ← volumesOf stack;
  if negb (truthy (stack_currentRevisionId stack))
  then deleteNeverDeployed stack retainedVolumes actor context
  else
    let revisionId := stack_currentRevisionId stack ?? "" in
    agentId ← connectedAgent (stack_hostId stack);
    services ← removableServices stackId revisionId;
    '(operationId, actionId) ← try_catch (prepareDelete stack actor context)
      (λ error, throw (operation_claimed error));
    audit_record {|
      entry_action := "stack.delete.requested"; entry_result := Audit_success;
      entry_actorUserId := Some (actor_id actor); entry_actorLabel := actor_email actor;
      entry_targetType := Some "stack"; entry_targetId := Some stackId;
      entry_targetLabel := Some (stack_name stack); entry_reasonCode := Some operationId;
      entry_sourceIp := context_sourceIp context;
      entry_userAgent := context_userAgent context |};;
    removeThenFinalize {|
      del_operationId := operationId; del_actionId := Some actionId; del_stackId := stackId;
      del_stackName := stack_name stack; del_hostId := stack_hostId stack;
      del_revisionId := revisionId;
      del_expectedServices := deployed_serviceName <$> services;
      del_retainedVolumes := retainedVolumes; del_agentId := agentId;
      del_payload := lifecycle_plan stackId revisionId services;
      del_actor := actor; del_context := context |}.

Definition deleteStack (stackId : string) (actor : AuthenticatedUser) (context : RequestContext) :
    M StackDeleteResult :=
  stack ← deletable stackId;
  release ← acquire_lock (stackKey stackId) "delete";
  try_finally (delete_locked stackId stack actor context) (release_lock release).

(** ** What a deletion may take with it *)

(** Everything people configured and every attempt to apply it. *)
Definition configured (d : DB) :=
  (stacks d, stackRevisions d, stackRevisionEnvironment d, stackDeployments d).

(** [d] without the stack, its revisions, their variables and its attempts. *)
Definition without_stack (stackId : string) (d : DB) : DB :=
  delete_stacks (λ s, bool_decide (stack_id s = stackId)) d.

(** No container on record as running for the stack. *)
Definition host_clear (stackId : string) (d : DB) : Prop :=
  ∀ i c, containers d !! i = Some c → container_stackId c = Some stackId → container_dockerId c = None.

#[local] Notation still := (on_db (unchanged configured)).

Lemma without_stack_configured stackId d d' :
  configured d' = configured d →
  configured (without_stack stackId d') = configured (without_stack stackId d).
Proof.
  intros [= Hs Hr Hv Hd]. unfold configured, without_stack, delete_stacks, select_where, all_rows.
  simpl. by rewrite Hs, Hr, Hv, Hd.
Qed.

(** ** Lemmas *)

Lemma sync_configured agentId : framed still (sync agentId).
Proof.
  apply (framed_via decided (λ x, let '(_, _, s, r, v, t, _, _, _) := x in (s, r, v, t))), sync_decided.
Qed.
#[local] Hint Resolve sync_configured sync_only_reads : frames.
#[local] Hint Extern 1 (framed (on_db (unchanged deployed_as)) (update_id (R := Stack) _ _)) =>
  apply deployed_as_update; reflexivity : frames.

Lemma configured_deployed_as {A} (m : M A) :
  framed still m → framed (on_db (unchanged deployed_as)) m.
Proof.
  apply (framed_via configured (λ x, let '(s, r, v, t) := x in
    ((λ s : Stack, s <| stack_status := "" |>) <$> s, r, v, t))).
Qed.

Ltac open_delete :=
  unfold deletable, assertNotArchived, assertNothingUnresolved, volumesOf, connectedAgent,
    assertStackAttribution, removableServices, observedClaims, stackContainers, raise,
    prepareDelete, resync, deleteInterrupted, deleteNotApplied, deleteNeedsAttention, purge,
    finish_action, audit_delete, audit_record, events_record.

Lemma of_stack_gone stackId t i c :
  drop_rows (of_stack stackId) t !! i = Some c → container_stackId c ≠ Some stackId.
Proof.
  rewrite lookup_drop_rows. intros (r & Hr & E)%bind_Some.
  destruct (of_stack stackId r) eqn:Eo; simplify_eq. by apply bool_decide_eq_false in Eo.
Qed.

(** Purging takes the stack and its containers, or nothing. *)
Lemma purge_cases stackId actionId w r w' :
  purge stackId actionId w = (r, w') →
  (∃ e, r = inl e) ∧ w_db w' = w_db w ∨
  configured (w_db w') = configured (without_stack stackId (w_db w)) ∧
  (∀ i c, containers (w_db w') !! i = Some c → container_stackId c ≠ Some stackId).
Proof.
  intros E. unfold purge in E.
  apply bind_cases in E as [(? & -> & E)|(? & ? & [-> ->]%now_inr & E)]; [done|].
  destruct r as [e|u]; [left; split; [by eexists|by eapply transaction_inl]|right].
  apply transaction_inr in E as (w1 & E & [fs ->]). simpl.
  apply bind_inr in E as ([] & w2 & E1 & E).
  assert (Hf : framed (on_db (unchanged (λ d, (configured d, containers d))))
    (finish_action actionId (λ a, a <| action_status := Action_succeeded |>
                                    <| action_completedAt := Some (w_now w) |>)))
    by (unfold finish_action; frame).
  apply (framed_run _ _ _ _ _ Hf) in E1. injection E1 as H1 H2 H3 H4 H5.
  unbind. repeat match goal with H : delete_from _ _ = _ |- _ => apply delete_inr in H as [-> [? ->]] end.
  simpl. split.
  - transitivity (configured (without_stack stackId (w_db w2))); [reflexivity|].
    apply without_stack_configured. unfold configured. congruence.
  - intros i c Hc. rewrite lookup_change_rows in Hc. apply fmap_Some in Hc as (c0 & Hc & ->).
    apply of_stack_gone in Hc. by case_match.
Qed.

(** The stack is gone from [d], and nothing else that was configured. *)
Definition removed (stackId : string) (d d' : DB) : Prop :=
  configured d' = configured (without_stack stackId d) ∧
  ∀ i c, containers d' !! i = Some c → container_stackId c ≠ Some stackId.

(** It failed, and the configuration is what it was. *)
Definition kept {A} (r : exn + A) (d d' : DB) : Prop :=
  (∃ e, r = inl e) ∧ deployed_as d' = deployed_as d.

Lemma configured_kept {A} (r : exn + A) w w' :
  (∃ e, r = inl e) → still w w' → kept r (w_db w) (w_db w').
Proof.
  intros Hr [= Hs Hv He Hd]. split; [done|]. unfold deployed_as. by rewrite Hs, Hv, He, Hd.
Qed.

Lemma removed_from stackId d1 d2 d' :
  configured d1 = configured d2 → removed stackId d1 d' → removed stackId d2 d'.
Proof. intros Hc [H1 H2]. split; [|done]. rewrite H1. by apply without_stack_configured. Qed.

Lemma purge_then {A} stackId actionId (k : M A) w r w' :
  framed (on_db (unchanged (λ d, (configured d, containers d)))) k →
  (purge stackId actionId;; k) w = (r, w') →
  kept r (w_db w) (w_db w') ∨ removed stackId (w_db w) (w_db w').
Proof.
  intros Hk [(e & -> & E)|([] & w1 & E & Ek)]%bind_cases; apply purge_cases in E.
  - destruct E as [[_ ->]|?]; [left|by right]. split; [by eexists|done].
  - destruct E as [[[e ?] _]|[Hc Hn]]; [done|right].
    apply (framed_run _ _ _ _ _ Hk) in Ek. injection Ek as H1 H2 H3 H4 H5.
    unfold removed. rewrite H5. split; [|done]. rewrite <-Hc. unfold configured. congruence.
Qed.

Lemma settleDelete_cases attempt o failure w r w' :
  settleDelete attempt o failure w = (r, w') →
  kept r (w_db w) (w_db w') ∨
  o = Delete.finalize_deleted ∧ removed (del_stackId attempt) (w_db w) (w_db w').
Proof.
  intros E.
  assert (Hthrow : ∀ (m : M StackDeleteResult), framed (on_db (unchanged deployed_as)) m →
    (∀ res w0 w1, m w0 ≠ (inr res, w1)) → m w = (r, w') → kept r (w_db w) (w_db w')).
  { intros m Hm Hr E'. split; [|by apply (framed_run _ _ _ _ _ Hm) in E'].
    destruct r as [e|res]; [by eexists|]. by destruct (Hr _ _ _ E'). }
  destruct o as [| |reason|reason]; unfold settleDelete in E.
  - apply purge_then in E as [?|?]; [by left|by right|]. unfold audit_delete, audit_record, events_record. frame.
  - left. eapply Hthrow; [| |exact E]; [apply configured_deployed_as; open_delete; frame|].
    intros ? ? ? ?. case_bool_decide; by unbind.
  - left. eapply Hthrow; [| |exact E]; [open_delete; frame|]. intros ? ? ? ?. by unbind.
  - left. eapply Hthrow; [| |exact E]; [apply configured_deployed_as; open_delete; frame|].
    intros ? ? ? ?. unfold deleteInterrupted in *. by unbind.
Qed.

(** Asking the host, and what comes of the answer. *)
Lemma removeThenFinalize_cases attempt w r w' :
  removeThenFinalize attempt w = (r, w') →
  kept r (w_db w) (w_db w') ∨
  ∃ d, read_back (del_hostId attempt) d ∧ host_clear (del_stackId attempt) d ∧
    removed (del_stackId attempt) (w_db w) (w_db w').
Proof.
  intros E. unfold removeThenFinalize in E.
  match type of E with (?m ≫= _) _ = _ =>
    assert (Hf : framed still m) by frame end.
  apply (framed_step still _ _ w) in E as [[? ?]|([code|failure] & w1 & _ & H1 & E)];
    [left; by apply configured_kept| | |done|reflexivity]; clear Hf.
  { left. unfold deleteInterrupted in E.
    apply (framed_step still _ _ w) in E as [[? ?]|(l & w2 & _ & H2 & E)];
      [by apply configured_kept| |by frame|done].
    apply (framed_step still _ _ w) in E as [[? ?]|(u & w3 & _ & H3 & E)];
      [by apply configured_kept| |open_delete; by frame|done].
    unfold throw in E. simplify_eq. apply configured_kept; [by eexists|done]. }
  apply (framed_step still _ _ w) in E as [[? ?]|(complete & w2 & E2 & H2 & E)];
    [left; by apply configured_kept| |open_delete; by frame|done].
  apply bind_cases in E as [(e & -> & E)|(observed & w3 & E3 & E)].
  { left. apply configured_kept; [by eexists|]. etrans; [exact H2|].
    eapply framed_run; [|exact E]. open_delete; frame. }
  unfold observedClaims, stackContainers in E3. unbind.
  apply settleDelete_cases in E as [[? E]|[Ho E]]; simpl in E.
  - left. split; [done|]. rewrite E. unfold deployed_as. by injection H2 as -> -> -> ->.
  - right. exists (w_db w2). pose proof (Delete.classifyStackDelete_sound
      {| Delete.expectedServices := del_expectedServices attempt;
         Delete.observed := claim_of <$> select_where (of_stack (del_stackId attempt)) (w_db w2);
         Delete.snapshotComplete := complete |}) as Hsound.
    unfold of_stack in Hsound. rewrite Ho in Hsound. destruct Hsound as [Hc Hno]. simpl in Hc. subst.
    split_and!; [by exists w1, w2| |by eapply removed_from].
    intros i c Hi Hs. destruct (container_dockerId c) as [d|] eqn:Ed; [exfalso|done].
    apply (Hno (container_stackService c ?? "")). exists (claim_of c). simpl. split_and!; [|congruence|done].
    apply list_elem_of_fmap_2, elem_of_select_where. split; [by exists i|by apply bool_decide_eq_true].
Qed.

Lemma deletable_inr stackId w stack w' :
  deletable stackId w = (inr stack, w') → stacks (w_db w) !! stackId = Some stack.
Proof.
  intros E. unfold deletable in E. unbind.
  destruct (stacks (w_db w) !! stackId) as [s|]; [|by unbind]. unbind.
  destruct (hosts (w_db w) !! stack_hostId s) as [h|]; [|by unbind]. unbind.
  case_bool_decide; by unbind.
Qed.

Lemma deleteNeverDeployed_cases stack volumes actor context w r w' :
  deleteNeverDeployed stack volumes actor context w = (r, w') →
  kept r (w_db w) (w_db w') ∨
  host_clear (stack_id stack) (w_db w) ∧ removed (stack_id stack) (w_db w) (w_db w').
Proof.
  intros E. unfold deleteNeverDeployed in E.
  apply bind_cases in E as [(e & -> & E)|(found & w1 & E1 & E)].
  { left. apply configured_kept; [by eexists|]. eapply framed_run; [|exact E]. frame. }
  unbind. destruct (head _) as [c|] eqn:Ec; [left; unfold conflict, throw in E; simplify_eq; split; [by eexists|done]|].
  apply (framed_step quiet _ _ w) in E as [[[Hq _] ?]|(attempted & w2 & _ & H2 & E)];
    [left; split; [done|by rewrite Hq]| |by frame|done].
  apply (framed_step quiet _ _ w) in E as [[[Hq _] ?]|([] & w3 & _ & [H3 _] & E)];
    [left; split; [done|by rewrite Hq]| |open_delete; by frame|done].
  apply purge_then in E; [|unfold audit_record; frame]. rewrite H3 in E.
  destruct E as [?|?]; [by left|right]. split; [|done]. intros i c Hi Hs.
  pose proof (proj1 (select_first_None _ _) Ec i c Hi) as Hp. unfold of_stack in Hp.
  apply andb_false_iff in Hp as [Hp%bool_decide_eq_false|Hp%bool_decide_eq_false]; [done|].
  destruct (container_dockerId c); [by destruct Hp|done].
Qed.

(** What entitles a call to remove a stack: it never ran and nothing on record
    claims it, or its host was read completely and shows nothing of it. *)
Definition entitled (w : World) (stackId : string) : Prop :=
  ∃ stack, stacks (w_db w) !! stackId = Some stack ∧
    (truthy (stack_currentRevisionId stack) = false ∧ host_clear stackId (w_db w) ∨
     ∃ d, read_back (stack_hostId stack) d ∧ host_clear stackId d).

Lemma delete_locked_cases stackId stack actor context w0 w r w' :
  stacks (w_db w0) !! stackId = Some stack → stack_id stack = stackId → quiet w0 w →
  delete_locked stackId stack actor context w = (r, w') →
  kept r (w_db w0) (w_db w') ∨ entitled w0 stackId ∧ removed stackId (w_db w0) (w_db w').
Proof.
  intros Hs Hid Hq E. unfold delete_locked in E.
  apply (framed_step quiet _ _ w0) in E as [[[Hdb _] ?]|(volumes & w1 & _ & [H1 _] & E)];
    [left; split; [done|by rewrite Hdb]| |open_delete; by frame|done].
  destruct (truthy (stack_currentRevisionId stack)) eqn:Et; simpl in E.
  2: { apply deleteNeverDeployed_cases in E. rewrite H1, Hid in E.
       destruct E as [?|[? ?]]; [by left|right]. split; [|done]. exists stack. auto. }
  assert (H1' : still w0 w1) by (unfold on_db, unchanged; by rewrite H1).
  apply (framed_step still _ _ w0) in E as [[? ?]|(agentId & w2 & _ & H2 & E)];
    [left; by apply configured_kept| |open_delete; by frame|done].
  apply (framed_step still _ _ w0) in E as [[? ?]|(services & w3 & _ & H3 & E)];
    [left; by apply configured_kept| |open_delete; by frame|done].
  apply (framed_step still _ _ w0) in E as [[? ?]|([oid aid] & w4 & _ & H4 & E)];
    [left; by apply configured_kept| |open_delete; by frame|done].
  apply (framed_step still _ _ w0) in E as [[? ?]|([] & w5 & _ & H5 & E)];
    [left; by apply configured_kept| |open_delete; by frame|done].
  apply removeThenFinalize_cases in E as [[? E]|(d & Hr & Hc & E)]; simpl in *.
  - left. split; [done|]. rewrite E. unfold deployed_as. by injection H5 as -> -> -> ->.
  - right. split; [exists stack; eauto|]. eapply removed_from; [exact H5|exact E].
Qed.

Lemma deleteStack_cases stackId actor context w r w' :
  db_ok (w_db w) → deleteStack stackId actor context w = (r, w') →
  kept r (w_db w) (w_db w') ∨ entitled w stackId ∧ removed stackId (w_db w) (w_db w').
Proof.
  intros Hok E. unfold deleteStack in E. assert (Hq : quiet w w) by reflexivity.
  apply (framed_step quiet _ _ w) in E as [[[Hdb _] ?]|(stack & w1 & E1%deletable_inr & H1 & E)];
    [left; split; [done|by rewrite Hdb]| |open_delete; by frame|done].
  assert (Hid : stack_id stack = stackId) by exact (proj1 (db_ok_rows (R := Stack) _ Hok) _ _ E1).
  apply (framed_step quiet _ _ w) in E as [[[Hdb _] ?]|(h & w2 & _ & H2 & E)];
    [left; split; [done|by rewrite Hdb]| |by frame|done].
  apply try_finally_release in E as (w3 & E & [Hdb _]). rewrite Hdb.
  exact (delete_locked_cases _ _ _ _ _ _ _ _ E1 Hid H2 E).
Qed.

(** *** What is sent *)

(** The host is asked while a removal of this stack is on record as running and
    the configuration is what it was. *)
Definition delete_written_ahead (stackId oid : string) (d0 d : DB) : Prop :=
  configured d = configured d0 ∧ stackOperations d0 !! oid = None ∧
  ∃ row, stackOperations d !! oid = Some row ∧ operation_status row = "running" ∧
    operation_stackId row = stackId ∧ operation_type row = "delete".

Lemma prepareDelete_inr stack actor context w x w' :
  prepareDelete stack actor context w = (inr x, w') →
  delete_written_ahead (stack_id stack) x.1 (w_db w) (w_db w') ∧ w_outbox w' = w_outbox w.
Proof.
  intros E. split; [|apply (sends_nothing _ _ _ _ E); open_delete; frame].
  assert (Hf : framed still (prepareDelete stack actor context)) by (open_delete; frame).
  split; [by apply (framed_run _ _ _ _ _ Hf) in E|]. clear Hf.
  apply transaction_inr in E as (w1 & E & [fs ->]).
  apply bind_inr in E as (at_ & w2 & [-> ->]%now_inr & E).
  apply bind_inr in E as (aid & w3 & E3 & E). unfold randomUUID in E3. simplify_eq.
  apply bind_inr in E as (cid & w4 & E4 & E).
  assert (Hw4 : w_db w4 = w_db w).
  { destruct (context_requestId context); unfold mret, M_ret, randomUUID in E4; by simplify_eq. }
  apply bind_inr in E as ([] & w5 & [_ [f5 ->]]%insert_inr & E).
  apply bind_inr in E as (oid & w6 & E6 & E). unfold randomUUID in E6. simplify_eq/=.
  apply bind_inr in E as ([] & w7 & [Hno [f7 ->]]%insert_inr & E). simpl in Hno.
  apply ret_inr in E as [-> ->]. rewrite Hw4 in *. simpl. split; [done|].
  eexists. rewrite lookup_insert_eq. by split_and!.
Qed.

Lemma removeThenFinalize_sends attempt w r w' :
  removeThenFinalize attempt w = (r, w') →
  ∃ first rest, w_outbox w' = w_outbox w ++ first ++ rest ∧ Forall only_reads rest ∧
    (first = [] ∨ first = [
      {| sent_agent := del_agentId attempt; sent_capability := "stack.remove";
         sent_plan := del_payload attempt; sent_db := w_db w |}]).
Proof.
  intros E. unfold removeThenFinalize in E. set (asked := try_catch _ _) in E.
  assert (Ha : ∃ x w1, asked w = (inr x, w1) ∧ ∃ r0,
    request (del_agentId attempt) "stack.remove" (del_payload attempt) w = (r0, w1)).
  { unfold asked, try_catch, mbind, M_bind.
    destruct (request _ _ _ w) as [[e|p] w1]; [|by eauto 6]. destruct (mem _ _); by eauto 6. }
  destruct Ha as (x & w1 & Ex & r0 & Hr). rewrite (run_bind _ _ _ _ _ Ex) in E.
  assert (Hs : sends only_reads w1 w').
  { eapply framed_run; [|exact E]. unfold settleDelete. open_delete. frame. }
  destruct Hs as (rest & Hw & Hrest). apply request_cases in Hr as [_ [Hr|Hr]]; rewrite Hw, Hr.
  - exists [], rest. auto.
  - eexists _, rest. rewrite <-app_assoc. auto.
Qed.

(** The requests of a call: at most one removal, and readings after it. *)
Definition asks_once (w : World) (stackId : string) (w' : World) : Prop :=
  ∃ first rest, w_outbox w' = w_outbox w ++ first ++ rest ∧ Forall only_reads rest ∧
    (first = [] ∨ ∃ oid m, first = [m] ∧ sent_capability m = "stack.remove" ∧
       delete_written_ahead stackId oid (w_db w) (sent_db m)).

Lemma asks_nothing w stackId w' : w_outbox w' = w_outbox w → asks_once w stackId w'.
Proof. unfold asks_once. intros ->. exists [], []. rewrite app_nil_r. auto. Qed.

(** Writing to the trail leaves what was written ahead. *)
Lemma audit_record_ahead stackId oid d0 entry w r w' :
  audit_record entry w = (r, w') → delete_written_ahead stackId oid d0 (w_db w) →
  delete_written_ahead stackId oid d0 (w_db w') ∧ w_outbox w' = w_outbox w.
Proof.
  intros E (Hc & Hno & Hrow). split; [|apply (sends_nothing _ _ _ _ E); unfold audit_record; frame].
  assert (Hf : framed (on_db (unchanged (λ d, (configured d, stackOperations d)))) (audit_record entry))
    by (unfold audit_record; frame).
  apply (framed_run _ _ _ _ _ Hf) in E. injection E as H1 H2 H3 H4 H5.
  unfold delete_written_ahead. rewrite H5. split; [|done]. rewrite <-Hc. unfold configured. congruence.
Qed.

Lemma delete_locked_sends stackId stack actor context w0 w r w' :
  stack_id stack = stackId → quiet w0 w →
  delete_locked stackId stack actor context w = (r, w') → asks_once w0 stackId w'.
Proof.
  intros Hid Hq E. unfold delete_locked in E.
  apply (framed_step quiet _ _ w0) in E as [[[_ ?] _]|(volumes & w1 & _ & H1 & E)];
    [by apply asks_nothing| |open_delete; by frame|done].
  destruct (truthy (stack_currentRevisionId stack)) eqn:Et; simpl in E.
  2: { apply asks_nothing. transitivity (w_outbox w1); [|by apply H1].
       apply (sends_nothing _ _ _ _ E). unfold deleteNeverDeployed. open_delete. frame. }
  apply (framed_step quiet _ _ w0) in E as [[[_ ?] _]|(agentId & w2 & _ & H2 & E)];
    [by apply asks_nothing| |open_delete; by frame|done].
  apply (framed_step quiet _ _ w0) in E as [[[_ ?] _]|(services & w3 & _ & [H3 Ho3] & E)];
    [by apply asks_nothing| |open_delete; by frame|done].
  apply bind_cases in E as [(e & -> & E)|([oid aid] & w4 & E4 & E)].
  { apply asks_nothing. rewrite <-Ho3. apply (sends_nothing _ _ _ _ E). open_delete. frame. }
  apply catch_rethrow in E4 as [(e' & ? & _)|(x & [= <-] & [E4 Ho4]%prepareDelete_inr)]; [done|].
  rewrite H3, Hid in E4. simpl in E4.
  apply bind_cases in E as [(e & -> & [_ E]%(audit_record_ahead stackId oid (w_db w0)))|([] & w5 & E5 & E)];
    [apply asks_nothing; congruence|done|].
  apply (audit_record_ahead stackId oid (w_db w0)) in E5 as [E5 Ho5]; [|done].
  unfold asks_once. apply removeThenFinalize_sends in E as (first & rest & -> & Hrest & Hf).
  exists first, rest. split_and!; [congruence|done|]. simpl in Hf.
  destruct Hf as [->| ->]; [by left|right]. eexists oid, _. by split_and!.
Qed.

Lemma deleteStack_sends stackId actor context w r w' :
  db_ok (w_db w) → deleteStack stackId actor context w = (r, w') → asks_once w stackId w'.
Proof.
  intros Hok E. unfold deleteStack in E. assert (Hq : quiet w w) by reflexivity.
  apply (framed_step quiet _ _ w) in E as [[[_ ?] _]|(stack & w1 & E1%deletable_inr & H1 & E)];
    [by apply asks_nothing| |open_delete; by frame|done].
  assert (Hid : stack_id stack = stackId) by exact (proj1 (db_ok_rows (R := Stack) _ Hok) _ _ E1).
  apply (framed_step quiet _ _ w) in E as [[[_ ?] _]|(h & w2 & _ & H2 & E)];
    [by apply asks_nothing| |by frame|done].
  apply try_finally_release in E as (w3 & E & [_ Ho]). unfold asks_once. rewrite Ho.
  exact (delete_locked_sends _ _ _ _ _ _ _ _ Hid H2 E).
Qed.

(** *** What every call keeps *)

Ltac open_whole_delete :=
  unfold deleteStack, delete_locked, deleteNeverDeployed, removeThenFinalize, settleDelete;
  open_delete.

Lemma deleteStack_keeps_db_ok stackId actor context :
  framed (on_db keeps_db_ok) (deleteStack stackId actor context).
Proof. open_whole_delete. frame. Qed.

Lemma deleteStack_balanced stackId actor context :
  framed balanced (deleteStack stackId actor context).
Proof.
  open_whole_delete. repeat ((apply framed_with_lock; [done|intros ?]) || frame_step).
Qed.

(** ** Theorems *)


(** A removal is written down before the host is asked for it, asked for at
    most once, and asked for while the configuration is still whole.  Whatever
    fails, every other request of the call is a reading: nothing else, a volume
    or a network least of all, is asked to be removed. *)
Theorem delete_writes_ahead stackId actor context w r w' :
  db_ok (w_db w) → deleteStack stackId actor context w = (r, w') →
  ∃ first rest, w_outbox w' = w_outbox w ++ first ++ rest ∧ Forall only_reads rest ∧
    (first = [] ∨ ∃ oid m, first = [m] ∧ sent_capability m = "stack.remove" ∧
       delete_written_ahead stackId oid (w_db w) (sent_db m)).
Proof. apply deleteStack_sends. Qed.

(** ** The shop, deleted *)

(** The agent says it is done, and the host shows [seen]. *)
Definition closing (seen : list ContainerSummary) : World :=
  (quiet_world shop) <| w_replies := Replied Payload_other :: answers seen |>.

Example closed : (stacks (w_db (deleteStack S1 operator from_ui (closing [])).2) !! S1) = None.
Proof. by vm_compute. Qed.

(** The agent said the same and the container is still there. *)
Example not_closed :
  (deleteStack S1 operator from_ui (closing [report "d1" (shop_labels R1)])).1 =
    inl (AppError "STACK_DELETE_FAILED" CONFLICT).
Proof. by vm_compute. Qed.


Example delete_asks_first :
  head (sent_capability <$> w_outbox (deleteStack S1 operator from_ui (closing [])).2) =
    Some "stack.remove".
Proof. by vm_compute. Qed.

Lemma delete_writes_ahead_witness :
  ∃ m rest oid, w_outbox (deleteStack S1 operator from_ui (closing [])).2 = m :: rest ∧
    sent_capability m = "stack.remove" ∧ Forall only_reads rest ∧
    delete_written_ahead S1 oid shop (sent_db m).
Proof.
  pose proof delete_asks_first as Ho.
  pose proof (delete_writes_ahead S1 operator from_ui (closing []) _ _ shop_ok
    (surjective_pairing _)) as Hw.
  revert Ho Hw. generalize (deleteStack S1 operator from_ui (closing [])). intros [r w'].
  change (w_outbox (closing [])) with (@nil Sent). unfold snd.
  intros Ho (first & rest & Hw & Hrest & Hf). rewrite app_nil_l in Hw. rewrite Hw in *.
  destruct Hf as [->|(oid & m & -> & Hm & Ha)].
  - exfalso. destruct Hrest as [|x rest Hx _]; [done|]. injection Ho as Ho.
    unfold only_reads in Hx. rewrite Ho in Hx. by apply (bool_decide_pack _) in Hx.
  - by exists m, rest, oid.
Defined.

(** "does anything on the host still claim to be this stack" is asked of the
    reading and answered from the rows before it.  The reading shows a container
    [d2] that carries the stack's own labels for its service; the service still
    counts as held by the row of the container that is gone, so [d2] is not
    attributed, and the stack is deleted while [d2] runs. *)
Theorem delete_overlooks_claimant :
  let labels := delete DOCKPLANE_CONTAINER_ID (shop_labels R1) in
  let w' := (deleteStack S1 operator from_ui (closing [report "d2" labels])).2 in
  observedStack (report "d2" labels) =
    {| claim_stackId := Some S1; claim_stackService := Some "web";
       claim_stackRevisionId := Some R1 |} ∧
  stacks (w_db w') !! S1 = None ∧
  (λ c, (container_dockerId c, container_stackId c)) <$> (map_to_list (containers (w_db w'))).*2 =
    [(Some "d2", None)].
Proof. by vm_compute. Qed.
