(* ===== verification/StackRecovery.v ===== *)
(** * Finishing work on stacks whose owner is gone

    [api/src/stacks/stack-recovery.service.ts].  [readCompletely] and
    [observedRuntime] are the deployment and the lifecycle service's [resync] and
    [observedRuntime], which the source repeats word for word.

    What the pass does to the record is described by a relation, [recovery_step],
    one rule for each way a piece of unfinished work may be settled; the pass is
    shown to take such steps and no others, from a complete reading of the host,
    and what follows from that is proved by induction on the steps. *)

From Stdlib Require Import Ascii String NArith ZArith.
From stdpp Require Import gmap strings list pretty.
From S2P Require Import Prelude Semver Schema Store Registry Effects Logic PendingGuard.
From S2P Require Import StackClassify StackPlan Base64 Environment Discovery Detail.
From S2P Require Import StackDeployment StackLifecycle StackDelete.

#[local] Existing Instance Lifecycle.StackLifecycleKind_eq_dec.

(** ** Data *)

Record Unfinished := {
  unf_id : string;
  unf_stackId : string;
  unf_revisionId : string;
  unf_fromRevisionId : option string;
  unf_actionId : option string;
  unf_name : string
}.

Record UnfinishedOperation := {
  uop_id : string;
  uop_stackId : string;
  uop_revisionId : string;
  uop_type : string;
  uop_fingerprint : option (list ServiceFingerprint);
  uop_actionId : option string;
  uop_name : string
}.

(** [row.type as StackOperationKind]: what the writers of the column write. *)
Definition lifecycle_kind (type : string) : option Lifecycle.StackLifecycleKind :=
  if bool_decide (type = "start") then Some Lifecycle.start
  else if bool_decide (type = "stop") then Some Lifecycle.stop
  else if bool_decide (type = "restart") then Some Lifecycle.restart
  else None.

Definition OPERATION_STATUS (o : Lifecycle.StackLifecycleOutcome) : string :=
  match o with
  | Lifecycle.applied => "succeeded" | Lifecycle.not_applied => "failed"
  | Lifecycle.needs_attention _ => "needs_attention" | Lifecycle.unknown _ => "interrupted"
  end.

Definition OPERATION_FAILED (k : Lifecycle.StackLifecycleKind) : string :=
  match k with
  | Lifecycle.start => "STACK_START_FAILED" | Lifecycle.stop => "STACK_STOP_FAILED"
  | Lifecycle.restart => "STACK_RESTART_FAILED"
  end.

Definition RUNTIME_STATUS (k : Lifecycle.StackLifecycleKind) : string :=
  match k with
  | Lifecycle.start => "running" | Lifecycle.stop => "stopped" | Lifecycle.restart => "running"
  end.

Definition OPERATION_AUDIT (k : Lifecycle.StackLifecycleKind) : string :=
  match k with
  | Lifecycle.start => "stack.started" | Lifecycle.stop => "stack.stopped"
  | Lifecycle.restart => "stack.restarted"
  end.

Definition OPERATION_AUDIT_FAILED (k : Lifecycle.StackLifecycleKind) : string :=
  match k with
  | Lifecycle.start => "stack.start.failed" | Lifecycle.stop => "stack.stop.failed"
  | Lifecycle.restart => "stack.restart.failed"
  end.

Definition STATUS (o : Apply.StackApplyOutcome) : string :=
  match o with
  | Apply.finalize_target => "succeeded" | Apply.finalize_from => "rolled_back"
  | Apply.finalize_not_applied => "failed" | Apply.needs_attention _ => "needs_attention"
  | Apply.unknown _ => "interrupted"
  end.

Definition FAILURE_CODE (o : Apply.StackApplyOutcome) : option string :=
  match o with
  | Apply.finalize_from | Apply.finalize_not_applied => Some "STACK_APPLY_FAILED"
  | Apply.needs_attention _ => Some "STACK_DEPLOYMENT_PARTIAL"
  | Apply.finalize_target | Apply.unknown _ => None
  end.

Definition AUDIT (o : Apply.StackApplyOutcome) : string :=
  match o with
  | Apply.finalize_target => "stack.deploy.succeeded"
  | Apply.finalize_from => "stack.apply.rolled_back"
  | Apply.finalize_not_applied => "stack.deploy.failed"
  | Apply.needs_attention _ => "stack.deploy.needs_attention"
  | Apply.unknown _ => "stack.deploy.interrupted"
  end.

(** ** Reading *)

(** [stack_deployments JOIN stacks], the attempts of a host that are not over. *)
Definition unfinishedDeployments (hostId : string) (d : DB) : list Unfinished :=
  omap (λ r, s ← stacks d !! deployment_stackId r;
    Some {| unf_id := deployment_id r; unf_stackId := deployment_stackId r;
            unf_revisionId := deployment_revisionId r;
            unf_fromRevisionId := deployment_fromRevisionId r;
            unf_actionId := deployment_actionId r; unf_name := stack_name s |})
    (select_where (λ r, bool_decide (deployment_hostId r = hostId) &&
       mem (deployment_status r) ["pending"; "running"; "interrupted"]) d).

Definition unfinishedOperations (hostId : string) (d : DB) : list UnfinishedOperation :=
  omap (λ r, s ← stacks d !! operation_stackId r;
    Some {| uop_id := operation_id r; uop_stackId := operation_stackId r;
            uop_revisionId := operation_revisionId r; uop_type := operation_type r;
            uop_fingerprint := operation_fingerprint r;
            uop_actionId := operation_actionId r; uop_name := stack_name s |})
    (select_where (λ r, bool_decide (operation_hostId r = hostId) &&
       unresolved_status (operation_status r)) d).

Definition services (revisionId : string) : M (list string) :=
  revision ← select_id (R := StackRevision) revisionId;
  mret ((summary_services <$> (revision ≫= revision_summary)) ?? []).

Definition audit_system (action : string) (result : AuditResult) (stackId name id : string) : M unit :=
  audit_record {|
    entry_action := action; entry_result := result; entry_actorUserId := None;
    entry_actorLabel := "system"; entry_targetType := Some "stack";
    entry_targetId := Some stackId; entry_targetLabel := Some name;
    entry_reasonCode := Some id; entry_sourceIp := None; entry_userAgent := None |}.

(** ** Settling *)

(** Compares one attempt with the host and writes what it turned out to be. *)
Definition settleDeployment (deployment : Unfinished) : M bool :=
  rows ← stackContainers (unf_stackId deployment);
  let observed := observed_service <$> rows in
  targetServices ← services (unf_revisionId deployment);
  fromServices ← (if truthy (unf_fromRevisionId deployment)
                  then Some <$> services (unf_fromRevisionId deployment ?? "") else mret None);
  let outcome := Apply.classifyStackApply {|
    Apply.fromRevisionId := unf_fromRevisionId deployment;
    Apply.targetRevisionId := unf_revisionId deployment;
    Apply.targetServices := targetServices; Apply.fromServices := fromServices;
    Apply.observed := observed; Apply.snapshotComplete := true |} in
  match outcome with
  | Apply.unknown _ => mret false
  | _ =>
      at_ ← now;
      let applied := match outcome with Apply.finalize_target => true | _ => false end in
      let attention := match outcome with Apply.needs_attention _ => true | _ => false end in
      transaction (
        update_id (R := StackDeployment) (unf_id deployment)
          (λ r, let r := r <| deployment_status := STATUS outcome |>
                           <| deployment_detail := Some (detail_of observed) |>
                           <| deployment_resolvedAt := Some at_ |> in
                if applied then r else r <| deployment_failureCode := FAILURE_CODE outcome |>);;
        update_id (R := Stack) (unf_stackId deployment)
          (λ s, if applied then
                  s <| stack_currentRevisionId := Some (unf_revisionId deployment) |>
                    <| stack_desiredRevisionId := None |> <| stack_status := "running" |>
                    <| stack_lastDeployedAt := Some at_ |>
                else
                  s <| stack_status :=
                         if attention then "needs_attention"
                         else if truthy (unf_fromRevisionId deployment) then "running"
                         else "not_deployed" |>
                    <| stack_desiredRevisionId := None |>);;
        when (negb attention) (delete_from (unclaimed (unf_stackId deployment));; mret tt);;
        finish_action (unf_actionId deployment)
          (λ a, let a := a <| action_status := if applied then Action_succeeded else Action_failed |>
                           <| action_completedAt := Some at_ |> in
                if applied then a else a <| action_errorCode := FAILURE_CODE outcome |>));;
      audit_system (AUDIT outcome) (if applied then Audit_success else Audit_failure)
        (unf_stackId deployment) (unf_name deployment) (unf_id deployment);;
      mret true
  end.

Definition settleDeletion (operation : UnfinishedOperation) : M bool :=
  rows ← stackContainers (uop_stackId operation);
  expected ← services (uop_revisionId operation);
  let outcome := Delete.classifyStackDelete {|
    Delete.expectedServices := expected; Delete.observed := claim_of <$> rows;
    Delete.snapshotComplete := true |} in
  match outcome with
  | Delete.unknown _ => mret false
  | _ =>
      at_ ← now;
      let deleted := match outcome with Delete.finalize_deleted => true | _ => false end in
      let attention := match outcome with Delete.needs_attention _ => true | _ => false end in
      let code := if attention then "STACK_DELETE_PARTIAL" else "STACK_DELETE_FAILED" in
      transaction (
        finish_action (uop_actionId operation)
          (λ a, let a := a <| action_status := if deleted then Action_succeeded else Action_failed |>
                           <| action_completedAt := Some at_ |> in
                if deleted then a else a <| action_errorCode := Some code |>);;
        if deleted then
          delete_from (of_stack (uop_stackId operation));;
          delete_from (λ s : Stack, bool_decide (stack_id s = uop_stackId operation));;
          mret tt
        else
          update_id (R := StackOperation) (uop_id operation)
            (λ r, r <| operation_status := if attention then "needs_attention" else "failed" |>
                    <| operation_failureCode := Some code |>
                    <| operation_resolvedAt := Some at_ |>);;
          when attention (update_id (R := Stack) (uop_stackId operation)
                            (λ s, s <| stack_status := "needs_attention" |>);; mret tt));;
      audit_system
        (if deleted then "stack.deleted"
         else if attention then "stack.delete.needs_attention" else "stack.delete.failed")
        (if deleted then Audit_success else Audit_failure)
        (uop_stackId operation) (uop_name operation) (uop_id operation);;
      mret true
  end.

(** ** What a pass may do to the record *)

(** What each stack is said to be, and the revision it is confirmed to run. *)
Definition standing (d : DB) : gmap string (string * option string) :=
  (λ s, (stack_status s, stack_currentRevisionId s)) <$> stacks d.

(** Every attempt, every operation, every stack. *)
Definition ledger (d : DB) := (attempts d, operations d, standing d).

Definition services_of (revisionId : string) (d : DB) : list string :=
  (summary_services <$> (stackRevisions d !! revisionId ≫= revision_summary)) ?? [].

(** What the containers on record mean for an attempt, and for a deletion. *)
Definition deployment_outcome (u : Unfinished) (d : DB) : Apply.StackApplyOutcome :=
  Apply.classifyStackApply {|
    Apply.fromRevisionId := unf_fromRevisionId u; Apply.targetRevisionId := unf_revisionId u;
    Apply.targetServices := services_of (unf_revisionId u) d;
    Apply.fromServices := if truthy (unf_fromRevisionId u)
                          then Some (services_of (unf_fromRevisionId u ?? "") d) else None;
    Apply.observed := observed_service <$> select_where (of_stack (unf_stackId u)) d;
    Apply.snapshotComplete := true |}.

Definition deletion_outcome (u : UnfinishedOperation) (d : DB) : Delete.StackDeleteOutcome :=
  Delete.classifyStackDelete {|
    Delete.expectedServices := services_of (uop_revisionId u) d;
    Delete.observed := claim_of <$> select_where (of_stack (uop_stackId u)) d;
    Delete.snapshotComplete := true |}.

(** What settling on an outcome makes of the stack. *)
Definition applied_standing (u : Unfinished) (o : Apply.StackApplyOutcome)
    (s : string * option string) : string * option string :=
  match o with
  | Apply.finalize_target => ("running", Some (unf_revisionId u))
  | Apply.needs_attention _ => ("needs_attention", s.2)
  | Apply.unknown _ => s
  | _ => (if truthy (unf_fromRevisionId u) then "running" else "not_deployed", s.2)
  end.

Definition operated_standing (k : Lifecycle.StackLifecycleKind) (o : Lifecycle.StackLifecycleOutcome)
    (s : string * option string) : string * option string :=
  match o with
  | Lifecycle.applied => (RUNTIME_STATUS k, s.2)
  | Lifecycle.needs_attention _ => ("needs_attention", s.2)
  | _ => s
  end.

Definition undeleted_standing (o : Delete.StackDeleteOutcome) (s : string * option string) :
    string * option string :=
  match o with Delete.needs_attention _ => ("needs_attention", s.2) | _ => s end.

Section recovery.
Context `{Dates}.

(** One settlement, given the locks and the work that was found unfinished. *)
Inductive recovery_step (locks : MutationRegistry) (ds : list Unfinished)
    (os : list UnfinishedOperation) : relation DB :=
  | trail_written d d' : ledger d' = ledger d → recovery_step locks ds os d d'
  | deployment_settled u o d d' :
      u ∈ ds → isBusy (stackKey (unf_stackId u)) locks = false →
      o = deployment_outcome u d → (∀ reason, o ≠ Apply.unknown reason) →
      ledger d' = (alter (λ _, STATUS o) (unf_id u) (attempts d), operations d,
                   alter (applied_standing u o) (unf_stackId u) (standing d)) →
      recovery_step locks ds os d d'
  | operation_settled u k observed o w0 w d' :
      u ∈ os → isBusy (stackKey (uop_stackId u)) locks = false →
      lifecycle_kind (uop_type u) = Some k →
      observedRuntime (uop_stackId u) (bool_decide (k = Lifecycle.restart)) w0 = (inr observed, w) →
      o = Lifecycle.classifyStackLifecycle {|
        Lifecycle.operation := k; Lifecycle.deployedRevisionId := uop_revisionId u;
        Lifecycle.expectedServices := services_of (uop_revisionId u) (w_db w);
        Lifecycle.observed := observed; Lifecycle.fingerprint := uop_fingerprint u;
        Lifecycle.snapshotComplete := true |} →
      (∀ reason, o ≠ Lifecycle.unknown reason) →
      ledger d' = (attempts (w_db w), alter (λ _, OPERATION_STATUS o) (uop_id u) (operations (w_db w)),
                   alter (operated_standing k o) (uop_stackId u) (standing (w_db w))) →
      recovery_step locks ds os (w_db w) d'
  | deletion_refused u o d d' :
      u ∈ os → isBusy (stackKey (uop_stackId u)) locks = false → uop_type u = "delete" →
      o = deletion_outcome u d → ¬ host_clear (uop_stackId u) d →
      ledger d' = (attempts d,
                   alter (λ _, match o with Delete.needs_attention _ => "needs_attention"
                                          | _ => "failed" end) (uop_id u) (operations d),
                   alter (undeleted_standing o) (uop_stackId u) (standing d)) →
      recovery_step locks ds os d d'
  | stack_deleted u d d' :
      u ∈ os → isBusy (stackKey (uop_stackId u)) locks = false → uop_type u = "delete" →
      host_clear (uop_stackId u) d → ledger d' = ledger (without_stack (uop_stackId u) d) →
      recovery_step locks ds os d d'.

Definition settleUnfinishedOperation (operation : UnfinishedOperation)
    (k : Lifecycle.StackLifecycleKind) : M bool :=
  observed ← observedRuntime (uop_stackId operation) (bool_decide (k = Lifecycle.restart));
  expected ← services (uop_revisionId operation);
  let outcome := Lifecycle.classifyStackLifecycle {|
    Lifecycle.operation := k; Lifecycle.deployedRevisionId := uop_revisionId operation;
    Lifecycle.expectedServices := expected; Lifecycle.observed := observed;
    Lifecycle.fingerprint := uop_fingerprint operation; Lifecycle.snapshotComplete := true |} in
  match outcome with
  | Lifecycle.unknown _ => mret false
  | _ =>
      at_ ← now;
      let applied := match outcome with Lifecycle.applied => true | _ => false end in
      let attention := match outcome with Lifecycle.needs_attention _ => true | _ => false end in
      let code := if attention then "STACK_LIFECYCLE_PARTIAL" else OPERATION_FAILED k in
      let detail :=
        (λ s, {| outcome_serviceName := Lifecycle.serviceName s;
                 outcome_containerId := Lifecycle.containerId s;
                 outcome_state := truthy_string (Lifecycle.state s); outcome_errorCode := None |})
        <$> List.filter present observed in
      transaction (
        update_id (R := StackOperation) (uop_id operation)
          (λ r, let r := r <| operation_status := OPERATION_STATUS outcome |>
                           <| operation_detail := Some detail |>
                           <| operation_resolvedAt := Some at_ |> in
                if applied then r else r <| operation_failureCode := Some code |>);;
        when (applied || attention)
          (update_id (R := Stack) (uop_stackId operation)
             (λ s, s <| stack_status := if attention then "needs_attention" else RUNTIME_STATUS k |>);;
           mret tt);;
        finish_action (uop_actionId operation)
          (λ a, let a := a <| action_status := if applied then Action_succeeded else Action_failed |>
                           <| action_completedAt := Some at_ |> in
                if applied then a else a <| action_errorCode := Some code |>));;
      audit_system
        (if applied then OPERATION_AUDIT k
         else if attention then "stack.operation.needs_attention" else OPERATION_AUDIT_FAILED k)
        (if applied then Audit_success else Audit_failure)
        (uop_stackId operation) (uop_name operation) (uop_id operation);;
      mret true
  end.

(** One turn of each of the loops: nothing while somebody holds the stack. *)
Definition recoverDeployment (recovered : nat) (deployment : Unfinished) : M nat :=
  held ← busy (stackKey (unf_stackId deployment));
  if (held : bool) then mret recovered
  else
    settled ← settleDeployment deployment;
    mret (if (settled : bool) then S recovered else recovered).

Definition recoverOperation (recovered : nat) (operation : UnfinishedOperation) : M nat :=
  held ← busy (stackKey (uop_stackId operation));
  if (held : bool) then mret recovered
  else
    settled ← (if bool_decide (uop_type operation = "delete") then settleDeletion operation
               else match lifecycle_kind (uop_type operation) with
                    | Some k => settleUnfinishedOperation operation k
                    | None => throw PlainError
                    end);
    mret (if (settled : bool) then S recovered else recovered).

Definition recoverHost (hostId : string) : M nat :=
  unfinished ← statement (λ d, inr (unfinishedDeployments hostId d, d));
  operations ← statement (λ d, inr (unfinishedOperations hostId d, d));
  if (length unfinished =? 0)%nat && (length operations =? 0)%nat then mret 0
  else
    complete ← resync hostId;
    if negb complete then mret 0
    else
      recovered ← for_fold unfinished 0 recoverDeployment;
      for_fold operations recovered recoverOperation.
(** ** Lemmas *)

(** The locks as they are, and steps of a pass. *)
Definition stepping (ds : list Unfinished) (os : list UnfinishedOperation) : relation World :=
  λ w w', w_registry w' = w_registry w ∧
    (db_ok (w_db w) → rtc (recovery_step (w_registry w) ds os) (w_db w) (w_db w') ∧ db_ok (w_db w')).

#[local] Instance stepping_frame ds os : Frame (stepping ds os).
Proof.
  unfold stepping. split; [split|..].
  - intros w. split; [done|]. intros Hok. split; [apply rtc_refl|done].
  - intros w1 w2 w3 [Hr1 H1] [Hr2 H2]. split; [congruence|]. intros Hok.
    destruct (H1 Hok) as [S1 Hok2]. destruct (H2 Hok2) as [S2 Hok3].
    split; [|done]. rewrite Hr1 in S2. by etrans.
  - intros w fs. split; [done|]. intros Hok. split; [apply rtc_refl|done].
  - intros w n. split; [done|]. intros Hok. split; [apply rtc_refl|done].
  - intros w w' [Hr _]. split; [done|]. intros Hok. split; [apply rtc_refl|done].
Qed.

(** A program that keeps the record, the locks and the invariant. *)
Lemma framed_stepping {A} ds os (m : M A) :
  framed (on_db (unchanged ledger)) m → framed (on_db keeps_db_ok) m → framed same_locks m →
  framed (stepping ds os) m.
Proof.
  intros H1 H2 H3 w. split; [apply H3|]. intros Hok. split; [|by apply H2].
  apply rtc_once, trail_written, H1.
Qed.

Lemma services_inr revisionId w l w' :
  services revisionId w = (inr l, w') → l = services_of revisionId (w_db w) ∧ only_faults w w'.
Proof.
  intros E. unfold services in E. apply bind_inr in E as (o & w1 & E1 & E2).
  apply select_id_inr in E1 as [-> Hf]. apply ret_inr in E2 as [-> ->]. done.
Qed.
Lemma settle_ledger {A} (k : M A) id fd s sid fs u w r w' :
  db_ok (w_db w) → (∀ row, deployment_status (fd row) = s) →
  (∀ row, (stack_status (fs row), stack_currentRevisionId (fs row)) =
          u (stack_status row, stack_currentRevisionId row)) →
  framed (on_db (unchanged ledger)) k →
  (update_id (R := StackDeployment) id fd;; update_id (R := Stack) sid fs;; k) w = (inr r, w') →
  ledger (w_db w') = (alter (λ _, s) id (attempts (w_db w)), operations (w_db w),
                      alter u sid (standing (w_db w))).
Proof.
  intros Hok Hd Hs Hk E.
  apply bind_inr in E as (l1 & w1 & E1 & E). apply bind_inr in E as (l2 & w2 & E2 & E).
  apply update_id_inr in E1 as [f1 ->]; [|exact (db_ok_rows (R := StackDeployment) _ Hok)].
  apply update_id_inr in E2 as [f2 ->]; [|exact (db_ok_rows (R := Stack) _ Hok)].
  apply (framed_run _ _ _ _ _ Hk) in E. unfold on_db, unchanged in E. rewrite E.
  unfold ledger, attempts, operations, standing. simpl.
  by rewrite (fmap_alter_const _ _ s), (fmap_alter_via _ _ u).
Qed.

(** The same for an operation; the stack is written only where it moves. *)
Lemma operation_ledger id fo s (b : bool) sid (fs : Stack → Stack) u w l w1 x w2 :
  db_ok (w_db w) → (∀ row, operation_status (fo row) = s) →
  (∀ row, (if b then (stack_status (fs row), stack_currentRevisionId (fs row))
           else (stack_status row, stack_currentRevisionId row)) =
          u (stack_status row, stack_currentRevisionId row)) →
  update_id (R := StackOperation) id fo w = (inr l, w1) →
  when b (update_id (R := Stack) sid fs;; mret tt) w1 = (inr x, w2) →
  ledger (w_db w2) = (attempts (w_db w), alter (λ _, s) id (operations (w_db w)),
                      alter u sid (standing (w_db w))).
Proof.
  intros Hok Ho Hs E1 E2.
  apply update_id_inr in E1 as [f1 ->]; [|exact (db_ok_rows (R := StackOperation) _ Hok)].
  assert (Hst : ∀ t : gmap string Stack,
    (λ s, (stack_status s, stack_currentRevisionId s)) <$> (if b then alter fs sid t else t) =
    alter u sid ((λ s, (stack_status s, stack_currentRevisionId s)) <$> t)).
  { intros t. destruct b; [by apply fmap_alter_via|]. symmetry.
    transitivity (alter (λ x, x) sid ((λ s, (stack_status s, stack_currentRevisionId s)) <$> t));
      [|apply alter_same]. apply map_eq. intros j.
    destruct (decide (sid = j)) as [->|Hj]; [|by rewrite !lookup_alter_ne].
    rewrite !lookup_alter_eq, !lookup_fmap. destruct (t !! j); simpl; [by rewrite <-Hs|done]. }
  specialize (Hst (stacks (w_db w))). unfold when in E2. destruct b.
  - apply bind_inr in E2 as (l2 & w3 & E2 & E3). apply ret_inr in E3 as [_ ->].
    apply update_id_inr in E2 as [f2 ->]; [|exact (db_ok_rows (R := Stack) _ Hok)].
    unfold ledger, attempts, operations, standing. simpl. by rewrite (fmap_alter_const _ _ s), Hst.
  - apply ret_inr in E2 as [_ ->]. unfold ledger, attempts, operations, standing. simpl.
    rewrite (fmap_alter_const _ _ s); [by rewrite <-Hst|done].
Qed.

Lemma audit_system_ledger action result sid name id :
  framed (on_db (unchanged ledger)) (audit_system action result sid name id).
Proof. unfold audit_system, audit_record. frame. Qed.
#[local] Hint Resolve audit_system_ledger : frames.

Lemma finish_action_ledger actionId f :
  framed (on_db (unchanged ledger)) (finish_action actionId f).
Proof. unfold finish_action. frame. Qed.
#[local] Hint Resolve finish_action_ledger : frames.

(** Reading before a settlement. *)
Lemma services_quiet revisionId : framed quiet (services revisionId).
Proof. unfold services. frame. Qed.
#[local] Hint Resolve services_quiet : frames.

Lemma quiet_trail locks ds os w w' :
  quiet w w' → rtc (recovery_step locks ds os) (w_db w) (w_db w').
Proof. intros [Hdb _]. apply rtc_once, trail_written. by rewrite Hdb. Qed.

(** A settlement: a transaction, an audit entry, and [true]. *)
Lemma settled_or_not {A} locks ds os (t : M A) action result sid name id w (r : exn + bool) w' :
  (∀ a w1, t w = (inr a, w1) → ∀ d', ledger d' = ledger (w_db w1) →
     recovery_step locks ds os (w_db w) d') →
  (transaction t;; audit_system action result sid name id;; mret true) w = (r, w') →
  rtc (recovery_step locks ds os) (w_db w) (w_db w').
Proof.
  intros Hstep E. apply rtc_once.
  apply (transaction_then ledger) in E as [[_ E]|(a & w1 & E & Hl)];
    [by apply trail_written|by eapply Hstep|]. intros. frame.
Qed.

(** A deletion that is not one: the action fails, the operation with it. *)
Lemma deletion_refused_ledger u o (attention : bool) fa fo w x w' :
  db_ok (w_db w) → attention = (match o with Delete.needs_attention _ => true | _ => false end) →
  (∀ a, action_id (fa a) = action_id a) →
  (∀ row, operation_status (fo row) = if attention then "needs_attention" else "failed") →
  (finish_action (uop_actionId u) fa;;
   update_id (R := StackOperation) (uop_id u) fo;;
   when attention (update_id (R := Stack) (uop_stackId u)
                     (λ s, s <| stack_status := "needs_attention" |>);; mret tt)) w = (inr x, w') →
  ledger (w_db w') = (attempts (w_db w),
    alter (λ _, match o with Delete.needs_attention _ => "needs_attention" | _ => "failed" end)
      (uop_id u) (operations (w_db w)),
    alter (undeleted_standing o) (uop_stackId u) (standing (w_db w))).
Proof.
  intros Hok Hatt Hfa Hfo E.
  apply bind_inr in E as ([] & w1 & E1 & E).
  assert (Hl : framed (on_db (unchanged ledger)) (finish_action (uop_actionId u) fa))
    by (unfold finish_action; frame).
  assert (Hk : framed (on_db keeps_db_ok) (finish_action (uop_actionId u) fa)).
  { unfold finish_action. destruct (truthy _); [|frame]. apply framed_bind; [apply _| |intros; frame].
    by apply framed_update_ok. }
  apply (framed_run _ _ _ _ _ Hk) in E1 as Hok1. apply (framed_run _ _ _ _ _ Hl) in E1.
  injection E1 as <- <- <-. apply bind_inr in E as (l & w2 & E2 & E3).
  eapply operation_ledger; [by apply Hok1| | |exact E2|exact E3].
  - intros row. rewrite Hfo. subst. by destruct o.
  - intros row. subst. by destruct o.
Qed.

(** Whether any container still claims the stack, as the classifier sees it. *)
Lemma still_claimed_iff sid expected d s :
  Delete.still_claimed {| Delete.expectedServices := expected;
     Delete.observed := claim_of <$> select_where (of_stack sid) d;
     Delete.snapshotComplete := true |} s ↔
  ∃ i c, containers d !! i = Some c ∧ container_stackId c = Some sid ∧
    container_dockerId c ≠ None ∧ container_stackService c ?? "" = s.
Proof.
  unfold Delete.still_claimed. simpl. setoid_rewrite list_elem_of_fmap.
  setoid_rewrite elem_of_select_where. unfold of_stack. setoid_rewrite bool_decide_eq_true.
  simpl. split.
  - intros (c & (r & -> & [i Hi] & Hs) & Hd & Hn). eauto 10.
  - intros (i & c & Hi & Hs & Hd & Hn). exists (claim_of c). split_and!; [|done|done]. eauto 10.
Qed.

Lemma claimed_not_clear sid expected d s :
  Delete.still_claimed {| Delete.expectedServices := expected;
     Delete.observed := claim_of <$> select_where (of_stack sid) d;
     Delete.snapshotComplete := true |} s → ¬ host_clear sid d.
Proof. intros (i & c & Hi & Hs & Hd & _)%still_claimed_iff Hc. by destruct Hd; eapply Hc. Qed.

Lemma without_stack_ledger sid d d' :
  configured d' = configured d → stackOperations d' = stackOperations d →
  ledger (without_stack sid d') = ledger (without_stack sid d).
Proof.
  intros [= Hs Hr Hv Hd] Ho. unfold ledger, attempts, operations, standing, without_stack,
    delete_stacks, select_where, all_rows. simpl. by rewrite Hs, Hr, Hd, Ho.
Qed.

Lemma deleted_ledger actionId fa sid w x w' :
  (finish_action actionId fa;;
   delete_from (of_stack sid);;
   delete_from (λ s : Stack, bool_decide (stack_id s = sid));; mret tt) w = (inr x, w') →
  ledger (w_db w') = ledger (without_stack sid (w_db w)).
Proof.
  intros E. apply bind_inr in E as ([] & w1 & E1 & E).
  assert (Hf : framed (on_db (unchanged (λ d, (configured d, stackOperations d))))
    (finish_action actionId fa)) by (unfold finish_action; frame).
  apply (framed_run _ _ _ _ _ Hf) in E1. injection E1 as H1 H2 H3 H4 H5.
  unbind. repeat match goal with H : delete_from _ _ = _ |- _ => apply delete_inr in H as [-> [? ->]] end.
  simpl. transitivity (ledger (without_stack sid (w_db w1))); [reflexivity|].
  apply without_stack_ledger; [|done]. unfold configured. congruence.
Qed.

Lemma settleDeletion_steps locks ds os u w r w' :
  u ∈ os → isBusy (stackKey (uop_stackId u)) locks = false → uop_type u = "delete" →
  db_ok (w_db w) → settleDeletion u w = (r, w') →
  rtc (recovery_step locks ds os) (w_db w) (w_db w').
Proof.
  intros Hu Hbusy Htype Hok E. unfold settleDeletion, stackContainers in E.
  assert (Hq : quiet w w) by reflexivity.
  apply (framed_step quiet _ _ w) in E as [[? _]|(rows & w1 & E1 & H1 & E)];
    [by apply quiet_trail| |by frame|done]. apply select_inr in E1 as [-> _].
  apply (framed_step quiet _ _ w) in E as [[? _]|(expected & w2 & [-> _]%services_inr & [H2 _] & E)];
    [by apply quiet_trail| |by frame|done].
  rewrite (proj1 H1) in E. cbv zeta in E.
  match type of E with context [Delete.classifyStackDelete ?i] =>
    pose proof (Delete.classifyStackDelete_sound i) as Hsound;
    change (Delete.classifyStackDelete i) with (deletion_outcome u (w_db w)) in E, Hsound end.
  rewrite <-H2 in *. remember (deletion_outcome u (w_db w2)) as o eqn:Ho.
  destruct o as [| |reason|reason];
    try (apply bind_cases in E as [(? & -> & E)|(? & ? & [-> ->]%now_inr & E)]; [done|]).
  4: { unfold mret, M_ret in E. simplify_eq. apply rtc_refl. }
  - eapply settled_or_not; [|exact E]. intros [] w4 Et%deleted_ledger d' Hd.
    eapply stack_deleted; [exact Hu|exact Hbusy|exact Htype| |by rewrite Hd].
    destruct Hsound as [_ Hn]. intros i c Hi Hs. destruct (container_dockerId c) eqn:Ed; [exfalso|done].
    apply (Hn (container_stackService c ?? "")), still_claimed_iff. exists i, c. by rewrite Ed.
  - eapply settled_or_not; [|exact E]. intros [] w4 Et d' Hd.
    eapply deletion_refused; [exact Hu|exact Hbusy|exact Htype|exact Ho| |].
    { destruct Hsound as (_ & [s Hs] & _). by eapply claimed_not_clear. }
    rewrite Hd. refine (deletion_refused_ledger _ Delete.finalize_not_applied _ _ _ _ _ _ Hok _ _ _ Et); done.
  - eapply settled_or_not; [|exact E]. intros [] w4 Et d' Hd.
    eapply deletion_refused; [exact Hu|exact Hbusy|exact Htype|exact Ho| |].
    { destruct Hsound as (_ & [s Hs] & _). by eapply claimed_not_clear. }
    rewrite Hd. refine (deletion_refused_ledger _ (Delete.needs_attention reason) _ _ _ _ _ _ Hok _ _ _ Et); done.
Qed.

Lemma settleDeployment_steps locks ds os u w r w' :
  u ∈ ds → isBusy (stackKey (unf_stackId u)) locks = false → db_ok (w_db w) →
  settleDeployment u w = (r, w') → rtc (recovery_step locks ds os) (w_db w) (w_db w').
Proof.
  intros Hu Hbusy Hok E. unfold settleDeployment, stackContainers in E.
  assert (Hq : quiet w w) by reflexivity.
  apply (framed_step quiet _ _ w) in E as [[? _]|(rows & w1 & E1 & H1 & E)];
    [by apply quiet_trail| |by frame|done]. apply select_inr in E1 as [-> _].
  apply (framed_step quiet _ _ w) in E as [[? _]|(target & w2 & [-> _]%services_inr & H2 & E)];
    [by apply quiet_trail| |by frame|done].
  apply (framed_step quiet _ _ w) in E as [[? _]|(from & w3 & E3 & [H3 _] & E)];
    [by apply quiet_trail| |by frame|done].
  assert (Hfrom : from = if truthy (unf_fromRevisionId u)
    then Some (services_of (unf_fromRevisionId u ?? "") (w_db w)) else None).
  { destruct (truthy _); [|by apply ret_inr in E3 as [-> _]].
    apply fmap_inr in E3 as (l & -> & [-> _]%services_inr). by rewrite (proj1 H2). }
  subst from. rewrite (proj1 H1) in E. cbv zeta in E.
  match type of E with context [Apply.classifyStackApply ?i] =>
    change (Apply.classifyStackApply i) with (deployment_outcome u (w_db w)) in E end.
  rewrite <-H3 in *. remember (deployment_outcome u (w_db w3)) as o eqn:Ho.
  destruct o as [| | |reason|reason];
    try (apply bind_cases in E as [(? & -> & E)|(? & ? & [-> ->]%now_inr & E)]; [done|]).
  5: { unfold mret, M_ret in E. simplify_eq. apply rtc_refl. }
  all: eapply settled_or_not; [|exact E]; intros [] w4 Et d' Hd;
    eapply deployment_settled; [exact Hu|exact Hbusy|exact Ho|done|]; rewrite Hd;
    refine (settle_ledger _ _ _ _ _ _ _ _ _ _ Hok _ _ _ Et); [done|done|];
    unfold finish_action; frame.
Qed.

Lemma observedRuntime_frames sid b :
  framed (on_db (unchanged ledger)) (observedRuntime sid b) ∧
  framed (on_db keeps_db_ok) (observedRuntime sid b) ∧ framed same_locks (observedRuntime sid b).
Proof.
  assert (Hl : ∀ i f, framed (on_db (unchanged ledger)) (containerDetail i f)).
  { intros i f. apply (framed_via undescribed (λ x, let '(_, _, s, _, _, t, o, _, _, _) := x in
      (deployment_status <$> t, operation_status <$> o,
       (λ s : Stack, (stack_status s, stack_currentRevisionId s)) <$> s))),
      containerDetail_undescribed. }
  pose proof containerDetail_keeps_db_ok. pose proof containerDetail_same_locks.
  split_and!; unfold observedRuntime, stackContainers; frame.
Qed.

Lemma settleUnfinishedOperation_steps locks ds os u k w r w' :
  u ∈ os → isBusy (stackKey (uop_stackId u)) locks = false → lifecycle_kind (uop_type u) = Some k →
  db_ok (w_db w) → settleUnfinishedOperation u k w = (r, w') →
  rtc (recovery_step locks ds os) (w_db w) (w_db w').
Proof.
  intros Hu Hbusy Hk Hok E. unfold settleUnfinishedOperation in E.
  destruct (observedRuntime_frames (uop_stackId u) (bool_decide (k = Lifecycle.restart)))
    as (Hl & Hdb & _).
  apply bind_cases in E as [(e & -> & E)|(observed & w1 & E1 & E)].
  { apply rtc_once, trail_written. by apply (framed_run _ _ _ _ _ Hl) in E. }
  apply (framed_run _ _ _ _ _ Hl) in E1 as Hl1. apply (framed_run _ _ _ _ _ Hdb) in E1 as Hok1.
  specialize (Hok1 Hok). clear Hl Hdb. eapply rtc_l; [by apply trail_written, Hl1|].
  apply bind_cases in E as [(e & -> & E)|(expected & w2 & E2 & E)].
  { apply quiet_trail. eapply framed_run; [|exact E]. frame. }
  apply services_inr in E2 as [-> [fs Hw2]]. cbv zeta in E.
  assert (Hd2 : w_db w2 = w_db w1) by (by rewrite Hw2). clear Hw2.
  match type of E with context [Lifecycle.classifyStackLifecycle ?i] =>
    remember (Lifecycle.classifyStackLifecycle i) as o eqn:Ho end.
  rewrite <-Hd2. rewrite <-Hd2 in Hok1.
  destruct o as [| |reason|reason];
    try (apply bind_cases in E as [(? & -> & E)|(? & ? & [-> ->]%now_inr & E)]; [done|]).
  4: { unfold mret, M_ret in E. simplify_eq. apply rtc_refl. }
  all: eapply settled_or_not; [|exact E]; intros [] w4 Et d' Hd;
    rewrite Hd2; eapply operation_settled; [exact Hu|exact Hbusy|exact Hk|exact E1|exact Ho|done|];
    rewrite <-Hd2, Hd;
    apply bind_inr in Et as (l & w5 & Eo & Et); apply bind_inr in Et as ([] & w6 & Es & Et);
    apply (framed_run _ _ _ _ _ (finish_action_ledger _ _)) in Et;
    unfold on_db, unchanged in Et; rewrite Et;
    refine (operation_ledger _ _ _ _ _ _ _ _ _ _ _ _ Hok1 _ _ Eo Es); [done|by intros []].
Qed.

Lemma recoverDeployment_stepping ds os n u : u ∈ ds → framed (stepping ds os) (recoverDeployment n u).
Proof.
  intros Hu w. unfold recoverDeployment, busy, mbind, M_bind.
  destruct (isBusy _ _) eqn:Eb; [reflexivity|].
  assert (Hdb : framed (on_db keeps_db_ok) (settleDeployment u)).
  { unfold settleDeployment, stackContainers, services, finish_action, audit_system, audit_record.
    frame. }
  assert (Hl : framed same_locks (settleDeployment u)).
  { unfold settleDeployment, stackContainers, services, finish_action, audit_system, audit_record.
    frame. }
  specialize (Hdb w). specialize (Hl w). destruct (settleDeployment u w) as [[e|b] w'] eqn:E;
    (split; [exact Hl|]; intros Hok; split; [|by apply Hdb]);
    exact (settleDeployment_steps _ _ _ _ _ _ _ Hu Eb Hok E).
Qed.

Lemma recoverOperation_stepping ds os n u : u ∈ os → framed (stepping ds os) (recoverOperation n u).
Proof.
  intros Hu w. unfold recoverOperation, busy, mbind, M_bind.
  destruct (isBusy _ _) eqn:Eb; [reflexivity|].
  assert (Ho1 : ∀ sid b, framed (on_db keeps_db_ok) (observedRuntime sid b))
    by (intros; apply observedRuntime_frames).
  assert (Ho2 : ∀ sid b, framed same_locks (observedRuntime sid b))
    by (intros; apply observedRuntime_frames).
  match goal with |- context [(if ?b then ?x else ?y) w] => set (m := if b then x else y) end.
  assert (Hdb : framed (on_db keeps_db_ok) m ∧ framed same_locks m).
  { unfold m, settleDeletion, settleUnfinishedOperation, stackContainers, services, finish_action,
      audit_system, audit_record.
    split; repeat (frame_step || case_match). }
  destruct Hdb as [Hdb Hl]. specialize (Hdb w). specialize (Hl w).
  assert (Hs : ∀ r w', m w = (r, w') → db_ok (w_db w) →
    rtc (recovery_step (w_registry w) ds os) (w_db w) (w_db w')).
  { intros r w' E Hok. subst m. case_bool_decide.
    - exact (settleDeletion_steps _ _ _ _ _ _ _ Hu Eb H0 Hok E).
    - destruct (lifecycle_kind _) as [k|] eqn:Ek; [|unfold throw in E; by simplify_eq].
      exact (settleUnfinishedOperation_steps _ _ _ _ _ _ _ _ Hu Eb Ek Hok E). }
  destruct (m w) as [[e|b] w'] eqn:E;
    (split; [exact Hl|]; intros Hok; split; [by eapply Hs|by apply Hdb]).
Qed.

(** *** The whole pass *)

Lemma sync_ledger agentId : framed (on_db (unchanged ledger)) (sync agentId).
Proof.
  apply (framed_via decided (λ x, let '(_, _, s, _, _, t, o, _, _) := x in
    (deployment_status <$> t, operation_status <$> o,
     (λ s : Stack, (stack_status s, stack_currentRevisionId s)) <$> s))), sync_decided.
Qed.
#[local] Hint Resolve sync_ledger sync_looks containerDetail_looks : frames.

Lemma recoverHost_sends hostId : framed (sends looks) (recoverHost hostId).
Proof.
  assert (Ho : ∀ sid b, framed (sends looks) (observedRuntime sid b))
    by (intros; unfold observedRuntime, stackContainers; frame).
  unfold recoverHost, recoverDeployment, recoverOperation, resync, settleDeployment, settleDeletion,
    settleUnfinishedOperation, stackContainers, services, finish_action, audit_system, audit_record.
  repeat (frame_step || case_match).
Qed.

(** Keeping the locks, the invariant and the record. *)
Definition reading : relation World :=
  both same_locks (both (on_db keeps_db_ok) (on_db (unchanged ledger))).

#[local] Instance reading_frame : Frame reading.
Proof. unfold reading. apply _. Qed.

Lemma framed_reading {A} (m : M A) :
  framed same_locks m → framed (on_db keeps_db_ok) m → framed (on_db (unchanged ledger)) m →
  framed reading m.
Proof. intros. by apply framed_both; [|apply framed_both]. Qed.

Lemma reading_ends w w' :
  db_ok (w_db w) → reading w w' →
  w_registry w' = w_registry w ∧ db_ok (w_db w') ∧ ledger (w_db w') = ledger (w_db w).
Proof. intros Hok (H1 & H2 & H3). split_and!; [done|by apply H2|done]. Qed.

Lemma recoverHost_steps hostId w r w' :
  db_ok (w_db w) → recoverHost hostId w = (r, w') →
  w_registry w' = w_registry w ∧ db_ok (w_db w') ∧
  (ledger (w_db w') = ledger (w_db w) ∨
   ∃ d, read_back hostId d ∧ ledger d = ledger (w_db w) ∧
     rtc (recovery_step (w_registry w) (unfinishedDeployments hostId (w_db w))
            (unfinishedOperations hostId (w_db w))) d (w_db w')).
Proof.
  intros Hok E. unfold recoverHost in E. assert (Hw : reading w w) by reflexivity.
  assert (HR : ∀ x, reading w x → w_registry x = w_registry w ∧ db_ok (w_db x) ∧
    (ledger (w_db x) = ledger (w_db w) ∨ ∃ d, read_back hostId d ∧ ledger d = ledger (w_db w) ∧
     rtc (recovery_step (w_registry w) (unfinishedDeployments hostId (w_db w))
            (unfinishedOperations hostId (w_db w))) d (w_db x))).
  { intros x (? & ? & ?)%reading_ends; [|done]. auto. }
  apply (framed_step reading _ _ w) in E as [[? _]|(ds & w1 & E1 & H1 & E)];
    [by apply HR| |apply framed_read, _|done].
  apply read_inr in E1 as [-> [f1 ->]].
  apply (framed_step reading _ _ w) in E as [[? _]|(os & w2 & E2 & H2 & E)];
    [by apply HR| |apply framed_read, _|done].
  apply read_inr in E2 as [-> [f2 ->]].
  simpl in E. set (ds := unfinishedDeployments hostId (w_db w)) in *.
  set (os := unfinishedOperations hostId (w_db w)) in *.
  destruct (_ && _).
  { unfold mret, M_ret in E. simplify_eq. by apply HR. }
  apply (framed_step reading _ _ w) in E as [[? _]|(complete & w3 & E3 & H3 & E)];
    [by apply HR| |apply framed_reading; unfold resync; frame|done].
  destruct complete; simpl in E; [|unfold mret, M_ret in E; simplify_eq; by apply HR].
  apply reading_ends in H3 as (Hl3 & Hok3 & Hled); [|done].
  assert (Hs : stepping ds os w3 w').
  { refine (framed_run _ _ _ _ _ _ E). apply framed_bind; [apply _| |intros n];
      apply framed_for_fold_in; [apply _| |apply _|]; intros m u Hu;
      [by apply recoverDeployment_stepping|by apply recoverOperation_stepping]. }
  destruct Hs as [Hl Hs]. destruct (Hs Hok3) as [Hsteps Hok'].
  split_and!; [congruence|done|right]. exists (w_db w3). split_and!; [by eexists _, w3|done|].
  by rewrite <-Hl3.
Qed.

(** Deleting a stack changes no status of what it leaves. *)
Lemma without_stack_leaves sid d :
  attempts (without_stack sid d) ⊆ attempts d ∧ operations (without_stack sid d) ⊆ operations d ∧
  standing (without_stack sid d) ⊆ standing d.
Proof.
  unfold attempts, operations, standing, without_stack, delete_stacks. simpl. split_and!.
  - rewrite fmap_change_rows by done. by apply map_fmap_mono, drop_rows_subseteq.
  - by apply map_fmap_mono, drop_rows_subseteq.
  - by apply map_fmap_mono, drop_rows_subseteq.
Qed.

(** Where the entries of an altered map come from. *)
Lemma alter_from {T} (f : T → T) i j (t : gmap string T) x :
  alter f i t !! j = Some x → t !! j = Some x ∨ i = j ∧ ∃ y, t !! j = Some y ∧ x = f y.
Proof.
  destruct (decide (i = j)) as [->|Hij].
  - rewrite lookup_alter_eq. intros (y & Hy & ->)%fmap_Some. eauto.
  - rewrite lookup_alter_ne by done. auto.
Qed.

Section steps.
Context (locks : MutationRegistry) (ds : list Unfinished) (os : list UnfinishedOperation) (d0 : DB).
#[local] Notation steps := (rtc (recovery_step locks ds os)).

(** Where a status comes from: the record before, or one piece of unfinished
    work judged by what was on record at that point of the pass. *)
Lemma steps_attempts d id s :
  steps d0 d → attempts d !! id = Some s →
  attempts d0 !! id = Some s ∨
  ∃ u d1, steps d0 d1 ∧ u ∈ ds ∧ unf_id u = id ∧
    isBusy (stackKey (unf_stackId u)) locks = false ∧ s = STATUS (deployment_outcome u d1).
Proof.
  intros Hs. revert id s. pattern d. refine (rtc_ind_r _ d0 _ _ d Hs); clear d Hs; [by left|].
  intros d d' Hs Hstep IH id s Hid.
  destruct Hstep as [d d' Hl|u o d d' Hu Hb Ho Hn Hl|u k obs o w0 w d' Hu Hb Hk Ew Ho Hn Hl
    |u o d d' Hu Hb Ht Ho Hc Hl|u d d' Hu Hb Ht Hc Hl]; injection Hl as Ha _ _; rewrite Ha in Hid.
  - by apply IH.
  - apply alter_from in Hid as [Hid|(<- & y & Hy & ->)]; [by apply IH|right].
    subst o. by exists u, d.
  - by apply IH.
  - by apply IH.
  - apply IH. by eapply lookup_weaken, without_stack_leaves.
Qed.

Lemma steps_operations d id s :
  steps d0 d → operations d !! id = Some s →
  operations d0 !! id = Some s ∨
  ∃ u, u ∈ os ∧ uop_id u = id ∧ isBusy (stackKey (uop_stackId u)) locks = false ∧
    s ∈ ["succeeded"; "failed"; "needs_attention"].
Proof.
  intros Hs. revert id s. pattern d. refine (rtc_ind_r _ d0 _ _ d Hs); clear d Hs; [by left|].
  intros d d' Hs Hstep IH id s Hid.
  destruct Hstep as [d d' Hl|u o d d' Hu Hb Ho Hn Hl|u k obs o w0 w d' Hu Hb Hk Ew Ho Hn Hl
    |u o d d' Hu Hb Ht Ho Hc Hl|u d d' Hu Hb Ht Hc Hl]; injection Hl as _ Ha _; rewrite Ha in Hid.
  - by apply IH.
  - by apply IH.
  - apply alter_from in Hid as [Hid|(<- & y & Hy & ->)]; [by apply IH|right].
    exists u. split_and!; [done|done|done|]. clear Ho. destruct o; [set_solver..|by destruct (Hn reason)].
  - apply alter_from in Hid as [Hid|(<- & y & Hy & ->)]; [by apply IH|right].
    exists u. split_and!; [done|done|done|]. clear Ho. destruct o; set_solver.
  - apply IH. by eapply lookup_weaken, without_stack_leaves.
Qed.

Lemma steps_standing d sid x :
  steps d0 d → standing d !! sid = Some x →
  (∃ s, standing d0 !! sid = Some (s, x.2)) ∨
  ∃ u d1, steps d0 d1 ∧ u ∈ ds ∧ unf_stackId u = sid ∧
    isBusy (stackKey (unf_stackId u)) locks = false ∧
    deployment_outcome u d1 = Apply.finalize_target ∧ x.2 = Some (unf_revisionId u).
Proof.
  intros Hs. revert sid x. pattern d. refine (rtc_ind_r _ d0 _ _ d Hs); clear d Hs.
  { intros sid [a b]. eauto. }
  intros d d' Hs Hstep IH sid x Hid.
  destruct Hstep as [d d' Hl|u o d d' Hu Hb Ho Hn Hl|u k obs o w0 w d' Hu Hb Hk Ew Ho Hn Hl
    |u o d d' Hu Hb Ht Ho Hc Hl|u d d' Hu Hb Ht Hc Hl]; injection Hl as _ _ Ha; rewrite Ha in Hid.
  - by apply IH.
  - apply alter_from in Hid as [Hid|(<- & y & Hy & ->)]; [by apply IH|].
    specialize (IH _ _ Hy). destruct o; simpl; try exact IH. right. by exists u, d.
  - apply alter_from in Hid as [Hid|(<- & y & Hy & ->)]; [by apply IH|].
    specialize (IH _ _ Hy). clear Ho. destruct o; exact IH.
  - apply alter_from in Hid as [Hid|(<- & y & Hy & ->)]; [by apply IH|].
    specialize (IH _ _ Hy). clear Ho. destruct o; exact IH.
  - apply IH. by eapply lookup_weaken, without_stack_leaves.
Qed.
End steps.

(** Work of a host that is not over and that nobody is doing. *)
Definition orphaned (hostId : string) (locks : MutationRegistry) (h sid status : string) : Prop :=
  h = hostId ∧ unresolved_status status = true ∧ isBusy (stackKey sid) locks = false.

Lemma unfinished_deployment_row hostId d u :
  db_ok d → u ∈ unfinishedDeployments hostId d →
  ∃ row, stackDeployments d !! unf_id u = Some row ∧ deployment_hostId row = hostId ∧
    unresolved_status (deployment_status row) = true ∧ deployment_stackId row = unf_stackId u ∧
    deployment_revisionId row = unf_revisionId u.
Proof.
  intros Hok (row & Hr & Hu)%list_elem_of_omap.
  apply elem_of_select_where in Hr as [[i Hi] [Hh%bool_decide_eq_true Hs]%andb_true_iff].
  apply bind_Some in Hu as (s & _ & Hu). simplify_eq/=.
  pose proof (proj1 (db_ok_rows (R := StackDeployment) _ Hok) i row Hi) as Hid. simpl in Hid.
  exists row. rewrite Hid. by split_and!.
Qed.

Lemma unfinished_operation_row hostId d u :
  db_ok d → u ∈ unfinishedOperations hostId d →
  ∃ row, stackOperations d !! uop_id u = Some row ∧ operation_hostId row = hostId ∧
    unresolved_status (operation_status row) = true ∧ operation_stackId row = uop_stackId u.
Proof.
  intros Hok (row & Hr & Hu)%list_elem_of_omap.
  apply elem_of_select_where in Hr as [[i Hi] [Hh%bool_decide_eq_true Hs]%andb_true_iff].
  apply bind_Some in Hu as (s & _ & Hu). simplify_eq/=.
  pose proof (proj1 (db_ok_rows (R := StackOperation) _ Hok) i row Hi) as Hid. simpl in Hid.
  exists row. rewrite Hid. by split_and!.
Qed.

Lemma deployment_outcome_settles u d :
  STATUS (deployment_outcome u d) ∈ ["succeeded"; "rolled_back"; "failed"; "needs_attention"].
Proof.
  unfold deployment_outcome, Apply.classifyStackApply. simpl. repeat case_match; simpl; set_solver.
Qed.

(** ** Theorems *)


(** Recovery touches nothing that is settled, somebody else's or elsewhere.
    After a pass every attempt and every operation that is still on record has
    the status it had, or it was an unresolved one of this host whose stack
    nobody held, and is settled; and every stack is confirmed to run what it was
    confirmed to run, or the target of such an attempt, which the containers on
    record after a complete reading of the host were found to be. *)
Theorem recovery_rewrites_only_orphans hostId w r w' :
  db_ok (w_db w) → recoverHost hostId w = (r, w') →
  (∀ id s, attempts (w_db w') !! id = Some s → attempts (w_db w) !! id = Some s ∨
     s ∈ ["succeeded"; "rolled_back"; "failed"; "needs_attention"] ∧
     ∃ row, stackDeployments (w_db w) !! id = Some row ∧
       orphaned hostId (w_registry w) (deployment_hostId row) (deployment_stackId row)
         (deployment_status row)) ∧
  (∀ id s, operations (w_db w') !! id = Some s → operations (w_db w) !! id = Some s ∨
     s ∈ ["succeeded"; "failed"; "needs_attention"] ∧
     ∃ row, stackOperations (w_db w) !! id = Some row ∧
       orphaned hostId (w_registry w) (operation_hostId row) (operation_stackId row)
         (operation_status row)) ∧
  (∀ sid c, confirmed (w_db w') !! sid = Some c → confirmed (w_db w) !! sid = Some c ∨
     ∃ u row d0 d1, stackDeployments (w_db w) !! unf_id u = Some row ∧
       orphaned hostId (w_registry w) (deployment_hostId row) (deployment_stackId row)
         (deployment_status row) ∧
       deployment_stackId row = sid ∧ c = Some (deployment_revisionId row) ∧
       read_back hostId d0 ∧
       rtc (recovery_step (w_registry w) (unfinishedDeployments hostId (w_db w))
              (unfinishedOperations hostId (w_db w))) d0 d1 ∧
       deployment_outcome u d1 = Apply.finalize_target).
Proof.
  intros Hok E. apply recoverHost_steps in E as (_ & _ & Hl); [|done].
  assert (Hcs : ∀ d, confirmed d = snd <$> standing d).
  { intros d. unfold confirmed, standing. by rewrite <-map_fmap_compose. }
  destruct Hl as [Hl|(d0 & Hread & Hl & Hsteps)].
  { rewrite (Hcs (w_db w')), (Hcs (w_db w)). injection Hl as -> -> ->. split_and!; by left. }
  rewrite (Hcs (w_db w')), (Hcs (w_db w)). injection Hl as <- <- <-. unfold orphaned. split_and!.
  - intros id s Hid. eapply steps_attempts in Hid as [?|(u & d1 & _ & Hu & <- & Hb & ->)]; [by left| |done].
    right. split; [apply deployment_outcome_settles|].
    apply unfinished_deployment_row in Hu as (row & ? & ? & ? & Hsid & _); [|done].
    exists row. by rewrite Hsid.
  - intros id s Hid. eapply steps_operations in Hid as [?|(u & Hu & <- & Hb & Hs)]; [by left| |done].
    right. split; [done|].
    apply unfinished_operation_row in Hu as (row & ? & ? & ? & Hsid); [|done].
    exists row. by rewrite Hsid.
  - intros sid c (x & <- & Hid)%lookup_fmap_Some.
    eapply steps_standing in Hid as [[s Hs]|(u & d1 & Hd1 & Hu & <- & Hb & Ho & Hx)]; [| |done].
    { left. rewrite lookup_fmap, Hs. done. }
    right. apply unfinished_deployment_row in Hu as (row & ? & ? & ? & Hsid & Hrev); [|done].
    exists u, row, d0, d1. split_and!; try done; [by rewrite Hsid|by rewrite Hx, Hrev].
Qed.
End recovery.

(** ** An attempt whose owner is gone *)

#[local] Existing Instance one_moment.

Definition shop_attempt (status : string) : StackDeployment := {|
  deployment_id := "D1"; deployment_stackId := S1; deployment_revisionId := R2;
  deployment_fromRevisionId := Some R1; deployment_hostId := "h1"; deployment_kind := "redeploy";
  deployment_status := status; deployment_actionId := None; deployment_startedBy := None;
  deployment_detail := None; deployment_failureCode := None; deployment_startedAt := 0%Z;
  deployment_resolvedAt := None |}.

Definition deploying_shop : DB := shop
  <| stackDeployments := {["D1" := shop_attempt "running"]} |>
  <| stacks := {[S1 := example_stack <| stack_status := "deploying" |>
                                     <| stack_desiredRevisionId := Some R2 |> ]} |>.

Lemma deploying_shop_ok : db_ok deploying_shop.
Proof. apply db_okb_true. by vm_compute. Qed.

(** The host is read and shows a container of [revision]. *)
Definition restarted (revision : string) : World :=
  (quiet_world deploying_shop) <| w_replies := answers [report "d2" (shop_labels revision)] |>.

Example recovery_confirms :
  let d := w_db (recoverHost "h1" (restarted R2)).2 in
  attempts d !! "D1" = Some "succeeded" ∧ confirmed d !! S1 = Some (Some R2).
Proof. by vm_compute. Qed.

Example recovery_rolls_back :
  let d := w_db (recoverHost "h1" (restarted R1)).2 in
  attempts d !! "D1" = Some "rolled_back" ∧ confirmed d !! S1 = Some (Some R1).
Proof. by vm_compute. Qed.

(** Nothing answers, and nothing is concluded. *)
Example recovery_waits :
  let d := w_db (recoverHost "h1" (quiet_world deploying_shop)).2 in
  attempts d !! "D1" = Some "running" ∧ confirmed d !! S1 = Some (Some R1).
Proof. by vm_compute. Qed.


Lemma recovery_rewrites_only_orphans_witness :
  ∃ u row d, stackDeployments deploying_shop !! unf_id u = Some row ∧
    orphaned "h1" empty_registry (deployment_hostId row) (deployment_stackId row)
      (deployment_status row) ∧ deployment_outcome u d = Apply.finalize_target.
Proof.
  assert (Hc : bool_decide (confirmed (w_db (recoverHost "h1" (restarted R2)).2) !! S1 =
    Some (Some R2)) = true) by (by vm_compute).
  assert (Hno : bool_decide (confirmed deploying_shop !! S1 = Some (Some R2)) = false)
    by (by vm_compute).
  pose proof (recovery_rewrites_only_orphans "h1" (restarted R2) _ _ deploying_shop_ok
    (surjective_pairing _)) as (_ & _ & H).
  change (w_db (restarted R2)) with deploying_shop in H.
  revert Hc H. generalize (recoverHost "h1" (restarted R2)). intros [r w'] Hc H.
  apply bool_decide_eq_true in Hc. apply bool_decide_eq_false in Hno.
  destruct (H _ _ Hc) as [Hold|(u & row & d0 & d1 & Hrow & Ho & _ & _ & _ & _ & Hout)].
  - exfalso. by apply Hno.
  - exists u, row, d1. split_and!; [exact Hrow|exact Ho|exact Hout].
Defined.

(** The same stack a moment later: the owner of the attempt has recorded its
    success and let go, and the stack was stopped and is recorded as stopped. *)
Definition stopped_since : DB := shop
  <| stackDeployments := {["D1" := shop_attempt "succeeded"]} |>
  <| stacks := {[S1 := example_stack <| stack_status := "stopped" |>
                                     <| stack_currentRevisionId := Some R2 |> ]} |>
  <| containers := {[C1 := (shop_container R2) <| container_state := "exited" |> ]} |>.

(** Work is listed before the host is read and not looked at again before it
    is settled.  An attempt that was running when the pass began, and that its
    owner settled while the host was being read, is settled a second time: the
    succeeded attempt of a stack stopped since becomes one that needs attention,
    and so does the stack. *)
Theorem recovery_settles_again :
  ∃ u, u ∈ unfinishedDeployments "h1" deploying_shop ∧
    attempts stopped_since !! "D1" = Some "succeeded" ∧
    let d := w_db (recoverDeployment 0 u (quiet_world stopped_since)).2 in
    attempts d !! "D1" = Some "needs_attention" ∧
    standing d !! S1 = Some ("needs_attention", Some R2).
Proof.
  assert (Hl : unfinishedDeployments "h1" deploying_shop =
    [{| unf_id := "D1"; unf_stackId := S1; unf_revisionId := R2; unf_fromRevisionId := Some R1;
        unf_actionId := None; unf_name := "shop" |}]) by (by vm_compute).
  eexists. rewrite Hl. split; [by left|]. by vm_compute.
Qed.
