(* ===== verification/JsMap.v ===== *)
(** * JavaScript's Map

    [new Map<string, V>()] with the order its iteration has: an entry keeps the
    place of its first [set] until it is deleted.  The in-memory tables of the
    agent services ([pending], [streams], [connections], [schedules], [active])
    are such maps, and the order in which their loops visit the entries is the
    order in which callbacks run. *)

From stdpp Require Import base list strings.
From S2P Require Import Prelude.

Section jsmap.
Context {V : Type}.

Definition JsMap : Type := list (string * V).

Definition is_key (k : string) (kv : string * V) : bool := bool_decide (kv.1 = k).

Definition jget (k : string) (m : JsMap) : option V := snd <$> List.find (is_key k) m.

Definition jhas (k : string) (m : JsMap) : bool := existsb (is_key k) m.

Definition jdelete (k : string) (m : JsMap) : JsMap := List.filter (λ kv, negb (is_key k kv)) m.

Definition jset (k : string) (v : V) (m : JsMap) : JsMap :=
  if jhas k m then (λ kv, if is_key k kv then (k, v) else kv) <$> m else m ++ [(k, v)].

Definition jkeys (m : JsMap) : list string := m.*1.
Definition jvalues (m : JsMap) : list V := m.*2.

(** What every table keeps: a key has one entry. *)
Definition jmap_ok (m : JsMap) : Prop := NoDup (jkeys m).

(** ** Lookups *)

Lemma is_key_true k kv : is_key k kv = true ↔ kv.1 = k.
Proof. apply bool_decide_eq_true. Qed.

Lemma is_key_false k kv : is_key k kv = false ↔ kv.1 ≠ k.
Proof. apply bool_decide_eq_false. Qed.

Lemma jget_nil k : jget k [] = None.
Proof. done. Qed.

Lemma jget_cons k kv m : jget k (kv :: m) = if is_key k kv then Some kv.2 else jget k m.
Proof. unfold jget. simpl. by destruct (is_key k kv). Qed.

Lemma jget_app k m m' :
  jget k (m ++ m') = match jget k m with Some v => Some v | None => jget k m' end.
Proof.
  induction m as [|kv m IH]; [done|]. rewrite <-app_comm_cons, !jget_cons.
  by destruct (is_key k kv).
Qed.

Lemma jget_elem k v m : jget k m = Some v → (k, v) ∈ m.
Proof.
  induction m as [|[k' v'] m IH]; [done|]. rewrite jget_cons, elem_of_cons.
  destruct (is_key k (k', v')) eqn:E; [|by auto].
  apply is_key_true in E. simpl in E. intros [= ->]. subst. by left.
Qed.

Lemma jget_key k m : k ∈ jkeys m ↔ is_Some (jget k m).
Proof.
  induction m as [|[k' v'] m IH]; simpl.
  { rewrite elem_of_nil, jget_nil. split; [done|]. by intros [? ?]. }
  rewrite jget_cons, elem_of_cons, IH.
  destruct (is_key k (k', v')) eqn:E.
  - apply is_key_true in E. simpl in *. split; [by eauto|]. by left.
  - apply is_key_false in E. simpl in *. split; [intros [?|?]; [congruence|done]|by right].
Qed.

Lemma jget_None k m : jget k m = None ↔ k ∉ jkeys m.
Proof. rewrite jget_key, <-eq_None_not_Some. done. Qed.

(** In a table a pair is an entry exactly when the key reads it. *)
Lemma jget_iff k v m : jmap_ok m → jget k m = Some v ↔ (k, v) ∈ m.
Proof.
  intros Hok. split; [apply jget_elem|]. induction m as [|[k' v'] m IH]; [by rewrite elem_of_nil|].
  unfold jmap_ok in Hok. simpl in Hok. apply NoDup_cons in Hok as [Hn Hok].
  rewrite elem_of_cons, jget_cons. intros [[= -> ->]|Hin].
  - by rewrite (proj2 (is_key_true _ _)).
  - rewrite (proj2 (is_key_false _ _)); [by apply IH|]. simpl. intros ->.
    apply Hn. apply list_elem_of_fmap. by exists (k, v).
Qed.

Lemma jhas_true k m : jhas k m = true ↔ is_Some (jget k m).
Proof.
  induction m as [|kv m IH]; simpl; [split; [done|by intros [? ?]]|].
  rewrite jget_cons, orb_true_iff, IH. destruct (is_key k kv); [split; [by eauto|by left]|].
  split; [intros [?|?]; done|by right].
Qed.

Lemma jhas_false k m : jhas k m = false ↔ jget k m = None.
Proof. by rewrite <-not_true_iff_false, jhas_true, eq_None_not_Some. Qed.

(** ** Updates *)

Lemma jget_delete k m : jget k (jdelete k m) = None.
Proof.
  induction m as [|kv m IH]; [done|]. simpl.
  destruct (is_key k kv) eqn:E; simpl; [done|]. by rewrite jget_cons, E.
Qed.

Lemma jget_delete_ne k k' m : k ≠ k' → jget k (jdelete k' m) = jget k m.
Proof.
  intros Hne. induction m as [|kv m IH]; [done|]. simpl.
  destruct (is_key k' kv) eqn:E; simpl; rewrite ?jget_cons, IH; [|done].
  apply is_key_true in E. by rewrite (proj2 (is_key_false _ _)) by congruence.
Qed.

Lemma jdelete_elem k kv m : kv ∈ jdelete k m ↔ kv.1 ≠ k ∧ kv ∈ m.
Proof.
  unfold jdelete. rewrite !list_elem_of_In, filter_In, negb_true_iff, is_key_false. tauto.
Qed.

Lemma jdelete_fresh k m : jget k m = None → jdelete k m = m.
Proof.
  induction m as [|kv m IH]; [done|]. rewrite jget_cons. simpl.
  destruct (is_key k kv); [done|]. simpl. intros H. by rewrite IH.
Qed.

Lemma jset_fresh k v m : jget k m = None → jset k v m = m ++ [(k, v)].
Proof. intros H. unfold jset. by rewrite (proj2 (jhas_false _ _)). Qed.

Lemma jset_elem_fresh k v m kv : jget k m = None → kv ∈ jset k v m ↔ kv ∈ m ∨ kv = (k, v).
Proof. intros H. rewrite jset_fresh by done. by rewrite elem_of_app, list_elem_of_singleton. Qed.

Lemma jkeys_set k v m :
  jkeys (jset k v m) = if jhas k m then jkeys m else jkeys m ++ [k].
Proof.
  unfold jset. destruct (jhas k m); [|by unfold jkeys; rewrite fmap_app].
  unfold jkeys. rewrite <-list_fmap_compose. apply list_fmap_ext. intros i [k' v'] _. simpl.
  unfold is_key. simpl. by case_bool_decide.
Qed.

Lemma jkeys_delete k v m : jmap_ok m → jget k m = Some v → jkeys m ≡ₚ k :: jkeys (jdelete k m).
Proof.
  induction m as [|[k' v'] m IH]; [done|]. intros Hok. unfold jmap_ok in Hok. simpl in Hok.
  apply NoDup_cons in Hok as [Hn Hok]. rewrite jget_cons. simpl.
  destruct (is_key k (k', v')) eqn:E; simpl.
  - intros _. apply is_key_true in E. simpl in E. subst k'.
    by rewrite jdelete_fresh by (by apply jget_None).
  - intros H. rewrite Permutation_swap. by f_equiv; apply IH.
Qed.

Lemma jkeys_update k v v' m : jget k m = Some v → jkeys (jset k v' m) = jkeys m.
Proof. intros H. rewrite jkeys_set. by rewrite (proj2 (jhas_true _ _)). Qed.

Lemma jget_set k v m : jget k (jset k v m) = Some v.
Proof.
  unfold jset. destruct (jhas k m) eqn:E.
  - apply jhas_true in E as [v' E]. induction m as [|kv m IH]; [done|]. simpl.
    rewrite jget_cons in *. destruct (is_key k kv) eqn:Ek.
    + by rewrite (proj2 (is_key_true _ _)).
    + rewrite Ek. by apply IH.
  - apply jhas_false in E. rewrite jget_app, E, jget_cons. by rewrite (proj2 (is_key_true _ _)).
Qed.

Lemma jget_set_ne k k' v m : k ≠ k' → jget k (jset k' v m) = jget k m.
Proof.
  intros Hne. unfold jset. destruct (jhas k' m) eqn:E.
  - clear E. induction m as [|kv m IH]; [done|]. simpl. rewrite !jget_cons.
    destruct (is_key k' kv) eqn:Ek; [|by destruct (is_key k kv)].
    apply is_key_true in Ek. rewrite !(proj2 (is_key_false k _)) by (simpl; congruence). done.
  - rewrite jget_app, jget_cons. rewrite (proj2 (is_key_false _ _)) by (simpl; congruence).
    by destruct (jget k m).
Qed.

(** ** The tables stay tables *)

Lemma jmap_ok_nil : jmap_ok [].
Proof. constructor. Qed.

Lemma jmap_ok_delete k m : jmap_ok m → jmap_ok (jdelete k m).
Proof.
  unfold jmap_ok. induction m as [|[k' v'] m IH]; [done|]. simpl. rewrite NoDup_cons.
  intros [Hn H]. destruct (is_key k (k', v')); simpl; [by apply IH|].
  apply NoDup_cons. split; [|by apply IH]. intros Hin. apply Hn.
  apply list_elem_of_fmap in Hin as ([k'' v''] & -> & Hin). simpl.
  apply jdelete_elem in Hin as [_ Hin]. apply list_elem_of_fmap. by exists (k'', v'').
Qed.

Lemma jmap_ok_set k v m : jmap_ok m → jmap_ok (jset k v m).
Proof.
  unfold jmap_ok. intros H. rewrite jkeys_set. destruct (jhas k m) eqn:E; [done|].
  apply jhas_false, jget_None in E. apply NoDup_app. split_and!; [done| |apply NoDup_singleton].
  intros x Hx ->%list_elem_of_singleton. done.
Qed.
End jsmap.

Arguments JsMap : clear implicits.

Create HintDb jsmap.
#[export] Hint Resolve jmap_ok_nil jmap_ok_delete jmap_ok_set : jsmap.
