(* ===== verification/Capabilities.v ===== *)
(** * The capability catalog

    [api/src/agents/capabilities.ts]: what an agent may be asked, for how long the
    server waits, and what an agent may call a failure; and the codes of
    [api/src/common/errors.ts]. *)

From Stdlib Require Import Ascii String ZArith.
From stdpp Require Import base list strings.
From S2P Require Import Prelude.

Definition CAPABILITIES : list string :=
  ["host.inventory"; "host.metrics"; "container.list"; "container.inspect"; "compose.list";
   "compose.inspect"; "container.start"; "container.stop"; "container.restart"; "container.logs";
   "container.create"; "container.replace"; "container.remove"; "stack.deploy"; "stack.start";
   "stack.stop"; "stack.restart"; "stack.remove"].

Definition STREAMING_CAPABILITIES : list string := ["container.logs"].

Definition MUTATING_CAPABILITIES : list string :=
  ["container.start"; "container.stop"; "container.restart"; "container.create";
   "container.replace"; "container.remove"; "stack.deploy"; "stack.start"; "stack.stop";
   "stack.restart"; "stack.remove"].

Definition isCapability (value : string) : bool := mem value CAPABILITIES.
Definition isStreaming (capability : string) : bool := mem capability STREAMING_CAPABILITIES.
Definition isMutating (capability : string) : bool := mem capability MUTATING_CAPABILITIES.

(** In milliseconds. *)
Definition CAPABILITY_TIMEOUT_MS : list (string * Z) :=
  [("host.inventory", 10000%Z); ("host.metrics", 10000%Z); ("container.list", 20000%Z);
   ("container.inspect", 15000%Z); ("compose.list", 20000%Z); ("compose.inspect", 20000%Z);
   ("container.start", 60000%Z); ("container.stop", 60000%Z); ("container.restart", 90000%Z);
   ("container.create", 300000%Z); ("container.replace", 420000%Z); ("container.remove", 90000%Z);
   ("stack.deploy", 900000%Z); ("stack.start", 300000%Z); ("stack.stop", 300000%Z);
   ("stack.restart", 600000%Z); ("stack.remove", 600000%Z); ("container.logs", 15000%Z)].

(** [CAPABILITY_TIMEOUT_MS[capability]] *)
Definition timeout_of (capability : string) : option Z :=
  snd <$> List.find (λ kv, bool_decide (kv.1 = capability)) CAPABILITY_TIMEOUT_MS.

(** Codes an agent may report. *)
Definition AGENT_ERROR_CODES : list string :=
  ["DOCKER_UNAVAILABLE"; "DOCKER_PERMISSION_DENIED"; "DOCKER_OPERATION_FAILED";
   "AGENT_REQUEST_EXPIRED"; "AGENT_CAPABILITY_UNSUPPORTED"; "CONTAINER_NOT_FOUND";
   "CONTAINER_ALREADY_RUNNING"; "CONTAINER_ALREADY_STOPPED"; "CONTAINER_NAME_IN_USE";
   "IMAGE_NOT_FOUND"; "INVALID_CONTAINER_SPEC"; "REPLACEMENT_FAILED"; "STACK_RESOURCE_CONFLICT";
   "STACK_STATE_AMBIGUOUS"; "STACK_SERVICE_MISSING"; "STACK_LIFECYCLE_INCOMPLETE";
   "STACK_REMOVE_INCOMPLETE"; "VOLUME_MISSING"; "COMPOSE_PROJECT_NOT_FOUND"; "VALIDATION_FAILED";
   "AGENT_CAPABILITY_FAILED"].

(** The value is whatever the agent sent, absent when it is not a string. *)
Definition agentErrorCode (value : option string) : string :=
  match value with
  | Some code => if mem code AGENT_ERROR_CODES then code else "AGENT_CAPABILITY_FAILED"
  | None => "AGENT_CAPABILITY_FAILED"
  end.

Definition AGENT_ERROR_MESSAGES : list (string * string) :=
  [("DOCKER_UNAVAILABLE",
    "The Docker Engine on this host could not be reached.");
   ("DOCKER_PERMISSION_DENIED",
    "The agent is not permitted to use the Docker socket on this host.");
   ("DOCKER_OPERATION_FAILED",
    "The Docker Engine refused the operation.");
   ("AGENT_REQUEST_EXPIRED",
    "The host received the request too late to act on it.");
   ("AGENT_CAPABILITY_UNSUPPORTED",
    "This host does not support that operation.");
   ("CONTAINER_NOT_FOUND",
    "The container no longer exists on its host.");
   ("CONTAINER_ALREADY_RUNNING",
    "The container is already running.");
   ("CONTAINER_ALREADY_STOPPED",
    "The container is not running.");
   ("CONTAINER_NAME_IN_USE",
    "A container of that name already exists on this host.");
   ("IMAGE_NOT_FOUND",
    "The image could not be found or pulled on this host.");
   ("INVALID_CONTAINER_SPEC",
    "The host rejected the container configuration as invalid.");
   ("REPLACEMENT_FAILED",
    "The replacement did not start, so the original container was put back.");
   ("STACK_RESOURCE_CONFLICT",
    "A container, volume or network on this host has a name this stack needs and was not created by it.");
   ("STACK_STATE_AMBIGUOUS",
    "The containers of this stack on the host do not say clearly which revision it is running.");
   ("STACK_SERVICE_MISSING",
    "A service of this stack has no container on the host. Dockplane will not create one in its place.");
   ("STACK_LIFECYCLE_INCOMPLETE",
    "Part of this stack was moved and part of it was not. Nothing was undone.");
   ("STACK_REMOVE_INCOMPLETE",
    "Part of this stack was removed and part of it was not. Nothing was rebuilt.");
   ("VOLUME_MISSING",
    "A volume this stack was using is not on the host. Dockplane will not create an empty one in its place.");
   ("COMPOSE_PROJECT_NOT_FOUND",
    "The Compose project no longer exists on its host.");
   ("VALIDATION_FAILED",
    "The host rejected the request as invalid.");
   ("AGENT_CAPABILITY_FAILED",
    "The operation failed on the host.")].

Definition agentErrorMessage (code : string) : string :=
  default "The operation failed on the host."
    (snd <$> List.find (λ kv, bool_decide (kv.1 = code)) AGENT_ERROR_MESSAGES).

(** Codes the API answers with ([api/src/common/errors.ts]). *)
Definition ERROR_CODES : list string :=
  ["AUTH_INVALID_CREDENTIALS"; "AUTH_MFA_REQUIRED"; "AUTH_MFA_INVALID";
   "AUTH_REAUTHENTICATION_REQUIRED"; "SESSION_EXPIRED"; "SESSION_REVOKED"; "SESSION_REQUIRED";
   "CSRF_INVALID"; "PERMISSION_DENIED"; "RATE_LIMITED"; "VALIDATION_FAILED";
   "ENROLLMENT_TOKEN_INVALID"; "ENROLLMENT_TOKEN_EXPIRED"; "ENROLLMENT_TOKEN_CONSUMED";
   "ENROLLMENT_TOKEN_REVOKED"; "ENROLLMENT_CSR_INVALID"; "AGENT_CERT_INVALID";
   "AGENT_CERT_EXPIRED"; "AGENT_UNKNOWN"; "AGENT_IDENTITY_MISMATCH"; "AGENT_REVOKED";
   "AGENT_PROTOCOL_UNSUPPORTED"; "AGENT_MESSAGE_TOO_LARGE"; "AGENT_REQUEST_EXPIRED";
   "AGENT_REQUEST_TIMEOUT"; "AGENT_CAPABILITY_UNSUPPORTED"; "AGENT_UPGRADE_REQUIRED";
   "AGENT_CAPABILITY_FAILED"; "AGENT_RESPONSE_INVALID"; "AGENT_NOT_CONNECTED";
   "DOCKER_UNAVAILABLE"; "HOST_NOT_FOUND"; "HOST_ARCHIVED"; "HOST_CONNECTED";
   "HOST_SETUP_NOT_FOUND"; "HOST_SETUP_NOT_PENDING"; "HOST_SETUP_TICKET_INVALID";
   "HOST_SETUP_UNAVAILABLE"; "CONTAINER_NOT_FOUND"; "CONTAINER_DETAIL_UNAVAILABLE";
   "CONTAINER_ALREADY_RUNNING"; "CONTAINER_ALREADY_STOPPED"; "CONTAINER_IDENTITY_CONFLICT";
   "MANAGED_BY_STACK"; "CONTAINER_NOT_MANAGED"; "INVALID_CONTAINER_SPEC"; "CONTAINER_NAME_IN_USE";
   "IMAGE_NOT_FOUND"; "REPLACEMENT_FAILED"; "STACK_RESOURCE_CONFLICT"; "STACK_STATE_AMBIGUOUS";
   "CONTAINER_CREATE_FAILED"; "CONTAINER_REMOVE_FAILED"; "CONTAINER_STATE_UNRESOLVED";
   "OPERATION_OUTCOME_UNKNOWN"; "COMPOSE_COMPILER_FAILED"; "COMPOSE_COMPILER_UNAVAILABLE";
   "COMPOSE_INVALID"; "STACK_NOT_FOUND"; "STACK_NAME_CONFLICT"; "STACK_REVISION_CONFLICT";
   "STACK_CONFIGURATION_INVALID"; "STACK_ALREADY_DEPLOYED"; "STACK_REVISION_ALREADY_DEPLOYED";
   "STACK_REPAIR_AMBIGUOUS"; "STACK_APPLY_FAILED"; "STACK_ROLLBACK_INCOMPLETE"; "VOLUME_MISSING";
   "STACK_DEPLOYMENT_CONFLICT"; "STACK_DEPLOYMENT_FAILED"; "STACK_DEPLOYMENT_PARTIAL";
   "STACK_NEEDS_ATTENTION"; "STACK_NOT_DEPLOYED"; "STACK_OPERATION_CONFLICT";
   "STACK_SERVICE_MISSING"; "STACK_START_FAILED"; "STACK_STOP_FAILED"; "STACK_RESTART_FAILED";
   "STACK_LIFECYCLE_PARTIAL"; "STACK_DELETE_FAILED"; "STACK_DELETE_PARTIAL";
   "RESOURCE_NAME_CONFLICT"; "ACTION_CONFLICT"; "ACTION_TIMEOUT"; "AGENT_OFFLINE";
   "CAPABILITY_UNSUPPORTED"; "LOG_STREAM_UNAVAILABLE"; "LOG_STREAM_TIMEOUT"; "LOG_STREAM_OVERFLOW";
   "LOG_STREAM_LIMIT_REACHED"; "DOCKER_PERMISSION_DENIED"; "DOCKER_OPERATION_FAILED";
   "COMPOSE_PROJECT_NOT_FOUND"; "COMPOSE_DETAIL_UNAVAILABLE"; "AGENT_NOT_FOUND"; "USER_NOT_FOUND";
   "ROLE_NOT_FOUND"; "CONFLICT"; "NOT_FOUND"; "INTERNAL_ERROR"].

(** ** The catalog is coherent *)

Lemma Forall_mem {A} (p : A → bool) l : forallb p l = true → Forall (λ x, p x = true) l.
Proof. intros H. apply Forall_forall. intros x Hx. rewrite forallb_forall in H. by apply H, list_elem_of_In. Qed.

(** Every capability has a time it may take, and it is positive. *)
Lemma timeout_of_capability capability :
  isCapability capability = true → ∃ ms, timeout_of capability = Some ms ∧ (0 < ms)%Z.
Proof.
  intros H%bool_decide_eq_true. revert capability H. apply Forall_forall.
  repeat (constructor; [by eexists|]). constructor.
Qed.

(** Whatever an agent calls a failure, the server has a word for it. *)
Lemma agentErrorCode_known value : agentErrorCode value ∈ AGENT_ERROR_CODES.
Proof.
  unfold agentErrorCode. destruct value as [code|]; [case_match eqn:E; [by apply bool_decide_eq_true in E|]|];
    apply (bool_decide_unpack _); by vm_compute.
Qed.

(** An agent may report codes the API does not have. *)
Lemma agent_codes_beyond_api : ∃ code, code ∈ AGENT_ERROR_CODES ∧ code ∉ ERROR_CODES.
Proof.
  exists "STACK_LIFECYCLE_INCOMPLETE". split; apply (bool_decide_unpack _); by vm_compute.
Qed.
