(* ===== verification/Protocol.v ===== *)
(** * The messages between server and agent

    [api/src/agents/protocol.ts] reads what an agent sends; what an agent sends is
    the JSON of the structs of [agent/internal/protocol/protocol.go].  A line is
    the value [JSON.parse] makes of it, absent when it is not JSON; a number is an
    integer ([Schema.json]), so the tests for integers hold of every number. *)

From Stdlib Require Import Ascii String ZArith.
From stdpp Require Import base list strings.
From S2P Require Import Prelude Schema Capabilities Detail.

Definition PROTOCOL_VERSION : Z := 1.
Definition MINIMUM_PROTOCOL_VERSION : Z := 1.

Definition isSupportedProtocolVersion (version : Z) : bool :=
  (MINIMUM_PROTOCOL_VERSION <=? version)%Z && (version <=? PROTOCOL_VERSION)%Z.

Inductive ResponseStatus := Response_success | Response_error.

Record ResponseError := { failure_code : string; failure_message : string }.

Record CapabilityResponseMessage := {
  response_id : string;
  response_capability : string;
  response_status : ResponseStatus;
  response_payload : option json;
  response_error : option ResponseError
}.

Record StreamStartedMessage := {
  started_id : string;
  started_capability : string;
  started_streamId : string
}.

Record StreamChunkMessage := {
  chunk_id : string;
  chunk_streamId : string;
  chunk_seq : Z;
  chunk_payload : option json;
  chunk_dropped : Z
}.

Record StreamEndMessage := {
  end_id : string;
  end_streamId : string;
  end_reason : string;
  end_error : option ResponseError
}.

Inductive MessageBody :=
  | Msg_hello (agentVersion : option string) (capabilities : list string)
  | Msg_heartbeat
  | Msg_renew (csr : string)
  | Msg_response (m : CapabilityResponseMessage)
  | Msg_stream_started (m : StreamStartedMessage)
  | Msg_stream_chunk (m : StreamChunkMessage)
  | Msg_stream_end (m : StreamEndMessage).

Record ClientMessage := {
  message_protocolVersion : Z;
  message_body : MessageBody
}.

Definition STREAM_END_REASONS : list string := ["completed"; "cancelled"; "failed"; "expired"].

(** ** Reading a message *)

(** [typeof v === 'string'] *)
Definition as_string (v : option json) : option string :=
  match v with Some (JString s) => Some s | _ => None end.

Definition as_capability (v : option json) : option string :=
  c ← as_string v; if isCapability c then Some c else None.

Definition parseError (value : option json) : option ResponseError :=
  error ← value;
  if is_object error then
    Some {| failure_code := as_string (get error "code") ?? "AGENT_CAPABILITY_FAILED";
            failure_message := as_string (get error "message") ?? "The capability failed." |}
  else None.

Definition parseStreamChunk (message : json) : option MessageBody :=
  id ← as_string (get message "id");
  streamId ← as_string (get message "streamId");
  seq ← number_of (get message "seq");
  if (seq <? 0)%Z then None
  else
    let dropped := number_of (get message "dropped") ?? 0%Z in
    Some (Msg_stream_chunk {| chunk_id := id; chunk_streamId := streamId; chunk_seq := seq;
                              chunk_payload := get message "payload";
                              chunk_dropped := if (0 <? dropped)%Z then dropped else 0%Z |}).

Definition parseCapabilityResponse (message : json) : option MessageBody :=
  id ← as_string (get message "id");
  capability ← as_capability (get message "capability");
  status ← match as_string (get message "status") with
           | Some s => if bool_decide (s = "success") then Some Response_success
                       else if bool_decide (s = "error") then Some Response_error else None
           | None => None
           end;
  Some (Msg_response {| response_id := id; response_capability := capability;
                        response_status := status; response_payload := get message "payload";
                        response_error := parseError (get message "error") |}).

Definition parseBody (type : string) (message : json) : option MessageBody :=
  if bool_decide (type = "hello") then
    Some (Msg_hello (as_string (get message "agentVersion"))
            match get message "capabilities" with
            | Some (JArray l) => omap (λ v, as_string (Some v)) l
            | _ => []
            end)
  else if bool_decide (type = "heartbeat") then Some Msg_heartbeat
  else if bool_decide (type = "certificate.renew") then
    Msg_renew <$> as_string (get message "csr")
  else if bool_decide (type = "response") then parseCapabilityResponse message
  else if bool_decide (type = "stream_started") then
    id ← as_string (get message "id");
    streamId ← as_string (get message "streamId");
    capability ← as_capability (get message "capability");
    Some (Msg_stream_started {| started_id := id; started_capability := capability;
                                started_streamId := streamId |})
  else if bool_decide (type = "stream_chunk") then parseStreamChunk message
  else if bool_decide (type = "stream_end") then
    id ← as_string (get message "id");
    streamId ← as_string (get message "streamId");
    reason ← as_string (get message "reason");
    if mem reason STREAM_END_REASONS then
      Some (Msg_stream_end {| end_id := id; end_streamId := streamId; end_reason := reason;
                              end_error := parseError (get message "error") |})
    else None
  else None.

Definition parseClientMessage (raw : option json) : option ClientMessage :=
  message ← raw;
  type ← as_string (get message "type");
  version ← number_of (get message "protocolVersion");
  body ← parseBody type message;
  Some {| message_protocolVersion := version; message_body := body |}.

(** ** What an agent sends *)

Definition encode_failure (e : ResponseError) : json :=
  JObject [("code", JString (failure_code e)); ("message", JString (failure_message e))].

(** [json:",omitempty"] *)
Definition omit_empty (key : string) (v : option json) : list (string * json) :=
  match v with Some v => [(key, v)] | None => [] end.

Definition envelope (type : string) (version : Z) (fields : list (string * json)) : json :=
  JObject ([("type", JString type); ("protocolVersion", JNumber version)] ++ fields).

Definition status_name (s : ResponseStatus) : string :=
  match s with Response_success => "success" | Response_error => "error" end.

(** [json.Marshal] of the struct of each message.  A list or string left empty is
    omitted, which is how it is read back; so is a counter that is zero. *)
Definition marshal (m : ClientMessage) : json :=
  let version := message_protocolVersion m in
  match message_body m with
  | Msg_hello agentVersion capabilities =>
      envelope "hello" version
        (omit_empty "agentVersion" (JString <$> agentVersion) ++
         omit_empty "capabilities"
           (if bool_decide (capabilities = []) then None else Some (JArray (JString <$> capabilities))))
  | Msg_heartbeat => envelope "heartbeat" version []
  | Msg_renew csr => envelope "certificate.renew" version [("csr", JString csr)]
  | Msg_response r =>
      envelope "response" version
        ([("id", JString (response_id r)); ("capability", JString (response_capability r));
          ("status", JString (status_name (response_status r)))] ++
         omit_empty "payload" (response_payload r) ++
         omit_empty "error" (encode_failure <$> response_error r))
  | Msg_stream_started s =>
      envelope "stream_started" version
        [("id", JString (started_id s)); ("capability", JString (started_capability s));
         ("streamId", JString (started_streamId s))]
  | Msg_stream_chunk c =>
      envelope "stream_chunk" version
        ([("id", JString (chunk_id c)); ("streamId", JString (chunk_streamId c));
          ("seq", JNumber (chunk_seq c)); ("payload", chunk_payload c ?? JNull)] ++
         omit_empty "dropped"
           (if (chunk_dropped c =? 0)%Z then None else Some (JNumber (chunk_dropped c))))
  | Msg_stream_end e =>
      envelope "stream_end" version
        ([("id", JString (end_id e)); ("streamId", JString (end_streamId e));
          ("reason", JString (end_reason e))] ++
         omit_empty "error" (encode_failure <$> end_error e))
  end.

(** What the agent's program guarantees of a message it builds: a capability it
    was asked for, a reason it has a constant for, counters that count. *)
Definition sendable (b : MessageBody) : bool :=
  match b with
  | Msg_hello v _ => negb (bool_decide (v = Some ""))
  | Msg_heartbeat | Msg_renew _ => true
  | Msg_response r => isCapability (response_capability r)
  | Msg_stream_started s => isCapability (started_capability s)
  | Msg_stream_chunk c =>
      (0 <=? chunk_seq c)%Z && (0 <=? chunk_dropped c)%Z && bool_decide (is_Some (chunk_payload c))
  | Msg_stream_end e => mem (end_reason e) STREAM_END_REASONS
  end.

Lemma as_string_list (l : list string) : omap (λ v, as_string (Some v)) (JString <$> l) = l.
Proof. induction l as [|s l IH]; [done|]. simpl. by f_equal. Qed.

(** C23: the server reads every message an agent can send as the message it is:
    nothing is refused and nothing is lost on the way. *)
Theorem agent_messages_understood m :
  sendable (message_body m) = true → parseClientMessage (Some (marshal m)) = Some m.
Proof.
  destruct m as [v [agentVersion capabilities| |csr|r|s|c|e]]; simpl; intros Hs; try done.
  - destruct agentVersion as [a|], capabilities as [|c0 l]; unfold parseClientMessage; simpl;
      try done; unfold parseBody; simpl; by rewrite ?as_string_list.
  - destruct r as [id cap st payload [[]|]], st, payload;
      unfold parseClientMessage, marshal; simpl; unfold parseBody, parseCapabilityResponse, as_capability;
      simpl in *; by rewrite ?Hs.
  - unfold parseClientMessage; simpl. unfold parseBody, as_capability. simpl. rewrite Hs. by destruct s.
  - rewrite !andb_true_iff, !Z.leb_le, bool_decide_eq_true in Hs. destruct Hs as [[H1 H2] [p Hp]].
    destruct c as [id sid seq payload dropped]. simpl in *. subst payload.
    unfold parseClientMessage, marshal; simpl.
    destruct (Z.eqb_spec dropped 0) as [->|Hd]; unfold parseBody, parseStreamChunk; simpl;
      rewrite (proj2 (Z.ltb_ge _ _)) by lia; [done|].
    simpl. by rewrite (proj2 (Z.ltb_lt _ _)) by lia.
  - destruct e as [id sid reason [[]|]]; unfold parseClientMessage, marshal; simpl;
      unfold parseBody; simpl in *; by rewrite Hs.
Qed.

Definition sample_chunk : ClientMessage :=
  {| message_protocolVersion := 1;
     message_body := Msg_stream_chunk
       {| chunk_id := "r"; chunk_streamId := "s"; chunk_seq := 3;
          chunk_payload := Some (JObject [("lines", JArray [])]); chunk_dropped := 2 |} |}.

Lemma agent_messages_understood_witness : parseClientMessage (Some (marshal sample_chunk)) = Some sample_chunk.
Proof. apply (agent_messages_understood sample_chunk). by vm_compute. Defined.
