(* ===== verification/Dispatch.v ===== *)
(** * Connections, requests and streams

    [api/src/agents/connection-manager.service.ts] and
    [agent-dispatch.service.ts]: which socket an agent is reached on, which
    requests and streams are waiting on it, and how what arrives is matched to
    what was asked.  Both services are driven by callbacks (calls, messages,
    timers, sockets that close), which are the [Input]s of a state machine; what
    they do to others (lines written, promises settled, observers told) is its
    [trace].  Nothing is assumed about the order inputs come in.

    A socket is a number, [new Promise] and a stream are known by the identifier
    of their request, and a timer is armed under that identifier too. *)

From Stdlib Require Import Ascii String NArith ZArith.
From stdpp Require Import base gmap list strings.
From S2P Require Import Prelude Schema Store Capabilities Detail Effects JsMap Protocol.

Definition Socket := nat.

Record AgentConnection := {
  connection_agentId : string;
  connection_socket : Socket;
  connection_connectedAt : time
}.

Record PendingRequest := {
  pending_agentId : string;
  pending_capability : string;
  pending_socket : Socket
}.

Record RunningStream := {
  stream_agentId : string;
  stream_capability : string;
  stream_requestId : string;
  stream_streamId : string;
  stream_socket : Socket;
  stream_next : Z;
  stream_acknowledged : bool;
  stream_ended : bool
}.

#[export] Instance RunningStream_settable : Settable RunningStream := λ s, {|
  stream_agentId := stream_agentId s; stream_capability := stream_capability s;
  stream_requestId := stream_requestId s; stream_streamId := stream_streamId s;
  stream_socket := stream_socket s; stream_next := stream_next s;
  stream_acknowledged := stream_acknowledged s; stream_ended := stream_ended s |}.

Record CapabilityRequestMessage := {
  request_id : string;
  request_capability : string;
  request_streamId : option string;
  request_issuedAt : time;
  request_expiresAt : time;
  request_payload : json
}.

Inductive ServerMessage :=
  | Send_request (m : CapabilityRequestMessage)
  | Send_cancel (id streamId : string).

(** What an observer of a stream is told. *)
Inductive Notice :=
  | Notice_started
  | Notice_chunk (payload : option json) (dropped : Z)
  | Notice_ended (reason : string) (error : option ResponseError).

Inductive Output :=
  (** a promise handed out, and a stream opened *)
  | Issued (id agentId capability : string) (at_ : time)
  | Opened (id agentId capability : string) (at_ : time)
  | Wrote (socket : Socket) (m : ServerMessage)
  | Resolved (id : string) (payload : option json)
  | Rejected (id : string) (error : exn)
  | Notified (id : string) (n : Notice).

Inductive TimerKind := Request_timer | Stream_timer.

Record State := {
  connections : JsMap AgentConnection;
  destroyed : gset Socket;
  pending : JsMap PendingRequest;
  streams : JsMap RunningStream;
  timers : JsMap (TimerKind * time);
  clock : time;
  drawn : N;
  trace : list Output
}.

#[export] Instance State_settable : Settable State := λ s, {|
  connections := connections s; destroyed := destroyed s; pending := pending s;
  streams := streams s; timers := timers s; clock := clock s; drawn := drawn s; trace := trace s |}.

Definition emit (o : Output) (st : State) : State := st <| trace := trace st ++ [o] |>.
Definition arm (id : string) (kind : TimerKind) (ms : Z) (st : State) : State :=
  st <| timers := jset id (kind, (clock st + ms)%Z) (timers st) |>.
Definition clearTimeout (id : string) (st : State) : State :=
  st <| timers := jdelete id (timers st) |>.
Definition draw (st : State) : string * State :=
  (uuid (drawn st), st <| drawn := (drawn st + 1)%N |>).

(** ** Connections *)

Definition destroy (socket : Socket) (st : State) : State :=
  st <| destroyed := {[socket]} ∪ destroyed st |>.

Definition register (agentId : string) (socket : Socket) (st : State) : State :=
  let st := match jget agentId (connections st) with
            | Some previous =>
                if bool_decide (connection_socket previous ≠ socket)
                then destroy (connection_socket previous) st else st
            | None => st
            end in
  st <| connections := jset agentId {| connection_agentId := agentId; connection_socket := socket;
                                       connection_connectedAt := clock st |} (connections st) |>.

Definition release (agentId : string) (socket : Socket) (st : State) : bool * State :=
  match jget agentId (connections st) with
  | Some current =>
      if bool_decide (connection_socket current = socket)
      then (true, st <| connections := jdelete agentId (connections st) |>)
      else (false, st)
  | None => (false, st)
  end.

Definition disconnect (agentId : string) (st : State) : bool * State :=
  match jget agentId (connections st) with
  | None => (false, st)
  | Some connection =>
      (true, destroy (connection_socket connection)
               (st <| connections := jdelete agentId (connections st) |>))
  end.

Definition closeAll (st : State) : State :=
  (foldl (λ st connection, destroy (connection_socket connection) st) st (jvalues (connections st)))
    <| connections := [] |>.

(** ** Requests *)

Definition settleWithError (id : string) (error : exn) (st : State) : State :=
  match jget id (pending st) with
  | None => st
  | Some _ => emit (Rejected id error) (clearTimeout id (st <| pending := jdelete id (pending st) |>))
  end.

(** The promise is known by its request's identifier. *)
Definition request (agentId capability : string) (payload : json) (st : State) : (exn + string) * State :=
  if negb (isCapability capability) then (inl (AppError "AGENT_CAPABILITY_UNSUPPORTED" BAD_REQUEST), st)
  else
    match jget agentId (connections st) with
    | None => (inl (AppError "AGENT_NOT_CONNECTED" CONFLICT), st)
    | Some connection =>
        let '(id, st) := draw st in
        let timeoutMs := timeout_of capability ?? 0%Z in
        let issuedAt := clock st in
        let message := {|
          request_id := id; request_capability := capability; request_streamId := None;
          request_issuedAt := issuedAt; request_expiresAt := (issuedAt + timeoutMs)%Z;
          request_payload := payload |} in
        let st := emit (Issued id agentId capability issuedAt) st in
        let st := arm id Request_timer timeoutMs st in
        let st := st <| pending := jset id {| pending_agentId := agentId;
                           pending_capability := capability;
                           pending_socket := connection_socket connection |} (pending st) |> in
        (inr id, emit (Wrote (connection_socket connection) (Send_request message)) st)
    end.

(** Whether the reply could be accounted for. *)
Definition settle (socket : Socket) (message : CapabilityResponseMessage) (st : State) : bool * State :=
  let id := response_id message in
  match jget id (pending st) with
  | None => (false, st)
  | Some p =>
      if bool_decide (pending_socket p ≠ socket) then (false, st)
      else if bool_decide (pending_capability p ≠ response_capability message) then
        (false, settleWithError id (AppError "AGENT_RESPONSE_INVALID" BAD_REQUEST) st)
      else
        let st := clearTimeout id (st <| pending := jdelete id (pending st) |>) in
        match response_status message with
        | Response_error =>
            let code := agentErrorCode (failure_code <$> response_error message) in
            (true, emit (Rejected id (AppError code BAD_REQUEST)) st)
        | Response_success => (true, emit (Resolved id (response_payload message)) st)
        end
  end.

(** ** Streams *)

Definition endStream (requestId reason : string) (error : option ResponseError) (st : State) : State :=
  match jget requestId (streams st) with
  | None => st
  | Some stream =>
      if stream_ended stream then st
      else emit (Notified requestId (Notice_ended reason error))
             (clearTimeout requestId (st <| streams := jdelete requestId (streams st) |>))
  end.

Definition unavailable (message : string) : ResponseError :=
  {| failure_code := "LOG_STREAM_UNAVAILABLE"; failure_message := message |}.

Definition openStream (agentId capability : string) (payload : json) (st : State)
    : (exn + string) * State :=
  if negb (isStreaming capability) then (inl (AppError "AGENT_CAPABILITY_UNSUPPORTED" BAD_REQUEST), st)
  else
    match jget agentId (connections st) with
    | None => (inl (AppError "AGENT_NOT_CONNECTED" CONFLICT), st)
    | Some connection =>
        let '(requestId, st) := draw st in
        let '(streamId, st) := draw st in
        let issuedAt := clock st in
        let acceptMs := timeout_of capability ?? 0%Z in
        let stream := {|
          stream_agentId := agentId; stream_capability := capability; stream_requestId := requestId;
          stream_streamId := streamId; stream_socket := connection_socket connection;
          stream_next := 0; stream_acknowledged := false; stream_ended := false |} in
        let st := emit (Opened requestId agentId capability issuedAt) st in
        let st := arm requestId Stream_timer acceptMs st in
        let st := st <| streams := jset requestId stream (streams st) |> in
        let message := {|
          request_id := requestId; request_capability := capability; request_streamId := Some streamId;
          request_issuedAt := issuedAt; request_expiresAt := (issuedAt + acceptMs)%Z;
          request_payload := payload |} in
        (inr requestId, emit (Wrote (connection_socket connection) (Send_request message)) st)
    end.

Definition streamFor (socket : Socket) (requestId streamId : string) (st : State) : option RunningStream :=
  match jget requestId (streams st) with
  | None => None
  | Some stream =>
      if stream_ended stream then None
      else if bool_decide (stream_streamId stream ≠ streamId) || bool_decide (stream_socket stream ≠ socket)
      then None else Some stream
  end.

Definition acceptStreamStart (socket : Socket) (message : StreamStartedMessage) (st : State) : bool * State :=
  let id := started_id message in
  match streamFor socket id (started_streamId message) st with
  | None => (false, st)
  | Some stream =>
      if bool_decide (stream_capability stream ≠ started_capability message) then (false, st)
      else
        let st := clearTimeout id st in
        let st := st <| streams := jset id (stream <| stream_acknowledged := true |>) (streams st) |> in
        (true, emit (Notified id Notice_started) st)
  end.

Definition acceptStreamChunk (socket : Socket) (message : StreamChunkMessage) (st : State) : bool * State :=
  let id := chunk_id message in
  match streamFor socket id (chunk_streamId message) st with
  | None => (false, st)
  | Some stream =>
      if bool_decide (chunk_seq message ≠ stream_next stream) then
        (false, endStream id "failed" (Some (unavailable "The stream lost its place.")) st)
      else
        let st := st <| streams := jset id (stream <| stream_next := (stream_next stream + 1)%Z |>)
                                     (streams st) |> in
        (true, emit (Notified id (Notice_chunk (chunk_payload message) (chunk_dropped message))) st)
  end.

Definition acceptStreamEnd (socket : Socket) (message : StreamEndMessage) (st : State) : bool * State :=
  let id := end_id message in
  match streamFor socket id (end_streamId message) st with
  | None => (false, st)
  | Some _ => (true, endStream id (end_reason message) (end_error message) st)
  end.

Definition cancelStream (requestId : string) (st : State) : State :=
  match jget requestId (streams st) with
  | None => st
  | Some stream =>
      if stream_ended stream then st
      else
        let st := if bool_decide (stream_socket stream ∈ destroyed st) then st
                  else emit (Wrote (stream_socket stream)
                               (Send_cancel (stream_requestId stream) (stream_streamId stream))) st in
        endStream requestId "cancelled" None st
  end.

(** ** What ends with a connection, or with a credential *)

Definition abandon_request (socket : Socket) (st : State) (entry : string * PendingRequest) : State :=
  let '(id, p) := entry in
  if bool_decide (pending_socket p = socket) then
    emit (Rejected id (AppError "AGENT_NOT_CONNECTED" CONFLICT))
      (clearTimeout id (st <| pending := jdelete id (pending st) |>))
  else st.

Definition abandon_stream (socket : Socket) (st : State) (entry : string * RunningStream) : State :=
  let '(requestId, stream) := entry in
  if bool_decide (stream_socket stream = socket) then
    endStream requestId "failed"
      (Some {| failure_code := "AGENT_NOT_CONNECTED"; failure_message := "The agent disconnected." |}) st
  else st.

Definition abandon (socket : Socket) (st : State) : State :=
  let st := foldl (abandon_request socket) st (pending st) in
  foldl (abandon_stream socket) st (streams st).

Definition end_stream_of (agentId : string) (failure : ResponseError) (acc : nat * State)
    (entry : string * RunningStream) : nat * State :=
  let '(ended, st) := acc in
  let '(requestId, stream) := entry in
  if bool_decide (stream_agentId stream = agentId)
  then (S ended, endStream requestId "failed" (Some failure) st) else (ended, st).

Definition endStreamsOf (agentId code message : string) (st : State) : nat * State :=
  foldl (end_stream_of agentId {| failure_code := code; failure_message := message |}) (0, st) (streams st).

(** ** Callbacks *)

(** The timer of a request, and of a stream nobody has accepted. *)
Definition expire (id : string) (kind : TimerKind) (st : State) : State :=
  let st := clearTimeout id st in
  match kind with
  | Request_timer =>
      emit (Rejected id (AppError "AGENT_REQUEST_TIMEOUT" CONFLICT)) (st <| pending := jdelete id (pending st) |>)
  | Stream_timer =>
      match jget id (streams st) with
      | Some stream =>
          if stream_acknowledged stream then st
          else endStream id "failed" (Some (unavailable "The agent did not start the stream.")) st
      | None => st
      end
  end.

(** The callback of a write that failed. *)
Definition write_failed (id : string) (st : State) : State :=
  endStream id "failed" (Some (unavailable "The stream could not be requested."))
    (settleWithError id PlainError st).

Inductive Input :=
  | Register (agentId : string) (socket : Socket)
  | Release (agentId : string) (socket : Socket)
  | Disconnect (agentId : string)
  | CloseAll
  | Request (agentId capability : string) (payload : json)
  | OpenStream (agentId capability : string) (payload : json)
  | Cancel (requestId : string)
  | Received (socket : Socket) (body : MessageBody)
  | WriteFailed (id : string)
  | Closed (socket : Socket)
  | EndStreamsOf (agentId code message : string)
  | Tick (ms : Z)
  (** a timer that is due *)
  | Fire (id : string).

Definition step (i : Input) (st : State) : State :=
  match i with
  | Register agentId socket => register agentId socket st
  | Release agentId socket => snd (release agentId socket st)
  | Disconnect agentId => snd (disconnect agentId st)
  | CloseAll => closeAll st
  | Request agentId capability payload => snd (request agentId capability payload st)
  | OpenStream agentId capability payload => snd (openStream agentId capability payload st)
  | Cancel requestId => cancelStream requestId st
  | Received socket body =>
      match body with
      | Msg_response m => snd (settle socket m st)
      | Msg_stream_started m => snd (acceptStreamStart socket m st)
      | Msg_stream_chunk m => snd (acceptStreamChunk socket m st)
      | Msg_stream_end m => snd (acceptStreamEnd socket m st)
      | Msg_hello _ _ | Msg_heartbeat | Msg_renew _ => st
      end
  | WriteFailed id => write_failed id st
  | Closed socket => abandon socket st
  | EndStreamsOf agentId code message => snd (endStreamsOf agentId code message st)
  | Tick ms => st <| clock := (clock st + Z.max 0 ms)%Z |>
  | Fire id =>
      match jget id (timers st) with
      | Some (kind, due) => if (due <=? clock st)%Z then expire id kind st else st
      | None => st
      end
  end.

Definition initial : State := {|
  connections := []; destroyed := ∅; pending := []; streams := []; timers := []; clock := 0%Z;
  drawn := 0; trace := [] |}.

Definition run (inputs : list Input) : State := foldl (λ st i, step i st) initial inputs.

(** ** Reading a trace *)

Definition issued (o : Output) : option string :=
  match o with Issued id _ _ _ => Some id | _ => None end.
Definition opened (o : Output) : option string :=
  match o with Opened id _ _ _ => Some id | _ => None end.
Definition settled (o : Output) : option string :=
  match o with Resolved id _ | Rejected id _ => Some id | _ => None end.
Definition over (o : Output) : option string :=
  match o with Notified id (Notice_ended _ _) => Some id | _ => None end.

(** What the observer of a stream was told. *)
Definition notice_of (id : string) (o : Output) : option Notice :=
  match o with Notified id' n => if bool_decide (id = id') then Some n else None | _ => None end.

Definition notices (id : string) (st : State) : list Notice := omap (notice_of id) (trace st).

Definition chunk_of (n : Notice) : option (option json * Z) :=
  match n with Notice_chunk payload dropped => Some (payload, dropped) | _ => None end.

Definition chunks (id : string) (st : State) : list (option json * Z) := omap chunk_of (notices id st).

(** ** The moves of the machine

    What an input does to the tables and the trace is a sequence of these, each
    with what entitles the machine to it. *)

(** How a promise can fail. *)
Definition dispatch_error (e : exn) : bool :=
  match e with
  | PlainError => true
  | AppError code status =>
      if bool_decide (status = CONFLICT) then mem code ["AGENT_REQUEST_TIMEOUT"; "AGENT_NOT_CONNECTED"]
      else bool_decide (status = BAD_REQUEST) && mem code ("AGENT_RESPONSE_INVALID" :: AGENT_ERROR_CODES)
  | _ => false
  end.

(** Why a promise is settled: only a reply can give it a value. *)
Definition entitled (i : Input) (id : string) (p : PendingRequest) (o : Output) : Prop :=
  (∃ e, o = Rejected id e ∧ dispatch_error e = true) ∨
  ∃ m, i = Received (pending_socket p) (Msg_response m) ∧ o = Resolved id (response_payload m) ∧
       response_id m = id ∧ response_capability m = pending_capability p ∧
       response_status m = Response_success.

Inductive move (i : Input) : State → State → Prop :=
  | move_quiet st st' :
      pending st' = pending st → streams st' = streams st → timers st' = timers st →
      drawn st' = drawn st → (clock st <= clock st')%Z →
      (trace st' = trace st ∨ ∃ s a b, trace st' = trace st ++ [Wrote s (Send_cancel a b)]) →
      (∀ a c, jget a (connections st') = Some c →
         jget a (connections st) = Some c ∨ i = Register a (connection_socket c)) →
      move i st st'
  | move_issue st st' a c payload id :
      request a c payload st = (inr id, st') → move i st st'
  | move_open st st' a c payload id :
      openStream a c payload st = (inr id, st') → move i st st'
  | move_settle st id p o :
      jget id (pending st) = Some p → entitled i id p o →
      move i st (emit o (clearTimeout id (st <| pending := jdelete id (pending st) |>)))
  | move_over st id s reason error :
      jget id (streams st) = Some s →
      move i st (emit (Notified id (Notice_ended reason error))
                   (clearTimeout id (st <| streams := jdelete id (streams st) |>)))
  | move_ack st id s :
      jget id (streams st) = Some s →
      move i st (emit (Notified id Notice_started)
                   ((clearTimeout id st) <| streams := jset id (s <| stream_acknowledged := true |>) (streams st) |>))
  | move_chunk st id s m :
      jget id (streams st) = Some s →
      i = Received (stream_socket s) (Msg_stream_chunk m) → chunk_id m = id →
      chunk_streamId m = stream_streamId s → chunk_seq m = stream_next s →
      move i st (emit (Notified id (Notice_chunk (chunk_payload m) (chunk_dropped m)))
                   (st <| streams := jset id (s <| stream_next := (stream_next s + 1)%Z |>) (streams st) |>)).

(** A timer is armed only for what it would end. *)
Definition timers_right (st : State) : Prop := ∀ id kind due,
  jget id (timers st) = Some (kind, due) →
  match kind with
  | Request_timer => is_Some (jget id (pending st))
  | Stream_timer => ∃ s, jget id (streams st) = Some s ∧ stream_acknowledged s = false ∧ stream_ended s = false
  end.

Lemma quiet_refl i st : move i st st.
Proof. apply move_quiet; auto. lia. Qed.

Lemma settleWithError_moves i id e st : dispatch_error e = true → rtc (move i) st (settleWithError id e st).
Proof.
  intros He. unfold settleWithError. destruct (jget id (pending st)) as [p|] eqn:E; [|done].
  apply rtc_once. eapply move_settle; [done|]. left. eexists. by split.
Qed.

Lemma endStream_moves i id reason error st : rtc (move i) st (endStream id reason error st).
Proof.
  unfold endStream. destruct (jget id (streams st)) as [s|] eqn:E; [|done].
  destruct (stream_ended s); [done|]. apply rtc_once. by eapply move_over.
Qed.

Lemma streamFor_Some socket id sid st s :
  streamFor socket id sid st = Some s →
  jget id (streams st) = Some s ∧ stream_streamId s = sid ∧ stream_socket s = socket.
Proof.
  unfold streamFor. destruct (jget id (streams st)) as [s'|]; [|done].
  destruct (stream_ended s'); [done|].
  case_bool_decide; [done|]. case_bool_decide; [done|]. simpl. intros [= ->].
  done.
Qed.

(** Each entry of the loop of [abandon] is still waiting when its turn comes. *)
Lemma abandon_requests_move i socket l st :
  NoDup l.*1 → (∀ id p, (id, p) ∈ l → jget id (pending st) = Some p) →
  rtc (move i) st (foldl (abandon_request socket) st l).
Proof.
  revert st. induction l as [|[id p] l IH]; intros st; simpl; [done|].
  rewrite NoDup_cons. intros [Hn Hnd] Hl.
  case_bool_decide as Hs; [|apply IH; [done|]; intros; apply Hl; by right].
  eapply rtc_l.
  - eapply (move_settle _ _ id p (Rejected id (AppError "AGENT_NOT_CONNECTED" CONFLICT))); [apply Hl; by left|]. left. eexists. by split.
  - apply IH; [done|]. intros id' p' Hin. simpl. rewrite jget_delete_ne; [apply Hl; by right|].
    intros ->. apply Hn, list_elem_of_fmap. by exists (id, p').
Qed.

Lemma foldl_moves {A} i (f : State → A → State) l st :
  (∀ st x, rtc (move i) st (f st x)) → rtc (move i) st (foldl f st l).
Proof. intros Hf. revert st. induction l as [|x l IH]; intros st; simpl; [done|].
  etrans; [apply Hf|apply IH].
Qed.

Lemma endStreamsOf_moves i agentId code message st :
  rtc (move i) st (snd (endStreamsOf agentId code message st)).
Proof.
  unfold endStreamsOf. generalize (streams st), 0 as n. intros l. revert st.
  induction l as [|[id s] l IH]; intros st n; simpl; [done|].
  case_bool_decide; [|apply IH]. etrans; [apply endStream_moves|apply IH].
Qed.

Lemma destroy_all_same l st :
  let st' := foldl (λ st connection, destroy (connection_socket connection) st) st l in
  pending st' = pending st ∧ streams st' = streams st ∧ timers st' = timers st ∧
  drawn st' = drawn st ∧ clock st' = clock st ∧ trace st' = trace st.
Proof. revert st. induction l as [|c l IH]; intros st; simpl; [done|]. by destruct (IH (destroy (connection_socket c) st)). Qed.

Lemma agent_error_known code : dispatch_error (AppError (agentErrorCode code) BAD_REQUEST) = true.
Proof.
  simpl. apply bool_decide_eq_true. right. apply agentErrorCode_known.
Qed.

Lemma settle_moves s m st : rtc (move (Received s (Msg_response m))) st (snd (settle s m st)).
Proof.
  unfold settle. destruct (jget (response_id m) (pending st)) as [p|] eqn:E; [|done].
  case_bool_decide as Hs; [done|]. subst s.
  case_bool_decide as Hc; [by apply settleWithError_moves|].
  destruct (response_status m) eqn:Hst; simpl; apply rtc_once; (eapply move_settle; [done|]).
  - right. by exists m.
  - left. eexists. split; [done|]. apply agent_error_known.
Qed.

Lemma start_moves s m st :
  rtc (move (Received s (Msg_stream_started m))) st (snd (acceptStreamStart s m st)).
Proof.
  unfold acceptStreamStart. destruct (streamFor _ _ _ _) as [x|] eqn:E; [|done].
  apply streamFor_Some in E as (E & _ & _). case_bool_decide; [done|].
  apply rtc_once. exact (move_ack _ st _ x E).
Qed.

Lemma chunk_moves s m st :
  rtc (move (Received s (Msg_stream_chunk m))) st (snd (acceptStreamChunk s m st)).
Proof.
  unfold acceptStreamChunk. destruct (streamFor _ _ _ _) as [x|] eqn:E; [|done].
  apply streamFor_Some in E as (E & Hid & <-).
  case_bool_decide as Hseq; [apply endStream_moves|].
  apply rtc_once. by eapply move_chunk.
Qed.

(** A timer that fires finds what it was armed for. *)
Lemma expire_moves i id kind due st :
  timers_right st → jget id (timers st) = Some (kind, due) → rtc (move i) st (expire id kind st).
Proof.
  intros Ht E. apply Ht in E. destruct kind; simpl in E.
  - destruct E as [p E]. apply rtc_once. eapply (move_settle _ st id p _ E). left. eexists. by split.
  - destruct E as (s & E & Ha & He). unfold expire. simpl. rewrite E, Ha. unfold endStream. simpl.
    rewrite E, He. apply rtc_once.
    unfold clearTimeout at 1. simpl. rewrite (jdelete_fresh id (jdelete id (timers st))) by apply jget_delete.
    exact (move_over i st id s _ _ E).
Qed.

Ltac quiet_move := apply rtc_once, move_quiet; simpl; auto; try lia.

Lemma step_moves i st :
  jmap_ok (pending st) → timers_right st → rtc (move i) st (step i st).
Proof.
  intros Hp Ht. destruct i as [a s|a s|a| |a c payload|a c payload|id|s body|id|s|a code message|ms|id];
    simpl.
  - unfold register. destruct (jget a (connections st)) as [c|]; [case_bool_decide|]; quiet_move;
      intros b d; (destruct (decide (b = a)) as [->|];
        [rewrite jget_set; intros [= <-]; by right|rewrite jget_set_ne by done; by left]).
  - unfold release. destruct (jget a (connections st)) as [c|]; [case_bool_decide|]; simpl; try done.
    quiet_move. intros b d. destruct (decide (b = a)) as [->|];
      [by rewrite jget_delete|rewrite jget_delete_ne by done; by left].
  - unfold disconnect. destruct (jget a (connections st)) as [c|]; simpl; [|done].
    quiet_move. intros b d. destruct (decide (b = a)) as [->|];
      [by rewrite jget_delete|rewrite jget_delete_ne by done; by left].
  - destruct (destroy_all_same (jvalues (connections st)) st) as (E1 & E2 & E3 & E4 & E5 & E6).
    apply rtc_once, move_quiet; simpl; try done; [lia|by left].
  - destruct (request a c payload st) as [[e|id] st'] eqn:E; simpl; [|by apply rtc_once; eapply move_issue].
    unfold request in E. destruct (negb _); [by simplify_eq|].
    destruct (jget a (connections st)); by simplify_eq.
  - destruct (openStream a c payload st) as [[e|id] st'] eqn:E; simpl; [|by apply rtc_once; eapply move_open].
    unfold openStream in E. destruct (negb _); [by simplify_eq|].
    destruct (jget a (connections st)); by simplify_eq.
  - unfold cancelStream. destruct (jget id (streams st)) as [x|]; [|done].
    destruct (stream_ended x); [done|]. etrans; [|apply endStream_moves].
    case_bool_decide; [done|]. quiet_move. right. by eauto.
  - destruct body as [? ?| |?|m|m|m|m]; try done.
    + by apply settle_moves.
    + by apply start_moves.
    + by apply chunk_moves.
    + unfold acceptStreamEnd. destruct (streamFor _ _ _ _); [apply endStream_moves|done].
  - etrans; [by apply (settleWithError_moves _ id PlainError)|apply endStream_moves].
  - unfold abandon. etrans.
    + apply abandon_requests_move; [done|]. intros id p. by apply jget_iff.
    + apply foldl_moves. intros st' [id s']. simpl. case_bool_decide; [apply endStream_moves|done].
  - apply endStreamsOf_moves.
  - quiet_move.
  - destruct (jget id (timers st)) as [[kind due]|] eqn:E; [|done].
    destruct (due <=? clock st)%Z; [|done]. by eapply expire_moves.
Qed.

(** ** Identifiers are not drawn twice *)

Lemma endStream_drawn id reason error st : drawn (endStream id reason error st) = drawn st.
Proof. unfold endStream. destruct (jget id (streams st)) as [s|]; [by destruct (stream_ended s)|done]. Qed.

Lemma settleWithError_drawn id e st : drawn (settleWithError id e st) = drawn st.
Proof. unfold settleWithError. by destruct (jget id (pending st)). Qed.

Lemma foldl_drawn {A} (f : State → A → State) l st :
  (∀ st x, drawn (f st x) = drawn st) → drawn (foldl f st l) = drawn st.
Proof. intros Hf. revert st. induction l as [|x l IH]; intros st; simpl; [done|]. by rewrite IH. Qed.

Lemma endStreamsOf_drawn agentId code message st :
  drawn (snd (endStreamsOf agentId code message st)) = drawn st.
Proof.
  unfold endStreamsOf. generalize (streams st), 0 as n. intros l. revert st.
  induction l as [|[id s] l IH]; intros st n; simpl; [done|].
  case_bool_decide; by rewrite IH, ?endStream_drawn.
Qed.

Create HintDb drawn.
#[local] Hint Rewrite endStream_drawn settleWithError_drawn endStreamsOf_drawn : drawn.

Lemma step_drawn i st : (drawn st <= drawn (step i st))%N.
Proof.
  destruct i as [a s|a s|a| |a c payload|a c payload|id|s body|id|s|a code message|ms|id]; simpl;
    [unfold register|unfold release|unfold disconnect|unfold closeAll|unfold request|unfold openStream
    |unfold cancelStream|destruct body as [? ?| |?|m|m|m|m];
     [..|unfold settle|unfold acceptStreamStart|unfold acceptStreamChunk|unfold acceptStreamEnd]
    |unfold write_failed|unfold abandon| | |unfold expire];
    simpl; rewrite ?foldl_drawn by (by intros ? []);
    repeat (case_match; simplify_eq; simpl; autorewrite with drawn);
    autorewrite with drawn; try done; try lia.
  rewrite foldl_drawn; [|intros st' [id x]; simpl; case_bool_decide; by autorewrite with drawn].
  rewrite foldl_drawn; [lia|]. intros st' [id p]. simpl. by case_bool_decide.
Qed.

(** ** The tables

    Every promise handed out is waiting or was settled, once; every stream opened
    is running or was declared over, once. *)

Definition drawn_before (n : N) (id : string) : Prop := ∃ k, (k < n)%N ∧ id = uuid k.

Record Tables (st : State) : Prop := {
  tables_pending : jmap_ok (pending st);
  tables_streams : jmap_ok (streams st);
  tables_running id s : jget id (streams st) = Some s → stream_ended s = false;
  tables_timers : timers_right st;
  tables_issued : omap issued (trace st) ≡ₚ omap settled (trace st) ++ jkeys (pending st);
  tables_opened : omap opened (trace st) ≡ₚ omap over (trace st) ++ jkeys (streams st);
  tables_drawn : Forall (drawn_before (drawn st)) (omap issued (trace st) ++ omap opened (trace st));
  tables_once : NoDup (omap issued (trace st) ++ omap opened (trace st))
}.

(** Fewer identifiers than a UUID has numbers for. *)
Definition within (st : State) : Prop := (drawn st <= 2 ^ 48)%N.

Lemma drawn_before_fresh n l : (n < 2 ^ 48)%N → Forall (drawn_before n) l → uuid n ∉ l.
Proof.
  intros Hn Hl Hin. rewrite Forall_forall in Hl. destruct (Hl _ Hin) as (k & Hk & E).
  apply uuid_inj in E; lia.
Qed.

Lemma drawn_before_le n m l : (n <= m)%N → Forall (drawn_before n) l → Forall (drawn_before m) l.
Proof. intros Hle Hl. eapply Forall_impl; [exact Hl|]. intros id (k & Hk & ->). exists k. split; [lia|done]. Qed.

(** An identifier not drawn yet names nothing. *)
Lemma tables_fresh st :
  Tables st → (drawn st < 2 ^ 48)%N →
  uuid (drawn st) ∉ omap issued (trace st) ++ omap opened (trace st) ∧
  jget (uuid (drawn st)) (pending st) = None ∧ jget (uuid (drawn st)) (streams st) = None.
Proof.
  intros T Hd. pose proof (drawn_before_fresh _ _ Hd (tables_drawn _ T)) as Hf.
  split; [done|]. rewrite elem_of_app in Hf.
  split; apply jget_None; intros Hin; apply Hf; [left|right].
  - rewrite (tables_issued _ T). apply elem_of_app. by right.
  - rewrite (tables_opened _ T). apply elem_of_app. by right.
Qed.

Lemma timers_right_quiet st st' :
  pending st' = pending st → streams st' = streams st → timers st' = timers st →
  timers_right st → timers_right st'.
Proof. unfold timers_right. by intros -> -> ->. Qed.

Lemma tables_quiet st st' (new : list Output) :
  pending st' = pending st → streams st' = streams st → timers st' = timers st →
  drawn st' = drawn st → trace st' = trace st ++ new →
  omap issued new = [] → omap opened new = [] → omap settled new = [] → omap over new = [] →
  Tables st → Tables st'.
Proof.
  intros Ep Es Et Ed Etr N1 N2 N3 N4 [T1 T2 T3 T4 T5 T6 T7 T8].
  split; rewrite ?Ep, ?Es, ?Ed, ?Etr, ?omap_app, ?N1, ?N2, ?N3, ?N4, ?app_nil_r; try done.
  by eapply timers_right_quiet.
Qed.

(** *** One move at a time *)

Lemma timers_right_settle st id p o :
  Tables st → jget id (pending st) = Some p →
  timers_right (emit o (clearTimeout id (st <| pending := jdelete id (pending st) |>))).
Proof.
  intros T Hp id' kind due. simpl. destruct (decide (id' = id)) as [->|Hne]; [by rewrite jget_delete|].
  rewrite jget_delete_ne by done. intros E%(tables_timers _ T). destruct kind; [|done].
  by rewrite jget_delete_ne.
Qed.

Lemma tables_settle st id p o :
  Tables st → jget id (pending st) = Some p → settled o = Some id → issued o = None → opened o = None →
  over o = None → Tables (emit o (clearTimeout id (st <| pending := jdelete id (pending st) |>))).
Proof.
  intros T Hp E1 E2 E3 E4. pose proof (jkeys_delete id p (pending st) (tables_pending _ T) Hp) as Hk.
  pose proof (timers_right_settle st id p o T Hp).
  destruct T as [T1 T2 T3 T4 T5 T6 T7 T8].
  split; simpl; rewrite ?omap_app; simpl; rewrite ?E1, ?E2, ?E3, ?E4, ?app_nil_r; auto with jsmap.
  rewrite T5, Hk, <-app_assoc. done.
Qed.

Lemma timers_right_over st id s o :
  Tables st → jget id (streams st) = Some s →
  timers_right (emit o (clearTimeout id (st <| streams := jdelete id (streams st) |>))).
Proof.
  intros T Hs id' kind due. simpl. destruct (decide (id' = id)) as [->|Hne]; [by rewrite jget_delete|].
  rewrite jget_delete_ne by done. intros E%(tables_timers _ T). destruct kind; [done|].
  by rewrite jget_delete_ne.
Qed.

Lemma tables_over st id s reason error :
  Tables st → jget id (streams st) = Some s →
  Tables (emit (Notified id (Notice_ended reason error))
            (clearTimeout id (st <| streams := jdelete id (streams st) |>))).
Proof.
  intros T Hs. pose proof (jkeys_delete id s (streams st) (tables_streams _ T) Hs) as Hk.
  pose proof (timers_right_over st id s (Notified id (Notice_ended reason error)) T Hs).
  destruct T as [T1 T2 T3 T4 T5 T6 T7 T8].
  split; simpl; rewrite ?omap_app; simpl; rewrite ?app_nil_r; auto with jsmap.
  - intros id' s'. destruct (decide (id' = id)) as [->|Hne]; [by rewrite jget_delete|].
    rewrite jget_delete_ne by done. apply T3.
  - rewrite T6, Hk, <-app_assoc. done.
Qed.

(** A stream in the table is replaced by one that differs in its counters. *)
Lemma tables_update st st' id s s' o :
  Tables st → jget id (streams st) = Some s → stream_ended s' = false →
  pending st' = pending st → streams st' = jset id s' (streams st) → drawn st' = drawn st →
  trace st' = trace st ++ [o] → issued o = None → opened o = None → settled o = None → over o = None →
  timers_right st' → Tables st'.
Proof.
  intros [T1 T2 T3 T4 T5 T6 T7 T8] Hs He Ep Es Ed Et E1 E2 E3 E4 Hr.
  split; rewrite ?Ep, ?Es, ?Ed, ?Et, ?omap_app; simpl; rewrite ?E1, ?E2, ?E3, ?E4, ?app_nil_r;
    auto with jsmap.
  - intros id' x. destruct (decide (id' = id)) as [->|Hne]; [rewrite jget_set; by intros [= <-]|].
    rewrite jget_set_ne by done. apply T3.
  - by rewrite (jkeys_update id s).
Qed.

Lemma timers_right_stream st st' id s s' :
  Tables st → jget id (streams st) = Some s → pending st' = pending st →
  streams st' = jset id s' (streams st) → stream_ended s' = false →
  (∀ id', id' ≠ id → jget id' (timers st') = jget id' (timers st)) →
  (jget id (timers st') = None ∨
   jget id (timers st') = jget id (timers st) ∧ stream_acknowledged s' = stream_acknowledged s) →
  timers_right st'.
Proof.
  intros T Hs Ep Es He Hother Hid id' kind due E. rewrite Ep, Es.
  destruct (decide (id' = id)) as [->|Hne].
  - destruct Hid as [Hid|[Hid Ha]]; [congruence|]. rewrite Hid in E. apply (tables_timers _ T) in E.
    destruct kind; [done|]. destruct E as (x & Ex & Ea & _). rewrite jget_set.
    exists s'. split_and!; try done. congruence.
  - rewrite Hother in E by done. apply (tables_timers _ T) in E. destruct kind; [done|].
    by rewrite jget_set_ne.
Qed.

Definition waiting (agentId capability : string) (connection : AgentConnection) : PendingRequest :=
  {| pending_agentId := agentId; pending_capability := capability;
     pending_socket := connection_socket connection |}.

Lemma request_inr a c payload st id st' :
  request a c payload st = (inr id, st') →
  ∃ connection message, jget a (connections st) = Some connection ∧ id = uuid (drawn st) ∧
    pending st' = jset id (waiting a c connection) (pending st) ∧ streams st' = streams st ∧
    timers st' = jset id (Request_timer, (clock st + (timeout_of c ?? 0))%Z) (timers st) ∧
    drawn st' = (drawn st + 1)%N ∧ clock st' = clock st ∧ connections st' = connections st ∧
    trace st' = trace st ++ [Issued id a c (clock st); Wrote (connection_socket connection) message].
Proof.
  unfold request. destruct (negb _); [done|].
  destruct (jget a (connections st)) as [connection|] eqn:E; [|done]. simpl. intros [= <- <-].
  eexists connection, _. simpl. rewrite <-app_assoc. by split_and!.
Qed.

Definition opening (agentId capability : string) (connection : AgentConnection) (st : State) : RunningStream := {|
  stream_agentId := agentId; stream_capability := capability; stream_requestId := uuid (drawn st);
  stream_streamId := uuid (drawn st + 1); stream_socket := connection_socket connection;
  stream_next := 0; stream_acknowledged := false; stream_ended := false |}.

Lemma openStream_inr a c payload st id st' :
  openStream a c payload st = (inr id, st') →
  ∃ connection message, jget a (connections st) = Some connection ∧ id = uuid (drawn st) ∧
    pending st' = pending st ∧ streams st' = jset id (opening a c connection st) (streams st) ∧
    timers st' = jset id (Stream_timer, (clock st + (timeout_of c ?? 0))%Z) (timers st) ∧
    drawn st' = (drawn st + 2)%N ∧ clock st' = clock st ∧ connections st' = connections st ∧
    trace st' = trace st ++ [Opened id a c (clock st); Wrote (connection_socket connection) message].
Proof.
  unfold openStream. destruct (negb _); [done|].
  destruct (jget a (connections st)) as [connection|] eqn:E; [|done]. simpl. intros [= <- <-].
  eexists connection, _. simpl. rewrite <-app_assoc. split_and!; try done. lia.
Qed.

Lemma tables_issue a c payload st id st' :
  within st' → Tables st → request a c payload st = (inr id, st') → Tables st'.
Proof.
  intros Hw T (connection & message & _ & -> & Ep & Es & Et & Ed & _ & _ & Etr)%request_inr.
  unfold within in Hw. destruct (tables_fresh st T) as (Hf & Hp & Hs); [lia|].
  destruct T as [T1 T2 T3 T4 T5 T6 T7 T8].
  split; rewrite ?Ep, ?Es, ?Ed, ?Etr, ?omap_app; simpl; rewrite ?app_nil_r; auto with jsmap.
  - intros id kind due. rewrite Et, Ep, Es. destruct (decide (id = uuid (drawn st))) as [->|Hne].
    + rewrite !jget_set. intros [= <- _]. by eexists.
    + rewrite !jget_set_ne by done. apply T4.
  - rewrite jset_fresh by done. unfold jkeys. rewrite fmap_app, app_assoc. simpl. by rewrite T5.
  - rewrite <-app_assoc. apply Forall_app in T7 as [T7 T7'].
    repeat apply Forall_app_2; try (eapply drawn_before_le; [|done]; lia).
    repeat constructor. exists (drawn st). split; [lia|done].
  - rewrite <-app_assoc. simpl. rewrite <-Permutation_middle. by apply NoDup_cons.
Qed.

Lemma tables_open a c payload st id st' :
  within st' → Tables st → openStream a c payload st = (inr id, st') → Tables st'.
Proof.
  intros Hw T (connection & message & _ & -> & Ep & Es & Et & Ed & _ & _ & Etr)%openStream_inr.
  unfold within in Hw. destruct (tables_fresh st T) as (Hf & Hp & Hs); [lia|].
  destruct T as [T1 T2 T3 T4 T5 T6 T7 T8].
  split; rewrite ?Ep, ?Es, ?Ed, ?Etr, ?omap_app; simpl; rewrite ?app_nil_r; auto with jsmap.
  - intros id s. destruct (decide (id = uuid (drawn st))) as [->|Hne].
    + rewrite jget_set. by intros [= <-].
    + rewrite jget_set_ne by done. apply T3.
  - intros id kind due. rewrite Et, Ep, Es. destruct (decide (id = uuid (drawn st))) as [->|Hne].
    + rewrite !jget_set. intros [= <- _]. by eexists.
    + rewrite !jget_set_ne by done. apply T4.
  - rewrite jset_fresh by done. unfold jkeys. rewrite fmap_app, app_assoc. simpl. by rewrite T6.
  - rewrite app_assoc. apply Forall_app_2; [eapply drawn_before_le; [|done]; lia|].
    repeat constructor. exists (drawn st). split; [lia|done].
  - rewrite app_assoc, (Permutation_app_comm _ [_]). by apply NoDup_cons.
Qed.

Lemma tables_ack st id s :
  Tables st → jget id (streams st) = Some s →
  Tables (emit (Notified id Notice_started)
    ((clearTimeout id st) <| streams := jset id (s <| stream_acknowledged := true |>) (streams st) |>)).
Proof.
  intros T Hs. eapply (tables_update st _ id s (s <| stream_acknowledged := true |>)); simpl; try done; [by apply (tables_running _ T id)|].
  eapply (timers_right_stream st _ id s (s <| stream_acknowledged := true |>)); simpl; try done; [by apply (tables_running _ T id)|..].
  - intros id' Hne. by apply jget_delete_ne.
  - left. apply jget_delete.
Qed.

Lemma tables_chunk st id s n :
  Tables st → jget id (streams st) = Some s → over (Notified id n) = None →
  Tables (emit (Notified id n)
    (st <| streams := jset id (s <| stream_next := (stream_next s + 1)%Z |>) (streams st) |>)).
Proof.
  intros T Hs Hn. eapply (tables_update st _ id s (s <| stream_next := (stream_next s + 1)%Z |>)); simpl; try done; [by apply (tables_running _ T id)|].
  eapply (timers_right_stream st _ id s (s <| stream_next := (stream_next s + 1)%Z |>)); simpl; try done; [by apply (tables_running _ T id)|].
  by right.
Qed.

Lemma move_drawn i st st' : move i st st' → (drawn st <= drawn st')%N.
Proof.
  destruct 1 as [st st' _ _ _ E|st st' a c payload id E|st st' a c payload id E| | | |]; simpl; try lia.
  - apply request_inr in E as (? & ? & _ & _ & _ & _ & _ & E & _). lia.
  - apply openStream_inr in E as (? & ? & _ & _ & _ & _ & _ & E & _). lia.
Qed.

Lemma tables_move i st st' : within st' → Tables st → move i st st' → Tables st'.
Proof.
  intros Hw T. destruct 1 as [st st' Ep Es Et Ed Ec Etr Ecn|st st' a c payload id E|st st' a c payload id E
    |st id p o Hp Ho|st id s reason error Hs|st id s Hs|st id s m Hs].
  - destruct Etr as [Etr|(s & a & b & Etr)].
    + eapply (tables_quiet st st' []); try done. by rewrite app_nil_r.
    + by eapply (tables_quiet st st' [Wrote s (Send_cancel a b)]).
  - by eapply tables_issue.
  - by eapply tables_open.
  - eapply tables_settle; try done; destruct Ho as [(e & -> & _)|(m & _ & -> & _)]; done.
  - by eapply tables_over.
  - by eapply tables_ack.
  - by eapply tables_chunk.
Qed.

(** What holds of the empty tables and is kept by every move holds of every state
    the inputs lead to. *)
Section reachable.
Context (P : list Input → State → Prop).
Hypothesis P_initial : P [] initial.
Hypothesis P_more : ∀ inputs i st, P inputs st → P (inputs ++ [i]) st.
Hypothesis P_move : ∀ inputs i st st',
  i ∈ inputs → within st' → Tables st → P inputs st → move i st st' → P inputs st'.

Lemma moves_keep inputs i st st' :
  i ∈ inputs → within st' → Tables st → P inputs st → rtc (move i) st st' → Tables st' ∧ P inputs st'.
Proof.
  intros Hi Hw T HP Hm. revert Hw T HP. induction Hm as [st|st1 st2 st3 Hm Hms IH]; [done|].
  intros Hw T HP. assert (within st2) as Hw2.
  { unfold within in *. clear -Hw Hms. induction Hms as [|st2 st3 st4 Hm _ IH]; [done|].
    specialize (IH Hw). apply move_drawn in Hm. lia. }
  apply IH; [done|by eapply tables_move|by eapply P_move].
Qed.

Lemma reachable_ind inputs : within (run inputs) → Tables (run inputs) ∧ P inputs (run inputs).
Proof.
  induction inputs as [|i inputs IH] using rev_ind.
  - intros _. split; [|done]. split; try done; try constructor.
  - unfold run in *. rewrite foldl_app. simpl. intros Hw.
    destruct IH as [T HP]; [unfold within in *; etrans; [apply step_drawn|done]|].
    eapply moves_keep; [..|apply step_moves; apply T]; try done; [|by apply P_more].
    apply elem_of_app. right. by left.
Qed.
End reachable.

Lemma tables_disjoint st id p s :
  Tables st → jget id (pending st) = Some p → jget id (streams st) = Some s → False.
Proof.
  intros T Hp Hs. pose proof (tables_once _ T) as Hn. apply NoDup_app in Hn as (_ & Hd & _).
  apply (Hd id).
  - rewrite (tables_issued _ T). apply elem_of_app. right. apply jget_key. by eexists.
  - rewrite (tables_opened _ T). apply elem_of_app. right. apply jget_key. by eexists.
Qed.

Lemma move_trace i st st' : move i st st' → ∃ new, trace st' = trace st ++ new.
Proof.
  destruct 1 as [st st' _ _ _ _ _ E _|st st' a c payload id E|st st' a c payload id E| | | |]; simpl; try by eexists.
  - destruct E as [->|(s & a & b & ->)]; [exists []; by rewrite app_nil_r|by eexists].
  - apply request_inr in E as (? & ? & _ & _ & _ & _ & _ & _ & _ & _ & ->). by eexists.
  - apply openStream_inr in E as (? & ? & _ & _ & _ & _ & _ & _ & _ & _ & ->). by eexists.
Qed.

Lemma trace_grows i st st' o : move i st st' → o ∈ trace st → o ∈ trace st'.
Proof. intros [new ->]%move_trace H. apply elem_of_app. by left. Qed.

(** ** Where answers come from *)

Definition due (capability : string) (at_ : time) : time := (at_ + (timeout_of capability ?? 0))%Z.

(** A request on record: who was asked for what, on which socket, and until when
    the answer is waited for. *)
Definition request_known (inputs : list Input) (st : State) (id : string) (p : PendingRequest) : Prop :=
  Register (pending_agentId p) (pending_socket p) ∈ inputs ∧
  ∃ at_, Issued id (pending_agentId p) (pending_capability p) at_ ∈ trace st ∧
         jget id (timers st) = Some (Request_timer, due (pending_capability p) at_).

Definition stream_known (inputs : list Input) (st : State) (id : string) (s : RunningStream) : Prop :=
  Register (stream_agentId s) (stream_socket s) ∈ inputs ∧
  ∃ at_, Opened id (stream_agentId s) (stream_capability s) at_ ∈ trace st ∧
         (stream_acknowledged s = false →
          jget id (timers st) = Some (Stream_timer, due (stream_capability s) at_)).

(** A value a promise was given was sent by the agent that was asked, on a
    connection of its own, in answer to that request and no other. *)
Definition answered_by (inputs : list Input) (st : State) (id : string) (payload : option json) : Prop :=
  ∃ agentId socket at_ m,
    Issued id agentId (response_capability m) at_ ∈ trace st ∧
    Register agentId socket ∈ inputs ∧ Received socket (Msg_response m) ∈ inputs ∧
    response_id m = id ∧ response_status m = Response_success ∧ response_payload m = payload.

Record Known (inputs : list Input) (st : State) : Prop := {
  known_connections a c :
    jget a (connections st) = Some c → Register a (connection_socket c) ∈ inputs;
  known_pending id p : jget id (pending st) = Some p → request_known inputs st id p;
  known_streams id s : jget id (streams st) = Some s → stream_known inputs st id s;
  known_resolved id payload : Resolved id payload ∈ trace st → answered_by inputs st id payload;
  known_rejected id e : Rejected id e ∈ trace st → dispatch_error e = true
}.

(** What is known stays known while nothing about it is touched. *)
Lemma request_known_kept inputs i st st' id p :
  move i st st' → jget id (timers st') = jget id (timers st) →
  request_known inputs st id p → request_known inputs st' id p.
Proof.
  intros Hm Ht (Hr & at_ & Hi & Hd). split; [done|]. exists at_. split; [by eapply trace_grows|congruence].
Qed.

Lemma stream_known_kept inputs i st st' id s s' :
  move i st st' → stream_agentId s' = stream_agentId s → stream_capability s' = stream_capability s →
  stream_socket s' = stream_socket s →
  (stream_acknowledged s' = false →
     stream_acknowledged s = false ∧ jget id (timers st') = jget id (timers st)) →
  stream_known inputs st id s → stream_known inputs st' id s'.
Proof.
  intros Hm Ea Ec Es Ht (Hr & at_ & Hi & Hd). unfold stream_known. rewrite Ea, Ec, Es. split; [done|].
  exists at_. split; [by eapply trace_grows|]. intros [Ha ->]%Ht. by apply Hd.
Qed.

Lemma answered_kept inputs i st st' id payload :
  move i st st' → answered_by inputs st id payload → answered_by inputs st' id payload.
Proof. intros Hm (a & s & t & m & H & ?). exists a, s, t, m. split; [by eapply trace_grows|done]. Qed.

Lemma known_connections_move inputs i st st' :
  i ∈ inputs → Known inputs st → move i st st' →
  ∀ a c, jget a (connections st') = Some c → Register a (connection_socket c) ∈ inputs.
Proof.
  intros Hi K Hm a c. destruct Hm as [st st' _ _ _ _ _ _ Hc|st st' ? ? ? ? E|st st' ? ? ? ? E| | | |]; simpl;
    try apply (known_connections _ _ K).
  - intros [H| ->]%Hc; [by apply (known_connections _ _ K)|done].
  - apply request_inr in E as (? & ? & _ & _ & _ & _ & _ & _ & _ & -> & _). apply (known_connections _ _ K).
  - apply openStream_inr in E as (? & ? & _ & _ & _ & _ & _ & _ & _ & -> & _). apply (known_connections _ _ K).
Qed.

Lemma known_pending_move inputs i st st' :
  within st' → Tables st → Known inputs st → move i st st' →
  ∀ id p, jget id (pending st') = Some p → request_known inputs st' id p.
Proof.
  intros Hw T K Hm id p Hp.
  assert (Keep : jget id (pending st) = Some p → jget id (timers st') = jget id (timers st) →
                 request_known inputs st' id p).
  { intros H1 H2. eapply request_known_kept; [done..|]. by apply (known_pending _ _ K). }
  destruct Hm as [st st' Ep _ Et _ _ _ _|st st' a c payload id' E|st st' a c payload id' E
    |st id' p' o Hp' _|st id' s reason error Hs|st id' s Hs|st id' s m Hs _ _ _ _]; simpl in *.
  - apply Keep; congruence.
  - apply request_inr in E as (conn & m & Hc & -> & Ep & _ & Et & _ & _ & _ & Etr). rewrite Ep in Hp.
    destruct (decide (id = uuid (drawn st))) as [->|Hne].
    + rewrite jget_set in Hp. injection Hp as <-. simpl. split; [by apply (known_connections _ _ K)|].
      exists (clock st). rewrite Etr, Et, jget_set. split; [|done]. set_solver.
    + rewrite jget_set_ne in Hp by done. apply Keep; [done|]. by rewrite Et, jget_set_ne.
  - apply openStream_inr in E as (conn & m & Hc & -> & Ep & _ & Et & Ed & _ & _ & _). rewrite Ep in Hp.
    unfold within in Hw. destruct (tables_fresh st T) as (_ & Hf & _); [lia|].
    apply Keep; [done|]. rewrite Et, jget_set_ne; [done|]. intros ->. congruence.
  - destruct (decide (id = id')) as [->|Hne]; [by rewrite jget_delete in Hp|].
    rewrite jget_delete_ne in Hp by done. apply Keep; [done|]. by rewrite jget_delete_ne.
  - apply Keep; [done|]. rewrite jget_delete_ne; [done|]. intros ->. by eapply tables_disjoint.
  - apply Keep; [done|]. rewrite jget_delete_ne; [done|]. intros ->. by eapply tables_disjoint.
  - by apply Keep.
Qed.

Lemma known_streams_move inputs i st st' :
  within st' → Tables st → Known inputs st → move i st st' →
  ∀ id s, jget id (streams st') = Some s → stream_known inputs st' id s.
Proof.
  intros Hw T K Hm id s Hs.
  assert (Keep : ∀ s', jget id (streams st) = Some s' → stream_agentId s = stream_agentId s' →
      stream_capability s = stream_capability s' → stream_socket s = stream_socket s' →
      (stream_acknowledged s = false →
        stream_acknowledged s' = false ∧ jget id (timers st') = jget id (timers st)) →
      stream_known inputs st' id s).
  { intros s' H1 E1 E2 E3 H2. eapply stream_known_kept; [done..|]. by apply (known_streams _ _ K). }
  destruct Hm as [st st' _ Es Et _ _ _ _|st st' a c payload id' E|st st' a c payload id' E
    |st id' p' o Hp' _|st id' s' reason error Hs'|st id' s' Hs'|st id' s' m Hs' _ _ _ _]; simpl in *.
  - apply (Keep s); [congruence|done..|]. intros Ha. by rewrite Et.
  - apply request_inr in E as (conn & m & Hc & -> & _ & Es & Et & Ed & _ & _ & _). rewrite Es in Hs.
    unfold within in Hw. destruct (tables_fresh st T) as (_ & _ & Hf); [lia|].
    apply (Keep s); try done. intros Ha. rewrite Et, jget_set_ne; [done|]. intros ->. congruence.
  - apply openStream_inr in E as (conn & m & Hc & -> & _ & Es & Et & _ & _ & _ & Etr). rewrite Es in Hs.
    destruct (decide (id = uuid (drawn st))) as [->|Hne].
    + rewrite jget_set in Hs. injection Hs as <-. simpl. split; [by apply (known_connections _ _ K)|].
      exists (clock st). rewrite Etr, Et, jget_set. split; [|done]. set_solver.
    + rewrite jget_set_ne in Hs by done. apply (Keep s); try done. by rewrite Et, jget_set_ne.
  - apply (Keep s); try done. intros Ha. rewrite jget_delete_ne; [done|]. intros ->.
    by eapply tables_disjoint.
  - destruct (decide (id = id')) as [->|Hne]; [by rewrite jget_delete in Hs|].
    rewrite jget_delete_ne in Hs by done. apply (Keep s); try done. by rewrite jget_delete_ne.
  - destruct (decide (id = id')) as [->|Hne].
    + rewrite jget_set in Hs. injection Hs as <-. by apply (Keep s').
    + rewrite jget_set_ne in Hs by done. apply (Keep s); try done. by rewrite jget_delete_ne.
  - destruct (decide (id = id')) as [->|Hne].
    + rewrite jget_set in Hs. injection Hs as <-. by apply (Keep s').
    + rewrite jget_set_ne in Hs by done. by apply (Keep s).
Qed.

Lemma known_resolved_move inputs i st st' :
  i ∈ inputs → Known inputs st → move i st st' →
  ∀ id payload, Resolved id payload ∈ trace st' → answered_by inputs st' id payload.
Proof.
  intros Hi K Hm id payload Hr.
  assert (Keep : Resolved id payload ∈ trace st → answered_by inputs st' id payload).
  { intros H. eapply answered_kept; [done|]. by apply (known_resolved _ _ K). }
  pose proof Hm as Hm'.
  destruct Hm as [st st' _ _ _ _ _ Etr _|st st' a c payload' id' E|st st' a c payload' id' E
    |st id' p o Hp Ho|st id' s reason error Hs|st id' s Hs|st id' s m Hs _ _ _ _]; simpl in *.
  - destruct Etr as [Etr|(s & a & b & Etr)]; rewrite Etr in Hr; apply Keep; set_solver.
  - apply request_inr in E as (? & ? & _ & _ & _ & _ & _ & _ & _ & _ & Etr).
    rewrite Etr in Hr. apply Keep. set_solver.
  - apply openStream_inr in E as (? & ? & _ & _ & _ & _ & _ & _ & _ & _ & Etr).
    rewrite Etr in Hr. apply Keep. set_solver.
  - apply elem_of_app in Hr as [Hr|Hr%list_elem_of_singleton]; [by apply Keep|].
    destruct Ho as [(e & -> & _)|(m & -> & -> & Hid & Hc & Hst)]; [done|]. injection Hr as -> ->.
    destruct (known_pending _ _ K _ _ Hp) as (Hreg & at_ & Hiss & _).
    exists (pending_agentId p), (pending_socket p), at_, m. rewrite Hc.
    split_and!; try done. by eapply trace_grows.
  - apply Keep. set_solver.
  - apply Keep. set_solver.
  - apply Keep. set_solver.
Qed.

Lemma known_rejected_move inputs i st st' :
  Known inputs st → move i st st' → ∀ id e, Rejected id e ∈ trace st' → dispatch_error e = true.
Proof.
  intros K Hm id e Hr.
  assert (Keep : Rejected id e ∈ trace st → dispatch_error e = true) by apply (known_rejected _ _ K).
  destruct Hm as [st st' _ _ _ _ _ Etr _|st st' a c payload' id' E|st st' a c payload' id' E
    |st id' p o Hp Ho|st id' s reason error Hs|st id' s Hs|st id' s m Hs _ _ _ _]; simpl in *.
  - destruct Etr as [Etr|(s & a & b & Etr)]; rewrite Etr in Hr; apply Keep; set_solver.
  - apply request_inr in E as (? & ? & _ & _ & _ & _ & _ & _ & _ & _ & Etr).
    rewrite Etr in Hr. apply Keep. set_solver.
  - apply openStream_inr in E as (? & ? & _ & _ & _ & _ & _ & _ & _ & _ & Etr).
    rewrite Etr in Hr. apply Keep. set_solver.
  - apply elem_of_app in Hr as [Hr|Hr%list_elem_of_singleton]; [by apply Keep|].
    destruct Ho as [(e' & -> & He)|(m & _ & -> & _)]; [|done]. by injection Hr as -> ->.
  - apply Keep. set_solver.
  - apply Keep. set_solver.
  - apply Keep. set_solver.
Qed.

Lemma known_initial : Known [] initial.
Proof. split; try done; intros ? ? []%not_elem_of_nil. Qed.

Lemma known_more inputs i st : Known inputs st → Known (inputs ++ [i]) st.
Proof.
  intros [K1 K2 K3 K4 K5].
  assert (Hi : ∀ x, x ∈ inputs → x ∈ inputs ++ [i]) by (intros; apply elem_of_app; by left).
  split.
  - intros a c Hc. by apply Hi, K1.
  - intros id p (Hr & H)%K2. split; [by apply Hi|done].
  - intros id s (Hr & H)%K3. split; [by apply Hi|done].
  - intros id payload (a & s & t & m & H1 & H2 & H3 & H4)%K4. exists a, s, t, m.
    split_and!; try apply Hi; apply H4 || done.
  - done.
Qed.

Lemma known_move inputs i st st' :
  i ∈ inputs → within st' → Tables st → Known inputs st → move i st st' → Known inputs st'.
Proof.
  intros Hi Hw T K Hm. split.
  - by eapply known_connections_move.
  - by eapply known_pending_move.
  - by eapply known_streams_move.
  - by eapply known_resolved_move.
  - by eapply known_rejected_move.
Qed.

Lemma known inputs : within (run inputs) → Tables (run inputs) ∧ Known inputs (run inputs).
Proof. apply (reachable_ind Known); [apply known_initial|apply known_more|apply known_move]. Qed.

(** ** What observers are told *)

(** A chunk handed on was sent, with the number of its place, by the agent the
    stream was opened on. *)
Definition chunk_known (inputs : list Input) (st : State) (id : string) (k : nat)
    (x : option json * Z) : Prop :=
  ∃ agentId capability at_ socket m,
    Opened id agentId capability at_ ∈ trace st ∧ Register agentId socket ∈ inputs ∧
    Received socket (Msg_stream_chunk m) ∈ inputs ∧ chunk_id m = id ∧ chunk_seq m = Z.of_nat k ∧
    x = (chunk_payload m, chunk_dropped m).

Definition is_end (n : Notice) : bool := match n with Notice_ended _ _ => true | _ => false end.

Record Delivered (inputs : list Input) (st : State) : Prop := {
  delivered_next id s : jget id (streams st) = Some s → stream_next s = Z.of_nat (length (chunks id st));
  delivered_known id k x : chunks id st !! k = Some x → chunk_known inputs st id k x;
  delivered_opened id : notices id st ≠ [] → id ∈ omap opened (trace st);
  delivered_last id pre n post : notices id st = pre ++ n :: post → is_end n = true → post = []
}.

Lemma notices_app id st st' new :
  trace st' = trace st ++ new → notices id st' = notices id st ++ omap (notice_of id) new.
Proof. unfold notices. intros ->. apply omap_app. Qed.

Lemma chunks_app id st st' new :
  trace st' = trace st ++ new →
  chunks id st' = chunks id st ++ omap chunk_of (omap (notice_of id) new).
Proof. intros H. unfold chunks. rewrite (notices_app _ _ _ _ H). apply omap_app. Qed.

(** A stream that runs was not declared over. *)
Lemma running_not_over st id s n :
  Tables st → jget id (streams st) = Some s → n ∈ notices id st → is_end n = false.
Proof.
  intros T Hs Hn. destruct (is_end n) eqn:E; [|done]. exfalso.
  assert (id ∈ omap over (trace st)) as Ho.
  { apply list_elem_of_omap in Hn as (o & Hin & Ho). apply list_elem_of_omap. exists o. split; [done|].
    destruct o; try done. simpl in Ho. case_bool_decide; [|done]. simplify_eq. by destruct n. }
  pose proof (tables_once _ T) as H1. apply NoDup_app in H1 as (_ & _ & H1).
  rewrite (tables_opened _ T) in H1. apply NoDup_app in H1 as (_ & H1 & _).
  apply (H1 id Ho). apply jget_key. by eexists.
Qed.

(** What a move tells the observer of [id]: nothing, or one thing about a stream
    that runs. *)
Lemma move_notices i st st' id :
  Tables st → move i st st' →
  notices id st' = notices id st ∨
  (∃ s n, jget id (streams st) = Some s ∧ notices id st' = notices id st ++ [n]).
Proof.
  intros T Hm.
  destruct Hm as [st st' _ _ _ _ _ Etr _|st st' a c payload' id' E|st st' a c payload' id' E
    |st id' p o Hp Ho|st id' s reason error Hs|st id' s Hs|st id' s m Hs _ _ _ _].
  - left. destruct Etr as [Etr|(s & a & b & Etr)].
    + unfold notices. by rewrite Etr.
    + rewrite (notices_app _ _ _ _ Etr). apply app_nil_r.
  - left. apply request_inr in E as (? & ? & _ & _ & _ & _ & _ & _ & _ & _ & Etr).
    rewrite (notices_app _ _ _ _ Etr). apply app_nil_r.
  - left. apply openStream_inr in E as (? & ? & _ & _ & _ & _ & _ & _ & _ & _ & Etr).
    rewrite (notices_app _ _ _ _ Etr). apply app_nil_r.
  - left. erewrite notices_app by done.
    destruct Ho as [(e & -> & _)|(m & _ & -> & _)]; apply app_nil_r.
  - erewrite notices_app by done. simpl. case_bool_decide; [subst; right; by eauto|left; apply app_nil_r].
  - erewrite notices_app by done. simpl. case_bool_decide; [subst; right; by eauto|left; apply app_nil_r].
  - erewrite notices_app by done. simpl. case_bool_decide; [subst; right; by eauto|left; apply app_nil_r].
Qed.

Lemma opened_grows i st st' id : move i st st' → id ∈ omap opened (trace st) → id ∈ omap opened (trace st').
Proof. intros [new ->]%move_trace H. rewrite omap_app. apply elem_of_app. by left. Qed.

Lemma running_opened st id s : Tables st → jget id (streams st) = Some s → id ∈ omap opened (trace st).
Proof. intros T Hs. rewrite (tables_opened _ T). apply elem_of_app. right. apply jget_key. by eexists. Qed.

Lemma delivered_opened_move inputs i st st' id :
  Tables st → Delivered inputs st → move i st st' → notices id st' ≠ [] → id ∈ omap opened (trace st').
Proof.
  intros T D Hm Hn. eapply opened_grows; [done|].
  destruct (move_notices i st st' id T Hm) as [E|(s & n & Hs & _)]; [|by eapply running_opened].
  rewrite E in Hn. by apply (delivered_opened _ _ D).
Qed.

Lemma delivered_last_move inputs i st st' id pre n post :
  Tables st → Delivered inputs st → move i st st' →
  notices id st' = pre ++ n :: post → is_end n = true → post = [].
Proof.
  intros T D Hm En He. destruct (move_notices i st st' id T Hm) as [E|(s & n' & Hs & E)];
    rewrite E in En; [by eapply (delivered_last _ _ D)|].
  destruct (decide (post = [])) as [->|Hp]; [done|].
  destruct (exists_last Hp) as (post' & x & ->). exfalso.
  rewrite app_comm_cons, app_assoc in En. apply app_inj_tail in En as [En _].
  rewrite (running_not_over st id s n) in He; [done..|]. rewrite En. set_solver.
Qed.

Lemma chunk_known_kept inputs i st st' id k x :
  move i st st' → chunk_known inputs st id k x → chunk_known inputs st' id k x.
Proof.
  intros Hm (a & c & t & s & m & H & ?). exists a, c, t, s, m. split; [by eapply trace_grows|done].
Qed.

(** A move that writes nothing to observers delivers nothing. *)
Lemma chunks_silent id st st' new :
  trace st' = trace st ++ new → omap (notice_of id) new = [] → chunks id st' = chunks id st.
Proof. intros E H. rewrite (chunks_app _ _ _ _ E), H. apply app_nil_r. Qed.

Lemma chunks_notified id id' st st' n :
  trace st' = trace st ++ [Notified id' n] → id ≠ id' ∨ chunk_of n = None → chunks id st' = chunks id st.
Proof.
  intros E H. rewrite (chunks_app _ _ _ _ E). simpl.
  case_bool_decide; simpl; [|apply app_nil_r]. destruct H as [? | ->]; [done|apply app_nil_r].
Qed.

Lemma entitled_silent id i id' p o : entitled i id' p o → omap (notice_of id) [o] = [].
Proof. by intros [(e & -> & _)|(m & _ & -> & _)]. Qed.

(** A move hands on no chunk of [id], or the next one. *)
Lemma move_chunks i st st' id :
  move i st st' →
  chunks id st' = chunks id st ∨
  (∃ s m, jget id (streams st) = Some s ∧ i = Received (stream_socket s) (Msg_stream_chunk m) ∧
     chunk_id m = id ∧ chunk_seq m = stream_next s ∧
     chunks id st' = chunks id st ++ [(chunk_payload m, chunk_dropped m)]).
Proof.
  destruct 1 as [st st' _ Es _ _ _ Etr _|st st' a c payload' id' E|st st' a c payload' id' E
    |st id' p o Hp Ho|st id' s reason error Hs|st id' s Hs|st id' s m Hs Hi Hid Hsid Hseq].
  - left. destruct Etr as [Etr|(s & a & b & Etr)]; [|by eapply chunks_silent].
    eapply (chunks_silent _ _ _ []); [by rewrite app_nil_r|done].
  - left. apply request_inr in E as (? & ? & _ & _ & _ & _ & _ & _ & _ & _ & Etr). by eapply chunks_silent.
  - left. apply openStream_inr in E as (? & ? & _ & _ & _ & _ & _ & _ & _ & _ & Etr). by eapply chunks_silent.
  - left. eapply chunks_silent; [done|]. by eapply entitled_silent.
  - left. eapply chunks_notified; [done|]. by right.
  - left. eapply chunks_notified; [done|]. by right.
  - destruct (decide (id = id')) as [->|Hne]; [|left; eapply chunks_notified; [done|by left]].
    right. exists s, m. split_and!; try done. erewrite chunks_app by done. simpl. by rewrite bool_decide_true.
Qed.

Lemma delivered_known_move inputs i st st' id k x :
  i ∈ inputs → Tables st → Known inputs st → Delivered inputs st → move i st st' →
  chunks id st' !! k = Some x → chunk_known inputs st' id k x.
Proof.
  intros Hi T K D Hm Hk.
  destruct (move_chunks i st st' id Hm) as [E|(s & m & Hs & Ei & Hid & Hseq & E)]; rewrite E in Hk.
  { eapply chunk_known_kept; [done|]. by apply (delivered_known _ _ D). }
  apply lookup_app_Some in Hk as [Hk|[Hl Hk]].
  { eapply chunk_known_kept; [done|]. by apply (delivered_known _ _ D). }
  apply list_lookup_singleton_Some in Hk as [Hz <-].
  destruct (known_streams _ _ K _ _ Hs) as (Hr & at_ & Ho & _).
  exists (stream_agentId s), (stream_capability s), at_, (stream_socket s), m.
  split_and!; try done; [by eapply trace_grows|by rewrite <-Ei|].
  rewrite Hseq, (delivered_next _ _ D _ _ Hs). lia.
Qed.

Lemma delivered_next_move inputs i st st' id s' :
  within st' → Tables st → Delivered inputs st → move i st st' → jget id (streams st') = Some s' →
  stream_next s' = Z.of_nat (length (chunks id st')).
Proof.
  intros Hw T D Hm Hs'.
  assert (Keep : ∀ s, jget id (streams st) = Some s → stream_next s' = stream_next s →
            chunks id st' = chunks id st → stream_next s' = Z.of_nat (length (chunks id st'))).
  { intros s Hs -> ->. by apply (delivered_next _ _ D). }
  destruct Hm as [st st' _ Es _ _ _ Etr _|st st' a c payload' id' E|st st' a c payload' id' E
    |st id' p o Hp Ho|st id' s reason error Hs|st id' s Hs|st id' s m Hs Hi Hid Hsid Hseq].
  - apply (Keep s'); [congruence|done|]. destruct Etr as [Etr|(s & a & b & Etr)]; [|by eapply chunks_silent].
    eapply (chunks_silent _ _ _ []); [by rewrite app_nil_r|done].
  - apply request_inr in E as (? & ? & _ & _ & _ & Es & _ & _ & _ & _ & Etr).
    apply (Keep s'); [congruence|done|by eapply chunks_silent].
  - apply openStream_inr in E as (? & ? & _ & -> & _ & Es & _ & Ed & _ & _ & Etr). rewrite Es in Hs'.
    destruct (decide (id = uuid (drawn st))) as [->|Hne].
    + rewrite jget_set in Hs'. injection Hs' as <-. unfold within in Hw.
      destruct (tables_fresh st T) as (Hf & _ & _); [lia|].
      rewrite (chunks_silent _ _ _ _ Etr) by done.
      assert (notices (uuid (drawn st)) st = []) as Hn; [|unfold chunks; by rewrite Hn].
      destruct (decide (notices (uuid (drawn st)) st = [])) as [|Hn]; [done|].
      apply (delivered_opened _ _ D) in Hn. destruct Hf. apply elem_of_app. by right.
    + rewrite jget_set_ne in Hs' by done. apply (Keep s'); [done..|by eapply chunks_silent].
  - apply (Keep s'); [done..|]. eapply chunks_silent; [done|]. by eapply entitled_silent.
  - simpl in Hs'. destruct (decide (id = id')) as [->|Hne]; [by rewrite jget_delete in Hs'|].
    rewrite jget_delete_ne in Hs' by done. apply (Keep s'); [done..|].
    eapply chunks_notified; [done|]. by left.
  - simpl in Hs'. destruct (decide (id = id')) as [->|Hne].
    + rewrite jget_set in Hs'. injection Hs' as <-. apply (Keep s); [done..|].
      eapply chunks_notified; [done|]. by right.
    + rewrite jget_set_ne in Hs' by done. apply (Keep s'); [done..|].
      eapply chunks_notified; [done|]. by left.
  - simpl in Hs'. destruct (decide (id = id')) as [->|Hne].
    + rewrite jget_set in Hs'. injection Hs' as <-. simpl.
      rewrite (chunks_app id' st _ [Notified id' (Notice_chunk (chunk_payload m) (chunk_dropped m))]) by done.
      simpl. rewrite bool_decide_true by done. simpl. rewrite length_app, (delivered_next _ _ D _ _ Hs). simpl. lia.
    + rewrite jget_set_ne in Hs' by done. apply (Keep s'); [done..|].
      eapply chunks_notified; [done|]. by left.
Qed.

Lemma delivered inputs : within (run inputs) → Delivered inputs (run inputs).
Proof.
  intros Hw. apply (reachable_ind (λ inputs st, Known inputs st ∧ Delivered inputs st)); [..|done].
  - split; [apply known_initial|]. split; try done. by intros ? [].
  - intros l i st [K [D1 D2 D3 D4]]. split; [by apply known_more|]. split; try done.
    intros id k x (a & c & t & s & m & H1 & H2 & H3 & H)%D2. exists a, c, t, s, m.
    split_and!; try (apply elem_of_app; by left); apply H || done.
  - intros l i st st' Hi Hw' T [K D] Hm. split; [by eapply known_move|]. split.
    + intros id s. by eapply delivered_next_move.
    + intros id k x. by eapply delivered_known_move.
    + intros id. by eapply delivered_opened_move.
    + intros id pre n post. by eapply delivered_last_move.
Qed.

(** ** Theorems *)

(** C11: every promise handed out is waiting or settled, never both and never twice,
    whatever order calls, messages, timers and closed sockets come in; and every
    stream opened is running or was declared over, once. *)
Theorem requests_settled_once inputs :
  within (run inputs) →
  let st := run inputs in
  omap issued (trace st) ≡ₚ omap settled (trace st) ++ jkeys (pending st) ∧
  NoDup (omap settled (trace st) ++ jkeys (pending st)) ∧
  omap opened (trace st) ≡ₚ omap over (trace st) ++ jkeys (streams st) ∧
  NoDup (omap over (trace st) ++ jkeys (streams st)).
Proof.
  intros Hw st. destruct (known inputs Hw) as [T _]. fold st in T.
  pose proof (tables_once _ T) as H1. apply NoDup_app in H1 as (Hi & _ & Ho).
  rewrite (tables_issued _ T) in Hi. rewrite (tables_opened _ T) in Ho.
  split_and!; try done; apply T.
Qed.

(** C12: a promise gets a value only from a successful reply to that very request, for
    the capability that was asked, on a connection that was registered for the
    agent that was asked; and what it fails with is one of a few known errors, so
    nothing an agent calls a failure reaches a caller unchecked. *)
Theorem replies_authentic inputs id :
  within (run inputs) →
  (∀ payload, Resolved id payload ∈ trace (run inputs) →
     answered_by inputs (run inputs) id payload) ∧
  (∀ e, Rejected id e ∈ trace (run inputs) → dispatch_error e = true).
Proof.
  intros Hw. destruct (known inputs Hw) as [_ K].
  split; [intros payload; apply (known_resolved _ _ K)|intros e; apply (known_rejected _ _ K)].
Qed.

(** The observer of a stream is handed the chunks its agent sent, numbered from
    zero without a gap or a repeat, and after it was told that the stream is over
    it is told nothing more. *)
Theorem streams_in_order inputs id :
  within (run inputs) →
  (∀ k x, chunks id (run inputs) !! k = Some x → chunk_known inputs (run inputs) id k x) ∧
  (∀ pre n post, notices id (run inputs) = pre ++ n :: post → is_end n = true → post = []).
Proof.
  intros Hw. pose proof (delivered inputs Hw) as D.
  split; [apply (delivered_known _ _ D)|apply (delivered_last _ _ D)].
Qed.

(** C13: no promise waits for ever: once the time its capability may take has passed,
    its timer settles it. *)
Theorem requests_time_out inputs id p :
  within (run inputs) → jget id (pending (run inputs)) = Some p →
  ∃ at_, Issued id (pending_agentId p) (pending_capability p) at_ ∈ trace (run inputs) ∧
    ∀ ms, (at_ + (timeout_of (pending_capability p) ?? 0) <= clock (run inputs) + Z.max 0 ms)%Z →
      let st := run (inputs ++ [Tick ms; Fire id]) in
      jget id (pending st) = None ∧ Rejected id (AppError "AGENT_REQUEST_TIMEOUT" CONFLICT) ∈ trace st.
Proof.
  intros Hw Hp. destruct (known inputs Hw) as [_ K].
  destruct (known_pending _ _ K _ _ Hp) as (_ & at_ & Hi & Ht). exists at_. split; [done|].
  intros ms Hms st. unfold st, run. rewrite foldl_app. fold (run inputs). simpl. rewrite Ht.
  rewrite (proj2 (Z.leb_le _ _)) by done. unfold expire, emit. simpl.
  split; [apply jget_delete|]. set_solver.
Qed.

(** ** A connection that closes *)

Lemma abandon_requests_left socket l st id :
  jget id (pending (foldl (abandon_request socket) st l)) =
  if existsb (λ e, bool_decide (e.1 = id) && bool_decide (pending_socket e.2 = socket)) l
  then None else jget id (pending st).
Proof.
  revert st. induction l as [|[k p] l IH]; intros st; simpl; [done|]. rewrite IH.
  destruct (existsb _ l); [by rewrite orb_true_r|]. rewrite orb_false_r.
  case_bool_decide as Hs; [|by rewrite andb_false_r]. rewrite andb_true_r. simpl.
  case_bool_decide as Hk; [subst; apply jget_delete|by rewrite jget_delete_ne].
Qed.

Lemma abandon_request_streams socket l st : streams (foldl (abandon_request socket) st l) = streams st.
Proof.
  revert st. induction l as [|[k p] l IH]; intros st; simpl; [done|]. rewrite IH. by case_bool_decide.
Qed.

Lemma endStream_pending id reason error st : pending (endStream id reason error st) = pending st.
Proof. unfold endStream. destruct (jget id (streams st)) as [s|]; [by destruct (stream_ended s)|done]. Qed.

Lemma abandon_stream_pending socket l st : pending (foldl (abandon_stream socket) st l) = pending st.
Proof.
  revert st. induction l as [|[k s] l IH]; intros st; simpl; [done|]. rewrite IH.
  case_bool_decide; [apply endStream_pending|done].
Qed.

Lemma endStream_streams id reason error st id' :
  (∀ s, jget id (streams st) = Some s → stream_ended s = false) →
  jget id' (streams (endStream id reason error st)) =
  if bool_decide (id = id') then None else jget id' (streams st).
Proof.
  intros Hr. unfold endStream. destruct (jget id (streams st)) as [s|] eqn:E.
  - rewrite (Hr s) by done. simpl.
    case_bool_decide as Hk; [subst; apply jget_delete|by rewrite jget_delete_ne].
  - case_bool_decide; [by subst|done].
Qed.

Lemma abandon_streams_left socket l st id :
  (∀ k s, jget k (streams st) = Some s → stream_ended s = false) →
  jget id (streams (foldl (abandon_stream socket) st l)) =
  if existsb (λ e, bool_decide (e.1 = id) && bool_decide (stream_socket e.2 = socket)) l
  then None else jget id (streams st).
Proof.
  revert st. induction l as [|[k s] l IH]; intros st Hr; simpl; [done|].
  case_bool_decide as Hs; [|rewrite IH by done; by rewrite andb_false_r].
  rewrite andb_true_r, IH.
  - rewrite endStream_streams by apply Hr. case_bool_decide; [by destruct (existsb _ l)|done].
  - intros k' s'. rewrite endStream_streams by apply Hr. case_bool_decide; [done|apply Hr].
Qed.

Lemma abandoned_iff {A} (f : A → Socket) socket (m : JsMap A) id :
  jmap_ok m →
  (if existsb (λ e, bool_decide (e.1 = id) && bool_decide (f e.2 = socket)) m then None else jget id m) =
  x ← jget id m; if bool_decide (f x = socket) then None else Some x.
Proof.
  intros Hok. destruct (existsb _ m) eqn:E.
  - apply existsb_exists in E as ([k x] & Hin%list_elem_of_In & [Hk Hf]%andb_true_iff).
    apply bool_decide_eq_true in Hk, Hf. simpl in *. subst.
    apply jget_iff in Hin; [|done]. rewrite Hin. simpl. by rewrite bool_decide_true.
  - destruct (jget id m) as [x|] eqn:Ex; simpl; [|done]. rewrite bool_decide_false; [done|].
    intros Hf. apply not_true_iff_false in E. apply E, existsb_exists. exists (id, x).
    split; [by apply list_elem_of_In, jget_elem|]. by rewrite !bool_decide_true.
Qed.

(** When a socket closes, exactly what was waiting on it ends: the requests sent
    on it fail and its streams are over, and no other request or stream notices. *)
Theorem abandon_exact inputs socket id :
  within (run inputs) →
  let st := run inputs in
  let st' := run (inputs ++ [Closed socket]) in
  jget id (pending st') =
    (p ← jget id (pending st); if bool_decide (pending_socket p = socket) then None else Some p) ∧
  jget id (streams st') =
    (s ← jget id (streams st); if bool_decide (stream_socket s = socket) then None else Some s).
Proof.
  intros Hw st st'. destruct (known inputs Hw) as [T _]. fold st in T.
  unfold st', run. rewrite foldl_app. fold (run inputs). fold st. simpl. unfold abandon. split.
  - rewrite abandon_stream_pending, abandon_requests_left. by apply abandoned_iff, T.
  - rewrite abandon_streams_left; rewrite abandon_request_streams; [|apply T].
    by apply abandoned_iff, T.
Qed.

(** ** What the services rely on

    [Effects.request] gives a caller one of the answers an [AgentReply] stands for. *)

(** Every way a promise of the dispatcher fails is an answer the services' view of
    a request, [Effects.request], accounts for. *)
Theorem request_refined inputs id e agentId capability plan w :
  within (run inputs) → Rejected id e ∈ trace (run inputs) → agentId ∈ w_connected w →
  ∃ replies, fst (Effects.request agentId capability plan (w <| w_replies := replies |>)) = inl e.
Proof.
  intros Hw Hr Hc. destruct (known inputs Hw) as [_ K]. apply (known_rejected _ _ K) in Hr.
  unfold Effects.request. simpl. rewrite bool_decide_true by done.
  destruct e as [code status| | | |]; try done; simpl in Hr.
  - case_bool_decide as Hs; [subst|].
    + apply bool_decide_eq_true in Hr.
      apply elem_of_cons in Hr as [->|Hr]; [by exists []|].
      apply list_elem_of_singleton in Hr as ->. by exists [Disconnected].
    + apply andb_true_iff in Hr as [->%bool_decide_eq_true _]. by exists [Refused code].
  - by exists [Unsent].
Qed.

(** *** One exchange and one stream, and a socket that closes under a request *)

Definition hello_then_ask : list Input :=
  [Register "agent-1" 1; Request "agent-1" "container.list" (JObject []);
   Request "agent-1" "host.inventory" (JObject []); OpenStream "agent-1" "container.logs" (JObject []);
   Received 1 (Msg_response {| response_id := uuid 0; response_capability := "container.list";
     response_status := Response_success; response_payload := Some (JArray []); response_error := None |});
   Received 1 (Msg_stream_started {| started_id := uuid 2; started_capability := "container.logs";
     started_streamId := uuid 3 |});
   Received 1 (Msg_stream_chunk {| chunk_id := uuid 2; chunk_streamId := uuid 3; chunk_seq := 0;
     chunk_payload := Some JNull; chunk_dropped := 0 |})].

Definition dropped_exchange : list Input := hello_then_ask ++ [Closed 1].

Lemma hello_within : within (run hello_then_ask).
Proof. by vm_compute. Defined.

Lemma dropped_within : within (run dropped_exchange).
Proof. by vm_compute. Defined.

Lemma requests_settled_once_witness :
  omap settled (trace (run dropped_exchange)) = [uuid 0; uuid 1] ∧
  NoDup (omap settled (trace (run dropped_exchange)) ++ jkeys (pending (run dropped_exchange))).
Proof.
  split; [by vm_compute|]. apply (requests_settled_once dropped_exchange dropped_within).
Defined.

Lemma replies_authentic_witness : answered_by hello_then_ask (run hello_then_ask) (uuid 0) (Some (JArray [])).
Proof.
  apply (replies_authentic hello_then_ask (uuid 0) hello_within).
  vm_compute. do 6 right. left.
Defined.

Lemma streams_in_order_witness : chunk_known hello_then_ask (run hello_then_ask) (uuid 2) 0 (Some JNull, 0%Z).
Proof. apply (streams_in_order hello_then_ask (uuid 2) hello_within). by vm_compute. Defined.

Lemma requests_time_out_witness :
  jget (uuid 1) (pending (run (hello_then_ask ++ [Tick 10000; Fire (uuid 1)]))) = None.
Proof.
  destruct (requests_time_out hello_then_ask (uuid 1)
    {| pending_agentId := "agent-1"; pending_capability := "host.inventory"; pending_socket := 1 |}
    hello_within) as (at_ & Hi & H); [by vm_compute|].
  assert (at_ = 0%Z) as ->.
  { vm_compute in Hi.
    repeat (apply elem_of_cons in Hi as [Hi|Hi]; [first [discriminate Hi|by injection Hi]|]).
    by apply not_elem_of_nil in Hi. }
  apply (H 10000%Z). by vm_compute.
Defined.

Lemma abandon_exact_witness : jget (uuid 1) (pending (run dropped_exchange)) = None.
Proof.
  destruct (abandon_exact hello_then_ask 1 (uuid 1) hello_within) as [H _].
  unfold dropped_exchange. rewrite H. by vm_compute.
Defined.

Lemma request_refined_witness : ∃ replies,
  fst (Effects.request "agent-1" "host.inventory" (JObject []) ((quiet_world empty_db) <| w_replies := replies |>))
  = inl (AppError "AGENT_NOT_CONNECTED" CONFLICT).
Proof.
  apply (request_refined dropped_exchange (uuid 1)); [exact dropped_within| |by vm_compute].
  vm_compute. do 9 right. left.
Defined.
