(* ===== verification/AgentRegistry.v ===== *)
(** * The agent registry

    [api/src/agents/agent-registry.service.ts]: what the database says about an
    agent.  It is authoritative for revocation, and nothing here takes one back. *)

From Stdlib Require Import Ascii String NArith ZArith.
From stdpp Require Import gmap strings list.
From S2P Require Import Prelude Schema Store Registry Effects Logic Discovery StackDeployment.
From S2P Require Import Capabilities.

(** ** Reading *)

Definition findByFingerprint (fingerprint : string) : M (option Agent) :=
  select_first (λ a : Agent, bool_decide (agent_certificateFingerprint a = fingerprint)).

(** [agents INNER JOIN hosts] *)
Definition findById (id : string) : M (option Agent) :=
  statement (λ d, inr (a ← agents d !! id; _ ← hosts d !! agent_hostId a; Some a, d)).

(** ** What a connection says about an agent *)

(** [version: agentVersion] sets nothing when there is none to set. *)
Definition markConnected (agentId : string) (agentVersion : option string) (advertised : list string)
    : M unit :=
  now_ ← now;
  update_id (R := Agent) agentId
    (λ a, a <| agent_status := Agent_connected |> <| agent_lastSeenAt := Some now_ |>
            <| agent_version := or_null agentVersion (agent_version a) |>
            <| agent_capabilities := List.filter isCapability advertised |>);;
  update (λ a : Agent, bool_decide (agent_id a = agentId) && bool_decide (agent_firstSeenAt a = None))
    (λ a, a <| agent_firstSeenAt := Some now_ |>);;
  mret tt.

Definition touch (agentId : string) : M unit :=
  at_ ← now;
  update_id (R := Agent) agentId (λ a, a <| agent_lastSeenAt := Some at_ |>);;
  mret tt.

Definition markDisconnected (agentId : string) : M unit :=
  update (λ a : Agent, bool_decide (agent_id a = agentId) && bool_decide (agent_revokedAt a = None))
    (λ a, a <| agent_status := Agent_disconnected |>);;
  mret tt.

Definition resetConnectionState : M nat :=
  rows ← update (λ a : Agent, bool_decide (agent_status a = Agent_connected) &&
                              bool_decide (agent_revokedAt a = None))
           (λ a, a <| agent_status := Agent_disconnected |>);
  mret (length rows).

(** ** What people decide *)

Definition still_trusted (id : string) (a : Agent) : bool :=
  bool_decide (agent_id a = id) && bool_decide (agent_revokedAt a = None).

Definition withdraw (reason : string) (at_ : time) (a : Agent) : Agent :=
  a <| agent_status := Agent_revoked |> <| agent_revokedAt := Some at_ |>
    <| agent_revocationReason := Some reason |>.

Definition revoke (id reason : string) (actor : AuthenticatedUser) (context : RequestContext) : M unit :=
  at_ ← now;
  revoked ← update (still_trusted id) (withdraw reason at_);
  if bool_decide (revoked = []) then
    existing ← findById id;
    match existing with
    | Some _ => conflict "AGENT_REVOKED"
    | None => notFound "AGENT_UNKNOWN"
    end
  else
    audit_record {|
      entry_action := "agent.revoked"; entry_result := Audit_success;
      entry_actorUserId := Some (actor_id actor); entry_actorLabel := actor_email actor;
      entry_targetType := Some "agent"; entry_targetId := Some id; entry_targetLabel := None;
      entry_reasonCode := Some reason; entry_sourceIp := context_sourceIp context;
      entry_userAgent := context_userAgent context |}.

(** A certificate as the authority issues it. *)
Record IssuedCertificate := {
  cert_pem : string;
  cert_fingerprint : string;
  cert_serial : string;
  cert_notAfter : time
}.

Definition replaceCertificate (agentId : string) (certificate : IssuedCertificate) : M unit :=
  update_id (R := Agent) agentId
    (λ a, a <| agent_certificateFingerprint := cert_fingerprint certificate |>
            <| agent_certificateSerial := cert_serial certificate |>
            <| agent_certificateNotAfter := cert_notAfter certificate |>);;
  mret tt.

(** ** A revocation is final *)

(** No agent is lost, and one that was revoked stays so, with its date and reason. *)
Definition distrust_kept : relation DB := λ d d', ∀ i a,
  agents d !! i = Some a → ∃ a', agents d' !! i = Some a' ∧ agent_id a' = agent_id a ∧
    agent_hostId a' = agent_hostId a ∧
    (agent_revokedAt a ≠ None → agent_revokedAt a' = agent_revokedAt a ∧
       agent_revocationReason a' = agent_revocationReason a).

#[export] Instance distrust_kept_preorder : PreOrder distrust_kept.
Proof.
  split.
  - intros d i a Ha. by exists a.
  - intros d1 d2 d3 H12 H23 i a Ha.
    destruct (H12 i a Ha) as (b & Hb & Eb & Fb & Rb). destruct (H23 i b Hb) as (c & Hc & Ec & Fc & Rc).
    exists c. split_and!; [done|congruence|congruence|]. intros H. destruct (Rb H) as [R1 R2].
    destruct (Rc ltac:(congruence)) as [R3 R4]. split; congruence.
Qed.

Lemma framed_update_agents (p : Agent → bool) f :
  (∀ a, p a = true → agent_id (f a) = agent_id a ∧ agent_hostId (f a) = agent_hostId a ∧
     (agent_revokedAt a ≠ None → agent_revokedAt (f a) = agent_revokedAt a ∧
        agent_revocationReason (f a) = agent_revocationReason a)) →
  framed (on_db distrust_kept) (update p f).
Proof.
  intros Hf. apply framed_update; [apply _|]. intros d _ i a Ha. simpl.
  rewrite lookup_change_rows, Ha. simpl. destruct (p a) eqn:Hp; [|by exists a].
  exists (f a). split; [done|]. by apply Hf.
Qed.

Lemma framed_untouched_agents {A} (m : M A) :
  framed (on_db (unchanged agents)) m → framed (on_db distrust_kept) m.
Proof. intros Hm w i a Ha. unfold on_db, unchanged in Hm. rewrite Hm. by exists a. Qed.

Lemma audit_agents entry : framed (on_db (unchanged agents)) (audit_record entry).
Proof. unfold audit_record. frame. Qed.

Lemma revoke_distrusts id reason actor context :
  framed (on_db distrust_kept) (revoke id reason actor context).
Proof.
  unfold revoke. frame.
  - apply framed_update_agents. unfold still_trusted. intros x [_ Hr]%andb_true_iff.
    apply bool_decide_eq_true in Hr. done.
  - apply framed_untouched_agents, audit_agents.
Qed.

(** Whatever the registry is asked to write, a revoked agent stays revoked, and no
    agent changes its identity or its host. *)
Theorem revocation_final id version advertised certificate reason actor context :
  framed (on_db distrust_kept) (markConnected id version advertised) ∧
  framed (on_db distrust_kept) (touch id) ∧
  framed (on_db distrust_kept) (markDisconnected id) ∧
  framed (on_db distrust_kept) resetConnectionState ∧
  framed (on_db distrust_kept) (replaceCertificate id certificate) ∧
  framed (on_db distrust_kept) (revoke id reason actor context).
Proof.
  split_and!; [unfold markConnected|unfold touch|unfold markDisconnected|unfold resetConnectionState
    |unfold replaceCertificate|apply revoke_distrusts]; frame; by apply framed_update_agents.
Qed.

(** ** What revoking does *)

Lemma change_trusted id f (t : gmap string Agent) :
  well_keyed t → (∀ a, t !! id = Some a → agent_revokedAt a = None) →
  change_rows (still_trusted id) f t = alter f id t.
Proof.
  intros [Hid _] Hn. apply map_eq. intros i. rewrite lookup_change_rows.
  destruct (decide (i = id)) as [->|Hne].
  - rewrite lookup_alter_eq. destruct (t !! id) as [a|] eqn:E; [|done]. simpl. unfold still_trusted.
    rewrite !bool_decide_true; [done|by apply Hn|by apply Hid].
  - rewrite lookup_alter_ne by done. destruct (t !! i) as [a|] eqn:E; [|done]. simpl. unfold still_trusted.
    rewrite bool_decide_false; [done|]. intros <-. apply Hne. symmetry. by apply Hid.
Qed.

(** Revoking succeeds only for an agent that was trusted, and then that agent is
    revoked and no other agent is touched. *)
Lemma revoke_inr id reason actor context w u w' :
  db_ok (w_db w) → revoke id reason actor context w = (inr u, w') →
  (∃ a, agents (w_db w) !! id = Some a ∧ agent_revokedAt a = None) ∧
  agents (w_db w') = alter (withdraw reason (w_now w)) id (agents (w_db w)).
Proof.
  intros Hok E. unfold revoke in E.
  apply bind_inr in E as (at_ & w1 & [-> ->]%now_inr & E).
  apply bind_inr in E as (l & w2 & [El [fs ->]]%update_inr & E).
  case_bool_decide as Hl.
  { exfalso. apply bind_inr in E as (o & w3 & _ & E). by destruct o. }
  assert (∃ a, agents (w_db w) !! id = Some a ∧ agent_revokedAt a = None) as (a & Ha & Hr).
  { destruct (select_where (still_trusted id) (w_db w)) as [|a l'] eqn:Es; [by subst|].
    assert (a ∈ select_where (still_trusted id) (w_db w)) as Hin by (rewrite Es; by left).
    apply elem_of_select_where in Hin as [[i Hi] [H1 H2]%andb_true_iff].
    apply bool_decide_eq_true in H1, H2. exists a. split; [|done].
    pose proof (db_ok_rows (R := Agent) _ Hok) as [Hid _]. rewrite <-(Hid i a Hi) in Hi.
    simpl in Hi. by rewrite H1 in Hi. }
  split; [by eauto|].
  pose proof (framed_run _ _ _ _ _ (audit_agents _) E) as Hag. unfold on_db, unchanged in Hag. simpl in Hag.
  rewrite Hag. apply change_trusted; [exact (db_ok_rows (R := Agent) _ Hok)|].
  intros b Hb. congruence.
Qed.
