(* ===== verification/Utf8.v ===== *)
(** * Bytes and text

    [Buffer.toString('utf8')], [Buffer.byteLength(s, 'utf8')] and writing text as bytes, as
    the gateway and the log stream use them: the decoder of the Encoding Standard, which puts U+FFFD for what is
    not UTF-8, a sequence that its chunk cuts short included.  A byte is a number
    below 256 and a string is its code points. *)

From Stdlib Require Import NArith List Lia.
From stdpp Require Import base list numbers.
From S2P Require Import Prelude.

Definition REPLACEMENT : N := 65533.

Record Decoding := {
  needed : nat;
  lower_bound : N;
  upper_bound : N;
  code_point : N
}.

Definition at_rest : Decoding :=
  {| needed := 0; lower_bound := 128; upper_bound := 191; code_point := 0 |}.

Definition in_range (lo hi b : N) : bool := (lo <=? b)%N && (b <=? hi)%N.

(** The first byte of a character. *)
Definition start (b : N) : list N * Decoding :=
  if in_range 0 127 b then ([b], at_rest)
  else if in_range 194 223 b then
    ([], {| needed := 1; lower_bound := 128; upper_bound := 191; code_point := N.land b 31 |})
  else if in_range 224 239 b then
    ([], {| needed := 2; lower_bound := if (b =? 224)%N then 160 else 128;
            upper_bound := if (b =? 237)%N then 159 else 191; code_point := N.land b 15 |})
  else if in_range 240 244 b then
    ([], {| needed := 3; lower_bound := if (b =? 240)%N then 144 else 128;
            upper_bound := if (b =? 244)%N then 143 else 191; code_point := N.land b 7 |})
  else ([REPLACEMENT], at_rest).

Definition decode_byte (s : Decoding) (b : N) : list N * Decoding :=
  match needed s with
  | O => start b
  | S n =>
      if in_range (lower_bound s) (upper_bound s) b then
        let cp := N.lor (N.shiftl (code_point s) 6) (N.land b 63) in
        match n with
        | O => ([cp], at_rest)
        | S _ => ([], {| needed := n; lower_bound := 128; upper_bound := 191; code_point := cp |})
        end
      else let '(out, s') := start b in (REPLACEMENT :: out, s')
  end.

Fixpoint decode_from (s : Decoding) (bytes : list N) : list N * Decoding :=
  match bytes with
  | [] => ([], s)
  | b :: bytes' =>
      let '(out, s') := decode_byte s b in
      let '(out', s'') := decode_from s' bytes' in (out ++ out', s'')
  end.

(** [chunk.toString('utf8')] *)
Definition utf8_decode (bytes : list N) : list N :=
  let '(out, s) := decode_from at_rest bytes in
  out ++ match needed s with O => [] | S _ => [REPLACEMENT] end.

(** Bytes that end where a character does. *)
Definition whole (bytes : list N) : bool := (needed (decode_from at_rest bytes).2 =? 0)%nat.

Definition utf8_length (cp : N) : nat :=
  if (cp <? 128)%N then 1 else if (cp <? 2048)%N then 2 else if (cp <? 65536)%N then 3 else 4.

(** [Buffer.byteLength(s, 'utf8')] *)
Definition byteLength (s : list N) : nat := list_sum (utf8_length <$> s).

Lemma start_rest b : needed (start b).2 = 0 → (start b).2 = at_rest.
Proof. unfold start. repeat case_match; simpl; try done; intros H; discriminate H. Qed.

Lemma decode_byte_rest s b :
  needed (decode_byte s b).2 = 0 → (decode_byte s b).2 = at_rest.
Proof.
  unfold decode_byte. destruct (needed s) as [|n]; [apply start_rest|].
  destruct (in_range _ _ b).
  - by destruct n.
  - pose proof (start_rest b). by destruct (start b).
Qed.

Lemma decode_from_app s a b :
  decode_from s (a ++ b) =
  let '(out, s') := decode_from s a in let '(out', s'') := decode_from s' b in (out ++ out', s'').
Proof.
  revert s. induction a as [|x a IH]; intros s; simpl.
  - by destruct (decode_from s b).
  - destruct (decode_byte s x) as [o1 s1]. rewrite IH.
    destruct (decode_from s1 a) as [o2 s2]. destruct (decode_from s2 b) as [o3 s3].
    by rewrite app_assoc.
Qed.

Lemma decode_from_rest s a :
  (needed s = 0 → s = at_rest) →
  needed (decode_from s a).2 = 0 → (decode_from s a).2 = at_rest.
Proof.
  revert s. induction a as [|x a IH]; intros s Hs; simpl; [done|].
  destruct (decode_byte s x) as [o1 s1] eqn:E1. destruct (decode_from s1 a) as [o2 s2] eqn:E2. simpl.
  intros H. specialize (IH s1). rewrite E2 in IH. apply IH; [|done].
  intros H1. pose proof (decode_byte_rest s x) as Hr. rewrite E1 in Hr. by apply Hr.
Qed.

(** Decoding piece by piece is decoding at once when the pieces end where
    characters do. *)
Lemma utf8_decode_app a b :
  whole a = true → utf8_decode (a ++ b) = utf8_decode a ++ utf8_decode b.
Proof.
  unfold whole, utf8_decode. intros H%Nat.eqb_eq. rewrite decode_from_app.
  pose proof (decode_from_rest at_rest a (λ _, eq_refl) H) as Hr.
  destruct (decode_from at_rest a) as [o1 s1]. simpl in *. subst s1.
  destruct (decode_from at_rest b) as [o2 s2]. simpl. by rewrite app_nil_r, app_assoc.
Qed.

Lemma whole_app a b : whole a = true → whole b = true → whole (a ++ b) = true.
Proof.
  unfold whole. rewrite !Nat.eqb_eq. intros Ha Hb. rewrite decode_from_app.
  pose proof (decode_from_rest at_rest a (λ _, eq_refl) Ha) as Hr.
  destruct (decode_from at_rest a) as [o1 s1]. simpl in *. subst s1.
  by destruct (decode_from at_rest b).
Qed.

Lemma byteLength_app a b : byteLength (a ++ b) = byteLength a + byteLength b.
Proof. unfold byteLength. rewrite fmap_app. apply list_sum_app. Qed.

Example decode_euro : utf8_decode [226; 130; 172; 33]%N = [8364; 33]%N.
Proof. done. Qed.

Example decode_split : utf8_decode [195]%N ++ utf8_decode [169]%N = [REPLACEMENT; REPLACEMENT].
Proof. done. Qed.

(** ** Writing text as bytes *)

(** [Buffer.from(s, 'utf8')]; half of a character is written as U+FFFD. *)
Definition utf8_char (cp : N) : list N :=
  (if cp <? 128 then [cp]
   else if cp <? 2048 then [192 + cp / 64; 128 + cp mod 64]
   else if (55296 <=? cp) && (cp <=? 57343) then [239; 191; 189]
   else if cp <? 65536 then [224 + cp / 4096; 128 + cp / 64 mod 64; 128 + cp mod 64]
   else [240 + cp / 262144; 128 + cp / 4096 mod 64; 128 + cp / 64 mod 64; 128 + cp mod 64])%N.

Definition utf8_encode (s : list N) : list N := s ≫= utf8_char.

Section encoding.
#[local] Ltac Zify.zify_post_hook ::= Z.to_euclidean_division_equations.

Lemma push_six a b : N.lor (N.shiftl a 6) (N.land b 63) = (a * 64 + b mod 64)%N.
Proof.
  change 63%N with (N.ones 6). rewrite N.land_ones, N.shiftl_mul_pow2. change (2 ^ 6)%N with 64%N.
  rewrite <-N.lxor_lor, <-N.add_nocarry_lxor; [done|..]; apply N.bits_inj_0; intros i; rewrite N.land_spec.
  all: change 64%N with (2 ^ 6)%N; destruct (N.lt_ge_cases i 6);
    [by rewrite N.mul_pow2_bits_low|rewrite N.mod_pow2_bits_high by done; apply andb_false_r].
Qed.

Lemma low_bits b k : N.land b (N.ones k) = (b mod 2 ^ k)%N.
Proof. apply N.land_ones. Qed.

Lemma range_true lo hi b : (lo <= b <= hi)%N → in_range lo hi b = true.
Proof. intros [? ?]. unfold in_range. by rewrite (proj2 (N.leb_le lo b)), (proj2 (N.leb_le b hi)). Qed.

Lemma range_false lo hi b : (b < lo ∨ hi < b)%N → in_range lo hi b = false.
Proof. intros [?|?]; unfold in_range; [by rewrite (proj2 (N.leb_gt lo b))|]. rewrite (proj2 (N.leb_gt b hi)) by done. apply andb_false_r. Qed.

Lemma decode_next n lo hi cp b :
  (lo <= b <= hi)%N →
  decode_byte {| needed := S n; lower_bound := lo; upper_bound := hi; code_point := cp |} b =
  let cp' := (cp * 64 + b mod 64)%N in
  match n with
  | O => ([cp'], at_rest)
  | S _ => ([], {| needed := n; lower_bound := 128; upper_bound := 191; code_point := cp' |})
  end.
Proof. intros Hb. unfold decode_byte. cbn [needed lower_bound upper_bound code_point]. by rewrite range_true, push_six by done. Qed.

Lemma start_two b : (194 <= b <= 223)%N →
  start b = ([], {| needed := 1; lower_bound := 128; upper_bound := 191; code_point := (b mod 32)%N |}).
Proof. intros Hb. unfold start. rewrite range_false, range_true by lia. change 31%N with (N.ones 5). by rewrite low_bits. Qed.

Lemma start_three b : (224 <= b <= 239)%N →
  start b = ([], {| needed := 2; lower_bound := if (b =? 224)%N then 160 else 128;
                    upper_bound := if (b =? 237)%N then 159 else 191; code_point := (b mod 16)%N |}).
Proof. intros Hb. unfold start. rewrite !range_false, range_true by lia. change 15%N with (N.ones 4). by rewrite low_bits. Qed.

Lemma start_four b : (240 <= b <= 244)%N →
  start b = ([], {| needed := 3; lower_bound := if (b =? 240)%N then 144 else 128;
                    upper_bound := if (b =? 244)%N then 143 else 191; code_point := (b mod 8)%N |}).
Proof. intros Hb. unfold start. rewrite !range_false, range_true by lia. change 7%N with (N.ones 3). by rewrite low_bits. Qed.

(** A character that was written is read back. *)
Lemma decode_char cp :
  (cp < 55296 ∨ 57343 < cp <= 1114111)%N → decode_from at_rest (utf8_char cp) = ([cp], at_rest).
Proof.
  intros Hcp. unfold utf8_char. destruct (N.ltb_spec cp 128).
  { cbn [decode_from]. unfold decode_byte. cbn [needed at_rest]. unfold start. by rewrite range_true by lia. }
  destruct (N.ltb_spec cp 2048).
  { cbn [decode_from]. unfold decode_byte at 1. cbn [needed at_rest]. rewrite start_two by lia. cbn [decode_from].
    rewrite decode_next by lia. cbn. do 2 f_equal. lia. }
  replace ((55296 <=? cp) && (cp <=? 57343))%N with false; cycle 1.
  { destruct (N.leb_spec 55296 cp), (N.leb_spec cp 57343); simpl; [lia|done..]. }
  destruct (N.ltb_spec cp 65536).
  - cbn [decode_from]. unfold decode_byte at 1. cbn [needed at_rest]. rewrite start_three by lia.
    rewrite decode_next by (destruct (N.eqb_spec (224 + cp / 4096) 224), (N.eqb_spec (224 + cp / 4096) 237); lia).
    cbv zeta. cbn [decode_from]. rewrite decode_next by lia. cbn. do 2 f_equal. lia.
  - cbn [decode_from]. unfold decode_byte at 1. cbn [needed at_rest]. rewrite start_four by lia.
    rewrite decode_next by (destruct (N.eqb_spec (240 + cp / 262144) 240), (N.eqb_spec (240 + cp / 262144) 244); lia).
    cbv beta iota zeta. rewrite decode_next by lia. cbv beta iota zeta. rewrite decode_next by lia. cbn. do 2 f_equal. lia.
Qed.
End encoding.

(** Characters, and not halves of them. *)
Definition scalar_value (cp : N) : bool := ((cp <? 55296) || ((57343 <? cp) && (cp <=? 1114111)))%N.

Lemma utf8_decode_encode s : forallb scalar_value s = true → decode_from at_rest (utf8_encode s) = (s, at_rest).
Proof.
  unfold utf8_encode. induction s as [|cp s IH]; [done|]. intros [Hc Hs]%andb_prop. rewrite bind_cons, decode_from_app.
  rewrite decode_char, IH; [done|done|]. unfold scalar_value in Hc.
  destruct (N.ltb_spec cp 55296), (N.ltb_spec 57343 cp), (N.leb_spec cp 1114111); simpl in Hc; try done; lia.
Qed.

Lemma utf8_encode_app s t : utf8_encode (s ++ t) = utf8_encode s ++ utf8_encode t.
Proof. apply bind_app. Qed.
