(* ===== verification/JsonText.v ===== *)
(** * JSON as text

    [JSON.stringify] and [JSON.parse] of the language, on text as code points.  A number
    is its literal, so that nothing is said about how a double is written; a lone
    surrogate is a code point of its own, and two that belong together are one. *)

From Stdlib Require Import Ascii String NArith Lia.
From stdpp Require Import base list strings.
From S2P Require Import Prelude.

Local Open Scope N_scope.

(** The code points of an ASCII text. *)
Definition points (s : string) : list N := N_of_ascii <$> chars s.

Inductive value :=
  | VNull
  | VBool (b : bool)
  | VNumber (literal : list N)
  | VString (s : list N)
  | VArray (l : list value)
  | VObject (fields : list (list N * value)).

(** ** Writing *)

Definition hex_digit (n : N) : N := if n <? 10 then 48 + n else 87 + n.

Definition hex4 (n : N) : list N :=
  [hex_digit (n / 4096 mod 16); hex_digit (n / 256 mod 16); hex_digit (n / 16 mod 16); hex_digit (n mod 16)].

Definition surrogate (c : N) : bool := (55296 <=? c) && (c <=? 57343).

Definition escape (c : N) : list N :=
  if c =? 34 then [92; 34]
  else if c =? 92 then [92; 92]
  else if c =? 8 then [92; 98]
  else if c =? 9 then [92; 116]
  else if c =? 10 then [92; 110]
  else if c =? 12 then [92; 102]
  else if c =? 13 then [92; 114]
  else if (c <? 32) || surrogate c then [92; 117] ++ hex4 c
  else [c].

Definition quote (s : list N) : list N := 34 :: (s ≫= escape) ++ [34].

Fixpoint commas (l : list (list N)) : list N :=
  match l with
  | [] => []
  | [x] => x
  | x :: l' => x ++ 44 :: commas l'
  end.

Fixpoint stringify (v : value) : list N :=
  match v with
  | VNull => points "null"
  | VBool true => points "true"
  | VBool false => points "false"
  | VNumber literal => literal
  | VString s => quote s
  | VArray l => 91 :: commas (stringify <$> l) ++ [93]
  | VObject fields => 123 :: commas ((λ f, quote f.1 ++ 58 :: stringify f.2) <$> fields) ++ [125]
  end.

(** ** Reading *)

Definition json_space (c : N) : bool := (c =? 32) || (c =? 9) || (c =? 10) || (c =? 13).

Definition skip (l : list N) : list N := drop_while json_space l.

Definition hex_value (c : N) : option N :=
  if (48 <=? c) && (c <=? 57) then Some (c - 48)
  else if (97 <=? c) && (c <=? 102) then Some (c - 87)
  else if (65 <=? c) && (c <=? 70) then Some (c - 55)
  else None.

Definition unescape (c : N) : option N :=
  if c =? 34 then Some 34
  else if c =? 92 then Some 92
  else if c =? 47 then Some 47
  else if c =? 98 then Some 8
  else if c =? 116 then Some 9
  else if c =? 110 then Some 10
  else if c =? 102 then Some 12
  else if c =? 114 then Some 13
  else None.

Definition unhex (a b c d : N) : option N :=
  w ← hex_value a; x ← hex_value b; y ← hex_value c; z ← hex_value d;
  Some (w * 4096 + x * 256 + y * 16 + z).

(** What is between the quotation marks, and what is after. *)
Fixpoint read_chars (l : list N) : option (list N * list N) :=
  match l with
  | [] => None
  | c :: r =>
      if c =? 34 then Some ([], r)
      else if c =? 92 then
        match r with
        | e :: r' =>
            if e =? 117 then
              match r' with
              | a :: b :: c' :: d :: r'' =>
                  x ← unhex a b c' d; '(s, rest) ← read_chars r''; Some (x :: s, rest)
              | _ => None
              end
            else x ← unescape e; '(s, rest) ← read_chars r'; Some (x :: s, rest)
        | [] => None
        end
      else if c <? 32 then None
      else '(s, rest) ← read_chars r; Some (c :: s, rest)
  end.

(** Escaped halves of a character become the character. *)
Fixpoint pair_up (l : list N) : list N :=
  match l with
  | high :: (low :: l') as l0 =>
      if ((55296 <=? high) && (high <=? 56319)) && ((56320 <=? low) && (low <=? 57343))
      then 65536 + (high - 55296) * 1024 + (low - 56320) :: pair_up l'
      else high :: pair_up l0
  | l => l
  end.

Definition read_string (l : list N) : option (list N * list N) :=
  '(s, rest) ← read_chars l; Some (pair_up s, rest).

Definition numeric (c : N) : bool :=
  ((48 <=? c) && (c <=? 57)) || (c =? 45) || (c =? 43) || (c =? 46) || (c =? 101) || (c =? 69).

Definition decimal (c : N) : bool := (48 <=? c) && (c <=? 57).

Fixpoint span (p : N → bool) (l : list N) : list N * list N :=
  match l with
  | c :: l' => if p c then let '(a, b) := span p l' in (c :: a, b) else ([], l)
  | [] => ([], [])
  end.

(** [([eE][+-]?[0-9]+)?] to the end *)
Definition exponent_ok (l : list N) : bool :=
  match l with
  | [] => true
  | e :: r =>
      ((e =? 101) || (e =? 69)) &&
      let ds := match r with s :: r' => if (s =? 43) || (s =? 45) then r' else r | [] => r end in
      bool_decide (ds ≠ []) && forallb decimal ds
  end.

(** [(\.[0-9]+)?] and the exponent *)
Definition fraction_ok (l : list N) : bool :=
  match l with
  | c :: r =>
      if c =? 46 then let '(ds, r') := span decimal r in bool_decide (ds ≠ []) && exponent_ok r' else exponent_ok l
  | [] => true
  end.

(** a sign, a number that does not begin with a zero unless it is one, and the rest *)
Definition number_ok (l : list N) : bool :=
  let l := match l with c :: r => if c =? 45 then r else l | [] => l end in
  match span decimal l with
  | ([], _) => false
  | (d :: ds, r) => (negb (d =? 48) || bool_decide (ds = [])) && fraction_ok r
  end.

Definition after (word : string) (l : list N) : option (list N) :=
  let w := points word in
  if bool_decide (take (length w) l = w) then Some (drop (length w) l) else None.

Definition expect (c : N) (l : list N) : option (list N) :=
  match skip l with x :: r => if x =? c then Some r else None | [] => None end.

(** The fuel is spent by every value and every member. *)
Fixpoint read_value (fuel : nat) (l : list N) : option (value * list N) :=
  match fuel with
  | O => None
  | S fuel =>
      match skip l with
      | [] => None
      | c :: r =>
          if c =? 34 then '(s, rest) ← read_string r; Some (VString s, rest)
          else if c =? 91 then
            match expect 93 r with
            | Some rest => Some (VArray [], rest)
            | None => '(l, rest) ← read_elements fuel r; Some (VArray l, rest)
            end
          else if c =? 123 then
            match expect 125 r with
            | Some rest => Some (VObject [], rest)
            | None => '(l, rest) ← read_members fuel r; Some (VObject l, rest)
            end
          else if numeric c then
            let '(literal, rest) := span numeric (c :: r) in
            if number_ok literal then Some (VNumber literal, rest) else None
          else
            match after "null" (c :: r), after "true" (c :: r), after "false" (c :: r) with
            | Some rest, _, _ => Some (VNull, rest)
            | _, Some rest, _ => Some (VBool true, rest)
            | _, _, Some rest => Some (VBool false, rest)
            | _, _, _ => None
            end
      end
  end
with read_elements (fuel : nat) (l : list N) : option (list value * list N) :=
  match fuel with
  | O => None
  | S fuel =>
      '(v, rest) ← read_value fuel l;
      match expect 44 rest with
      | Some rest => '(vs, rest) ← read_elements fuel rest; Some (v :: vs, rest)
      | None => rest ← expect 93 rest; Some ([v], rest)
      end
  end
with read_members (fuel : nat) (l : list N) : option (list (list N * value) * list N) :=
  match fuel with
  | O => None
  | S fuel =>
      r ← expect 34 l;
      '(k, rest) ← read_string r;
      rest ← expect 58 rest;
      '(v, rest) ← read_value fuel rest;
      match expect 44 rest with
      | Some rest => '(fs, rest) ← read_members fuel rest; Some ((k, v) :: fs, rest)
      | None => rest ← expect 125 rest; Some ([(k, v)], rest)
      end
  end.

(** Every value and member takes a character, so this fuel is enough. *)
Definition parse (l : list N) : option value :=
  '(v, rest) ← read_value (S (length l)) l;
  if bool_decide (skip rest = []) then Some v else None.

(** ** Reading back what was written *)

Section value_induction.
Context (P : value → Prop).
Context (Hnull : P VNull) (Hbool : ∀ b, P (VBool b)) (Hnumber : ∀ l, P (VNumber l)) (Hstring : ∀ s, P (VString s)).
Context (Harray : ∀ l, Forall P l → P (VArray l)) (Hobject : ∀ fields, Forall (λ f, P f.2) fields → P (VObject fields)).

Fixpoint value_nested_ind (v : value) : P v :=
  match v with
  | VNull => Hnull
  | VBool b => Hbool b
  | VNumber l => Hnumber l
  | VString s => Hstring s
  | VArray l => Harray l ((fix go l : Forall P l := match l with
      | [] => Forall_nil_2 P | x :: l' => Forall_cons_2 P x l' (value_nested_ind x) (go l') end) l)
  | VObject fields => Hobject fields ((fix go l : Forall (λ f, P f.2) l := match l with
      | [] => Forall_nil_2 _ | x :: l' => Forall_cons_2 _ x l' (value_nested_ind x.2) (go l') end) fields)
  end.
End value_induction.

Definition scalar (c : N) : bool := negb (surrogate c) && (c <=? 1114111).

Definition text_ok (s : list N) : bool := forallb scalar s.

Definition literal_ok (l : list N) : bool := number_ok l && forallb numeric l.

(** A value with whole characters and the numbers of the grammar. *)
Fixpoint value_ok (v : value) : bool :=
  match v with
  | VNull | VBool _ => true
  | VNumber literal => literal_ok literal
  | VString s => text_ok s
  | VArray l => forallb value_ok l
  | VObject fields => forallb (λ f, text_ok f.1 && value_ok f.2) fields
  end.

(** How many values and members a reader goes through. *)
Fixpoint need (v : value) : nat :=
  match v with
  | VArray l => S (list_sum ((λ v, S (need v)) <$> l))
  | VObject fields => S (list_sum ((λ f, S (need f.2)) <$> fields))
  | _ => 1%nat
  end.

Lemma small_cases (P : N → Prop) : Forall P (N.of_nat <$> seq 0 32) → ∀ c, c < 32 → P c.
Proof.
  rewrite Forall_forall. intros H c Hc. apply H, list_elem_of_fmap. exists (N.to_nat c).
  split; [lia|]. apply elem_of_seq. lia.
Qed.

Lemma read_escaped c l :
  scalar c = true → read_chars (escape c ++ l) = '(s, rest) ← read_chars l; Some (c :: s, rest).
Proof.
  intros Hs. destruct (N.ltb_spec c 32) as [Hc|Hc].
  - clear Hs. revert c Hc. apply small_cases. repeat (apply Forall_cons; split; [reflexivity|]). constructor.
  - unfold escape, scalar in *. apply andb_prop in Hs as [Hs _]. apply negb_true_iff in Hs. rewrite Hs.
    destruct (N.eqb_spec c 34) as [->|H34]; [done|]. destruct (N.eqb_spec c 92) as [->|H92]; [done|].
    do 5 (rewrite (proj2 (N.eqb_neq c _)) by lia).
    rewrite (proj2 (N.ltb_ge c 32)) by done. cbn [orb app read_chars].
    rewrite (proj2 (N.eqb_neq c 34)), (proj2 (N.eqb_neq c 92)), (proj2 (N.ltb_ge c 32)) by done. done.
Qed.

Lemma read_written s rest : text_ok s = true → read_chars ((s ≫= escape) ++ 34 :: rest) = Some (s, rest).
Proof.
  induction s as [|c s IH]; [done|]. intros [Hc Hs]%andb_prop. rewrite bind_cons, <-app_assoc, read_escaped by done.
  by rewrite IH.
Qed.

Lemma pair_up_scalar s : text_ok s = true → pair_up s = s.
Proof.
  induction s as [|a [|b s] IH]; [done..|]. intros [Ha Hs]%andb_prop. unfold scalar, surrogate in Ha.
  cbn [pair_up] in IH |- *. replace ((55296 <=? a) && (a <=? 56319)) with false; [simpl; by rewrite IH|].
  destruct (N.leb_spec 55296 a), (N.leb_spec a 56319), (N.leb_spec a 57343); simpl in *; try done; lia.
Qed.

Lemma read_string_written s rest : text_ok s = true → read_string ((s ≫= escape) ++ 34 :: rest) = Some (s, rest).
Proof. intros Hs. unfold read_string. rewrite read_written by done. simpl. by rewrite pair_up_scalar. Qed.

Lemma span_prefix p l rest :
  forallb p l = true → match rest with c :: _ => p c = false | [] => True end → span p (l ++ rest) = (l, rest).
Proof.
  intros Hl Hr. induction l as [|c l IH]; simpl in *.
  - destruct rest as [|c rest]; [done|]. simpl. by rewrite Hr.
  - apply andb_prop in Hl as [-> Hl]. by rewrite IH.
Qed.

(** The first character of a value is no space and ends nothing. *)
Definition begins (c : N) : bool := negb (json_space c) && negb (c =? 93) && negb (c =? 125) && negb (c =? 44).

Lemma stringify_begins v : value_ok v = true → ∃ c r, stringify v = c :: r ∧ begins c = true.
Proof.
  destruct v as [|[]|l|s|l|fs]; intros Hv; try by eexists _, _.
  apply andb_prop in Hv as [Hn Hl]. destruct l as [|c l]; [done|]. exists c, l. split; [done|].
  apply andb_prop in Hl as [Hc _]. unfold numeric in Hc. unfold begins, json_space.
  destruct (N.leb_spec 48 c), (N.leb_spec c 57); simpl in Hc;
    repeat match goal with |- context [c =? ?n] => destruct (N.eqb_spec c n); subst end; try done; try lia.
Qed.

Lemma skip_begins c l : begins c = true → skip (c :: l) = c :: l.
Proof. unfold begins, skip. simpl. by destruct (json_space c). Qed.

Lemma expect_not d c l : json_space c = false → c ≠ d → expect d (c :: l) = None.
Proof. intros Hc Hd. unfold expect, skip. simpl. by rewrite Hc, (proj2 (N.eqb_neq c d)). Qed.

Lemma expect_it c l : json_space c = false → expect c (c :: l) = Some l.
Proof. intros Hc. unfold expect, skip. simpl. by rewrite Hc, N.eqb_refl. Qed.

Definition delimited (rest : list N) : Prop := match rest with c :: _ => numeric c = false | [] => True end.

(** Reading a value that was written, whatever comes after it. *)
Definition reads_back (v : value) : Prop :=
  value_ok v = true → ∀ fuel rest, (need v ≤ fuel)%nat → delimited rest →
  read_value fuel (stringify v ++ rest) = Some (v, rest).

Lemma commas_cons x y l : commas (x :: y :: l) = x ++ 44 :: commas (y :: l).
Proof. done. Qed.

Lemma read_elements_back v vs fuel rest :
  Forall reads_back (v :: vs) → forallb value_ok (v :: vs) = true →
  (list_sum ((λ v, S (need v)) <$> v :: vs) ≤ fuel)%nat →
  read_elements fuel (commas (stringify <$> v :: vs) ++ 93 :: rest) = Some (v :: vs, rest).
Proof.
  revert v fuel. induction vs as [|w vs IH]; intros v fuel [Hv Hvs]%Forall_cons_1 [Ov Ovs]%andb_prop Hf;
    (destruct fuel as [|fuel]; [simpl in Hf; lia|]); cbn [read_elements].
  - change (commas (stringify <$> [v])) with (stringify v). rewrite (Hv Ov); [|simpl in Hf |- *; lia|done].
    cbn [mbind option_bind]. by rewrite expect_not, expect_it by done.
  - change (stringify <$> v :: w :: vs) with (stringify v :: stringify w :: (stringify <$> vs)).
    rewrite commas_cons, <-app_assoc. cbn [app]. rewrite (Hv Ov); [|simpl in Hf |- *; lia|done].
    cbn [mbind option_bind]. rewrite expect_it by done.
    change (stringify w :: (stringify <$> vs)) with (stringify <$> w :: vs). rewrite IH; [done|done|done|].
    cbn [fmap list_fmap list_sum] in Hf |- *. simpl in Hf |- *. lia.
Qed.

Definition member (f : list N * value) : list N := quote f.1 ++ 58 :: stringify f.2.

Lemma read_members_back f fs fuel rest :
  Forall (λ f, reads_back f.2) (f :: fs) → forallb (λ f, text_ok f.1 && value_ok f.2) (f :: fs) = true →
  (list_sum ((λ f, S (need f.2)) <$> f :: fs) ≤ fuel)%nat →
  read_members fuel (commas (member <$> f :: fs) ++ 125 :: rest) = Some (f :: fs, rest).
Proof.
  revert f fuel. induction fs as [|g fs IH]; intros [k v] fuel [Hv Hvs]%Forall_cons_1 [[Ok Ov]%andb_prop Ovs]%andb_prop Hf;
    (destruct fuel as [|fuel]; [simpl in Hf; lia|]); cbn [read_members].
  - change (commas (member <$> [(k, v)])) with (34 :: ((k ≫= escape) ++ [34]) ++ 58 :: stringify v).
    cbn [app]. rewrite expect_it by done. cbn [mbind option_bind]. rewrite <-!app_assoc. cbn [app].
    rewrite read_string_written by done. cbn [mbind option_bind]. rewrite expect_it by done. cbn [mbind option_bind].
    rewrite (Hv Ov); [|simpl in Hf |- *; lia|done]. cbn [mbind option_bind]. by rewrite expect_not, expect_it by done.
  - change (member <$> (k, v) :: g :: fs) with (member (k, v) :: member g :: (member <$> fs)).
    rewrite commas_cons. unfold member at 1, quote. cbn [fst snd app]. rewrite expect_it by done.
    cbn [mbind option_bind]. rewrite <-!app_assoc. cbn [app]. rewrite <-?app_assoc. cbn [app].
    rewrite read_string_written by done. cbn [mbind option_bind]. rewrite expect_it by done. cbn [mbind option_bind].
    rewrite (Hv Ov); [|simpl in Hf |- *; lia|done]. cbn [mbind option_bind]. rewrite expect_it by done.
    change (member g :: (member <$> fs)) with (member <$> g :: fs). rewrite IH; [done|done|done|]. simpl in Hf |- *. lia.
Qed.

Lemma commas_begins v vs rest :
  value_ok v = true → ∃ c r, commas (stringify <$> v :: vs) ++ rest = c :: r ∧ begins c = true.
Proof.
  intros Hv. destruct (stringify_begins v Hv) as (c & r & E & Hc). destruct vs as [|w vs].
  - exists c. eexists. change (commas (stringify <$> [v])) with (stringify v). by rewrite E.
  - exists c. eexists. change (stringify <$> v :: w :: vs) with (stringify v :: stringify w :: (stringify <$> vs)).
    by rewrite commas_cons, E.
Qed.

Lemma members_begin f fs rest : ∃ r, commas (member <$> f :: fs) ++ rest = 34 :: r.
Proof. destruct fs as [|g fs]; eexists; reflexivity. Qed.

Lemma read_value_back v : reads_back v.
Proof.
  induction v as [|b|l|s|l IH|fs IH] using value_nested_ind; intros Hv fuel rest Hf Hr;
    (destruct fuel as [|fuel]; [simpl in Hf; lia|]).
  - done.
  - by destruct b.
  - pose proof (stringify_begins _ Hv) as (c & r & E & Hc). apply andb_prop in Hv as [Hn Hl].
    cbn [stringify] in *. subst l. cbn [app read_value]. rewrite skip_begins by done.
    assert (Hx : numeric c = true) by (by apply andb_prop in Hl as [? _]).
    assert (Hne : ∀ n, numeric n = false → (c =? n) = false).
    { intros n Hn'. apply N.eqb_neq. intros ->. congruence. }
    rewrite !Hne, Hx by done. change (c :: r ++ rest) with ((c :: r) ++ rest). by rewrite span_prefix, Hn.
  - cbn [stringify read_value]. unfold quote. cbn [app]. rewrite skip_begins by done. cbn [N.eqb Pos.eqb].
    rewrite <-app_assoc. cbn [app]. by rewrite read_string_written.
  - cbn [stringify read_value app]. rewrite skip_begins by done. cbn [N.eqb Pos.eqb]. rewrite <-app_assoc. cbn [app].
    destruct l as [|v vs]; [reflexivity|]. apply andb_prop in Hv as Hv'. destruct Hv' as [Ov _].
    destruct (commas_begins v vs (93 :: rest) Ov) as (c & r & E & Hc). rewrite E, expect_not; [|unfold begins in Hc; by destruct (json_space c)|].
    + rewrite <-E, read_elements_back; [done|done|done|]. simpl in Hf |- *. lia.
    + intros ->. by vm_compute in Hc.
  - cbn [stringify read_value app]. rewrite skip_begins by done. cbn [N.eqb Pos.eqb]. rewrite <-app_assoc. cbn [app].
    fold member. destruct fs as [|f fs]; [reflexivity|].
    destruct (members_begin f fs (125 :: rest)) as [r E]. rewrite E, expect_not by done.
    rewrite <-E, read_members_back; [done|done|done|]. simpl in Hf |- *. lia.
Qed.

Lemma commas_length l : (length (commas l) + 1 = list_sum ((λ x, S (length x)) <$> l) + (if bool_decide (l = []) then 1 else 0))%nat.
Proof.
  induction l as [|x [|y l] IH]; [done|rewrite bool_decide_eq_false_2 by done; simpl; lia|].
  rewrite commas_cons, length_app. cbn [length]. rewrite bool_decide_eq_false_2 in IH |- * by done. simpl in IH |- *. lia.
Qed.

Lemma sum_le {A} (f g : A → nat) l : Forall (λ x, f x ≤ g x)%nat l → (list_sum (f <$> l) ≤ list_sum (g <$> l))%nat.
Proof. induction 1; csimpl; [done|]. cbn [list_sum foldr]. lia. Qed.

Lemma need_length v : value_ok v = true → (need v ≤ length (stringify v))%nat.
Proof.
  induction v as [|b|l|s|l IH|fs IH] using value_nested_ind; intros Hv; cbn [need stringify].
  - simpl. lia.
  - destruct b; simpl; lia.
  - destruct l; [done|]. simpl. lia.
  - unfold quote. simpl. lia.
  - cbn [length]. rewrite length_app. cbn [length]. pose proof (commas_length (stringify <$> l)) as Hl.
    rewrite <-list_fmap_compose in Hl. assert (list_sum ((λ v, S (need v)) <$> l) ≤ list_sum ((λ x, S (length x)) ∘ stringify <$> l))%nat.
    { apply sum_le. apply forallb_Forall in Hv. eapply Forall_impl; [apply Forall_and; split; [exact IH|exact Hv]|].
      intros x [Hx Ox]. specialize (Hx Ox). unfold compose. lia. }
    case_bool_decide; lia.
  - fold member. cbn [length]. rewrite length_app. cbn [length]. pose proof (commas_length (member <$> fs)) as Hl.
    rewrite <-list_fmap_compose in Hl.
    assert (list_sum ((λ f, S (need f.2)) <$> fs) ≤ list_sum ((λ x, S (length x)) ∘ member <$> fs))%nat.
    { apply sum_le. apply forallb_Forall in Hv. eapply Forall_impl; [apply Forall_and; split; [exact IH|exact Hv]|].
      intros [k x] [Hx [_ Ox]%andb_prop]. specialize (Hx Ox). unfold compose, member, quote. simpl in *.
      rewrite !length_app. simpl. lia. }
    case_bool_decide; lia.
Qed.

(** What was written is read back. *)
Lemma parse_stringify v : value_ok v = true → parse (stringify v) = Some v.
Proof.
  intros Hv. unfold parse. rewrite <-(app_nil_r (stringify v)) at 2. rewrite read_value_back; [done|done| |done].
  pose proof (need_length v Hv). lia.
Qed.

(** ** What is in a text *)

(** Every character of the strings of a value. *)
Fixpoint value_all (p : N → bool) (v : value) : bool :=
  match v with
  | VNull | VBool _ | VNumber _ => true
  | VString s => forallb p s
  | VArray l => forallb (value_all p) l
  | VObject fields => forallb (λ f, forallb p f.1 && value_all p f.2) fields
  end.

Lemma commas_all p l : p 44 = true → Forall (λ x, forallb p x = true) l → forallb p (commas l) = true.
Proof.
  intros Hc Hl. induction l as [|x [|y l] IH]; [done|by apply Forall_cons in Hl as [? _]|].
  apply Forall_cons in Hl as [Hx Hl]. rewrite commas_cons, forallb_app, Hx. cbn [forallb]. rewrite Hc. by apply IH.
Qed.

Lemma value_all_weaken (p q : N → bool) v :
  (∀ c, p c = true → q c = true) → value_all p v = true → value_all q v = true.
Proof.
  intros Hpq. induction v as [|b|l|s|l IH|fs IH] using value_nested_ind; cbn [value_all]; [done..| | |].
  - rewrite !forallb_forall. eauto.
  - intros H. apply forallb_Forall. apply forallb_Forall in H. rewrite Forall_forall in *. eauto.
  - intros H. apply forallb_Forall. apply forallb_Forall in H. rewrite Forall_forall in *. intros f Hf.
    specialize (H f Hf). apply andb_prop in H as [Hk Hv]. apply andb_true_intro. split; [|by apply IH].
    rewrite forallb_forall in *. eauto.
Qed.

Lemma hex_digit_ascii n : n < 16 → 32 <= hex_digit n <= 126.
Proof. unfold hex_digit. destruct (N.ltb_spec n 10); lia. Qed.

(** A class of characters that has those of ASCII that are written for structure and for escapes. *)
Section classes.
Context (p : N → bool) (Hp : ∀ c, 32 <= c <= 126 → p c = true).

(** A character that is escaped, or of the class. *)
Definition written_within (c : N) : bool := (c <? 32) || surrogate c || p c.

Lemma escape_within c : written_within c = true → forallb p (escape c) = true.
Proof.
  intros Hc. unfold escape, hex4.
  assert (Hh : ∀ n, p (hex_digit (n mod 16)) = true) by (intros n; apply Hp, hex_digit_ascii, N.mod_lt; done).
  repeat match goal with |- context [c =? ?n] => destruct (N.eqb_spec c n); [subst; simpl; rewrite !Hp by lia; done|] end.
  unfold written_within in Hc. destruct ((c <? 32) || surrogate c); cbn [app forallb].
  - by rewrite !Hh, !Hp by lia.
  - cbn in Hc. by rewrite Hc.
Qed.

Lemma quote_within s : forallb written_within s = true → forallb p (quote s) = true.
Proof.
  intros Hs. unfold quote. cbn [forallb]. rewrite Hp, forallb_app by lia. cbn [forallb andb]. rewrite Hp, !andb_true_r by lia.
  induction s as [|c s IH]; [done|]. apply andb_prop in Hs as [Hc Hs]. rewrite bind_cons, forallb_app, escape_within, IH by done. done.
Qed.

(** The text of a value is within the class if its strings are, as far as they are not escaped. *)
Lemma stringify_within v :
  value_ok v = true → value_all written_within v = true → forallb p (stringify v) = true.
Proof.
  induction v as [|b|l|s|l IH|fs IH] using value_nested_ind; intros Hv Hs.
  - simpl. by rewrite !Hp by lia.
  - destruct b; simpl; by rewrite !Hp by lia.
  - apply andb_prop in Hv as [_ Hn]. cbn [stringify]. apply forallb_Forall. apply forallb_Forall in Hn.
    eapply Forall_impl; [exact Hn|]. intros c Hc. apply Hp. unfold numeric in Hc.
    destruct (N.leb_spec 48 c), (N.leb_spec c 57); simpl in Hc; [lia|..];
      repeat match goal with H : context [c =? ?n] |- _ => destruct (N.eqb_spec c n) in H; [subst; lia|] end; done.
  - by apply quote_within.
  - cbn [stringify forallb]. rewrite Hp, forallb_app, commas_all; [simpl; by rewrite Hp by lia|apply Hp; lia| |lia].
    apply Forall_fmap. apply forallb_Forall in Hv, Hs. rewrite Forall_forall in *. intros x Hx. apply IH; auto.
  - cbn [stringify forallb]. rewrite Hp, forallb_app, commas_all; [simpl; by rewrite Hp by lia|apply Hp; lia| |lia].
    apply Forall_fmap. apply forallb_Forall in Hv, Hs. rewrite Forall_forall in *. intros [k x] Hx.
    specialize (IH _ Hx). apply Hv in Hx as Hx'. apply andb_prop in Hx' as [_ Ox]. apply Hs in Hx as [Hk Sx]%andb_prop. cbn [fst snd] in *.
    change (forallb p (quote k ++ 58 :: stringify x) = true).
    rewrite forallb_app, quote_within by done. cbn [forallb]. rewrite Hp by lia. by apply IH.
Qed.
End classes.
