(* ===== verification/Gateway.v ===== *)
(** * The agent gateway

    [api/src/agents/agent-gateway.service.ts]: bytes become lines, a line becomes a
    message, and a message is acted on for the agent whose certificate the
    connection was opened with, as the registry knows it now.

    The gateway joins what the other files keep apart: the database and its faults
    ([Effects.World]) and the tables of connections, requests and streams
    ([Dispatch.State]).  A [Process] holds both, what each connection has said so
    far, and which agents are polled; an agent is connected for the services when
    it is in the table of connections.  A handler runs from start to end here;
    where it waits for the database and something else may happen, its halves are
    definitions of their own ([onMessage] is [understood] and then [acted]).

    TLS gives the certificate of a peer, whose fingerprint is a parameter; so are
    [JSON.parse], of which nothing is assumed, and the certificate authority. *)

From Stdlib Require Import Ascii String NArith ZArith.
From stdpp Require Import gmap strings list.
From S2P Require Import Prelude Schema Store Registry Effects Logic Discovery StackDeployment.
From S2P Require Import JsMap Capabilities Protocol Dispatch AgentRegistry Utf8.

Class GatewayEnv := {
  (** the SHA-256 of the certificate the peer of a socket presented *)
  peer_fingerprint : Socket → option string;
  json_parse : list N → option json;
  (** a certificate for a request and an agent, or why there is none *)
  issueAgentCertificate : string → string → time → option IssuedCertificate;
  AGENT_MAX_MESSAGE_BYTES : nat;
  AGENT_CERT_RENEW_BEFORE : Z
}.

Definition HEARTBEAT_INTERVAL_SECONDS : Z := 30.

Record ConnectionState := {
  conn_agentId : option string;
  conn_helloReceived : bool;
  conn_buffer : list N;
  conn_bytesBuffered : nat;
  conn_closing : bool
}.

#[export] Instance ConnectionState_settable : Settable ConnectionState := λ c, {|
  conn_agentId := conn_agentId c; conn_helloReceived := conn_helloReceived c;
  conn_buffer := conn_buffer c; conn_bytesBuffered := conn_bytesBuffered c;
  conn_closing := conn_closing c |}.

(** What [onConnection] starts from. *)
Definition fresh_connection : ConnectionState :=
  {| conn_agentId := None; conn_helloReceived := false; conn_buffer := []; conn_bytesBuffered := 0;
     conn_closing := false |}.

(** What the gateway itself says to an agent. *)
Inductive GatewayMessage :=
  | Hello_ack (agentId : string) (heartbeatIntervalSeconds : Z) (certificateNotAfter renewAfter : time)
  | Heartbeat_ack
  | Certificate_renewed (certificate : string) (certificateNotAfter renewAfter : time)
  | Protocol_error (code : string).

Record Process := {
  proc_world : World;
  proc_dispatch : State;
  (** [DiscoveryScheduler.schedules] *)
  proc_polled : gset string;
  proc_conns : gmap Socket ConnectionState;
  proc_sent : list (Socket * GatewayMessage);
  (** sockets [end()] was called on *)
  proc_ended : gset Socket
}.

#[export] Instance Process_settable : Settable Process := λ p, {|
  proc_world := proc_world p; proc_dispatch := proc_dispatch p; proc_polled := proc_polled p;
  proc_conns := proc_conns p; proc_sent := proc_sent p; proc_ended := proc_ended p |}.

(** ** The monad of handlers *)

Definition G (A : Type) : Type := Process → (exn + A) * Process.

#[export] Instance G_ret : MRet G := λ A a p, (inr a, p).
#[export] Instance G_bind : MBind G := λ A B f m p,
  match m p with
  | (inr a, p') => f a p'
  | (inl e, p') => (inl e, p')
  end.

(** The agents the services find connected. *)
Definition connected_agents (st : State) : gset string := list_to_set (jkeys (connections st)).

(** A service called from a handler. *)
Definition on_world {A} (m : M A) : G A := λ p,
  let w := proc_world p in
  let '(r, w') := m (w <| w_connected := connected_agents (proc_dispatch p) |>) in
  (r, p <| proc_world := w' |>).

Definition on_dispatch {A} (f : State → A * State) : G A := λ p,
  let '(a, st) := f (proc_dispatch p) in (inr a, p <| proc_dispatch := st |>).

Definition dispatch_ (f : State → State) : G unit := on_dispatch (λ st, (tt, f st)).

Definition proc : G Process := λ p, (inr p, p).
Definition modify (f : Process → Process) : G unit := λ p, (inr tt, f p).

Definition catch_all (m : G unit) : G unit := λ p,
  match m p with (inl _, p') => (inr tt, p') | r => r end.

Definition conn_of (socket : Socket) (p : Process) : ConnectionState :=
  proc_conns p !! socket ?? fresh_connection.

Definition connection_state (socket : Socket) : G ConnectionState := λ p, (inr (conn_of socket p), p).

Definition set_connection (socket : Socket) (f : ConnectionState → ConnectionState) : G unit :=
  modify (λ p, p <| proc_conns := <[socket := f (conn_of socket p)]> (proc_conns p) |>).

Definition is_destroyed (socket : Socket) (p : Process) : bool :=
  bool_decide (socket ∈ destroyed (proc_dispatch p)).

(** [DiscoveryScheduler.start] and [stop], as far as who is polled. *)
Definition start_polling (agentId : string) : G unit :=
  modify (λ p, p <| proc_polled := {[agentId]} ∪ proc_polled p |>).
Definition stop_polling (agentId : string) : G unit :=
  modify (λ p, p <| proc_polled := proc_polled p ∖ {[agentId]} |>).

(** ** The handlers *)

Section gateway.
Context `{GatewayEnv}.

Definition send (socket : Socket) (message : GatewayMessage) : G unit :=
  modify (λ p, if is_destroyed socket p then p
               else p <| proc_sent := proc_sent p ++ [(socket, message)] |>).

Definition fail (socket : Socket) (code : string) (close : bool) : G unit :=
  state ← connection_state socket;
  if conn_closing state then mret tt
  else
    send socket (Protocol_error code);;
    if close then
      set_connection socket (λ c, c <| conn_closing := true |>);;
      modify (λ p, p <| proc_ended := {[socket]} ∪ proc_ended p |>)
    else mret tt.

Definition renewAfter (notAfter : time) : time := (notAfter - AGENT_CERT_RENEW_BEFORE * 1000)%Z.

Definition resolveIdentity (socket : Socket) : G (option string) :=
  match peer_fingerprint socket with
  | None => fail socket "AGENT_CERT_INVALID" true;; mret None
  | Some fingerprint =>
      agent ← on_world (findByFingerprint fingerprint);
      at_ ← on_world now;
      match agent with
      | None => fail socket "AGENT_UNKNOWN" true;; mret None
      | Some a =>
          if bool_decide (agent_revokedAt a ≠ None) then fail socket "AGENT_REVOKED" true;; mret None
          else if (agent_certificateNotAfter a <=? at_)%Z then
            fail socket "AGENT_CERT_EXPIRED" true;; mret None
          else mret (Some (agent_id a))
      end
  end.

Definition onHello (socket : Socket) (agentId : string) (agentVersion : option string)
    (capabilities : list string) : G unit :=
  set_connection socket (λ c, c <| conn_agentId := Some agentId |> <| conn_helloReceived := true |>);;
  dispatch_ (register agentId socket);;
  on_world (markConnected agentId agentVersion capabilities);;
  agent ← on_world (findById agentId);
  at_ ← on_world now;
  let notAfter := (agent_certificateNotAfter <$> agent) ?? at_ in
  send socket (Hello_ack agentId HEARTBEAT_INTERVAL_SECONDS notAfter (renewAfter notAfter));;
  start_polling agentId;;
  on_world (events_record (agent_hostId <$> agent) "agent.connected" Severity_info
              ("agent:" +:+ agentId) None).

Definition onRenewal (socket : Socket) (agentId csrPem : string) : G unit :=
  at_ ← on_world now;
  match issueAgentCertificate csrPem agentId at_ with
  | None => fail socket "ENROLLMENT_CSR_INVALID" false
  | Some certificate =>
      on_world (replaceCertificate agentId certificate);;
      on_world (audit_record {|
        entry_action := "agent.certificate.renewed"; entry_result := Audit_success;
        entry_actorUserId := None; entry_actorLabel := "agent-gateway";
        entry_targetType := Some "agent"; entry_targetId := Some agentId; entry_targetLabel := None;
        entry_reasonCode := Some (cert_serial certificate); entry_sourceIp := None;
        entry_userAgent := None |});;
      send socket (Certificate_renewed (cert_pem certificate) (cert_notAfter certificate)
                     (renewAfter (cert_notAfter certificate)))
  end.

Definition onStreamMessage (socket : Socket) (body : MessageBody) : G unit :=
  _ ← on_dispatch (match body with
                   | Msg_stream_started m => acceptStreamStart socket m
                   | Msg_stream_chunk m => acceptStreamChunk socket m
                   | Msg_stream_end m => acceptStreamEnd socket m
                   | _ => λ st, (false, st)
                   end);
  mret tt.

(** The first half of [onMessage]: a message that can be read, of a version that
    is spoken. *)
Definition understood (socket : Socket) (line : list N) : G (option MessageBody) :=
  match parseClientMessage (json_parse line) with
  | None => fail socket "AGENT_PROTOCOL_UNSUPPORTED" true;; mret None
  | Some message =>
      if isSupportedProtocolVersion (message_protocolVersion message)
      then mret (Some (message_body message))
      else fail socket "AGENT_PROTOCOL_UNSUPPORTED" true;; mret None
  end.

Definition before_hello (socket : Socket) : G unit := fail socket "AGENT_PROTOCOL_UNSUPPORTED" true.

(** The second half, once the identity is known. *)
Definition acted (socket : Socket) (body : MessageBody) (identity : string) : G unit :=
  state ← connection_state socket;
  if bool_decide (conn_agentId state ≠ None) && bool_decide (conn_agentId state ≠ Some identity)
  then fail socket "AGENT_IDENTITY_MISMATCH" true
  else
    match body with
    | Msg_hello agentVersion capabilities => onHello socket identity agentVersion capabilities
    | Msg_heartbeat =>
        if conn_helloReceived state then on_world (touch identity);; send socket Heartbeat_ack
        else before_hello socket
    | Msg_renew csr =>
        if conn_helloReceived state then onRenewal socket identity csr else before_hello socket
    | Msg_response m =>
        if conn_helloReceived state then
          accounted ← on_dispatch (settle socket m);
          if (accounted : bool) then mret tt else fail socket "AGENT_RESPONSE_INVALID" true
        else before_hello socket
    | Msg_stream_started _ | Msg_stream_chunk _ | Msg_stream_end _ =>
        if conn_helloReceived state then onStreamMessage socket body else before_hello socket
    end.

Definition onMessage (socket : Socket) (line : list N) : G unit :=
  body ← understood socket line;
  match body with
  | None => mret tt
  | Some body =>
      identity ← resolveIdentity socket;
      match identity with
      | None => mret tt
      | Some identity => acted socket body identity
      end
  end.

(** ** Lines *)

Definition NEWLINE : N := 10.

(** The white space [String.prototype.trim] removes. *)
Definition js_space (c : N) : bool :=
  in_range 9 13 c || in_range 8192 8202 c ||
  bool_decide (c ∈ [32; 160; 5760; 8232; 8233; 8239; 8287; 12288; 65279]%N).

Definition js_trim (l : list N) : list N :=
  reverse (drop_while js_space (reverse (drop_while js_space l))).

(** The lines a newline ends, and what is left. *)
Fixpoint lines (buffer : list N) : list (list N) * list N :=
  match buffer with
  | [] => ([], [])
  | c :: buffer' =>
      let '(ls, rest) := lines buffer' in
      if (c =? NEWLINE)%N then ([] :: ls, rest)
      else match ls with
           | [] => ([], c :: rest)
           | l :: ls' => ((c :: l) :: ls', rest)
           end
  end.

Definition unlines (ls : list (list N)) (rest : list N) : list N :=
  concat ((λ l, l ++ [NEWLINE]) <$> ls) ++ rest.

(** The loop of [onData]: each line is taken off the buffer and handled, until
    there is none or the connection is done with. *)
Fixpoint drain (socket : Socket) (ls : list (list N)) (rest : list N) : G unit :=
  match ls with
  | [] => mret tt
  | l :: ls' =>
      set_connection socket (λ c, c <| conn_buffer := unlines ls' rest |>
                                    <| conn_bytesBuffered := byteLength (unlines ls' rest) |>);;
      if bool_decide (js_trim l = []) then drain socket ls' rest
      else
        onMessage socket (js_trim l);;
        p ← proc;
        if conn_closing (conn_of socket p) || is_destroyed socket p then mret tt
        else drain socket ls' rest
  end.

Definition onData (socket : Socket) (chunk : list N) : G unit :=
  state ← connection_state socket;
  if conn_closing state then mret tt
  else
    let bytesBuffered := conn_bytesBuffered state + length chunk in
    if (AGENT_MAX_MESSAGE_BYTES <? bytesBuffered)%nat then
      set_connection socket (λ c, c <| conn_bytesBuffered := bytesBuffered |>);;
      fail socket "AGENT_MESSAGE_TOO_LARGE" true;;
      set_connection socket (λ c, c <| conn_buffer := [] |> <| conn_bytesBuffered := 0 |>)
    else
      let buffer := conn_buffer state ++ utf8_decode chunk in
      set_connection socket (λ c, c <| conn_buffer := buffer |> <| conn_bytesBuffered := bytesBuffered |>);;
      drain socket (lines buffer).1 (lines buffer).2.

(** The data callback: what a handler throws ends the connection. *)
Definition on_data (socket : Socket) (chunk : list N) : G unit := λ p,
  match onData socket chunk p with
  | (inl _, p') => dispatch_ (destroy socket) p'
  | r => r
  end.

(** ** Sockets that close *)

Definition recordDisconnect (agentId : string) : G unit :=
  catch_all (on_world (markDisconnected agentId;;
                       events_record None "agent.disconnected" Severity_info ("agent:" +:+ agentId) None)).

Definition onClose (socket : Socket) : G unit :=
  dispatch_ (abandon socket);;
  state ← connection_state socket;
  match conn_agentId state with
  | None => mret tt
  | Some agentId =>
      released ← on_dispatch (Dispatch.release agentId socket);
      if (released : bool) then stop_polling agentId;; recordDisconnect agentId else mret tt
  end.
End gateway.

(** ** Lines do not depend on how bytes arrive *)

Lemma lines_app a b :
  lines (a ++ b) =
  ((lines a).1 ++ (lines ((lines a).2 ++ b)).1, (lines ((lines a).2 ++ b)).2).
Proof.
  induction a as [|c a IH]; simpl; [by destruct (lines b)|]. rewrite IH.
  destruct (lines a) as [la ra]. simpl. destruct (c =? NEWLINE)%N eqn:Hc; simpl; [done|].
  destruct la as [|l la]; simpl; [|done]. rewrite Hc. by destruct (lines (ra ++ b)) as [[|l ls] r].
Qed.

(** What is left has no newline. *)
Lemma lines_rest a : lines (lines a).2 = ([], (lines a).2).
Proof.
  induction a as [|c a IH]; simpl; [done|]. destruct (lines a) as [la ra]. simpl in *.
  destruct (c =? NEWLINE)%N eqn:Hc; simpl; [done|]. destruct la as [|l la]; simpl; [|done].
  by rewrite IH, Hc.
Qed.

(** *** What a handler does not look at *)

Section blind.
Context (socket : Socket).

(** A process but for the bytes one connection has not made a line of yet. *)
Definition strip (p : Process) : Process :=
  p <| proc_conns := <[socket := (conn_of socket p) <| conn_buffer := [] |> <| conn_bytesBuffered := 0 |>]>
                       (proc_conns p) |>.

Definition alike : relation Process := λ p q, strip p = strip q.

#[local] Instance alike_equivalence : Equivalence alike.
Proof. unfold alike. split; [by intros p|by intros p q|by intros p q r -> ->]. Qed.

(** A handler that goes the same way on processes alike, to processes alike. *)
Definition blind {A} (m : G A) : Prop := ∀ p q, alike p q →
  (m p).1 = (m q).1 ∧ alike (m p).2 (m q).2.

Lemma alike_parts p q :
  alike p q →
  proc_world p = proc_world q ∧ proc_dispatch p = proc_dispatch q ∧ proc_polled p = proc_polled q ∧
  proc_sent p = proc_sent q ∧ proc_ended p = proc_ended q ∧
  conn_agentId (conn_of socket p) = conn_agentId (conn_of socket q) ∧
  conn_helloReceived (conn_of socket p) = conn_helloReceived (conn_of socket q) ∧
  conn_closing (conn_of socket p) = conn_closing (conn_of socket q) ∧
  ∀ s, s ≠ socket → proc_conns p !! s = proc_conns q !! s.
Proof.
  unfold alike, strip. intros E. apply (f_equal (λ p, (proc_world p, proc_dispatch p, proc_polled p,
    proc_sent p, proc_ended p, proc_conns p))) in E. simpl in E. injection E as E1 E2 E3 E4 E5 E6.
  pose proof (f_equal (lookup socket) E6) as Hs. rewrite !lookup_insert_eq in Hs.
  injection Hs as H1 H2 H3. split_and!; try done.
  intros s Hne. pose proof (f_equal (lookup s) E6) as Hs. by rewrite !lookup_insert_ne in Hs by done.
Qed.

Lemma parts_alike p q :
  proc_world p = proc_world q → proc_dispatch p = proc_dispatch q → proc_polled p = proc_polled q →
  proc_sent p = proc_sent q → proc_ended p = proc_ended q →
  conn_agentId (conn_of socket p) = conn_agentId (conn_of socket q) →
  conn_helloReceived (conn_of socket p) = conn_helloReceived (conn_of socket q) →
  conn_closing (conn_of socket p) = conn_closing (conn_of socket q) →
  (∀ s, s ≠ socket → proc_conns p !! s = proc_conns q !! s) → alike p q.
Proof.
  intros H1 H2 H3 H4 H5 H6 H7 H8 H9. unfold alike, strip.
  assert (<[socket := (conn_of socket p) <| conn_buffer := [] |> <| conn_bytesBuffered := 0 |>]> (proc_conns p)
    = <[socket := (conn_of socket q) <| conn_buffer := [] |> <| conn_bytesBuffered := 0 |>]> (proc_conns q)) as E.
  { apply map_eq. intros s. destruct (decide (s = socket)) as [->|Hne].
    - rewrite !lookup_insert_eq. simpl. by rewrite H6, H7, H8.
    - rewrite !lookup_insert_ne by done. by apply H9. }
  rewrite E. by destruct p, q; simpl in *; subst.
Qed.

Lemma blind_ret {A} (a : A) : blind (mret a).
Proof. by intros p q H. Qed.

Lemma blind_bind {A B} (m : G A) (f : A → G B) : blind m → (∀ a, blind (f a)) → blind (m ≫= f).
Proof.
  intros Hm Hf p q H. destruct (Hm p q H) as [E H']. unfold mbind, G_bind.
  destruct (m p) as [[e|a] p'], (m q) as [[e'|a'] q']; simpl in *; simplify_eq; [done|]. by apply Hf.
Qed.

Lemma blind_on_world {A} (m : M A) : blind (on_world m).
Proof.
  intros p q H. pose proof (alike_parts p q H) as (H1 & H2 & H3 & H4 & H5 & H6 & H7 & H8 & H9).
  unfold on_world. rewrite <-H1, <-H2. destruct (m _) as [r w']. split; [done|]. by apply parts_alike.
Qed.

Lemma blind_on_dispatch {A} (f : State → A * State) : blind (on_dispatch f).
Proof.
  intros p q H. pose proof (alike_parts p q H) as (H1 & H2 & H3 & H4 & H5 & H6 & H7 & H8 & H9).
  unfold on_dispatch. rewrite <-H2. destruct (f _) as [a st]. split; [done|]. by apply parts_alike.
Qed.

Lemma blind_modify f :
  (∀ p q, alike p q → alike (f p) (f q)) → blind (modify f).
Proof. intros Hf p q H. split; [done|by apply Hf]. Qed.

(** A change to the connection that looks at and sets only what is compared. *)
Lemma blind_set_connection f :
  (∀ c d, conn_agentId c = conn_agentId d → conn_helloReceived c = conn_helloReceived d →
     conn_closing c = conn_closing d →
     conn_agentId (f c) = conn_agentId (f d) ∧ conn_helloReceived (f c) = conn_helloReceived (f d) ∧
     conn_closing (f c) = conn_closing (f d)) →
  blind (set_connection socket f).
Proof.
  intros Hf. apply blind_modify. intros p q H.
  pose proof (alike_parts p q H) as (H1 & H2 & H3 & H4 & H5 & H6 & H7 & H8 & H9).
  destruct (Hf (conn_of socket p) (conn_of socket q) H6 H7 H8) as (F1 & F2 & F3).
  apply parts_alike; simpl; try done; unfold conn_of; simpl; rewrite ?lookup_insert_eq; try done.
  intros s Hne. rewrite !lookup_insert_ne by done. by apply H9.
Qed.

Lemma blind_with_state {B} (f : ConnectionState → G B) :
  (∀ c d, conn_agentId c = conn_agentId d → conn_helloReceived c = conn_helloReceived d →
     conn_closing c = conn_closing d → f c = f d) →
  (∀ c, blind (f c)) → blind (connection_state socket ≫= f).
Proof.
  intros Hf Hb p q H. pose proof (alike_parts p q H) as (_ & _ & _ & _ & _ & H6 & H7 & H8 & _).
  unfold mbind, G_bind, connection_state. rewrite (Hf (conn_of socket p) (conn_of socket q)) by done.
  by apply Hb.
Qed.

Context `{GatewayEnv}.

Lemma blind_send message : blind (send socket message).
Proof.
  apply blind_modify. intros p q Ha.
  pose proof (alike_parts p q Ha) as (H1 & H2 & H3 & H4 & H5 & H6 & H7 & H8 & H9).
  unfold is_destroyed. rewrite <-H2. case_bool_decide; [done|].
  apply parts_alike; simpl; try done. by rewrite H4.
Qed.

Lemma blind_fail code close : blind (fail socket code close).
Proof.
  unfold fail. apply blind_with_state.
  - intros c d H6 H7 H8. by rewrite H8.
  - intros c. destruct (conn_closing c); [apply blind_ret|].
    apply blind_bind; [apply blind_send|intros _]. destruct close; [|apply blind_ret].
    apply blind_bind; [by apply blind_set_connection|intros _].
    apply blind_modify. intros p q Ha.
    pose proof (alike_parts p q Ha) as (H1 & H2 & H3 & H4 & H5 & H6 & H7 & H8 & H9).
    apply parts_alike; simpl; try done. by rewrite H5.
Qed.

Lemma blind_polling agentId : blind (start_polling agentId).
Proof.
  apply blind_modify. intros p q Ha.
  pose proof (alike_parts p q Ha) as (H1 & H2 & H3 & H4 & H5 & H6 & H7 & H8 & H9).
  apply parts_alike; simpl; try done. by rewrite H3.
Qed.

#[local] Ltac blind_step :=
  match goal with
  | |- blind (mret _) => apply blind_ret
  | |- blind (on_world _) => apply blind_on_world
  | |- blind (on_dispatch _) => apply blind_on_dispatch
  | |- blind (dispatch_ _) => apply blind_on_dispatch
  | |- blind (send _ _) => apply blind_send
  | |- blind (fail _ _ _) => apply blind_fail
  | |- blind (before_hello _) => apply blind_fail
  | |- blind (start_polling _) => apply blind_polling
  | |- blind (set_connection _ _) => by apply blind_set_connection
  | |- blind (connection_state _ ≫= _) =>
      apply blind_with_state; [intros ? ? H6 H7 H8; by rewrite ?H6, ?H7, ?H8|intros ?]
  | |- blind (_ ≫= _) => apply blind_bind; [|intros ?]
  | |- blind (match ?x with _ => _ end) => destruct x
  end.

Lemma blind_onMessage line : blind (onMessage socket line).
Proof.
  unfold onMessage, understood, resolveIdentity, acted, onHello, onRenewal, onStreamMessage.
  repeat blind_step.
Qed.

(** ** What is left open *)

Definition open (p : Process) : bool := negb (conn_closing (conn_of socket p) || is_destroyed socket p).

Lemma open_alike p q : alike p q → open p = open q.
Proof.
  intros Ha. pose proof (alike_parts p q Ha) as (_ & H2 & _ & _ & _ & _ & _ & H8 & _).
  unfold open, is_destroyed. by rewrite H2, H8.
Qed.

Lemma set_buffer_alike f p :
  (∀ c, conn_agentId (f c) = conn_agentId c ∧ conn_helloReceived (f c) = conn_helloReceived c ∧
        conn_closing (f c) = conn_closing c) →
  alike (set_connection socket f p).2 p.
Proof.
  intros Hf. destruct (Hf (conn_of socket p)) as (F1 & F2 & F3).
  apply parts_alike; simpl; try done; unfold conn_of; simpl; rewrite ?lookup_insert_eq; try done.
  intros s Hne. by rewrite lookup_insert_ne.
Qed.

Lemma drain_cons l ls rest p :
  drain socket (l :: ls) rest p =
  let p0 := (set_connection socket (λ c, c <| conn_buffer := unlines ls rest |>
               <| conn_bytesBuffered := byteLength (unlines ls rest) |>) p).2 in
  if bool_decide (js_trim l = []) then drain socket ls rest p0
  else match onMessage socket (js_trim l) p0 with
       | (inl e, p1) => (inl e, p1)
       | (inr _, p1) => if open p1 then drain socket ls rest p1 else (inr tt, p1)
       end.
Proof.
  simpl. unfold mbind, G_bind. simpl. case_bool_decide; [done|].
  destruct (onMessage _ _ _) as [[e|[]] p1]; [done|]. simpl. unfold open.
  by destruct (conn_closing _ || _).
Qed.

(** The lines handled do not depend on what else waits in the buffer. *)
Lemma drain_alike ls rest rest' p q :
  alike p q →
  (drain socket ls rest p).1 = (drain socket ls rest' q).1 ∧
  alike (drain socket ls rest p).2 (drain socket ls rest' q).2.
Proof.
  revert p q. induction ls as [|l ls IH]; intros p q Ha; [done|]. rewrite !drain_cons. cbv zeta.
  set (p0 := (set_connection _ _ p).2). set (q0 := (set_connection _ _ q).2).
  assert (alike p0 q0) as Ha0.
  { unfold p0, q0. etrans; [by apply set_buffer_alike|]. etrans; [done|]. symmetry. by apply set_buffer_alike. }
  clearbody p0 q0. case_bool_decide; [by apply IH|].
  destruct (blind_onMessage (js_trim l) p0 q0 Ha0) as [Er Ha1].
  destruct (onMessage _ _ p0) as [[e|u] p1], (onMessage _ _ q0) as [[e'|u'] q1]; simpl in *; simplify_eq; [done|].
  rewrite (open_alike p1 q1) by done. destruct (open q1); [by apply IH|done].
Qed.

(** Handling lines in two goes is handling them in one. *)
Lemma drain_app la lb rest rest' p q q1 :
  alike p q → drain socket la rest' q = (inr tt, q1) → open q1 = true →
  (drain socket (la ++ lb) rest p).1 = (drain socket lb rest q1).1 ∧
  alike (drain socket (la ++ lb) rest p).2 (drain socket lb rest q1).2.
Proof.
  revert p q. induction la as [|l la IH]; intros p q Ha E Ho.
  { simpl in E. injection E as <-. by apply drain_alike. }
  rewrite <-app_comm_cons. rewrite drain_cons in E |- *. cbv zeta in *.
  set (p0 := (set_connection _ _ p).2). set (q0 := (set_connection _ _ q).2) in E.
  assert (alike p0 q0) as Ha0.
  { unfold p0, q0. etrans; [by apply set_buffer_alike|]. etrans; [done|]. symmetry. by apply set_buffer_alike. }
  clearbody p0 q0. case_bool_decide; [by apply (IH p0 q0)|].
  destruct (blind_onMessage (js_trim l) p0 q0 Ha0) as [Er Ha1].
  destruct (onMessage _ _ p0) as [[e|u] p1], (onMessage _ _ q0) as [[e'|u'] q2]; simpl in *; simplify_eq.
  rewrite (open_alike p1 q2) by done. destruct (open q2) eqn:Eo; [by apply (IH p1 q2)|].
  simplify_eq. congruence.
Qed.

(** *** What handlers leave in the buffer *)

Definition buffer_of (p : Process) : list N := conn_buffer (conn_of socket p).

Definition keeps_buffer {A} (m : G A) : Prop := ∀ p, buffer_of (m p).2 = buffer_of p.

Lemma keeps_bind {A B} (m : G A) (f : A → G B) :
  keeps_buffer m → (∀ a, keeps_buffer (f a)) → keeps_buffer (m ≫= f).
Proof.
  intros Hm Hf p. unfold mbind, G_bind. specialize (Hm p). destruct (m p) as [[e|a] p']; simpl in *; [done|].
  by rewrite Hf.
Qed.

Lemma keeps_modify f : (∀ p, buffer_of (f p) = buffer_of p) → keeps_buffer (modify f).
Proof. intros Hf p. apply Hf. Qed.

Lemma keeps_set f : (∀ c, conn_buffer (f c) = conn_buffer c) → keeps_buffer (set_connection socket f).
Proof.
  intros Hf. apply keeps_modify. intros p. unfold buffer_of, conn_of at 1. simpl.
  rewrite lookup_insert_eq. apply Hf.
Qed.

Lemma keeps_on_world {A} (m : M A) : keeps_buffer (on_world m).
Proof. intros p. unfold on_world. by destruct (m _). Qed.

Lemma keeps_on_dispatch {A} (f : State → A * State) : keeps_buffer (on_dispatch f).
Proof. intros p. unfold on_dispatch. by destruct (f _). Qed.

#[local] Ltac keeps_step :=
  match goal with
  | |- keeps_buffer (mret _) => by intros ?
  | |- keeps_buffer (connection_state _) => by intros ?
  | |- keeps_buffer (on_world _) => apply keeps_on_world
  | |- keeps_buffer (on_dispatch _) => apply keeps_on_dispatch
  | |- keeps_buffer (dispatch_ _) => apply keeps_on_dispatch
  | |- keeps_buffer (set_connection _ _) => by apply keeps_set
  | |- keeps_buffer (start_polling _) => by apply keeps_modify
  | |- keeps_buffer (send _ _) => apply keeps_modify; intros ?; by destruct (is_destroyed _ _)
  | |- keeps_buffer (before_hello _) => unfold before_hello
  | |- keeps_buffer (modify _) => by apply keeps_modify
  | |- keeps_buffer (fail _ _ _) => unfold fail
  | |- keeps_buffer (_ ≫= _) => apply keeps_bind; [|intros ?]
  | |- keeps_buffer (match ?x with _ => _ end) => destruct x
  end.

Lemma onMessage_keeps_buffer line : keeps_buffer (onMessage socket line).
Proof.
  unfold onMessage, understood, resolveIdentity, acted, onHello, onRenewal, onStreamMessage.
  repeat keeps_step.
Qed.

Lemma unlines_nil rest : unlines [] rest = rest.
Proof. done. Qed.

Lemma buffer_set f p : buffer_of (set_connection socket f p).2 = conn_buffer (f (conn_of socket p)).
Proof. unfold buffer_of, conn_of at 1. simpl. by rewrite lookup_insert_eq. Qed.

Lemma drain_buffer ls rest p p' :
  buffer_of p = unlines ls rest → drain socket ls rest p = (inr tt, p') → open p' = true → buffer_of p' = rest.
Proof.
  revert p. induction ls as [|l ls IH]; intros p Hb E Ho.
  { simpl in E. by injection E as <-. }
  rewrite drain_cons in E. cbv zeta in E.
  set (p0 := (set_connection _ _ p).2) in E.
  assert (buffer_of p0 = unlines ls rest) as Hb0 by (unfold p0; by rewrite buffer_set).
  clearbody p0. case_bool_decide; [by apply (IH p0)|].
  pose proof (onMessage_keeps_buffer (js_trim l) p0) as Hk.
  destruct (onMessage _ _ p0) as [[e|u] p1]; simpl in *; [done|].
  destruct (open p1) eqn:Eo; [apply (IH p1); congruence|]. injection E as <-. congruence.
Qed.

Lemma drain_left ls rest p :
  buffer_of p = unlines ls rest → (drain socket ls rest p).1 = inr tt →
  open (drain socket ls rest p).2 = true → buffer_of (drain socket ls rest p).2 = rest.
Proof.
  intros Hb. destruct (drain socket ls rest p) as [r p'] eqn:E. simpl. intros -> Ho.
  by eapply drain_buffer.
Qed.

Lemma unlines_cons l ls rest : unlines (l :: ls) rest = l ++ NEWLINE :: unlines ls rest.
Proof. unfold unlines. rewrite fmap_cons. simpl. by rewrite <-!app_assoc. Qed.

Lemma unlines_lines a : unlines (lines a).1 (lines a).2 = a.
Proof.
  induction a as [|c a IH]; [done|]. simpl. destruct (lines a) as [ls rest]. simpl in IH.
  destruct (c =? NEWLINE)%N eqn:Hc; simpl.
  - apply N.eqb_eq in Hc as ->. by rewrite unlines_cons, IH.
  - destruct ls as [|l ls]; simpl; [by rewrite <-IH|]. rewrite unlines_cons in *. simpl. by rewrite IH.
Qed.

(** ** Theorem *)

Lemma onData_runs chunk p :
  conn_closing (conn_of socket p) = false →
  conn_bytesBuffered (conn_of socket p) + length chunk <= AGENT_MAX_MESSAGE_BYTES →
  let buffer := buffer_of p ++ utf8_decode chunk in
  ∃ p0, alike p0 p ∧ buffer_of p0 = buffer ∧
    onData socket chunk p = drain socket (lines buffer).1 (lines buffer).2 p0.
Proof.
  intros Hc Hl buffer.
  exists (set_connection socket (λ c, c <| conn_buffer := buffer |>
    <| conn_bytesBuffered := conn_bytesBuffered (conn_of socket p) + length chunk |>) p).2.
  split_and!.
  - by apply set_buffer_alike.
  - by rewrite buffer_set.
  - unfold onData. unfold mbind at 1, G_bind at 1, connection_state. rewrite Hc.
    rewrite (proj2 (Nat.ltb_ge _ _)) by done. done.
Qed.

Lemma onData_open chunk p p' : onData socket chunk p = (inr tt, p') → open p' = true →
  conn_closing (conn_of socket p) = false ∧
  conn_bytesBuffered (conn_of socket p) + length chunk <= AGENT_MAX_MESSAGE_BYTES.
Proof.
  intros E Ho. destruct (conn_closing (conn_of socket p)) eqn:Hc.
  { exfalso. unfold onData, mbind, G_bind, connection_state in E. rewrite Hc in E. injection E as <-.
    unfold open in Ho. by rewrite Hc in Ho. }
  split; [done|]. destruct (decide (conn_bytesBuffered (conn_of socket p) + length chunk <= AGENT_MAX_MESSAGE_BYTES))
    as [|Hn]; [done|]. exfalso.
  unfold onData in E. unfold mbind at 1, G_bind at 1, connection_state in E. rewrite Hc in E.
  rewrite (proj2 (Nat.ltb_lt _ _)) in E by lia.
  unfold fail, mbind, G_bind, connection_state, set_connection, modify, send in E. simpl in E.
  unfold conn_of at 1 in E. simpl in E. rewrite lookup_insert_eq in E. simpl in E. rewrite Hc in E.
  injection E as <-. unfold open, conn_of in Ho. simpl in Ho. rewrite lookup_insert_eq in Ho. simpl in Ho.
  unfold conn_of in Ho. simpl in Ho. rewrite lookup_insert_eq in Ho. done.
Qed.

(** C15: how the bytes of a connection are cut into chunks does not matter, as long as
    no character is cut in two and nothing too long waits: handling the first part
    and then the second is handling both at once, with the same messages acted on,
    the same answers, the same error if there is one, and the same bytes left. *)
Theorem chunking_irrelevant c1 c2 p p1 :
  whole c1 = true → onData socket c1 p = (inr tt, p1) → open p1 = true →
  conn_bytesBuffered (conn_of socket p) + length (c1 ++ c2) <= AGENT_MAX_MESSAGE_BYTES →
  conn_bytesBuffered (conn_of socket p1) + length c2 <= AGENT_MAX_MESSAGE_BYTES →
  let at_once := onData socket (c1 ++ c2) p in
  let in_two := onData socket c2 p1 in
  at_once.1 = in_two.1 ∧ alike at_once.2 in_two.2 ∧
  (in_two.1 = inr tt → open in_two.2 = true → buffer_of at_once.2 = buffer_of in_two.2).
Proof.
  intros Hw E1 Ho Hl Hl1. destruct (onData_open _ _ _ E1 Ho) as [Hc Hl0].
  destruct (onData_runs c1 p Hc Hl0) as (q & Hq & Hbq & Eq). rewrite Eq in E1.
  destruct (onData_runs (c1 ++ c2) p Hc Hl) as (r & Hr & Hbr & Er).
  assert (Hc1 : conn_closing (conn_of socket p1) = false).
  { unfold open in Ho. by destruct (conn_closing (conn_of socket p1)). }
  destruct (onData_runs c2 p1 Hc1 Hl1) as (s & Hs & Hbs & Es).
  assert (buffer_of p1 = (lines (buffer_of p ++ utf8_decode c1)).2) as Hb1.
  { eapply drain_buffer; [|done..]. by rewrite Hbq, unlines_lines. }
  rewrite Hb1 in Hbs, Es. rewrite utf8_decode_app, app_assoc in Hbr, Er by done.
  rewrite (lines_app (buffer_of p ++ utf8_decode c1) (utf8_decode c2)) in Er. simpl in Er.
  set (rest := (lines (buffer_of p ++ utf8_decode c1)).2) in *.
  set (la := (lines (buffer_of p ++ utf8_decode c1)).1) in *.
  cbv zeta. rewrite Er, Es.
  destruct (drain_app la (lines (rest ++ utf8_decode c2)).1 (lines (rest ++ utf8_decode c2)).2 rest r q p1)
    as [Hx Hy]; [by etrans|done|done|].
  destruct (drain_alike (lines (rest ++ utf8_decode c2)).1 (lines (rest ++ utf8_decode c2)).2
    (lines (rest ++ utf8_decode c2)).2 p1 s) as [Hx' Hy']; [by symmetry|].
  split_and!; [congruence|by etrans|].
  intros Hr' Ho'. rewrite !drain_left; try done.
  - by rewrite Hbs, unlines_lines.
  - rewrite Hbr. rewrite <-(unlines_lines (_ ++ utf8_decode c2)), lines_app. done.
  - congruence.
  - rewrite <-Ho'. apply open_alike. by etrans.
Qed.
End blind.

(** ** Who may act, and on what *)

Section identity.
Context `{GatewayEnv}.

(** The certificate of the socket is that of an agent that is trusted now. *)
Definition recognised (p : Process) (socket : Socket) (identity : string) : Prop :=
  ∃ a, peer_fingerprint socket = Some (agent_certificateFingerprint a) ∧
    (∃ i, agents (w_db (proc_world p)) !! i = Some a) ∧ agent_id a = identity ∧
    agent_revokedAt a = None ∧ (w_now (proc_world p) < agent_certificateNotAfter a)%Z.

(** Nothing but answers and the state of the connection itself. *)
Definition untouched : relation Process := λ p p',
  w_db (proc_world p') = w_db (proc_world p) ∧ w_now (proc_world p') = w_now (proc_world p) ∧
  proc_dispatch p' = proc_dispatch p ∧ proc_polled p' = proc_polled p.

(** Nothing of another agent. *)
Definition only_agent (identity : string) : relation DB := λ d d', db_ok d →
  db_ok d' ∧ ∀ i, i ≠ identity → agents d' !! i = agents d !! i.

#[local] Instance only_agent_preorder identity : PreOrder (only_agent identity).
Proof.
  split; [by intros d|]. intros d1 d2 d3 H12 H23 Hok. destruct (H12 Hok) as [Hok2 E12].
  destruct (H23 Hok2) as [Hok3 E23]. split; [done|]. intros i Hi. by rewrite E23, E12.
Qed.

Definition only_connection (identity : string) (st st' : State) : Prop :=
  ∀ a, a ≠ identity → jget a (connections st') = jget a (connections st).

Definition its_own (identity : string) : relation Process := λ p p',
  only_agent identity (w_db (proc_world p)) (w_db (proc_world p')) ∧
  only_connection identity (proc_dispatch p) (proc_dispatch p') ∧
  (∀ a, a ≠ identity → a ∈ proc_polled p' ↔ a ∈ proc_polled p).

Definition gframed {A} (R : relation Process) (m : G A) : Prop := ∀ p, R p (m p).2.

Section gframes.
Context (R : relation Process) `{!PreOrder R}.

Lemma gframed_ret {A} (a : A) : gframed R (mret a).
Proof. intros p. simpl. reflexivity. Qed.

Lemma gframed_state socket : gframed R (connection_state socket).
Proof. intros p. simpl. reflexivity. Qed.

Lemma gframed_bind {A B} (m : G A) (f : A → G B) :
  gframed R m → (∀ a, gframed R (f a)) → gframed R (m ≫= f).
Proof.
  intros Hm Hf p. unfold mbind, G_bind. specialize (Hm p). destruct (m p) as [[e|a] p']; simpl in *; [done|].
  etrans; [done|apply Hf].
Qed.
End gframes.

#[local] Instance untouched_preorder : PreOrder untouched.
Proof.
  split; [by intros p|]. intros p q r (A1 & A2 & A3 & A4) (B1 & B2 & B3 & B4).
  unfold untouched. by rewrite B1, B2, B3, B4.
Qed.

#[local] Instance its_own_preorder identity : PreOrder (its_own identity).
Proof.
  split.
  - intros p. split_and!; [reflexivity|done|done].
  - intros p q r (A1 & A2 & A3) (B1 & B2 & B3). split_and!; [by etrans| |].
    + intros a Ha. by rewrite B2, A2.
    + intros a Ha. by rewrite B3, A3.
Qed.

Lemma untouched_own identity p p' : untouched p p' → its_own identity p p'.
Proof.
  intros (E1 & _ & E2 & E3). unfold its_own, only_connection. rewrite E1, E2, E3.
  split_and!; [reflexivity|done|done].
Qed.

#[local] Ltac gframe_step :=
  match goal with
  | |- gframed _ (mret _) => apply gframed_ret; apply _
  | |- gframed _ (connection_state _) => apply gframed_state; apply _
  | |- gframed _ (_ ≫= _) => apply gframed_bind; [apply _| |intros ?]
  | |- gframed _ (match ?x with _ => _ end) => destruct x
  end.

Lemma send_untouched socket message : gframed untouched (send socket message).
Proof. intros p. unfold send, modify. simpl. by destruct (is_destroyed socket p). Qed.

Lemma fail_untouched socket code close : gframed untouched (fail socket code close).
Proof.
  unfold fail. repeat gframe_step; [apply send_untouched|by intros p..].
Qed.

Lemma understood_untouched socket line : gframed untouched (understood socket line).
Proof. unfold understood. repeat gframe_step; apply fail_untouched. Qed.

Lemma understood_Some socket line p body p' :
  understood socket line p = (inr (Some body), p') →
  p' = p ∧ ∃ m, parseClientMessage (json_parse line) = Some m ∧
    isSupportedProtocolVersion (message_protocolVersion m) = true ∧ message_body m = body.
Proof.
  unfold understood. destruct (parseClientMessage _) as [m|].
  - destruct (isSupportedProtocolVersion _) eqn:E; [intros [= <- <-]; by eauto|].
    unfold mbind, G_bind. destruct (fail _ _ _ p) as [[] ?]; intros; simplify_eq.
  - unfold mbind, G_bind. destruct (fail _ _ _ p) as [[] ?]; intros; simplify_eq.
Qed.

Lemma on_world_reads {A} (m : M A) : reads m → gframed untouched (on_world m).
Proof.
  intros Hm p. unfold on_world.
  specialize (Hm ((proc_world p) <| w_connected := connected_agents (proc_dispatch p) |>)).
  destruct (m _) as [r w']. simpl in *. destruct Hm as [fs ->]. by split_and!.
Qed.

Lemma resolveIdentity_untouched socket : gframed untouched (resolveIdentity socket).
Proof.
  unfold resolveIdentity.
  repeat first [gframe_step|apply fail_untouched|apply on_world_reads];
    unfold findByFingerprint; reads.
Qed.

Lemma resolveIdentity_Some socket p identity p' :
  resolveIdentity socket p = (inr (Some identity), p') →
  recognised p socket identity ∧ proc_conns p' = proc_conns p.
Proof.
  unfold resolveIdentity, recognised. destruct (peer_fingerprint socket) as [fingerprint|].
  - unfold mbind, G_bind, on_world.
    set (w := (proc_world p) <| w_connected := _ |>).
    destruct (findByFingerprint fingerprint w) as [[e|o] w'] eqn:E; [done|]. simpl.
    apply select_first_inr in E as [-> [fs ->]]. simpl.
    destruct (head _) as [a|] eqn:Eh.
    + apply head_select_Some in Eh as [[i Hi] Hf%bool_decide_eq_true].
      case_bool_decide as Hr; [by destruct (fail _ _ _ _) as [[] ?]|].
      destruct (Z.leb_spec (agent_certificateNotAfter a) (w_now (proc_world p))) as [|Hlt].
      { by destruct (fail _ _ _ _) as [[] ?]. }
      intros [= <- <-]. split; [|done]. exists a. rewrite Hf. split_and!; try done. by exists i.
    + by destruct (fail _ _ _ _) as [[] ?].
  - unfold mbind, G_bind. by destruct (fail _ _ _ _) as [[] ?].
Qed.

(** *** What an agent's message writes *)

Lemma framed_agent_update identity (q : Agent → bool) f :
  (∀ a, agent_id (f a) = agent_id a) → (∀ a, q a = true → agent_id a = identity) →
  framed (on_db (only_agent identity)) (update q f).
Proof.
  intros Hf Hq w Hok. pose proof (framed_update_ok q f Hf w Hok) as Hok'. split; [exact Hok'|].
  intros i Hi. unfold update, statement. destruct (next_fault w); [done|]. unfold update_where.
  destruct (violation _); [done|]. simpl. rewrite lookup_change_rows.
  destruct (agents (w_db w) !! i) as [a|] eqn:E; [|done]. simpl. destruct (q a) eqn:Eq; [|done].
  apply Hq in Eq. destruct Hi. rewrite <-Eq.
  pose proof (db_ok_rows (R := Agent) _ Hok) as [Hid _]. symmetry. by apply Hid.
Qed.

Lemma framed_other_tables {A} identity (m : M A) :
  framed (on_db keeps_db_ok) m → framed (on_db (unchanged agents)) m →
  framed (on_db (only_agent identity)) m.
Proof.
  intros H1 H2 w Hok. split; [by apply H1|]. intros i _. specialize (H2 w). unfold on_db, unchanged in H2.
  by rewrite H2.
Qed.

Lemma on_world_own {A} identity (m : M A) :
  framed (on_db (only_agent identity)) m → gframed (its_own identity) (on_world m).
Proof.
  intros Hm p. unfold on_world.
  specialize (Hm ((proc_world p) <| w_connected := connected_agents (proc_dispatch p) |>)).
  destruct (m _) as [r w']. simpl in *. by split_and!.
Qed.

Lemma on_dispatch_own {A} identity (f : State → A * State) :
  (∀ st, only_connection identity st (f st).2) → gframed (its_own identity) (on_dispatch f).
Proof.
  intros Hf p. unfold on_dispatch. specialize (Hf (proc_dispatch p)). destruct (f _) as [a st].
  split_and!; [reflexivity|done|done].
Qed.

Lemma send_own identity socket message : gframed (its_own identity) (send socket message).
Proof. intros p. apply untouched_own, send_untouched. Qed.

Lemma fail_own identity socket code close : gframed (its_own identity) (fail socket code close).
Proof. intros p. apply untouched_own, fail_untouched. Qed.

Lemma settle_connections socket m st : connections (settle socket m st).2 = connections st.
Proof.
  unfold settle, settleWithError. repeat (case_match; simplify_eq; simpl; try done).
Qed.

Lemma endStream_connections id reason error st : connections (endStream id reason error st) = connections st.
Proof. unfold endStream. by repeat case_match. Qed.

Lemma chunk_connections socket m st : connections (acceptStreamChunk socket m st).2 = connections st.
Proof.
  unfold acceptStreamChunk. repeat (case_match; simplify_eq; simpl; try done).
  apply endStream_connections.
Qed.

Lemma start_connections socket m st : connections (acceptStreamStart socket m st).2 = connections st.
Proof. unfold acceptStreamStart. by repeat (case_match; simplify_eq; simpl; try done). Qed.

Lemma end_connections socket m st : connections (acceptStreamEnd socket m st).2 = connections st.
Proof. unfold acceptStreamEnd. case_match; [apply endStream_connections|done]. Qed.

Lemma register_own agentId socket st : only_connection agentId st (register agentId socket st).
Proof.
  intros a Ha. unfold register. simpl. rewrite jget_set_ne by done. by repeat case_match.
Qed.

Lemma onHello_own socket identity version capabilities :
  gframed (its_own identity) (onHello socket identity version capabilities).
Proof.
  unfold onHello. repeat gframe_step.
  - intros p. apply untouched_own. by split_and!.
  - apply on_dispatch_own. intros st. apply register_own.
  - apply on_world_own. unfold markConnected. frame.
    + apply framed_agent_update; [done|]. intros x. by rewrite bool_decide_eq_true.
    + apply framed_agent_update; [done|]. intros x [Hx _]%andb_true_iff. by apply bool_decide_eq_true in Hx.
  - apply on_world_own. unfold findById. frame.
  - apply on_world_own. frame.
  - apply send_own.
  - intros p. unfold start_polling, modify. split_and!; simpl; [reflexivity|done|set_solver].
  - apply on_world_own. apply framed_other_tables; unfold events_record; frame.
Qed.

Lemma onRenewal_own socket identity csr : gframed (its_own identity) (onRenewal socket identity csr).
Proof.
  unfold onRenewal. repeat first [gframe_step|apply fail_own|apply send_own].
  - apply on_world_own. frame.
  - apply on_world_own. unfold replaceCertificate. frame.
    apply framed_agent_update; [done|]. intros x. by rewrite bool_decide_eq_true.
  - apply on_world_own. apply framed_other_tables; [unfold audit_record; frame|apply audit_agents].
Qed.

Lemma acted_own socket body identity : gframed (its_own identity) (acted socket body identity).
Proof.
  unfold acted. repeat first [gframe_step|apply fail_own|apply send_own|apply onHello_own|apply onRenewal_own].
  - apply on_world_own. unfold touch. frame.
    apply framed_agent_update; [done|]. intros x. by rewrite bool_decide_eq_true.
  - apply on_dispatch_own. intros st x _. by rewrite settle_connections.
  - unfold onStreamMessage. repeat gframe_step. apply on_dispatch_own. intros st x _. by rewrite start_connections.
  - unfold onStreamMessage. repeat gframe_step. apply on_dispatch_own. intros st x _. by rewrite chunk_connections.
  - unfold onStreamMessage. repeat gframe_step. apply on_dispatch_own. intros st x _. by rewrite end_connections.
Qed.

Definition is_hello (body : MessageBody) : bool := match body with Msg_hello _ _ => true | _ => false end.

(** Not before hello, and not for anybody else. *)
Lemma acted_refused socket body identity p :
  (conn_agentId (conn_of socket p) ≠ None ∧ conn_agentId (conn_of socket p) ≠ Some identity) ∨
  (conn_helloReceived (conn_of socket p) = false ∧ is_hello body = false) →
  untouched p (acted socket body identity p).2.
Proof.
  intros Hd. unfold acted, mbind at 1, G_bind at 1, connection_state.
  destruct (bool_decide _ && bool_decide _) eqn:E; [apply fail_untouched|].
  destruct Hd as [[H1 H2]|[Hh Hb]].
  - by rewrite !bool_decide_true in E.
  - rewrite Hh. destruct body; simpl in Hb; try done; apply fail_untouched.
Qed.

End identity.

(** ** A gateway with one agent *)

Definition bytes_of (s : string) : list N := N_of_ascii <$> chars s.

Definition agent_hello : ClientMessage :=
  {| message_protocolVersion := 1; message_body := Msg_hello (Some "1.4.0") ["container.list"; "shell"] |}.
Definition agent_heartbeat : ClientMessage := {| message_protocolVersion := 1; message_body := Msg_heartbeat |}.

(** Three lines are JSON here; the last one is one character, [é]. *)
Definition sample_env : GatewayEnv := {|
  peer_fingerprint socket := if (socket <? 10)%nat then Some "fp-1" else None;
  json_parse line :=
    if bool_decide (line = bytes_of "hello") then Some (marshal agent_hello)
    else if bool_decide (line = bytes_of "beat") then Some (marshal agent_heartbeat)
    else if bool_decide (line = [233%N]) then Some (marshal agent_heartbeat) else None;
  issueAgentCertificate _ _ at_ :=
    Some {| cert_pem := "pem"; cert_fingerprint := "fp-2"; cert_serial := "02"; cert_notAfter := (at_ + 1000)%Z |};
  AGENT_MAX_MESSAGE_BYTES := 16;
  AGENT_CERT_RENEW_BEFORE := 1 |}.

Definition known_agent : Agent := {|
  agent_id := "agent-1"; agent_hostId := "h1"; agent_certificateFingerprint := "fp-1";
  agent_certificateSerial := "01"; agent_certificateNotAfter := 100000%Z; agent_version := None;
  agent_protocolVersion := 1; agent_capabilities := []; agent_status := Agent_disconnected;
  agent_enrolledAt := 0%Z; agent_firstSeenAt := None; agent_lastSeenAt := None; agent_revokedAt := None;
  agent_revocationReason := None |}.

Definition gateway_db : DB := empty_db <| agents := {["agent-1" := known_agent]} |>.

Definition gateway_with (faults : list bool) : Process := {|
  proc_world := (quiet_world gateway_db) <| w_faults := faults |>; proc_dispatch := initial;
  proc_polled := ∅; proc_conns := ∅; proc_sent := []; proc_ended := ∅ |}.

Definition sample_gateway : Process := gateway_with [].

#[local] Existing Instance sample_env.

(** After a hello. *)
Definition greeted : Process := (onData 1 (bytes_of "hello" ++ [10%N]) sample_gateway).2.

Lemma chunking_irrelevant_witness :
  (onData 1 (bytes_of "beat" ++ [10%N] ++ bytes_of "beat" ++ [10%N]) greeted).1 =
  (onData 1 (bytes_of "beat" ++ [10%N]) (onData 1 (bytes_of "beat" ++ [10%N]) greeted).2).1.
Proof.
  pose proof (chunking_irrelevant 1 (bytes_of "beat" ++ [10%N]) (bytes_of "beat" ++ [10%N]) greeted
    (onData 1 (bytes_of "beat" ++ [10%N]) greeted).2) as H.
  destruct H as [H _]; [by vm_compute..| | |].
  - by vm_compute; lia.
  - by vm_compute; lia.
  - exact H.
Defined.


(** ** Defects *)

(** A character that arrives in two chunks is lost: the message it was in is not
    understood and the connection is closed, where the same bytes in one chunk are
    a heartbeat. *)
Theorem split_character_lost :
  let whole_line := [195; 169; 10]%N in
  proc_sent (onData 1 whole_line greeted).2 = proc_sent greeted ++ [(1, Heartbeat_ack)] ∧
  proc_sent (onData 1 [169; 10]%N (onData 1 [195]%N greeted).2).2 =
    proc_sent greeted ++ [(1, Protocol_error "AGENT_PROTOCOL_UNSUPPORTED")].
Proof. by vm_compute. Qed.

(** The limit on a message is applied to what has arrived: four heartbeats in one
    chunk are refused as one message that is too long. *)
Theorem small_messages_refused :
  let beats := mjoin (replicate 4 (bytes_of "beat" ++ [10%N])) in
  length (bytes_of "beat" ++ [10%N]) < AGENT_MAX_MESSAGE_BYTES ∧
  proc_sent (onData 1 beats greeted).2 = proc_sent greeted ++ [(1, Protocol_error "AGENT_MESSAGE_TOO_LARGE")].
Proof. by vm_compute; split; [lia|]. Qed.

(** The socket closes between the two halves of its hello. *)
Definition closed_meanwhile : Process :=
  (acted 1 (message_body agent_hello) "agent-1"
     ((dispatch_ (destroy 1);; onClose 1) (resolveIdentity 1 sample_gateway).2).2).2.

(** A socket that closes while its hello is being looked up is registered
    afterwards: its close has been handled, and the agent stays connected and
    polled on a socket that is gone. *)
Theorem hello_outlives_socket :
  (resolveIdentity 1 sample_gateway).1 = inr (Some "agent-1") ∧
  connection_socket <$> jget "agent-1" (connections (proc_dispatch closed_meanwhile)) = Some 1 ∧
  1 ∈ destroyed (proc_dispatch closed_meanwhile) ∧ "agent-1" ∈ proc_polled closed_meanwhile.
Proof. split_and!; try by vm_compute. all: apply (bool_decide_unpack _); by vm_compute. Qed.

(** The second statement of a renewal fails. *)
Definition renewal_failed : Process :=
  (onRenewal 1 "agent-1" "csr" (gateway_with [false; true])).2.

(** The certificate of an agent is replaced before the agent has the new one: when
    the trail cannot be written the new certificate is never sent, and the old one
    is no longer known. *)
Theorem renewal_locks_out :
  proc_sent renewal_failed = [] ∧
  (onMessage 2 (bytes_of "hello") renewal_failed).1 = inr tt ∧
  proc_sent (onMessage 2 (bytes_of "hello") renewal_failed).2 = [(2, Protocol_error "AGENT_UNKNOWN")].
Proof. by vm_compute. Qed.
