(* ===== verification/Scheduler.v ===== *)
(** * Polling

    [api/src/discovery/discovery.scheduler.ts]: which agents are read and when, and
    what one turn does: a reading of the host, and after a complete one, and only
    then, recovery of what was left unfinished on it.

    The schedules are objects the map points to: a turn that is under way keeps its
    own when the agent disconnects and connects again, so they are kept in a heap.
    How long a timer waits is left out: an armed timer may fire. *)

From Stdlib Require Import Ascii String NArith ZArith.
From stdpp Require Import gmap strings list.
From S2P Require Import Prelude Schema Store Registry Effects Logic Discovery Detail.
From S2P Require Import StackDeployment StackLifecycle Reconciliation StackRecovery JsMap Capabilities.

(** ** One turn *)

Section pass.
Context `{Dates}.

Definition pass (agentId : string) : M unit :=
  try_catch
    (result ← sync agentId;
     if sync_complete result then
       Reconciliation.recoverHost (sync_hostId result);;
       StackRecovery.recoverHost (sync_hostId result);;
       mret tt
     else mret tt)
    (λ _, mret tt).

(** A request that changes nothing on a host. *)
Definition observes (m : Sent) : Prop := isMutating (sent_capability m) = false.

Lemma looks_observes m : looks m → observes m.
Proof.
  unfold looks, observes, isMutating. intros Hin. apply bool_decide_eq_false. intros Hm.
  revert Hm. apply elem_of_cons in Hin as [->|Hin]; [apply (bool_decide_unpack _); by vm_compute|].
  revert Hin. generalize (sent_capability m). intros c Hin. revert c Hin.
  apply (Forall_forall (λ c, c ∉ MUTATING_CAPABILITIES)).
  repeat (constructor; [apply (bool_decide_unpack _); by vm_compute|]). constructor.
Qed.

Lemma only_reads_looks m : only_reads m → looks m.
Proof. unfold only_reads, looks. intros H'. by right. Qed.

Lemma recoverHost_observes hostId :
  framed (sends observes) (Reconciliation.recoverHost hostId) ∧
  framed (on_db keeps_db_ok) (Reconciliation.recoverHost hostId) ∧
  framed same_locks (Reconciliation.recoverHost hostId).
Proof.
  pose proof reconcile_only_reads. pose proof reconcile_keeps_db_ok. pose proof reconcile_same_locks.
  assert (framed (sends only_reads) (Reconciliation.recoverHost hostId)) as Hr
    by (unfold Reconciliation.recoverHost, recoverContainer; frame).
  split_and!; [|unfold Reconciliation.recoverHost, recoverContainer; frame..].
  eapply sends_weaken; [|exact Hr]. intros x Hx. by apply looks_observes, only_reads_looks.
Qed.

Lemma stackRecovery_observes hostId : framed (sends observes) (StackRecovery.recoverHost hostId).
Proof. eapply sends_weaken; [apply looks_observes|apply recoverHost_sends]. Qed.

Lemma pass_observes agentId : framed (sends observes) (pass agentId).
Proof.
  pose proof stackRecovery_observes.
  assert (∀ h, framed (sends observes) (Reconciliation.recoverHost h)) by (intros h; apply recoverHost_observes).
  assert (framed (sends observes) (sync agentId)).
  { eapply sends_weaken; [|apply sync_sends]. intros x Hx. by apply looks_observes, only_reads_looks. }
  unfold pass. frame.
Qed.

(** What the two recoveries may do to the database, one after the other. *)
Definition recovers (hostId : string) (locks : MutationRegistry) (d d' : DB) : Prop :=
  ∃ d2, rtc (reconcile_step hostId locks (Reconciliation.unresolved hostId d)) d d2 ∧
    (ledger d' = ledger d2 ∨
     ∃ d3, read_back hostId d3 ∧ ledger d3 = ledger d2 ∧
       rtc (recovery_step locks (unfinishedDeployments hostId d2) (unfinishedOperations hostId d2)) d3 d').

Definition recover_both (hostId : string) : M unit :=
  Reconciliation.recoverHost hostId;; StackRecovery.recoverHost hostId;; mret tt.

Lemma recover_both_recovers hostId w r w' :
  db_ok (w_db w) → recover_both hostId w = (r, w') →
  w_registry w' = w_registry w ∧ db_ok (w_db w') ∧
  recovers hostId (w_registry w) (w_db w) (w_db w').
Proof.
  intros Hok E. destruct (recoverHost_observes hostId) as (_ & Hk & Hl).
  specialize (Hk w Hok). specialize (Hl w). unfold same_locks in Hl.
  unfold recover_both, mbind, M_bind in E.
  destruct (Reconciliation.recoverHost hostId w) as [r2 w2] eqn:E2. simpl in *.
  destruct (recoverHost_recovering _ _ _ _ E2) as [_ Hsteps].
  destruct r2 as [e2|n2].
  { injection E as <- <-. split_and!; try done. exists (w_db w2). by split; [|left]. }
  destruct (StackRecovery.recoverHost hostId w2) as [r3 w3] eqn:E3.
  destruct (recoverHost_steps _ _ _ _ Hk E3) as (Hl3 & Hok3 & Hst).
  assert (w3 = w') as <- by (destruct r3; by injection E).
  split_and!; [congruence|done|]. exists (w_db w2). split; [done|]. rewrite <-Hl.
  destruct Hst as [Hst|Hst]; [by left|by right].
Qed.

End pass.

(** ** The schedules *)

Module Schedules.

Record Schedule := {
  (** the timer is armed *)
  schedule_timer : bool;
  schedule_running : bool;
  schedule_stopped : bool
}.

#[export] Instance Schedule_settable : Settable Schedule := λ s, {|
  schedule_timer := schedule_timer s; schedule_running := schedule_running s;
  schedule_stopped := schedule_stopped s |}.

(** [schedules] points to an object by its address; [passes] are the turns under
    way, each with the agent and the object it started with. *)
Record Scheduler := {
  schedules : JsMap nat;
  objects : gmap nat Schedule;
  next_address : nat;
  passes : list (string * nat)
}.

#[export] Instance Scheduler_settable : Settable Scheduler := λ s, {|
  schedules := schedules s; objects := objects s; next_address := next_address s; passes := passes s |}.

Definition stop (agentId : string) (s : Scheduler) : Scheduler :=
  match jget agentId (schedules s) with
  | None => s
  | Some x =>
      s <| objects := alter (λ o, o <| schedule_stopped := true |> <| schedule_timer := false |>) x (objects s) |>
        <| schedules := jdelete agentId (schedules s) |>
  end.

Definition start (agentId : string) (s : Scheduler) : Scheduler :=
  let s := stop agentId s in
  s <| objects := <[next_address s := {| schedule_timer := true; schedule_running := false;
                                         schedule_stopped := false |}]> (objects s) |>
    <| schedules := jset agentId (next_address s) (schedules s) |>
    <| next_address := S (next_address s) |>.

Definition onApplicationShutdown (s : Scheduler) : Scheduler :=
  foldl (λ s agentId, stop agentId s) s (jkeys (schedules s)).

(** [run], until it waits for its turn to end.  The timer that called it is
    spent. *)
Definition run_begins (agentId : string) (s : Scheduler) : Scheduler :=
  match jget agentId (schedules s) with
  | None => s
  | Some x =>
      match objects s !! x with
      | None => s
      | Some o =>
          if negb (schedule_timer o) then s
          else
            let s := s <| objects := alter (λ o, o <| schedule_timer := false |>) x (objects s) |> in
            if schedule_stopped o || schedule_running o then s
            else s <| objects := alter (λ o, o <| schedule_running := true |>) x (objects s) |>
                   <| passes := passes s ++ [(agentId, x)] |>
      end
  end.

(** The rest of [run]: the turn of [agentId] that started with the object [x] is
    over. *)
Definition run_ends (agentId : string) (x : nat) (s : Scheduler) : Scheduler :=
  if bool_decide ((agentId, x) ∈ passes s) then
    let s := s <| passes := filter (λ e, e ≠ (agentId, x)) (passes s) |>
               <| objects := alter (λ o, o <| schedule_running := false |>) x (objects s) |> in
    match objects s !! x with
    | Some o =>
        if schedule_stopped o || negb (jhas agentId (schedules s)) then s
        else s <| objects := alter (λ o, o <| schedule_timer := true |>) x (objects s) |>
    | None => s
    end
  else s.

Inductive Event :=
  | Start (agentId : string)
  | Stop (agentId : string)
  | Timer (agentId : string)
  | PassEnds (agentId : string) (x : nat)
  | Shutdown.

Definition step (e : Event) (s : Scheduler) : Scheduler :=
  match e with
  | Start agentId => start agentId s
  | Stop agentId => stop agentId s
  | Timer agentId => run_begins agentId s
  | PassEnds agentId x => run_ends agentId x s
  | Shutdown => onApplicationShutdown s
  end.

Definition idle : Scheduler := {| schedules := []; objects := ∅; next_address := 0; passes := [] |}.

Definition run (events : list Event) : Scheduler := foldl (λ s e, step e s) idle events.

(** ** What holds of every state *)

Record Good (s : Scheduler) : Prop := {
  good_map : jmap_ok (schedules s);
  good_fresh x o : objects s !! x = Some o → x < next_address s;
  (** what the map points to is a schedule that was not stopped, of one agent *)
  good_live a x : jget a (schedules s) = Some x →
    ∃ o, objects s !! x = Some o ∧ schedule_stopped o = false ∧
      (schedule_timer o = negb (schedule_running o));
  good_one a b x : jget a (schedules s) = Some x → jget b (schedules s) = Some x → a = b;
  (** a stopped schedule is not armed, and one that was not is pointed to *)
  good_dead x o : objects s !! x = Some o →
    if schedule_stopped o then schedule_timer o = false else ∃ a, jget a (schedules s) = Some x;
  (** a turn under way marks its object, and an object has one turn *)
  good_pass a x : (a, x) ∈ passes s → ∃ o, objects s !! x = Some o ∧ schedule_running o = true ∧
    (schedule_stopped o = false → jget a (schedules s) = Some x);
  good_running x o : objects s !! x = Some o → schedule_running o = true → ∃ a, (a, x) ∈ passes s;
  good_passes : NoDup (passes s).*2
}.

Lemma alter_Some {A} (f : A → A) x y (m : gmap nat A) o :
  alter f x m !! y = Some o → ∃ o', m !! y = Some o' ∧ o = if bool_decide (y = x) then f o' else o'.
Proof.
  case_bool_decide as Hy; [subst y|]; [rewrite lookup_alter_eq|rewrite lookup_alter_ne by done]; [|by eauto].
  destruct (m !! x); [|done]. simpl. intros [= <-]. by eauto.
Qed.

Lemma alter_is {A} (f : A → A) x y (m : gmap nat A) o :
  m !! y = Some o → alter f x m !! y = Some (if bool_decide (y = x) then f o else o).
Proof.
  intros H. case_bool_decide as Hy; [subst; by rewrite lookup_alter_eq, H|by rewrite lookup_alter_ne].
Qed.

Lemma stop_good a s : Good s → Good (stop a s).
Proof.
  intros [G1 G2 G3 G4 G5 G6 G7 G8]. unfold stop. destruct (jget a (schedules s)) as [x|] eqn:Ea; [|done].
  split; simpl.
  - auto with jsmap.
  - intros y o (o' & Ho & _)%alter_Some. by eapply G2.
  - intros b y Hb. destruct (decide (b = a)) as [->|Hne]; [by rewrite jget_delete in Hb|].
    rewrite jget_delete_ne in Hb by done. destruct (G3 b y Hb) as (o & Ho & ?). exists o. split; [|done].
    rewrite (alter_is _ _ _ _ _ Ho). rewrite bool_decide_false; [done|]. intros ->. by destruct Hne, (G4 b a x).
  - intros b c y. destruct (decide (b = a)) as [->|]; [by rewrite jget_delete|].
    destruct (decide (c = a)) as [->|]; [by rewrite (jget_delete a)|]. rewrite !jget_delete_ne by done. apply G4.
  - intros y o (o' & Ho & ->)%alter_Some. case_bool_decide as Hy; [done|]. specialize (G5 y o' Ho).
    destruct (schedule_stopped o'); [done|]. destruct G5 as [b Hb]. exists b.
    rewrite jget_delete_ne; [done|]. intros ->. congruence.
  - intros b y Hp. destruct (G6 b y Hp) as (o & Ho & Hr & Hs).
    eexists. split; [exact (alter_is _ _ _ _ _ Ho)|]. case_bool_decide as Hy; [done|]. split; [done|]. intros H.
    rewrite jget_delete_ne; [by apply Hs|]. intros ->. specialize (Hs H). congruence.
  - intros y o (o' & Ho & ->)%alter_Some Hr. apply (G7 y o' Ho). by case_bool_decide.
  - done.
Qed.

Lemma stop_gone a s : jget a (schedules (stop a s)) = None.
Proof. unfold stop. destruct (jget a (schedules s)) eqn:E; [apply jget_delete|done]. Qed.

Lemma start_good a s : Good s → Good (start a s).
Proof.
  intros G%(stop_good a). pose proof (stop_gone a s) as Hn. unfold start. revert G Hn.
  generalize (stop a s). clear s. intros s [G1 G2 G3 G4 G5 G6 G7 G8] Hn.
  assert (Hx : objects s !! next_address s = None).
  { destruct (objects s !! next_address s) as [o|] eqn:E; [|done]. apply G2 in E. lia. }
  assert (Hold : ∀ b y, jget b (schedules s) = Some y → y ≠ next_address s).
  { intros b y Hb ->. destruct (G3 _ _ Hb) as (o & Ho & _). congruence. }
  split; simpl.
  - auto with jsmap.
  - intros y o. destruct (decide (y = next_address s)) as [->|Hy]; [lia|].
    rewrite lookup_insert_ne by done. intros Ho%G2. lia.
  - intros b y. destruct (decide (b = a)) as [->|Hb].
    + rewrite jget_set. intros [= <-]. rewrite lookup_insert_eq. by eauto.
    + rewrite jget_set_ne by done. intros Hj. rewrite lookup_insert_ne; [by apply G3 in Hj|].
      by eapply not_eq_sym, Hold.
  - intros b c y. destruct (decide (b = a)) as [->|Hb], (decide (c = a)) as [->|Hc];
      rewrite ?jget_set, ?jget_set_ne by done; try done.
    + intros [= <-] Hj. by apply Hold in Hj.
    + intros Hj [= <-]. by apply Hold in Hj.
    + apply G4.
  - intros y o. destruct (decide (y = next_address s)) as [->|Hy].
    + rewrite lookup_insert_eq. intros [= <-]. simpl. exists a. by rewrite jget_set.
    + rewrite lookup_insert_ne by done. intros Ho. specialize (G5 y o Ho).
      destruct (schedule_stopped o); [done|]. destruct G5 as [b Hb]. exists b.
      rewrite jget_set_ne; [done|]. intros ->. congruence.
  - intros b y Hp. destruct (G6 b y Hp) as (o & Ho & Hr & Hs). exists o.
    assert (y ≠ next_address s) by congruence. rewrite lookup_insert_ne by done. split_and!; [done..|].
    intros H'. rewrite jget_set_ne; [by apply Hs|]. intros ->. specialize (Hs H'). congruence.
  - intros y o. destruct (decide (y = next_address s)) as [->|Hy].
    + rewrite lookup_insert_eq. by intros [= <-].
    + rewrite lookup_insert_ne by done. apply G7.
  - done.
Qed.

Lemma run_begins_good a s : Good s → Good (run_begins a s).
Proof.
  intros G. pose proof G as [G1 G2 G3 G4 G5 G6 G7 G8]. unfold run_begins.
  destruct (jget a (schedules s)) as [x|] eqn:Ea; [|done].
  destruct (G3 a x Ea) as (o & Ho & Hst & Ht). rewrite Ho.
  destruct (schedule_timer o) eqn:Et; simpl; [|done].
  assert (schedule_running o = false) as Hr by (by destruct (schedule_running o)).
  rewrite Hst, Hr. simpl. rewrite alter_alter_eq. unfold compose.
  assert (Hx : ∀ b, (b, x) ∉ passes s).
  { intros b Hb. destruct (G6 b x Hb) as (o' & Ho' & Hr' & _). congruence. }
  split; simpl.
  - done.
  - intros y o' (o'' & Ho' & _)%alter_Some. by eapply G2.
  - intros b y Hb. destruct (G3 b y Hb) as (o' & Ho' & Hs' & Ht').
    eexists. split; [exact (alter_is _ _ _ _ _ Ho')|]. by case_bool_decide.
  - done.
  - intros y o' (o'' & Ho' & ->)%alter_Some. case_bool_decide as Hy; [subst y|by apply G5].
    replace o'' with o by congruence. simpl. rewrite Hst. by exists a.
  - intros b y [Hp|[= -> ->]%list_elem_of_singleton]%elem_of_app.
    + destruct (G6 b y Hp) as (o' & Ho' & Hr' & Hs'). eexists. split; [exact (alter_is _ _ _ _ _ Ho')|].
      by case_bool_decide.
    + eexists. split; [exact (alter_is _ _ _ _ _ Ho)|]. by rewrite bool_decide_true.
  - intros y o' (o'' & Ho' & ->)%alter_Some. case_bool_decide as Hy.
    + subst y. exists a. apply elem_of_app. right. by left.
    + intros Hr'. destruct (G7 y o'' Ho' Hr') as [b Hb]. exists b. apply elem_of_app. by left.
  - rewrite fmap_app. apply NoDup_app. split_and!; [done| |apply NoDup_singleton].
    intros y Hy ->%list_elem_of_singleton. apply list_elem_of_fmap in Hy as ([b z] & E & Hin).
    simpl in E. subst z. by apply (Hx b).
Qed.

Lemma NoDup_snd {A} (l : list (A * nat)) a b x : NoDup l.*2 → (a, x) ∈ l → (b, x) ∈ l → a = b.
Proof.
  induction l as [|[c y] l IH]; simpl; [by rewrite elem_of_nil|]. rewrite NoDup_cons, !elem_of_cons.
  intros [Hn Hl] [Ha|Ha] [Hb|Hb]; simplify_eq; try done.
  - destruct Hn. apply list_elem_of_fmap. by eexists (_, _).
  - destruct Hn. apply list_elem_of_fmap. by eexists (_, _).
  - by apply IH.
Qed.

Lemma NoDup_filter_snd {A} (P : A * nat → Prop) `{∀ x, Decision (P x)} (l : list (A * nat)) :
  NoDup l.*2 → NoDup (filter P l).*2.
Proof. intros Hl. eapply sublist_NoDup; [exact Hl|]. apply fmap_sublist, sublist_filter. Qed.

Lemma run_ends_good a x s : Good s → Good (run_ends a x s).
Proof.
  intros G. pose proof G as [G1 G2 G3 G4 G5 G6 G7 G8]. unfold run_ends.
  case_bool_decide as Hin; [|done]. destruct (G6 a x Hin) as (o & Ho & Hr & Hs).
  simpl. rewrite lookup_alter_eq, Ho. simpl.
  assert (Hpass : ∀ b y, (b, y) ∈ filter (λ e, e ≠ (a, x)) (passes s) → (b, y) ∈ passes s ∧ y ≠ x).
  { intros b y [Hne Hb]%list_elem_of_filter. split; [done|]. intros ->.
    apply Hne. f_equal. by eapply NoDup_snd. }
  assert (Hkeep : ∀ y o', objects s !! y = Some o' → schedule_running o' = true → y ≠ x →
            ∃ b, (b, y) ∈ filter (λ e, e ≠ (a, x)) (passes s)).
  { intros y o' Ho' Hr' Hy. destruct (G7 y o' Ho' Hr') as [b Hb]. exists b. apply list_elem_of_filter.
    split; [congruence|done]. }
  destruct (schedule_stopped o) eqn:Hst; simpl.
  - assert (Hn : ∀ b, jget b (schedules s) ≠ Some x).
    { intros b Hb. destruct (G3 b x Hb) as (o' & Ho' & Hs' & _). congruence. }
    split; simpl.
    + done.
    + intros y o' (o'' & Ho' & _)%alter_Some. by eapply G2.
    + intros b y Hb. destruct (G3 b y Hb) as (o' & Ho' & ?). exists o'. split; [|done].
      rewrite (alter_is _ _ _ _ _ Ho'), bool_decide_false; [done|]. intros ->. by apply (Hn b).
    + done.
    + intros y o' (o'' & Ho' & ->)%alter_Some. specialize (G5 y o'' Ho'). by case_bool_decide.
    + intros b y [Hp Hy]%Hpass. destruct (G6 b y Hp) as (o' & Ho' & ?). exists o'. split; [|done].
      by rewrite (alter_is _ _ _ _ _ Ho'), bool_decide_false.
    + intros y o' (o'' & Ho' & ->)%alter_Some. case_bool_decide as Hy; [done|]. intros Hr'. by eapply Hkeep.
    + by apply NoDup_filter_snd.
  - specialize (Hs eq_refl). rewrite (proj2 (jhas_true _ _)) by (by eexists). simpl.
    rewrite alter_alter_eq. unfold compose. split; simpl.
    + done.
    + intros y o' (o'' & Ho' & _)%alter_Some. by eapply G2.
    + intros b y Hb. destruct (G3 b y Hb) as (o' & Ho' & ?). eexists.
      split; [exact (alter_is _ _ _ _ _ Ho')|]. case_bool_decide; [simpl; naive_solver|done].
    + done.
    + intros y o' (o'' & Ho' & ->)%alter_Some. specialize (G5 y o'' Ho'). case_bool_decide as Hy; [|done].
      subst y. replace o'' with o in * by congruence. simpl. rewrite Hst. by exists a.
    + intros b y [Hp Hy]%Hpass. destruct (G6 b y Hp) as (o' & Ho' & ?). exists o'. split; [|done].
      by rewrite (alter_is _ _ _ _ _ Ho'), bool_decide_false.
    + intros y o' (o'' & Ho' & ->)%alter_Some. case_bool_decide as Hy; [done|]. intros Hr'. by eapply Hkeep.
    + by apply NoDup_filter_snd.
Qed.

Lemma run_good events : Good (run events).
Proof.
  unfold run. assert (Good idle) as G by (by split; simpl; try done; try constructor; intros ? ? []%not_elem_of_nil).
  revert G. generalize idle. induction events as [|e events IH]; intros s G; simpl; [done|]. apply IH.
  destruct e; simpl; [by apply start_good|by apply stop_good|by apply run_begins_good|by apply run_ends_good|].
  unfold onApplicationShutdown. generalize (jkeys (schedules s)). intros l. revert s G.
  induction l as [|a l IHl]; intros s G; simpl; [done|]. by apply IHl, stop_good.
Qed.

(** ** Theorems *)


(** The comment says passes cannot overlap for one agent.  An agent that connects
    again during its turn is given a new schedule, and a second turn begins while
    the first one is under way. *)
Theorem turns_overlap :
  passes (run [Start "agent-1"; Timer "agent-1"; Stop "agent-1"; Start "agent-1"; Timer "agent-1"])
  = [("agent-1", 0); ("agent-1", 1)].
Proof. by vm_compute. Qed.
End Schedules.

(** ** A turn that finds an abandoned deployment *)

#[local] Existing Instance one_moment.

Definition left_behind : World :=
  (restarted R2) <| w_replies := w_replies (restarted R2) ++ w_replies (restarted R2) |>.

Definition turn : (exn + unit) * World := pass "agent-1" left_behind.

