(* ===== verification/LogStream.v ===== *)
(** * Live container logs

    [api/src/logs/log-stream.service.ts] on top of the dispatcher ([Dispatch]): who
    may have how many streams, what a browser is given of what an agent sends, and
    the many ways a stream ends, of which exactly one is carried out.

    The service is driven by callbacks like the dispatcher, so it is a state
    machine over it: what the dispatcher tells the observer of a stream is handled
    as it is told.  [open] waits for the audit trail between admitting a stream and
    asking for it; [open_begins] and [dispatched] are its two halves.  Whether the trail
    could be written does not change what happens next, so an entry is an output.
    What [revalidate] reads of sessions, permissions and agents is its argument.  *)

From Stdlib Require Import Ascii String NArith ZArith.
From stdpp Require Import gmap strings list.
From S2P Require Import Prelude Schema Store Registry Effects Logic Discovery Detail StackDeployment.
From S2P Require Import JsMap Capabilities Protocol Dispatch.

(** ** Lines *)

Record LogLine := {
  line_stream : string;
  line_timestamp : option string;
  line_message : string;
  line_truncated : bool
}.

Definition readLine (entry : json) : LogLine := {|
  line_stream := if bool_decide (as_string (get entry "stream") = Some "stderr") then "stderr" else "stdout";
  line_timestamp := as_string (get entry "timestamp");
  line_message := as_string (get entry "message") ?? "";
  line_truncated := match get entry "truncated" with Some (JBool true) => true | _ => false end |}.

Definition readLines (payload : option json) : list LogLine :=
  match payload with
  | Some p => if is_object p then readLine <$> objects_of (get p "lines") else []
  | None => []
  end.

Definition agentEndCode (code : string) : string :=
  if bool_decide (code = "CONTAINER_NOT_FOUND") then "CONTAINER_NOT_FOUND"
  else if mem code ["DOCKER_UNAVAILABLE"; "DOCKER_PERMISSION_DENIED"] then "LOG_STREAM_UNAVAILABLE"
  else if bool_decide (code = "AGENT_CAPABILITY_UNSUPPORTED") then "CAPABILITY_UNSUPPORTED"
  else if bool_decide (code = "AGENT_NOT_CONNECTED") then "AGENT_OFFLINE"
  else if bool_decide (code = "AGENT_REQUEST_EXPIRED") then "LOG_STREAM_TIMEOUT"
  else "LOG_STREAM_UNAVAILABLE".

(** ** Targets *)

Record Target := {
  log_containerId : string;
  log_dockerId : string;
  log_name : string;
  log_hostId : string
}.

Definition resolve (containerId : string) : M Target :=
  row ← statement (λ d, inr (
    r ← containers d !! containerId; _ ← hosts d !! container_hostId r; Some r, d));
  match row with
  | None => notFound "CONTAINER_NOT_FOUND"
  | Some row =>
      if truthy (container_dockerId row)
      then mret {| log_containerId := container_id row; log_dockerId := container_dockerId row ?? "";
                   log_name := container_name row; log_hostId := container_hostId row |}
      else notFound "CONTAINER_NOT_FOUND"
  end.

Record LogQuery := {
  query_tail : Z;
  query_since : option string;
  query_timestamps : bool;
  query_stdout : bool;
  query_stderr : bool;
  query_follow : bool
}.

Definition query_payload (target : Target) (q : LogQuery) : json :=
  JObject [("containerId", JString (log_dockerId target)); ("tail", JNumber (query_tail q));
    ("since", JString (query_since q ?? "")); ("timestamps", JBool (query_timestamps q));
    ("stdout", JBool (query_stdout q)); ("stderr", JBool (query_stderr q));
    ("follow", JBool (query_follow q))].

(** ** The service *)

Class LogConfig := {
  LOG_STREAM_MAX_TOTAL : nat;
  LOG_STREAM_MAX_PER_USER : nat;
  LOG_STREAM_MAX_PER_AGENT : nat;
  LOG_STREAM_MAX_BUFFERED_BYTES : Z
}.

Record Active := {
  active_userId : string;
  active_agentId : string;
  active_containerId : string;
  active_sessionId : string;
  (** the request the dispatcher knows the stream by, once it was asked for *)
  active_handle : option string;
  active_closed : bool
}.

#[export] Instance Active_settable : Settable Active := λ a, {|
  active_userId := active_userId a; active_agentId := active_agentId a;
  active_containerId := active_containerId a; active_sessionId := active_sessionId a;
  active_handle := active_handle a; active_closed := active_closed a |}.

(** What a browser is given ([LogSink]), and the entries of the trail. *)
Inductive Effect_ :=
  | Sink_open (streamId : string)
  | Sink_lines (streamId : string) (lines : list LogLine)
  | Sink_dropped (streamId : string) (count : Z)
  | Sink_close (streamId reason : string) (code : option string)
  | Audit_opened (streamId : string)
  | Audit_closed (streamId reason : string).

(** [active] holds the identifiers of the map, in order; the objects, which
    closures keep, are in [log_streams]. *)
Record LogState := {
  log_dispatch : State;
  log_active : list string;
  log_streams : gmap string Active;
  (** what [sink.buffered()] answers *)
  log_buffered : gmap string Z;
  log_trace : list Effect_
}.

#[export] Instance LogState_settable : Settable LogState := λ s, {|
  log_dispatch := log_dispatch s; log_active := log_active s; log_streams := log_streams s;
  log_buffered := log_buffered s; log_trace := log_trace s |}.

Definition emits (e : Effect_) (s : LogState) : LogState := s <| log_trace := log_trace s ++ [e] |>.

Definition active_objects (s : LogState) : list Active := omap (λ i, log_streams s !! i) (log_active s).

(** ** Snapshots

    [snapshot] is a stream that does not follow, with a sink that collects; what the
    sink was given is what the service emitted for that stream. *)

Definition MAX_TAIL : nat := 5000.

Record Collected := {
  collected : list LogLine;
  collected_dropped : Z;
  (** how the promise was settled, with the code of the failure *)
  collected_end : option (option string)
}.

#[export] Instance Collected_settable : Settable Collected := λ c, {|
  collected := collected c; collected_dropped := collected_dropped c; collected_end := collected_end c |}.

Definition collect_line (c : Collected) (line : LogLine) : Collected :=
  if (length (collected c) <? MAX_TAIL)%nat then c <| collected := collected c ++ [line] |>
  else c <| collected_dropped := (collected_dropped c + 1)%Z |>.

Definition collect (streamId : string) (c : Collected) (e : Effect_) : Collected :=
  match e with
  | Sink_lines i lines => if bool_decide (i = streamId) then foldl collect_line c lines else c
  | Sink_dropped i count =>
      if bool_decide (i = streamId) then c <| collected_dropped := (collected_dropped c + count)%Z |> else c
  | Sink_close i _ code =>
      if bool_decide (i = streamId) && bool_decide (collected_end c = None)
      then c <| collected_end := Some code |> else c
  | Sink_open _ | Audit_opened _ | Audit_closed _ _ => c
  end.

Definition nothing_collected : Collected :=
  {| collected := []; collected_dropped := 0; collected_end := None |}.

(** What the caller gets, once the stream is over. *)
Definition snapshot (streamId : string) (effects : list Effect_) : option (exn + list LogLine * Z) :=
  let c := foldl (collect streamId) nothing_collected effects in
  match collected_end c with
  | None => None
  | Some code =>
      Some (if truthy code then inl (AppError (code ?? "") CONFLICT)
            else inr (collected c, collected_dropped c))
  end.

Section service.
Context `{LogConfig}.

(** The refusal, if a limit is reached. *)
Definition enforceLimits (userId agentId : string) (s : LogState) : bool :=
  let forUser := length (filter (λ a, active_userId a = userId) (active_objects s)) in
  let forAgent := length (filter (λ a, active_agentId a = agentId) (active_objects s)) in
  (LOG_STREAM_MAX_TOTAL <=? length (log_active s))%nat ||
  (LOG_STREAM_MAX_PER_USER <=? forUser)%nat || (LOG_STREAM_MAX_PER_AGENT <=? forAgent)%nat.

(** [open] until it waits for the trail.  Opening is recorded before anything is
    asked for. *)
Definition open_begins (target : Target) (userId agentId sessionId : string) (s : LogState)
    : (exn + string) * LogState :=
  if enforceLimits userId agentId s then (inl (AppError "LOG_STREAM_LIMIT_REACHED" CONFLICT), s)
  else
    let '(streamId, st) := draw (log_dispatch s) in
    let stream := {| active_userId := userId; active_agentId := agentId;
                     active_containerId := log_containerId target; active_sessionId := sessionId;
                     active_handle := None; active_closed := false |} in
    (inr streamId,
     emits (Audit_opened streamId)
       (s <| log_dispatch := st |> <| log_active := log_active s ++ [streamId] |>
          <| log_streams := <[streamId := stream]> (log_streams s) |>)).

(** [finish].  The notice a cancellation gives finds the stream closed already. *)
Definition finish (streamId reason : string) (code : option string) (s : LogState) : LogState :=
  match log_streams s !! streamId with
  | None => s
  | Some stream =>
      if active_closed stream then s
      else
        let st := match active_handle stream with
                  | Some requestId => cancelStream requestId (log_dispatch s)
                  | None => log_dispatch s
                  end in
        emits (Sink_close streamId reason code) (emits (Audit_closed streamId reason)
          (s <| log_streams := <[streamId := stream <| active_closed := true |>]> (log_streams s) |>
             <| log_active := filter (λ i, i ≠ streamId) (log_active s) |>
             <| log_dispatch := st |>))
  end.

(** [open] after the trail: the stream is asked for, or it ends here. *)
Definition dispatched (streamId : string) (target : Target) (q : LogQuery) (s : LogState)
    : (exn + unit) * LogState :=
  match log_streams s !! streamId with
  | None => (inr tt, s)
  | Some stream =>
      match openStream (active_agentId stream) "container.logs" (query_payload target q) (log_dispatch s) with
      | (inl e, st) =>
          (inl e, emits (Audit_closed streamId "failed")
                    (s <| log_dispatch := st |>
                       <| log_active := filter (λ i, i ≠ streamId) (log_active s) |>
                       <| log_streams := <[streamId := stream <| active_closed := true |>]> (log_streams s) |>))
      | (inr requestId, st) =>
          (inr tt, s <| log_dispatch := st |>
                     <| log_streams := <[streamId := stream <| active_handle := Some requestId |>]>
                                         (log_streams s) |>)
      end
  end.

(** The observer [open] gives the dispatcher. *)
Definition observe (streamId : string) (n : Notice) (s : LogState) : LogState :=
  match n with
  | Notice_started => emits (Sink_open streamId) s
  | Notice_chunk payload droppedByAgent =>
      let s := if (0 <? droppedByAgent)%Z then emits (Sink_dropped streamId droppedByAgent) s else s in
      let s := if bool_decide (readLines payload = []) then s
               else emits (Sink_lines streamId (readLines payload)) s in
      if (LOG_STREAM_MAX_BUFFERED_BYTES <? (log_buffered s !! streamId ?? 0))%Z
      then finish streamId "overflow" (Some "LOG_STREAM_OVERFLOW") s else s
  | Notice_ended reason error => finish streamId reason (agentEndCode ∘ failure_code <$> error) s
  end.

(** The stream a request was opened for. *)
Definition stream_of (requestId : string) (s : LogState) : option string :=
  fst <$> List.find (λ kv : string * Active, bool_decide (active_handle kv.2 = Some requestId))
            (map_to_list (log_streams s)).

Definition react (s : LogState) (o : Output) : LogState :=
  match o with
  | Notified requestId n =>
      match stream_of requestId s with Some streamId => observe streamId n s | None => s end
  | _ => s
  end.

(** Something the dispatcher does, and what it tells observers while doing it. *)
Definition through (f : State → State) (s : LogState) : LogState :=
  let st := f (log_dispatch s) in
  foldl react (s <| log_dispatch := st |>) (drop (length (trace (log_dispatch s))) (trace st)).

(** What [revalidate] finds, in the order it asks: the session, the permission, the
    agent, its connection.  An answer that could not be had is a failure. *)
Definition revalidation (session permission : option bool) (agent : option (option Agent))
    (connected : bool) : option (string * string) :=
  match session with
  | None => Some ("revalidation_failed", "LOG_STREAM_UNAVAILABLE")
  | Some false => Some ("session_ended", "SESSION_EXPIRED")
  | Some true =>
      match permission with
      | None => Some ("revalidation_failed", "LOG_STREAM_UNAVAILABLE")
      | Some false => Some ("permission_withdrawn", "PERMISSION_DENIED")
      | Some true =>
          match agent with
          | None => Some ("revalidation_failed", "LOG_STREAM_UNAVAILABLE")
          | Some None => Some ("agent_revoked", "AGENT_REVOKED")
          | Some (Some a) =>
              if bool_decide (agent_revokedAt a ≠ None) then Some ("agent_revoked", "AGENT_REVOKED")
              else if connected then None else Some ("agent_disconnected", "AGENT_OFFLINE")
          end
      end
  end.

Definition revalidate (streamId : string) (session permission : option bool) (agent : option (option Agent))
    (s : LogState) : LogState :=
  match log_streams s !! streamId with
  | Some stream =>
      if bool_decide (streamId ∈ log_active s) && negb (active_closed stream) then
        match revalidation session permission agent
                (jhas (active_agentId stream) (connections (log_dispatch s))) with
        | Some (reason, code) => finish streamId reason (Some code) s
        | None => s
        end
      else s
  | None => s
  end.

(** [handle?.cancel()] *)
Definition cancel_handle (s : LogState) (streamId : string) : LogState :=
  match log_streams s !! streamId with
  | Some stream =>
      match active_handle stream with
      | Some requestId => through (cancelStream requestId) s
      | None => s
      end
  | None => s
  end.

Definition of_agent (agentId : string) (s : LogState) : list string :=
  filter (λ i, active_agentId <$> log_streams s !! i = Some agentId) (log_active s).

Definition endStreamsOfAgent (agentId code message : string) (s : LogState) : nat * LogState :=
  let s := through (λ st, snd (endStreamsOf agentId code message st)) s in
  (length (of_agent agentId s), foldl cancel_handle s (of_agent agentId s)).

Definition onApplicationShutdown (s : LogState) : LogState :=
  (foldl cancel_handle s (log_active s)) <| log_active := [] |>.

Definition awaits_trail (streamId : string) (s : LogState) : bool :=
  match log_streams s !! streamId with
  | Some stream => bool_decide (active_handle stream = None) && negb (active_closed stream)
  | None => false
  end.

(** [open] has returned: its caller can end the stream and its timers run. *)
Definition is_running (streamId : string) (s : LogState) : bool :=
  match log_streams s !! streamId with
  | Some stream => bool_decide (active_handle stream ≠ None)
  | None => false
  end.

Inductive LogEvent :=
  | Admit (target : Target) (userId agentId sessionId : string)
  | Dispatched (streamId : string) (target : Target) (q : LogQuery)
  | Dispatcher (i : Input)
  | BrowserGone (streamId : string)
  | LifetimeOver (streamId : string)
  | Revalidate (streamId : string) (session permission : option bool) (agent : option (option Agent))
  | EndAgent (agentId code message : string)
  | Buffered (streamId : string) (bytes : Z)
  | Shutdown.

Definition log_step (e : LogEvent) (s : LogState) : LogState :=
  match e with
  | Admit target userId agentId sessionId => snd (open_begins target userId agentId sessionId s)
  | Dispatched streamId target q =>
      (* the half of [open] that comes once, after the trail *)
      if awaits_trail streamId s then snd (dispatched streamId target q s) else s
  | Dispatcher i => through (Dispatch.step i) s
  | BrowserGone streamId => if is_running streamId s then finish streamId "closed" None s else s
  | LifetimeOver streamId =>
      if is_running streamId s then finish streamId "timeout" (Some "LOG_STREAM_TIMEOUT") s else s
  | Revalidate streamId session permission agent =>
      if is_running streamId s then revalidate streamId session permission agent s else s
  | EndAgent agentId code message => snd (endStreamsOfAgent agentId code message s)
  | Buffered streamId bytes => s <| log_buffered := <[streamId := bytes]> (log_buffered s) |>
  | Shutdown => onApplicationShutdown s
  end.

Definition shuts (e : LogEvent) : bool := match e with Shutdown => true | _ => false end.

Definition no_streams : LogState := {|
  log_dispatch := Dispatch.initial; log_active := []; log_streams := ∅; log_buffered := ∅; log_trace := [] |}.

Definition log_run (events : list LogEvent) : LogState := foldl (λ s e, log_step e s) no_streams events.

(** ** The moves of the service *)

Definition opened_by (e : Effect_) : option string := match e with Audit_opened i => Some i | _ => None end.
Definition closed_by (e : Effect_) : option string := match e with Audit_closed i _ => Some i | _ => None end.
Definition told_by (e : Effect_) : option string := match e with Sink_close i _ _ => Some i | _ => None end.

Definition times (f : Effect_ → option string) (i : string) (s : LogState) : nat :=
  length (filter (λ j, j = i) (omap f (log_trace s))).

Definition forget_handle (a : Active) : Active := a <| active_handle := None |>.

Definition mark_closed (streamId : string) (stream : Active) (s : LogState) : LogState :=
  s <| log_streams := <[streamId := stream <| active_closed := true |>]> (log_streams s) |>
    <| log_active := filter (λ i, i ≠ streamId) (log_active s) |>.

(** [down]: the process is shutting down *)
Inductive lmove (down : bool) : LogState → LogState → Prop :=
  (** what a browser is shown, what the dispatcher does, a handle that is kept *)
  | lmove_quiet s s' new :
      log_active s' = log_active s → forget_handle <$> log_streams s' = forget_handle <$> log_streams s →
      (drawn (log_dispatch s) <= drawn (log_dispatch s'))%N → log_trace s' = log_trace s ++ new →
      omap opened_by new = [] → omap closed_by new = [] → omap told_by new = [] → lmove down s s'
  | lmove_open target u a x s i s' : open_begins target u a x s = (inr i, s') → lmove down s s'
  (** one of the ways a stream ends *)
  | lmove_close s i stream new st :
      log_streams s !! i = Some stream → active_closed stream = false →
      (drawn (log_dispatch s) <= drawn st)%N →
      omap opened_by new = [] → omap closed_by new = [i] → omap told_by new = [] ∨ omap told_by new = [i] →
      lmove down s ((mark_closed i stream s) <| log_dispatch := st |> <| log_trace := log_trace s ++ new |>)
  | lmove_clear s : down = true → lmove down s (s <| log_active := [] |>).

Lemma lmove_emit b e s :
  opened_by e = None → closed_by e = None → told_by e = None → lmove b s (emits e s).
Proof.
  intros H1 H2 H3. eapply (lmove_quiet _ _ _ [e]); simpl; try done; [by rewrite H1|by rewrite H2|by rewrite H3].
Qed.

Lemma finish_moves b i reason code s : rtc (lmove b) s (finish i reason code s).
Proof.
  unfold finish. destruct (log_streams s !! i) as [stream|] eqn:E; [|done].
  destruct (active_closed stream) eqn:Ec; [done|]. apply rtc_once.
  set (st := match active_handle stream with Some _ => _ | None => _ end).
  assert (Hd : (drawn (log_dispatch s) <= drawn st)%N).
  { unfold st. destruct (active_handle stream) as [id|]; [|done]. apply (step_drawn (Cancel id)). }
  assert (Em : emits (Sink_close i reason code) (emits (Audit_closed i reason)
      ((mark_closed i stream s) <| log_dispatch := st |>)) =
    (mark_closed i stream s) <| log_dispatch := st |>
      <| log_trace := log_trace s ++ [Audit_closed i reason; Sink_close i reason code] |>).
  { unfold emits. simpl. by rewrite <-app_assoc. }
  unfold mark_closed in Em. rewrite Em. eapply lmove_close; try done. by right.
Qed.

Lemma observe_moves b i n s : rtc (lmove b) s (observe i n s).
Proof.
  unfold observe. destruct n as [|payload dropped|reason error]; [by apply rtc_once, lmove_emit| |apply finish_moves].
  etrans; [|case_match; [apply finish_moves|done]].
  etrans; [|case_bool_decide; [done|by apply rtc_once, lmove_emit]].
  case_match; [by apply rtc_once, lmove_emit|done].
Qed.

Lemma foldl_lmoves {A} b (f : LogState → A → LogState) l s :
  (∀ s x, rtc (lmove b) s (f s x)) → rtc (lmove b) s (foldl f s l).
Proof.
  intros Hf. revert s. induction l as [|x l IH]; intros s; simpl; [done|]. etrans; [apply Hf|apply IH].
Qed.

Lemma react_moves b s o : rtc (lmove b) s (react s o).
Proof. unfold react. destruct o; try done. destruct (stream_of _ _); [apply observe_moves|done]. Qed.

Lemma through_moves b f s : (drawn (log_dispatch s) <= drawn (f (log_dispatch s)))%N → rtc (lmove b) s (through f s).
Proof.
  intros Hd. unfold through. eapply rtc_l.
  - eapply (lmove_quiet _ _ (s <| log_dispatch := f (log_dispatch s) |>) []); simpl; try done. by rewrite app_nil_r.
  - apply foldl_lmoves, react_moves.
Qed.

Lemma cancel_handle_moves b s i : rtc (lmove b) s (cancel_handle s i).
Proof.
  unfold cancel_handle. destruct (log_streams s !! i) as [stream|]; [|done].
  destruct (active_handle stream) as [id|]; [|done].
  apply through_moves. apply (step_drawn (Cancel id)).
Qed.

Lemma dispatched_moves b i target q s : awaits_trail i s = true → rtc (lmove b) s (snd (dispatched i target q s)).
Proof.
  unfold awaits_trail, dispatched. destruct (log_streams s !! i) as [stream|] eqn:E; [|done].
  intros [_ Hc%negb_true_iff]%andb_true_iff.
  pose proof (step_drawn (OpenStream (active_agentId stream) "container.logs" (query_payload target q))
    (log_dispatch s)) as Hd. simpl in Hd.
  destruct (openStream _ _ _ _) as [[e|id] st]; simpl in *; apply rtc_once.
  - exact (lmove_close b s i stream [Audit_closed i "failed"] st E Hc Hd eq_refl eq_refl (or_introl eq_refl)).
  - eapply (lmove_quiet _ _ _ []); simpl; try done; [|by rewrite app_nil_r].
    rewrite fmap_insert. apply insert_id. by rewrite lookup_fmap, E.
Qed.

Lemma log_step_moves e s : rtc (lmove (shuts e)) s (log_step e s).
Proof.
  destruct e as [target u a x|i target q|i|i|i|i session permission agent|a code message|i bytes|]; simpl;
    try (destruct (is_running i s); [|done]); try apply finish_moves.
  - destruct (open_begins target u a x s) as [[e|i] s'] eqn:E; simpl; [|by eapply rtc_once, lmove_open].
    unfold open_begins in E. destruct (enforceLimits u a s); by simplify_eq.
  - destruct (awaits_trail i s) eqn:E; [by apply dispatched_moves|done].
  - apply through_moves, step_drawn.
  - unfold revalidate. repeat (case_match; try done). apply finish_moves.
  - etrans; [apply (through_moves _ (λ st, snd (endStreamsOf a code message st))); apply (step_drawn (EndStreamsOf a code message))|].
    apply foldl_lmoves, cancel_handle_moves.
  - apply rtc_once. eapply (lmove_quiet _ _ _ []); simpl; try done. by rewrite app_nil_r.
  - unfold onApplicationShutdown. eapply rtc_r; [|by apply lmove_clear]. apply foldl_lmoves, cancel_handle_moves.
Qed.
(** ** What every state keeps *)

Definition owned (f : Active → string) (x : string) (s : LogState) : nat :=
  length (filter (λ a, f a = x) (active_objects s)).

Definition known_as (i : string) (s : LogState) : nat := 
  match log_streams s !! i with Some _ => 1 | None => 0 end.
Definition closed_as (i : string) (s : LogState) : nat :=
  match log_streams s !! i with Some a => if active_closed a then 1 else 0 | None => 0 end.

Record LogGood (s : LogState) : Prop := {
  good_nodup : NoDup (log_active s);
  good_open i : i ∈ log_active s → ∃ a, log_streams s !! i = Some a ∧ active_closed a = false;
  good_drawn i a : log_streams s !! i = Some a → drawn_before (drawn (log_dispatch s)) i;
  good_opened i : times opened_by i s = known_as i s;
  good_closed i : times closed_by i s = closed_as i s;
  good_told i : (times told_by i s <= times closed_by i s)%nat;
  good_total : (length (log_active s) <= LOG_STREAM_MAX_TOTAL)%nat;
  good_user u : (owned active_userId u s <= LOG_STREAM_MAX_PER_USER)%nat;
  good_agent a : (owned active_agentId a s <= LOG_STREAM_MAX_PER_AGENT)%nat
}.

Lemma times_app f i s s' new :
  log_trace s' = log_trace s ++ new → times f i s' = (times f i s + length (filter (λ j, j = i) (omap f new)))%nat.
Proof. intros E. unfold times. by rewrite E, omap_app, filter_app, length_app. Qed.

Lemma times_more f i s s' new l :
  log_trace s' = log_trace s ++ new → omap f new = l →
  times f i s' = (times f i s + length (filter (λ j, j = i) l))%nat.
Proof. intros E <-. by apply times_app. Qed.

Lemma forget_lookup s s' i a' :
  forget_handle <$> log_streams s' = forget_handle <$> log_streams s → log_streams s' !! i = Some a' →
  ∃ a, log_streams s !! i = Some a ∧ forget_handle a = forget_handle a'.
Proof.
  intros E Ha'. apply (f_equal (lookup i)) in E. rewrite !lookup_fmap, Ha' in E.
  destruct (log_streams s !! i) as [a|]; simpl in E; [|done]. exists a. split; [done|].
  symmetry. exact (inj Some _ _ E).
Qed.

Lemma forget_flags s s' i :
  forget_handle <$> log_streams s' = forget_handle <$> log_streams s →
  known_as i s' = known_as i s ∧ closed_as i s' = closed_as i s.
Proof.
  intros E. apply (f_equal (lookup i)) in E. rewrite !lookup_fmap in E. unfold known_as, closed_as.
  destruct (log_streams s !! i) as [a|], (log_streams s' !! i) as [a'|]; simpl in E; try done.
  injection E as _ _ _ _ Ec. by rewrite Ec.
Qed.

Lemma forget_objects s s' :
  log_active s' = log_active s → forget_handle <$> log_streams s' = forget_handle <$> log_streams s →
  forget_handle <$> active_objects s' = forget_handle <$> active_objects s.
Proof.
  intros Ea Es. unfold active_objects. rewrite Ea. clear Ea.
  induction (log_active s) as [|i l IH]; simpl; [done|]. apply (f_equal (lookup i)) in Es. rewrite !lookup_fmap in Es.
  destruct (log_streams s !! i), (log_streams s' !! i); simpl in *; try done.
  apply (inj Some) in Es. exact (f_equal2 cons Es IH).
Qed.

Lemma count_fmap (f : Active → string) x (g : Active → Active) l :
  (∀ a, f (g a) = f a) → length (filter (λ a, f a = x) (g <$> l)) = length (filter (λ a, f a = x) l).
Proof.
  intros Hg. induction l as [|a l IH]; [done|]. rewrite fmap_cons, !filter_cons.
  repeat case_decide; rewrite Hg in *; try done; cbn [length]; by rewrite IH.
Qed.

Lemma owned_quiet f x s s' :
  (∀ a, f (forget_handle a) = f a) →
  log_active s' = log_active s → forget_handle <$> log_streams s' = forget_handle <$> log_streams s →
  owned f x s' = owned f x s.
Proof.
  intros Hf Ea Es. unfold owned. rewrite <-(count_fmap f x forget_handle (active_objects s)) by done.
  rewrite <-(count_fmap f x forget_handle (active_objects s')) by done. by rewrite (forget_objects s s').
Qed.

Lemma filter_sublist {A} (P : A → Prop) `{∀ x, Decision (P x)} l1 l2 :
  l1 `sublist_of` l2 → filter P l1 `sublist_of` filter P l2.
Proof.
  induction 1 as [|x l1 l2 _ IH|x l1 l2 _ IH]; [done| |]; rewrite ?filter_cons; case_decide;
    by repeat constructor.
Qed.

Lemma owned_closed f x i a s s' :
  log_active s' = filter (λ j, j ≠ i) (log_active s) → log_streams s' = <[i := a]> (log_streams s) →
  (owned f x s' <= owned f x s)%nat.
Proof.
  intros Ea Es. unfold owned, active_objects. rewrite Ea, Es. clear Ea.
  apply sublist_length, filter_sublist.
  induction (log_active s) as [|j l IH]; simpl; [done|]. rewrite filter_cons. case_decide as Hj; simpl.
  - rewrite lookup_insert_ne by done. destruct (log_streams s !! j); [by constructor|done].
  - destruct (log_streams s !! j); [by constructor|done].
Qed.

Lemma quiet_good s s' new :
  LogGood s → log_active s' = log_active s →
  forget_handle <$> log_streams s' = forget_handle <$> log_streams s →
  (drawn (log_dispatch s) <= drawn (log_dispatch s'))%N → log_trace s' = log_trace s ++ new →
  omap opened_by new = [] → omap closed_by new = [] → omap told_by new = [] → LogGood s'.
Proof.
  intros G Ea Es Hd Et H1 H2 H3.
  assert (T : ∀ f i, omap f new = [] → times f i s' = times f i s).
  { intros f i Hf. rewrite (times_more f i s s' new [] Et Hf). simpl. lia. }
  split; rewrite ?Ea; try apply G.
  - intros i Hi. destruct (good_open s G i Hi) as (a & Ha & Hc).
    destruct (forget_lookup s' s i a) as (a' & Ha' & Hf); [done|done|]. exists a'. split; [done|].
    injection Hf as _ _ _ _ ->. done.
  - intros i a' Ha'. destruct (forget_lookup s s' i a') as (a & Ha & _); [done|done|].
    destruct (good_drawn s G i a Ha) as (k & Hk & ->). exists k. split; [lia|done].
  - intros i. rewrite T by done. rewrite (good_opened s G). symmetry. by apply forget_flags.
  - intros i. rewrite T by done. rewrite (good_closed s G). symmetry. by apply forget_flags.
  - intros i. rewrite !T by done. apply G.
  - intros u. rewrite (owned_quiet _ _ s s') by done. apply G.
  - intros u. rewrite (owned_quiet _ _ s s') by done. apply G.
Qed.

Lemma open_begins_inr target u a x s i s' :
  open_begins target u a x s = (inr i, s') →
  let stream := {| active_userId := u; active_agentId := a; active_containerId := log_containerId target;
                   active_sessionId := x; active_handle := None; active_closed := false |} in
  i = uuid (drawn (log_dispatch s)) ∧
  drawn (log_dispatch s') = (drawn (log_dispatch s) + 1)%N ∧
  log_active s' = log_active s ++ [i] ∧ log_streams s' = <[i := stream]> (log_streams s) ∧
  log_trace s' = log_trace s ++ [Audit_opened i] ∧
  (length (log_active s) < LOG_STREAM_MAX_TOTAL)%nat ∧
  (owned active_userId u s < LOG_STREAM_MAX_PER_USER)%nat ∧
  (owned active_agentId a s < LOG_STREAM_MAX_PER_AGENT)%nat.
Proof.
  unfold open_begins, enforceLimits. case_match eqn:E; [done|]. intros [= <- <-]. simpl.
  apply orb_false_iff in E as [[E1%Nat.leb_gt E2%Nat.leb_gt]%orb_false_iff E3%Nat.leb_gt].
  by split_and!.
Qed.

Lemma owned_admitted f x i a s s' :
  i ∉ log_active s → log_active s' = log_active s ++ [i] → log_streams s' = <[i := a]> (log_streams s) →
  owned f x s' = (owned f x s + if decide (f a = x) then 1 else 0)%nat.
Proof.
  intros Hi Ea Es. unfold owned, active_objects. rewrite Ea, Es, omap_app. simpl. rewrite lookup_insert_eq.
  rewrite filter_app, length_app, filter_cons, filter_nil. f_equal; [|by case_decide].
  f_equal. f_equal. apply list_omap_ext, Forall_Forall2_diag, Forall_forall. intros j Hj.
  apply lookup_insert_ne. by intros ->.
Qed.

Lemma open_begins_good target u a x s i s' :
  within (log_dispatch s') → LogGood s → open_begins target u a x s = (inr i, s') → LogGood s'.
Proof.
  intros Hw G (-> & Ed & Ea & Es & Et & Ht & Hu & Hg)%open_begins_inr.
  unfold within in Hw. set (i := uuid _) in *. set (n := drawn (log_dispatch s)) in *.
  assert (Hfresh : log_streams s !! i = None).
  { destruct (log_streams s !! i) as [b|] eqn:E; [|done]. destruct (good_drawn s G i b E) as (k & Hk & Hi).
    apply uuid_inj in Hi; lia. }
  assert (Hi : i ∉ log_active s).
  { intros Hi. destruct (good_open s G i Hi) as (b & Hb & _). congruence. }
  assert (T : ∀ f j l, omap f [Audit_opened i] = l →
            times f j s' = (times f j s + length (filter (λ k, k = j) l))%nat).
  { intros f j l. apply times_more, Et. }
  split.
  - rewrite Ea. apply NoDup_app. split_and!; [apply G| |apply NoDup_singleton].
    intros j Hj Hji%list_elem_of_singleton. by subst j.
  - intros j. rewrite Ea, Es. intros [Hj|Hj%list_elem_of_singleton]%elem_of_app; [|subst j].
    + rewrite lookup_insert_ne by (by intros ->). by apply G.
    + rewrite lookup_insert_eq. by eexists.
  - intros j b. rewrite Es, Ed. intros [[<- _]|[_ Hb]]%lookup_insert_Some; [by exists n; split; [lia|]|].
    destruct (good_drawn s G j b Hb) as (k & Hk & ->). exists k. split; [lia|done].
  - intros j. rewrite (T opened_by j [i]) by done. rewrite (good_opened s G). unfold known_as. rewrite Es.
    rewrite filter_cons, filter_nil. case_decide as Hj.
    + subst j. by rewrite lookup_insert_eq, Hfresh.
    + rewrite lookup_insert_ne by done. simpl. lia.
  - intros j. rewrite (T closed_by j []) by done. rewrite (good_closed s G). unfold closed_as. rewrite Es.
    simpl. destruct (decide (i = j)) as [<-|Hj]; [by rewrite lookup_insert_eq, Hfresh|].
    rewrite lookup_insert_ne by done. lia.
  - intros j. rewrite (T told_by j []), (T closed_by j []) by done. pose proof (good_told s G j). lia.
  - rewrite Ea, length_app. simpl. lia.
  - intros v. rewrite (owned_admitted _ v i _ s s' Hi Ea Es). pose proof (good_user s G v).
    simpl. case_decide; [subst|]; lia.
  - intros v. rewrite (owned_admitted _ v i _ s s' Hi Ea Es). pose proof (good_agent s G v).
    simpl. case_decide; [subst|]; lia.
Qed.

Lemma close_good s i stream new st :
  LogGood s → log_streams s !! i = Some stream → active_closed stream = false →
  (drawn (log_dispatch s) <= drawn st)%N →
  omap opened_by new = [] → omap closed_by new = [i] → omap told_by new = [] ∨ omap told_by new = [i] →
  LogGood ((mark_closed i stream s) <| log_dispatch := st |> <| log_trace := log_trace s ++ new |>).
Proof.
  intros G Hi Hc Hd H1 H2 H3.
  set (s' := (mark_closed i stream s) <| log_dispatch := st |> <| log_trace := log_trace s ++ new |>).
  assert (T : ∀ f j l, omap f new = l → times f j s' = (times f j s + length (filter (λ k, k = j) l))%nat).
  { intros f j l. by apply times_more. }
  assert (Hsub : log_active s' `sublist_of` log_active s) by apply sublist_filter.
  split.
  - eapply sublist_NoDup; [apply G|exact Hsub].
  - intros j. simpl. intros [Hj Hin]%list_elem_of_filter. rewrite lookup_insert_ne by done. by apply G.
  - intros j b. simpl. intros Hb. assert (Hj : is_Some (log_streams s !! j)).
    { apply lookup_insert_Some in Hb as [[<- _]|[_ Hb]]; [by exists stream|by exists b]. }
    destruct Hj as [b' Hb']. destruct (good_drawn s G j b' Hb') as (k & Hk & ->). exists k. split; [lia|done].
  - intros j. rewrite (T opened_by j []) by done. rewrite (good_opened s G). unfold known_as. simpl.
    destruct (decide (i = j)) as [<-|Hj]; [by rewrite lookup_insert_eq, Hi|].
    rewrite lookup_insert_ne by done. lia.
  - intros j. rewrite (T closed_by j [i]) by done. rewrite (good_closed s G). unfold closed_as. simpl.
    rewrite filter_cons, filter_nil. case_decide as Hj.
    + subst j. by rewrite lookup_insert_eq, Hi, Hc.
    + rewrite lookup_insert_ne by done. simpl. lia.
  - intros j. rewrite (T closed_by j [i]) by done. pose proof (good_told s G j).
    destruct H3 as [H3|H3]; rewrite (T told_by j _ H3); simpl; lia.
  - etrans; [apply sublist_length, Hsub|apply G].
  - intros v. etrans; [by apply (owned_closed _ v i (stream <| active_closed := true |>) s)|apply G].
  - intros v. etrans; [by apply (owned_closed _ v i (stream <| active_closed := true |>) s)|apply G].
Qed.

Lemma lmove_drawn b s s' : lmove b s s' → (drawn (log_dispatch s) <= drawn (log_dispatch s'))%N.
Proof.
  destruct 1 as [s s' new _ _ Hd|target u a x s i s' E|s i stream new st _ _ Hd|s]; try done.
  apply open_begins_inr in E as (_ & -> & _). lia.
Qed.

Lemma lmoves_drawn b s s' : rtc (lmove b) s s' → (drawn (log_dispatch s) <= drawn (log_dispatch s'))%N.
Proof. induction 1 as [|s1 s2 s3 Hm%lmove_drawn _ IH]; [done|lia]. Qed.

Lemma lmove_good b s s' : within (log_dispatch s') → LogGood s → lmove b s s' → LogGood s'.
Proof.
  intros Hw G. destruct 1 as [s s' new|target u a x s i s'|s i stream new st|s].
  - by eapply quiet_good.
  - by eapply open_begins_good.
  - by apply close_good.
  - destruct G. split; try done; simpl; [apply NoDup_nil_2|by intros i Hi%not_elem_of_nil|lia|..];
      intros; apply Nat.le_0_l.
Qed.

Lemma lmoves_good b s s' : within (log_dispatch s') → LogGood s → rtc (lmove b) s s' → LogGood s'.
Proof.
  intros Hw G Hms. induction Hms as [|s1 s2 s3 Hm Hms IH]; [done|]. apply IH; [done|].
  eapply lmove_good; [|done..]. unfold within in *. apply lmoves_drawn in Hms. lia.
Qed.

(** While the server runs, a stream that is not closed is in the map. *)
Definition held (s : LogState) : Prop := ∀ i a,
  log_streams s !! i = Some a → active_closed a = false → i ∈ log_active s.

Lemma lmove_held s s' : held s → lmove false s s' → held s'.
Proof.
  intros Hh. destruct 1 as [s s' new Ea Es|target u a x s i s' E|s i stream new st Hi Hc|s]; [| | |done].
  - intros i a' Ha' Hc. destruct (forget_lookup s s' i a' Es Ha') as (a & Ha & Hf). rewrite Ea.
    apply (Hh i a Ha). injection Hf as _ _ _ _ ->. done.
  - apply open_begins_inr in E as (_ & _ & Ea & Es & _). intros j b. rewrite Ea, Es, elem_of_app.
    intros [[<- _]|[_ Hb]]%lookup_insert_Some Hcb; [right; by left|left; by eapply Hh].
  - intros j b. simpl. intros [[<- <-]|[Hne Hb]]%lookup_insert_Some Hcb; [done|].
    apply list_elem_of_filter. split; [done|by eapply Hh].
Qed.

Lemma log_run_snoc events e : log_run (events ++ [e]) = log_step e (log_run events).
Proof. unfold log_run. by rewrite foldl_app. Qed.

Lemma log_run_good events : within (log_dispatch (log_run events)) → LogGood (log_run events).
Proof.
  induction events as [|e events IH] using rev_ind.
  - intros _. split; simpl; try done; [apply NoDup_nil_2|by intros i Hi%not_elem_of_nil|lia|..];
      intros; apply Nat.le_0_l.
  - rewrite log_run_snoc. intros Hw. pose proof (log_step_moves e (log_run events)) as Hms.
    assert (Hw' : within (log_dispatch (log_run events))).
    { unfold within in *. apply lmoves_drawn in Hms. lia. }
    eapply lmoves_good; [done|by apply IH|done].
Qed.

Lemma log_run_held events : existsb shuts events = false → held (log_run events).
Proof.
  induction events as [|e events IH] using rev_ind; [done|].
  rewrite existsb_app, log_run_snoc. simpl. intros [Hs [He _]%orb_false_iff]%orb_false_iff.
  pose proof (log_step_moves e (log_run events)) as Hms. rewrite He in Hms.
  generalize dependent (log_step e (log_run events)). specialize (IH Hs). revert IH.
  generalize (log_run events). intros s Hh s' Hms.
  induction Hms as [|s1 s2 s3 Hm _ IHm]; [done|]. apply IHm. by eapply lmove_held.
Qed.

(** ** The service and the dispatcher agree *)

(** A stream that is over stays over, and one that ends is told of. *)
Definition follows (d d' : State) : Prop :=
  (drawn d <= drawn d')%N ∧
  (∀ r, drawn_before (drawn d) r → jget r (streams d) = None → jget r (streams d') = None) ∧
  ∃ new, trace d' = trace d ++ new.

Lemma move_stays_over i d d' r :
  within d' → drawn_before (drawn d) r → jget r (streams d) = None → move i d d' → jget r (streams d') = None.
Proof.
  intros Hw (k & Hk & ->) Hn. destruct 1 as [d d' _ Es|d d' a c payload id E|d d' a c payload id E
    |d id p o Hp|d id s reason error Hs|d id s Hs|d id s m Hs]; simpl; try congruence.
  - apply request_inr in E as (? & ? & _ & _ & _ & Es & _). congruence.
  - apply openStream_inr in E as (? & ? & _ & -> & _ & -> & _ & Ed & _). unfold within in Hw.
    rewrite jget_set_ne; [done|]. intros E%uuid_inj; lia.
  - destruct (decide (uuid k = id)) as [->|]; [apply jget_delete|by rewrite jget_delete_ne].
  - rewrite jget_set_ne; congruence.
  - rewrite jget_set_ne; congruence.
Qed.

Lemma step_follows i d : within (step i d) → Tables d → Tables (step i d) ∧ follows d (step i d).
Proof.
  intros Hw T. apply (moves_keep (λ _, follows d)) with (inputs := [i]) (i := i) (st := d).
  - intros _ j d1 d2 _ Hw2 _ (Hd & Hr & new & Et) Hm. pose proof (move_drawn _ _ _ Hm).
    split_and!; [lia| |].
    + intros r Hb Hn. eapply move_stays_over; [done| |by apply Hr|done].
      destruct Hb as (k & Hk & ->). exists k. split; [lia|done].
    + apply move_trace in Hm as [new' ->]. rewrite Et. exists (new ++ new'). by rewrite app_assoc.
  - by left.
  - done.
  - done.
  - split_and!; [done|done|]. exists []. by rewrite app_nil_r.
  - apply step_moves; apply T.
Qed.

(** [rest] is what the observers have still to be told. *)
Record Agree (rest : list Output) (s : LogState) : Prop := {
  agree_tables : Tables (log_dispatch s);
  agree_drawn i a r : log_streams s !! i = Some a → active_handle a = Some r →
    drawn_before (drawn (log_dispatch s)) r;
  agree_inj i j a b r : log_streams s !! i = Some a → log_streams s !! j = Some b →
    active_handle a = Some r → active_handle b = Some r → i = j;
  agree_closed i a r : log_streams s !! i = Some a → active_handle a = Some r → active_closed a = true →
    jget r (streams (log_dispatch s)) = None;
  agree_open i a r : log_streams s !! i = Some a → active_handle a = Some r → active_closed a = false →
    is_Some (jget r (streams (log_dispatch s))) ∨ r ∈ omap over rest
}.

Lemma agree_same rest s s' :
  log_streams s' = log_streams s → log_dispatch s' = log_dispatch s → Agree rest s → Agree rest s'.
Proof. intros Es Ed [A1 A2 A3 A4 A5]. by split; rewrite ?Es, ?Ed. Qed.

(** The notices between two traces name what ended between them. *)
Lemma follows_over d d' r :
  Tables d → Tables d' → follows d d' → is_Some (jget r (streams d)) →
  is_Some (jget r (streams d')) ∨ r ∈ omap over (drop (length (trace d)) (trace d')).
Proof.
  intros T T' (_ & _ & new & Et) Hr%jget_key. rewrite Et, drop_app_length.
  assert (Ho : r ∈ omap opened (trace d)) by (rewrite (tables_opened _ T); apply elem_of_app; by right).
  assert (Ho' : r ∈ omap opened (trace d')) by (rewrite Et, omap_app; apply elem_of_app; by left).
  rewrite (tables_opened _ T'), Et, omap_app, !elem_of_app in Ho'.
  destruct Ho' as [[Hov|Hov]|Hk]; [|by right|left; by apply jget_key].
  exfalso. pose proof (tables_once _ T) as Hn. apply NoDup_app in Hn as (_ & _ & Hn).
  rewrite (tables_opened _ T) in Hn. apply NoDup_app in Hn as (_ & Hn & _). by apply (Hn r).
Qed.

Lemma agree_dispatch s d :
  Agree [] s → Tables d → follows (log_dispatch s) d →
  Agree (drop (length (trace (log_dispatch s))) (trace d)) (s <| log_dispatch := d |>).
Proof.
  intros [A1 A2 A3 A4 A5] T F. pose proof F as (Hd & Hr & _). split; simpl; try done.
  - intros i a r Hi Ha. destruct (A2 i a r Hi Ha) as (k & Hk & ->). exists k. split; [lia|done].
  - intros i a r Hi Ha Hc. apply Hr; eauto.
  - intros i a r Hi Ha Hc. apply follows_over; try done.
    destruct (A5 i a r Hi Ha Hc) as [?|Hn]; [done|]. by apply not_elem_of_nil in Hn.
Qed.

Lemma cancelStream_over r d : Tables d → jget r (streams (cancelStream r d)) = None.
Proof.
  intros T. unfold cancelStream. destruct (jget r (streams d)) as [x|] eqn:E; [|done].
  rewrite (tables_running _ T r x E).
  set (d' := if bool_decide _ then d else _). assert (Es : streams d' = streams d) by (unfold d'; by case_bool_decide).
  rewrite endStream_streams; [by rewrite bool_decide_true|]. rewrite Es. apply T.
Qed.

Lemma cancelStream_other r r' d :
  Tables d → r' ≠ r → jget r' (streams (cancelStream r d)) = jget r' (streams d).
Proof.
  intros T Hne. unfold cancelStream. destruct (jget r (streams d)) as [x|] eqn:E; [|done].
  rewrite (tables_running _ T r x E).
  set (d' := if bool_decide _ then d else _). assert (Es : streams d' = streams d) by (unfold d'; by case_bool_decide).
  rewrite endStream_streams; [by rewrite bool_decide_false, Es|]. rewrite Es. apply T.
Qed.

(** The handle of a stream that is closed is cancelled. *)
Lemma agree_close rest i a d s s' :
  Agree rest s → log_streams s !! i = Some a → Tables d → follows (log_dispatch s) d →
  (∀ r, active_handle a = Some r → jget r (streams d) = None) →
  (∀ r, active_handle a ≠ Some r → jget r (streams d) = jget r (streams (log_dispatch s))) →
  log_streams s' = <[i := a <| active_closed := true |>]> (log_streams s) → log_dispatch s' = d →
  Agree rest s'.
Proof.
  intros [A1 A2 A3 A4 A5] Hi T (Hd & Hr & _) Hgone Hother Es Ed.
  assert (L : ∀ j b, log_streams s' !! j = Some b → ∃ c, log_streams s !! j = Some c ∧
            active_handle b = active_handle c ∧ (active_closed b = false → j ≠ i ∧ active_closed c = false) ∧
            (active_closed b = true → j = i ∨ active_closed c = true)).
  { intros j b. rewrite Es. intros [[<- <-]|[Hne Hb]]%lookup_insert_Some; [exists a|exists b]; naive_solver. }
  split; rewrite ?Ed.
  - done.
  - intros j b r (c & Hc & -> & _)%L Hh. destruct (A2 j c r Hc Hh) as (k & Hk & ->). exists k. split; [lia|done].
  - intros j j' b b' r (c & Hc & -> & _)%L (c' & Hc' & -> & _)%L. by eapply A3.
  - intros j b r (c & Hc & -> & _ & Hcl)%L Hh Hb. destruct (Hcl Hb) as [->|Hcl'].
    + apply Hgone. congruence.
    + apply Hr; eauto.
  - intros j b r (c & Hc & -> & Hop & _)%L Hh Hb. destruct (Hop Hb) as [Hne Hcl].
    rewrite Hother; [by eapply A5|]. intros Ha. apply Hne. by eapply A3.
Qed.

Lemma finish_agree rest i reason code s :
  within (log_dispatch s) → Agree rest s →
  Agree rest (finish i reason code s) ∧
  (∀ a, log_streams (finish i reason code s) !! i = Some a → active_closed a = true) ∧
  (∀ j, active_handle <$> log_streams (finish i reason code s) !! j = active_handle <$> log_streams s !! j).
Proof.
  intros Hw A. unfold finish. destruct (log_streams s !! i) as [a|] eqn:Hi; [|by rewrite Hi].
  destruct (active_closed a) eqn:Hc; [rewrite Hi; split_and!; [done| |done]; by intros ? [= <-]|].
  simpl. rewrite lookup_insert_eq. split; [|split; [by intros ? [= <-]|]].
  - pose proof (agree_tables _ _ A) as T. destruct (active_handle a) as [r|] eqn:Hh.
    + assert (Hd : drawn (cancelStream r (log_dispatch s)) = drawn (log_dispatch s)).
      { unfold cancelStream. repeat (case_match; simpl; try done); by rewrite endStream_drawn. }
      destruct (step_follows (Cancel r) (log_dispatch s)) as [T' F]; [by unfold within; simpl; rewrite Hd|done|].
      eapply (agree_close rest i a); try done.
      * rewrite Hh. intros r' [= <-]. by apply cancelStream_over.
      * intros r' Hne. apply cancelStream_other; [done|congruence].
    + eapply (agree_close rest i a (log_dispatch s)); try done; [|by rewrite Hh].
      split_and!; [done|done|]. exists []. by rewrite app_nil_r.
  - intros j. destruct (decide (i = j)) as [<-|]; [by rewrite lookup_insert_eq, Hi|by rewrite lookup_insert_ne].
Qed.

Lemma finish_drawn i reason code s : drawn (log_dispatch (finish i reason code s)) = drawn (log_dispatch s).
Proof.
  unfold finish. destruct (log_streams s !! i) as [a|]; [|done]. destruct (active_closed a); [done|]. simpl.
  destruct (active_handle a) as [r|]; [|done]. unfold cancelStream.
  repeat (case_match; simpl; try done); by rewrite endStream_drawn.
Qed.

Lemma agree_told o rest s :
  Agree (o :: rest) s →
  (∀ r, over o = Some r → ∀ i a, log_streams s !! i = Some a → active_handle a = Some r → active_closed a = true) →
  Agree rest s.
Proof.
  intros [A1 A2 A3 A4 A5] Ho. split; try done. intros i a r Hi Hh Hc.
  destruct (A5 i a r Hi Hh Hc) as [?|Hin]; [by left|]. simpl in Hin.
  destruct (over o) as [r'|] eqn:E; [|by right]. apply elem_of_cons in Hin as [<-|]; [|by right].
  rewrite (Ho r eq_refl i a) in Hc by done. done.
Qed.

Lemma stream_of_Some r s i :
  stream_of r s = Some i → ∃ a, log_streams s !! i = Some a ∧ active_handle a = Some r.
Proof.
  unfold stream_of. destruct (List.find _ _) as [[j a]|] eqn:E; simpl; [|done]. intros [= ->].
  apply find_some in E as [Hin%list_elem_of_In%elem_of_map_to_list Hb%bool_decide_eq_true]. by exists a.
Qed.

Lemma stream_of_None r s i a :
  stream_of r s = None → log_streams s !! i = Some a → active_handle a ≠ Some r.
Proof.
  unfold stream_of. destruct (List.find _ _) as [[j b]|] eqn:E; simpl; [done|]. intros _ Hi Hh.
  assert (Hin : In (i, a) (map_to_list (log_streams s))) by by apply list_elem_of_In, elem_of_map_to_list.
  apply (find_none _ _ E) in Hin. by apply bool_decide_eq_false in Hin.
Qed.

Lemma observe_agree rest i n s :
  within (log_dispatch s) → Agree rest s →
  Agree rest (observe i n s) ∧ drawn (log_dispatch (observe i n s)) = drawn (log_dispatch s).
Proof.
  intros Hw A. destruct n as [|payload dropped|reason error]; simpl.
  - split; [by apply (agree_same rest s)|done].
  - set (s1 := if (0 <? dropped)%Z then _ else s).
    set (s2 := if bool_decide _ then s1 else _).
    assert (E : log_streams s2 = log_streams s ∧ log_dispatch s2 = log_dispatch s).
    { unfold s2, s1. by case_bool_decide; case_match. }
    destruct E as [Es Ed]. assert (A2 : Agree rest s2) by by apply (agree_same rest s).
    case_match; [|by rewrite Ed]. rewrite finish_drawn, Ed. split; [|done].
    apply finish_agree; [by rewrite Ed|done].
  - rewrite finish_drawn. split; [by apply finish_agree|done].
Qed.

Lemma react_agree o rest s :
  within (log_dispatch s) → Agree (o :: rest) s →
  Agree rest (react s o) ∧ drawn (log_dispatch (react s o)) = drawn (log_dispatch s).
Proof.
  intros Hw A. destruct o as [? ? ? ?|? ? ? ?|? ?|? ?|? ?|r n]; simpl; try (by split; [eapply agree_told|]).
  destruct (stream_of r s) as [i|] eqn:E.
  - destruct (observe_agree _ i n s Hw A) as [A' Hd]. split; [|done]. apply (agree_told _ _ _ A').
    destruct n as [|payload dropped|reason error]; simpl; try done. intros r' [= <-] j a Hj Hh.
    destruct (finish_agree _ i reason (agentEndCode ∘ failure_code <$> error) s Hw A) as (_ & Hc & Hk).
    assert (j = i) as ->; [|by apply Hc].
    apply stream_of_Some in E as (b & Hb & Hhb).
    pose proof (Hk j) as Hkj. simpl in Hj. rewrite Hj in Hkj. simpl in Hkj.
    destruct (log_streams s !! j) as [c|] eqn:Hcj; simpl in Hkj; [|done].
    eapply (agree_inj _ _ A); [done..| |done]. congruence.
  - split; [|done]. apply (agree_told _ _ _ A). destruct n; simpl; try done. intros r' [= <-] j a Hj Hh.
    by destruct (stream_of_None r s j a E Hj).
Qed.

Lemma reacts_agree l s :
  within (log_dispatch s) → Agree l s →
  Agree [] (foldl react s l) ∧ drawn (log_dispatch (foldl react s l)) = drawn (log_dispatch s).
Proof.
  revert s. induction l as [|o l IH]; intros s Hw A; simpl; [done|].
  destruct (react_agree o l s Hw A) as [A' Hd]. rewrite <-Hd. apply IH; [|done]. unfold within in *. by rewrite Hd.
Qed.

Lemma through_agree i s :
  within (log_dispatch (through (step i) s)) → Agree [] s → Agree [] (through (step i) s).
Proof.
  intros Hw A. unfold through in *.
  assert (Hw' : within (step i (log_dispatch s))).
  { unfold within in *. etrans; [|exact Hw].
    set (s' := s <| log_dispatch := step i (log_dispatch s) |>).
    change (step i (log_dispatch s)) with (log_dispatch s') at 1. apply (lmoves_drawn false).
    apply foldl_lmoves. intros s'' o. apply react_moves. }
  destruct (step_follows i (log_dispatch s) Hw' (agree_tables _ _ A)) as [T F].
  apply reacts_agree; [done|]. by apply agree_dispatch.
Qed.

Lemma cancel_handle_agree s i :
  within (log_dispatch (cancel_handle s i)) → Agree [] s → Agree [] (cancel_handle s i).
Proof.
  unfold cancel_handle. destruct (log_streams s !! i) as [a|]; [|done].
  destruct (active_handle a) as [r|]; [|done]. apply (through_agree (Cancel r)).
Qed.

Lemma cancel_handles_agree l s :
  within (log_dispatch (foldl cancel_handle s l)) → Agree [] s → Agree [] (foldl cancel_handle s l).
Proof.
  revert s. induction l as [|i l IH]; intros s Hw A; simpl; [done|]. apply IH; [done|].
  apply cancel_handle_agree; [|done]. unfold within in *. simpl in Hw. etrans; [|exact Hw].
  apply (lmoves_drawn false), foldl_lmoves, cancel_handle_moves.
Qed.

Lemma open_begins_agree target u a x s i s' : Agree [] s → open_begins target u a x s = (inr i, s') →
  log_streams s !! i = None → Agree [] s'.
Proof.
  intros A E Hfresh. pose proof (open_begins_inr target u a x s i s' E) as (_ & _ & _ & Es & _).
  assert (Ed : log_dispatch s' = snd (draw (log_dispatch s))).
  { unfold open_begins in E. destruct (enforceLimits u a s); [done|]. simpl in E. injection E as _ <-. done. }
  destruct A as [A1 A2 A3 A4 A5].
  assert (L : ∀ j b r, log_streams s' !! j = Some b → active_handle b = Some r → log_streams s !! j = Some b).
  { intros j b r. rewrite Es. by intros [[<- <-]|[_ ?]]%lookup_insert_Some. }
  split; rewrite ?Ed; simpl.
  - destruct A1 as [T1 T2 T3 T4 T5 T6 T7 T8]. split; simpl; try done. eapply drawn_before_le; [|done]. lia.
  - intros j b r Hj Hh. destruct (A2 j b r) as (k & Hk & ->); [by eapply L|done|]. exists k. split; [lia|done].
  - intros j j' b b' r Hj Hj' Hh Hh'. eapply A3; by eauto.
  - intros j b r Hj Hh. by eapply A4; eauto.
  - intros j b r Hj Hh. by eapply A5; eauto.
Qed.

Lemma dispatched_agree i target q s :
  within (log_dispatch (snd (dispatched i target q s))) → awaits_trail i s = true → Agree [] s →
  Agree [] (snd (dispatched i target q s)).
Proof.
  unfold awaits_trail, dispatched. destruct (log_streams s !! i) as [a|] eqn:Hi; [|done].
  intros Hw [Hh%bool_decide_eq_true Hc%negb_true_iff]%andb_true_iff A.
  destruct (openStream _ _ _ _) as [[e|r] d] eqn:E; simpl in *.
  - assert (d = log_dispatch s) as ->.
    { unfold openStream in E. destruct (negb _); [by simplify_eq|]. case_match; by simplify_eq. }
    eapply (agree_close [] i a (log_dispatch s)); try done; [apply A| |by rewrite Hh].
    split_and!; [done|done|]. exists []. by rewrite app_nil_r.
  - pose proof (step_follows (OpenStream (active_agentId a) "container.logs" (query_payload target q))
      (log_dispatch s)) as Hf. simpl in Hf. rewrite E in Hf. destruct Hf as [T F]; [done|apply A|].
    pose proof (openStream_inr _ _ _ _ _ _ E) as (c & m & _ & Er & _ & Es & _ & Ed & _).
    pose proof (agree_dispatch s d A T F) as [_ A2 A3 A4 A5]. destruct A as [_ A2' _ _ A5']. simpl in *.
    assert (Hfresh : ∀ j b, log_streams s !! j = Some b → active_handle b ≠ Some r).
    { intros j b Hj Hb. destruct (A2' j b r Hj Hb) as (k & Hk & Hr). unfold within in Hw. rewrite Er in Hr.
      apply uuid_inj in Hr; lia. }
    split; simpl; [done|..].
    + intros j b r' [[<- <-]|[_ Hb]]%lookup_insert_Some; simpl; [|by apply (A2 j)].
      intros [= <-]. exists (drawn (log_dispatch s)). split; [lia|done].
    + intros j j' b b' r' [[<- <-]|[_ Hb]]%lookup_insert_Some [[<- <-]|[_ Hb']]%lookup_insert_Some; simpl.
      * done.
      * intros [= <-] Hh'. by destruct (Hfresh _ _ Hb').
      * intros Hh' [= <-]. by destruct (Hfresh _ _ Hb).
      * by eapply A3.
    + intros j b r' [[<- <-]|[_ Hb]]%lookup_insert_Some; simpl; [congruence|by apply (A4 j)].
    + intros j b r' [[<- <-]|[_ Hb]]%lookup_insert_Some Hh' Hc'; left; rewrite Es.
      * simpl in Hh'. injection Hh' as <-. rewrite jget_set. by eexists.
      * rewrite jget_set_ne; [|intros ->; by destruct (Hfresh j b)].
        destruct (A5' j b r' Hb Hh' Hc') as [?|Hn]; [done|]. by apply not_elem_of_nil in Hn.
Qed.

Lemma log_step_agree e s :
  within (log_dispatch (log_step e s)) → LogGood s → Agree [] s → Agree [] (log_step e s).
Proof.
  intros Hw G A. assert (Hws : within (log_dispatch s)).
  { unfold within in *. pose proof (lmoves_drawn _ _ _ (log_step_moves e s)). lia. }
  destruct e as [target u a x|i target q|i|i|i|i session permission agent|a code message|i bytes|]; simpl in *;
    try (destruct (is_running i s); [|done]); try by apply finish_agree.
  - destruct (open_begins target u a x s) as [[e|i] s'] eqn:E; simpl in *.
    + unfold open_begins in E. destruct (enforceLimits u a s); by simplify_eq.
    + eapply open_begins_agree; [done..|]. apply open_begins_inr in E as (Ei & Ed & _).
      destruct (log_streams s !! i) as [b|] eqn:Hi; [|done].
      destruct (good_drawn s G i b Hi) as (k & Hk & Ek). unfold within in Hw. rewrite Ei in Ek.
      apply uuid_inj in Ek; lia.
  - destruct (awaits_trail i s) eqn:E; [by apply dispatched_agree|done].
  - by apply through_agree.
  - unfold revalidate. repeat (case_match; try done). by apply finish_agree.
  - apply cancel_handles_agree; [done|]. apply (through_agree (EndStreamsOf a code message)); [|done].
    unfold within in *. etrans; [|exact Hw]. apply (lmoves_drawn false), foldl_lmoves, cancel_handle_moves.
  - by apply (agree_same [] s).
  - apply (agree_same [] (foldl cancel_handle s (log_active s))); [done..|]. by apply cancel_handles_agree.
Qed.

Lemma log_run_agree events : within (log_dispatch (log_run events)) → Agree [] (log_run events).
Proof.
  induction events as [|e events IH] using rev_ind.
  - intros _. split; simpl; try done. split; try done; try constructor.
  - rewrite log_run_snoc. intros Hw. assert (Hw' : within (log_dispatch (log_run events))).
    { unfold within in *. pose proof (lmoves_drawn _ _ _ (log_step_moves e (log_run events))). lia. }
    apply log_step_agree; [done|by apply log_run_good|by apply IH].
Qed.

(** ** Theorems *)

(** The ceilings hold in every state the service can reach, whatever order requests,
    agents, timers and browsers act in: the streams open at once, those of one user
    and those of one agent are never more than configured. *)
Theorem limits_respected events :
  within (log_dispatch (log_run events)) →
  let s := log_run events in
  (length (log_active s) <= LOG_STREAM_MAX_TOTAL)%nat ∧
  (∀ userId, (owned active_userId userId s <= LOG_STREAM_MAX_PER_USER)%nat) ∧
  (∀ agentId, (owned active_agentId agentId s <= LOG_STREAM_MAX_PER_AGENT)%nat).
Proof. intros Hw s. pose proof (log_run_good events Hw) as G. split_and!; apply G. Qed.

(** The trail says of every stream once that it was opened and at most once that it
    was closed, and its reader is told at most once; and while the server runs, the
    trail says closed of exactly the streams that are no longer open. *)
Theorem recorded_once events i :
  within (log_dispatch (log_run events)) →
  let s := log_run events in
  (times closed_by i s <= times opened_by i s <= 1)%nat ∧
  (times told_by i s <= times closed_by i s)%nat ∧
  (existsb shuts events = false →
   times opened_by i s = (times closed_by i s + if decide (i ∈ log_active s) then 1 else 0)%nat).
Proof.
  intros Hw s. pose proof (log_run_good events Hw) as G. fold s in G.
  rewrite (good_opened s G), (good_closed s G) in *. pose proof (good_told s G i) as Ht.
  rewrite (good_closed s G) in Ht. split; [|split; [done|]].
  - unfold closed_as, known_as. destruct (log_streams s !! i) as [a|]; [destruct (active_closed a)|]; lia.
  - intros Hs%log_run_held. fold s in Hs. unfold closed_as, known_as.
    destruct (log_streams s !! i) as [a|] eqn:Hi.
    + destruct (active_closed a) eqn:Hc.
      * rewrite decide_False; [done|]. intros (b & Hb & Hcb)%(good_open s G). congruence.
      * rewrite decide_True; [done|]. by eapply Hs.
    + rewrite decide_False; [done|]. intros (b & Hb & _)%(good_open s G). congruence.
Qed.

End service.

(** ** Snapshots lose nothing silently *)

Definition lines_of (streamId : string) (e : Effect_) : list LogLine :=
  match e with Sink_lines i lines => if bool_decide (i = streamId) then lines else [] | _ => [] end.
Definition lost_of (streamId : string) (e : Effect_) : Z :=
  match e with Sink_dropped i count => if bool_decide (i = streamId) then count else 0%Z | _ => 0%Z end.

Fixpoint lines_given (streamId : string) (effects : list Effect_) : list LogLine :=
  match effects with [] => [] | e :: effects => lines_of streamId e ++ lines_given streamId effects end.
Fixpoint lost_by_agent (streamId : string) (effects : list Effect_) : Z :=
  match effects with [] => 0%Z | e :: effects => (lost_of streamId e + lost_by_agent streamId effects)%Z end.

Lemma take_take_app {A} n (l k : list A) : take n (take n l ++ k) = take n (l ++ k).
Proof.
  rewrite !take_app, take_take, length_take. f_equal; [f_equal; lia|]. f_equal. lia.
Qed.

Lemma collect_lines_spec c lines :
  (length (collected c) <= MAX_TAIL)%nat →
  let c' := foldl collect_line c lines in
  collected c' = take MAX_TAIL (collected c ++ lines) ∧ collected_end c' = collected_end c ∧
  (collected_dropped c' =
   collected_dropped c + Z.max 0 (Z.of_nat (length (collected c) + length lines) - Z.of_nat MAX_TAIL))%Z.
Proof.
  unfold collect_line. generalize MAX_TAIL. intros n.
  revert c. induction lines as [|line lines IH]; intros c Hc; cbn [foldl].
  - rewrite app_nil_r, take_ge by done. split_and!; try done. simpl. lia.
  - case_match eqn:E.
    + apply Nat.ltb_lt in E.
      destruct (IH (c <| collected := collected c ++ [line] |>)) as (E1 & E2 & E3);
        simpl; rewrite ?length_app; simpl; [lia|].
      cbv zeta in E1, E2, E3. rewrite E1, E2, E3. simpl. rewrite <-app_assoc, length_app. simpl.
      split_and!; try done. lia.
    + apply Nat.ltb_ge in E.
      destruct (IH (c <| collected_dropped := (collected_dropped c + 1)%Z |>)) as (E1 & E2 & E3); [done|].
      cbv zeta in E1, E2, E3. rewrite E1, E2, E3. simpl. rewrite !take_app_length' by lia.
      split_and!; try done. lia.
Qed.

Lemma collect_spec i effects c :
  (length (collected c) <= MAX_TAIL)%nat →
  let c' := foldl (collect i) c effects in
  collected c' = take MAX_TAIL (collected c ++ lines_given i effects) ∧
  (collected_dropped c' = collected_dropped c + lost_by_agent i effects +
   Z.max 0 (Z.of_nat (length (collected c) + length (lines_given i effects)) - Z.of_nat MAX_TAIL))%Z.
Proof.
  revert c. induction effects as [|e effects IH]; intros c Hc; cbn [foldl].
  - rewrite app_nil_r, take_ge by done. split; [done|]. simpl. lia.
  - assert (Hl : collected (collect i c e) = take MAX_TAIL (collected c ++ lines_of i e) ∧
      (collected_dropped (collect i c e) = collected_dropped c + lost_of i e +
       Z.max 0 (Z.of_nat (length (collected c) + length (lines_of i e)) - Z.of_nat MAX_TAIL))%Z).
    { assert (Hk : collected c = take MAX_TAIL (collected c ++ [])) by by rewrite app_nil_r, take_ge.
      destruct e as [j|j lines|j count|j reason code|j|j reason]; cbn [collect lines_of lost_of];
        repeat case_bool_decide; simpl; try (split; [done|lia]).
      destruct (collect_lines_spec c lines Hc) as (-> & _ & ->). split; [done|lia]. }
    destruct Hl as [Hl Hd]. destruct (IH (collect i c e)) as [E1 E2]; [rewrite Hl, length_take; lia|].
    cbv zeta in E1, E2. rewrite E1, E2, Hl, Hd. cbn [lines_given lost_by_agent]. split.
    + by rewrite app_assoc, take_take_app.
    + rewrite length_take, !length_app. lia.
Qed.

(** A snapshot is the first 5000 lines the agent sent, in order, with a count of
    every line that is missing: those the agent lost and those over the limit. *)
Theorem snapshot_accounts_for_lines i effects lines dropped :
  snapshot i effects = Some (inr (lines, dropped)) →
  lines = take MAX_TAIL (lines_given i effects) ∧
  (Z.of_nat (length lines) + dropped = Z.of_nat (length (lines_given i effects)) + lost_by_agent i effects)%Z.
Proof.
  unfold snapshot. destruct (collect_spec i effects nothing_collected) as [E1 E2]; [apply Nat.le_0_l|].
  destruct (collected_end _) as [code|]; [|done]. destruct (truthy code); [done|].
  intros [= <- <-]. cbv zeta in E1, E2. rewrite E1, E2, length_take. split; [done|].
  cbn [collected collected_dropped nothing_collected app length]. generalize MAX_TAIL. lia.
Qed.

(** *** Two streams: one the browser leaves, one that loses its agent *)

#[local] Instance small_config : LogConfig := {|
  LOG_STREAM_MAX_TOTAL := 2; LOG_STREAM_MAX_PER_USER := 1; LOG_STREAM_MAX_PER_AGENT := 2;
  LOG_STREAM_MAX_BUFFERED_BYTES := 1024 |}.

Definition web_target : Target :=
  {| log_containerId := "container-1"; log_dockerId := "docker-1"; log_name := "web"; log_hostId := "host-1" |}.
Definition whole_log : LogQuery :=
  {| query_tail := 100; query_since := None; query_timestamps := true; query_stdout := true;
     query_stderr := true; query_follow := true |}.

Definition one_line : json :=
  JObject [("lines", JArray [JObject [("stream", JString "stderr"); ("message", JString "ready")]])].

Definition two_streams : list LogEvent :=
  [Dispatcher (Register "agent-1" 1);
   Admit web_target "user-1" "agent-1" "session-1"; Dispatched (uuid 0) web_target whole_log;
   Admit web_target "user-1" "agent-1" "session-1";
   Admit web_target "user-2" "agent-1" "session-2"; Dispatched (uuid 3) web_target whole_log;
   Dispatcher (Received 1 (Msg_stream_started {| started_id := uuid 1;
     started_capability := "container.logs"; started_streamId := uuid 2 |}));
   Dispatcher (Received 1 (Msg_stream_chunk {| chunk_id := uuid 1; chunk_streamId := uuid 2; chunk_seq := 0;
     chunk_payload := Some one_line; chunk_dropped := 3 |}));
   BrowserGone (uuid 0); Dispatcher (Closed 1)].

Example two_streams_end : log_trace (log_run two_streams) =
  [Audit_opened (uuid 0); Audit_opened (uuid 3); Sink_open (uuid 0); Sink_dropped (uuid 0) 3;
   Sink_lines (uuid 0) [{| line_stream := "stderr"; line_timestamp := None; line_message := "ready";
                           line_truncated := false |}];
   Audit_closed (uuid 0) "closed"; Sink_close (uuid 0) "closed" None;
   Audit_closed (uuid 3) "failed"; Sink_close (uuid 3) "failed" (Some "AGENT_OFFLINE")].
Proof. by vm_compute. Qed.

Lemma two_streams_within : within (log_dispatch (log_run two_streams)).
Proof. by vm_compute. Defined.

Lemma limits_respected_witness : (length (log_active (log_run two_streams)) <= LOG_STREAM_MAX_TOTAL)%nat.
Proof. destruct (limits_respected two_streams two_streams_within) as (H & _). exact H. Defined.

Lemma recorded_once_witness : (times told_by (uuid 3) (log_run two_streams) <= 1)%nat.
Proof.
  destruct (recorded_once two_streams (uuid 3) two_streams_within) as ([H1 H2] & H3 & _).
  etrans; [exact H3|]. etrans; [exact H1|exact H2].
Defined.


Lemma snapshot_accounts_for_lines_witness :
  (1 + 3 = Z.of_nat (length (lines_given (uuid 0) (log_trace (log_run two_streams)))) +
   lost_by_agent (uuid 0) (log_trace (log_run two_streams)))%Z.
Proof.
  destruct (snapshot_accounts_for_lines (uuid 0) (log_trace (log_run two_streams))
    [{| line_stream := "stderr"; line_timestamp := None; line_message := "ready"; line_truncated := false |}] 3)
    as [_ H]; [by vm_compute|exact H].
Defined.
