(* ===== verification/EventStream.v ===== *)
(** * The event stream of a container's log

    [stream] of [api/src/logs/logs.controller.ts], which writes what the log service
    tells it as server-sent events, and [readEventStream], [failureCode] and [parseFrame] of
    [app/src/app/data/real-dockplane-api.ts], which read them in the browser: from bytes in chunks
    over characters and frames to events.

    Text is code points here.  The strings of the log service are bytes, and become what
    they say in UTF-8. *)

From Stdlib Require Import Ascii String NArith ZArith Lia.
From stdpp Require Import base gmap list strings pretty.
From S2P Require Import Prelude Schema Utf8 JsonText LogStream.

Local Open Scope N_scope.

Definition text_of_bytes (s : string) : list N := utf8_decode (points s).

(** ** What the server writes *)

(** A call of the [LogSink] the handler made. *)
Inductive SinkCall :=
  | Call_open (streamId : string)
  | Call_lines (lines : list LogLine)
  | Call_dropped (count : Z) (at_server : bool)
  | Call_close (reason : string) (code : option string).

(** The calls a stream's sink gets, of all the service does. *)
Definition sink_call (streamId : string) (e : Effect_) : option SinkCall :=
  match e with
  | Sink_open i => if bool_decide (i = streamId) then Some (Call_open i) else None
  | Sink_lines i lines => if bool_decide (i = streamId) then Some (Call_lines lines) else None
  | Sink_dropped i count => if bool_decide (i = streamId) then Some (Call_dropped count false) else None
  | Sink_close i reason code => if bool_decide (i = streamId) then Some (Call_close reason code) else None
  | Audit_opened _ | Audit_closed _ _ => None
  end.

Definition key (s : string) (v : value) : list N * value := (points s, v).

(** A member that is [undefined] is not written. *)
Definition if_there (s : string) (v : option value) : list (list N * value) :=
  match v with Some v => [key s v] | None => [] end.

Definition line_value (line : LogLine) : value := VObject (
  [key "stream" (VString (text_of_bytes (line_stream line)))] ++
  if_there "timestamp" (VString ∘ text_of_bytes <$> line_timestamp line) ++
  [key "message" (VString (text_of_bytes (line_message line)))] ++
  if_there "truncated" (if line_truncated line then Some (VBool true) else None)).

(** [String(n)] of a whole number *)
Definition whole_literal (n : Z) : list N :=
  (if (n <? 0)%Z then [45] else []) ++ points (pretty (Z.abs_N n)).

Definition event_name (c : SinkCall) : list N :=
  points match c with
  | Call_open _ => "open" | Call_lines _ => "lines" | Call_dropped _ _ => "dropped" | Call_close _ _ => "end"
  end.

Definition event_data (c : SinkCall) : value :=
  match c with
  | Call_open streamId => VObject [key "streamId" (VString (text_of_bytes streamId))]
  | Call_lines lines => VObject [key "lines" (VArray (line_value <$> lines))]
  | Call_dropped count at_server =>
      VObject [key "count" (VNumber (whole_literal count));
               key "where" (VString (points (if at_server then "server" else "agent")))]
  | Call_close reason code =>
      VObject (key "reason" (VString (text_of_bytes reason)) :: if_there "code" (VString ∘ text_of_bytes <$> code))
  end.

(** The response, the timer, and whether the log service's [stop] is known and was called. *)
Record Streaming := {
  str_written : list (list N);
  str_ended : bool;
  str_keepalive : bool;
  str_stop : bool;
  str_stopped : bool
}.

#[export] Instance Streaming_settable : Settable Streaming := λ s, {|
  str_written := str_written s; str_ended := str_ended s; str_keepalive := str_keepalive s;
  str_stop := str_stop s; str_stopped := str_stopped s |}.

Definition write (text : list N) (s : Streaming) : Streaming :=
  if str_ended s then s else s <| str_written := str_written s ++ [text] |>.

Definition event_frame (name : list N) (data : value) : list N :=
  points "event: " ++ name ++ [10] ++ points "data: " ++ stringify data.

Definition send (name : list N) (data : value) (s : Streaming) : Streaming :=
  write (event_frame name data ++ [10; 10]) s.

Definition keepalive_frame : list N := points ": keepalive".

Definition finish (s : Streaming) : Streaming := s <| str_keepalive := false |> <| str_ended := true |>.

Inductive HandlerEvent :=
  | Told (c : SinkCall)
  | Keepalive_due
  | Request_closed
  | Open_resolved
  | Open_rejected (code : option string).

Definition handle (s : Streaming) (e : HandlerEvent) : Streaming :=
  match e with
  | Told c =>
      let s := send (event_name c) (event_data c) s in
      match c with Call_close _ _ => finish s | _ => s end
  | Keepalive_due => if str_keepalive s then write (keepalive_frame ++ [10; 10]) s else s
  | Request_closed => finish (if str_stop s then s <| str_stopped := true |> else s)
  | Open_resolved => s <| str_stop := true |>
  | Open_rejected code =>
      finish (send (points "end") (VObject [key "reason" (VString (points "failed"));
        key "code" (VString (text_of_bytes (code ?? "LOG_STREAM_UNAVAILABLE")))]) s)
  end.

(** Headers sent, the timer armed. *)
Definition stream_started : Streaming :=
  {| str_written := []; str_ended := false; str_keepalive := true; str_stop := false; str_stopped := false |}.

Definition handled (events : list HandlerEvent) : Streaming := foldl handle stream_started events.

(** ** What the browser reads *)

Inductive LogNotice :=
  | Notice_open (streamId : list N)
  | Notice_lines (lines : list value)
  | Notice_dropped (count : list N) (at_server : bool)
  | Notice_end (reason : list N) (code : option (list N)).

(** What a regular expression takes for the end of a line. *)
Definition terminator (c : N) : bool := (c =? 10) || (c =? 13) || (c =? 8232) || (c =? 8233).

Fixpoint text_lines (l : list N) : list (list N) :=
  match l with
  | [] => [[]]
  | c :: l' =>
      if terminator c then [] :: text_lines l'
      else match text_lines l' with [] => [[c]] | line :: ls => (c :: line) :: ls end
  end.

(** [/^<field>(.+)$/m.exec(frame)?.[1]] *)
Definition frame_field (field : list N) (frame : list N) : option (list N) :=
  head (omap (λ line,
    if bool_decide (take (length field) line = field) && bool_decide (drop (length field) line ≠ [])
    then Some (drop (length field) line) else None) (text_lines frame)).

(** [data[name]], where the last member of a name counts *)
Definition prop (data : value) (name : string) : option value :=
  match data with
  | VObject fields => snd <$> last (filter (λ f, f.1 = points name) fields)
  | _ => None
  end.

(** What a frame is: an exception, nothing, or an event. *)
Inductive Parsed := Threw | Nothing | Read (n : LogNotice).

Section reading.
(** [String(n)] of the number a literal stands for. *)
Context (number_string : list N → list N).

(** [String(v)] *)
Fixpoint js_string (v : value) : list N :=
  match v with
  | VNull => points "null"
  | VBool true => points "true"
  | VBool false => points "false"
  | VNumber literal => number_string literal
  | VString s => s
  | VArray l => commas ((λ v, match v with VNull => [] | v => js_string v end) <$> l)
  | VObject _ => points "[object Object]"
  end.

(** [String(v ?? fallback)] *)
Definition string_or (v : option value) (fallback : string) : list N :=
  match v with Some VNull | None => points fallback | Some v => js_string v end.

Definition parseFrame (frame : list N) : Parsed :=
  match frame_field (points "event: ") frame, frame_field (points "data: ") frame with
  | Some name, Some payload =>
      match parse payload with
      | None => Nothing
      | Some VNull => Threw
      | Some data =>
          if bool_decide (name = points "open") then Read (Notice_open (string_or (prop data "streamId") ""))
          else if bool_decide (name = points "lines") then
            Read (Notice_lines match prop data "lines" with Some (VArray l) => l | _ => [] end)
          else if bool_decide (name = points "dropped") then
            Read (Notice_dropped match prop data "count" with Some (VNumber n) => n | _ => points "0" end
              match prop data "where" with Some (VString s) => bool_decide (s = points "server") | _ => false end)
          else if bool_decide (name = points "end") then
            Read (Notice_end (string_or (prop data "reason") "failed")
              match prop data "code" with Some (VString s) => Some s | _ => None end)
          else Nothing
      end
  | _, _ => Nothing
  end.

(** [buffer.indexOf('\n\n')], as what is before it and what is after. *)
Fixpoint next_frame (buffer : list N) : option (list N * list N) :=
  match buffer with
  | a :: ((b :: rest) as l) =>
      if (a =? 10) && (b =? 10) then Some ([], rest)
      else '(frame, rest) ← next_frame l; Some (a :: frame, rest)
  | _ => None
  end.

(** The inner loop: events, what is left, and whether reading a frame threw. A frame takes two characters at
    least, so the length is fuel enough. *)
Fixpoint drain (fuel : nat) (buffer : list N) : list LogNotice * list N * bool :=
  match fuel with
  | O => ([], buffer, false)
  | S fuel =>
      match next_frame buffer with
      | None => ([], buffer, false)
      | Some (frame, rest) =>
          match parseFrame frame with
          | Threw => ([], buffer, true)
          | Nothing => drain fuel rest
          | Read n => let '(ns, b, threw) := drain fuel rest in (n :: ns, b, threw)
          end
      end
  end.

(** What [reader.read()] gives; whether the request was aborted by then is asked on errors. *)
Inductive Arrival :=
  | Chunk (bytes : list N) (aborted : bool)
  | Body_ended
  | Read_failed (aborted : bool).

Definition network_unavailable (aborted : bool) : list LogNotice :=
  if aborted then [] else [Notice_end (points "failed") (Some (points "NETWORK_UNAVAILABLE"))].

(** [TextDecoder] leaves out a byte order mark at the very start. *)
Definition without_mark (started : bool) (text : list N) : list N :=
  match text with c :: t => if negb started && (c =? 65279) then t else text | [] => [] end.

(** The events given to the subscriber, and whether it was completed. *)
Fixpoint read_body (decoding : Decoding) (started : bool) (buffer : list N) (arrivals : list Arrival) : list LogNotice * bool :=
  match arrivals with
  | [] => ([], false)
  | Body_ended :: _ => ([], true)
  | Read_failed aborted :: _ => (network_unavailable aborted, true)
  | Chunk bytes aborted :: arrivals' =>
      let '(text, decoding') := decode_from decoding bytes in
      let buffer := buffer ++ without_mark started text in
      match drain (length buffer) buffer with
      | (ns, _, true) => (ns ++ network_unavailable aborted, true)
      | (ns, buffer', false) =>
          let '(ns', completed) := read_body decoding' (started || bool_decide (text ≠ [])) buffer' arrivals' in
          (ns ++ ns', completed)
      end
  end.

(** What [fetch] came to; [None] is a body that is not JSON. *)
Inductive Fetched :=
  | Unreachable (aborted : bool)
  | Refusal (status : Z) (body : option value)
  | Body (arrivals : list Arrival).

Definition failureCode (status : Z) (body : option value) : list N :=
  match body ≫= (λ v, prop v "code") with
  | Some (VString code) => code
  | _ => points (if bool_decide (status = 403%Z) then "PERMISSION_DENIED" else "LOG_STREAM_UNAVAILABLE")
  end.

Definition readEventStream (answer : Fetched) : list LogNotice * bool :=
  match answer with
  | Unreachable aborted => (network_unavailable aborted, negb aborted)
  | Refusal status body => ([Notice_end (points "failed") (Some (failureCode status body))], true)
  | Body arrivals => read_body at_rest false [] arrivals
  end.
End reading.

(** ** Characters *)

Section characters.
#[local] Ltac Zify.zify_post_hook ::= Z.to_euclidean_division_equations.

Lemma scalar_value_iff c : scalar_value c = true ↔ c < 55296 ∨ 57343 < c <= 1114111.
Proof.
  unfold scalar_value. rewrite orb_true_iff, andb_true_iff, !N.ltb_lt, N.leb_le. tauto.
Qed.

(** Whatever bytes follow, the character they end is one. *)
Fixpoint sound_from (n : nat) (lo hi cp : N) : Prop :=
  match n with
  | O => True
  | S m => ∀ b, lo <= b <= hi →
      let cp' := cp * 64 + b mod 64 in
      match m with O => scalar_value cp' = true | S _ => sound_from m 128 191 cp' end
  end.

Definition sound_decoding (s : Decoding) : Prop := sound_from (needed s) (lower_bound s) (upper_bound s) (code_point s).

Lemma in_range_true lo hi b : in_range lo hi b = true → lo <= b <= hi.
Proof. unfold in_range. rewrite andb_true_iff, !N.leb_le. done. Qed.

Lemma start_sound b : forallb scalar_value (start b).1 = true ∧ sound_decoding (start b).2.
Proof.
  unfold start. destruct (in_range 0 127 b) eqn:E1.
  { apply in_range_true in E1. split; [|done]. simpl. rewrite andb_true_r. apply scalar_value_iff. lia. }
  unfold sound_decoding. destruct (in_range 194 223 b) eqn:E2; [|destruct (in_range 224 239 b) eqn:E3; [|destruct (in_range 240 244 b) eqn:E4; [|done]]].
  - apply in_range_true in E2. split; [done|]. change 31 with (N.ones 5). rewrite low_bits. cbn.
    intros c Hc. apply scalar_value_iff. lia.
  - apply in_range_true in E3. split; [done|]. change 15 with (N.ones 4). rewrite low_bits. cbn.
    intros c Hc d Hd. apply scalar_value_iff. destruct (N.eqb_spec b 224), (N.eqb_spec b 237); lia.
  - apply in_range_true in E4. split; [done|]. change 7 with (N.ones 3). rewrite low_bits. cbn.
    intros c Hc d Hd e He. apply scalar_value_iff. destruct (N.eqb_spec b 240), (N.eqb_spec b 244); lia.
Qed.
End characters.

Lemma decode_byte_sound s b :
  sound_decoding s → forallb scalar_value (decode_byte s b).1 = true ∧ sound_decoding (decode_byte s b).2.
Proof.
  unfold sound_decoding, decode_byte. destruct s as [n lo hi cp]. cbn [needed lower_bound upper_bound code_point].
  destruct n as [|n]; intros Hs; [apply start_sound|]. destruct (in_range lo hi b) eqn:Eb.
  - apply in_range_true, Hs in Eb. rewrite push_six. cbv zeta in Eb. destruct n as [|n]; [|done].
    split; [|done]. cbn. by rewrite Eb.
  - pose proof (start_sound b) as [H1 H2]. destruct (start b) as [out s']. cbn in *. by rewrite H1.
Qed.

(** Bytes say characters, whatever they are. *)
Lemma decode_from_sound s l :
  sound_decoding s → forallb scalar_value (decode_from s l).1 = true.
Proof.
  revert s. induction l as [|b l IH]; intros s Hs; [done|]. cbn [decode_from].
  destruct (decode_byte_sound s b Hs) as [H1 H2]. destruct (decode_byte s b) as [out s']. cbn in H1, H2.
  specialize (IH s' H2). destruct (decode_from s' l) as [out' s'']. cbn in *. by rewrite forallb_app, H1.
Qed.

Lemma scalar_of c : scalar_value c = true → scalar c = true.
Proof.
  rewrite scalar_value_iff. intros H. unfold scalar, surrogate.
  rewrite (proj2 (N.leb_le c 1114111)), andb_true_r by lia.
  destruct (N.leb_spec 55296 c), (N.leb_spec c 57343); [lia|done..].
Qed.

Lemma text_of_bytes_ok s : text_ok (text_of_bytes s) = true.
Proof.
  unfold text_ok, text_of_bytes, utf8_decode. pose proof (decode_from_sound at_rest (points s) I) as H.
  destruct (decode_from at_rest (points s)) as [out s']. cbn in H. rewrite forallb_app. apply andb_true_intro. split.
  - apply forallb_Forall. apply forallb_Forall in H. eapply Forall_impl; [exact H|]. apply scalar_of.
  - by destruct (needed s').
Qed.

(** *** Numbers *)

Lemma decimal_digit c : decimal (N_of_ascii c) = is_digit c.
Proof. done. Qed.

Lemma pretty_char_decimal d : d < 10 → decimal (N_of_ascii (pretty_N_char d)) = true ∧ (0 < d → N_of_ascii (pretty_N_char d) ≠ 48).
Proof.
  intros Hd. assert (∃ k, (k < 10)%nat ∧ d = N.of_nat k) as (k & Hk & ->) by (exists (N.to_nat d); lia).
  do 10 (destruct k as [|k]; [by vm_compute|]). lia.
Qed.

Lemma pretty_go_decimal x s :
  0 < x → forallb decimal (points s) = true →
  ∃ d r, points (pretty_N_go x s) = d :: r ∧ d ≠ 48 ∧ decimal d = true ∧ forallb decimal r = true.
Proof.
  revert s. induction (N.lt_wf_0 x) as [x _ IH]; intros s Hx Hs. rewrite pretty_N_go_step by done.
  destruct (pretty_char_decimal (x `mod` 10)) as [Hd Hz]; [by apply N.mod_lt|].
  destruct (decide (0 < x `div` 10)) as [Hq|Hq].
  - apply IH; [apply N.div_lt; lia|done|]. unfold points. cbn. by rewrite Hd.
  - assert (x `div` 10 = 0) as E by (apply N.le_0_r, N.nlt_ge, Hq). rewrite E, pretty_N_go_0. eexists _, _. split; [done|].
    split; [apply Hz; pose proof (N.div_mod x 10 ltac:(done)); lia|done].
Qed.

Lemma decimal_numeric c : decimal c = true → numeric c = true.
Proof. unfold decimal, numeric. by intros ->. Qed.

Lemma span_decimal l : forallb decimal l = true → span decimal l = (l, []).
Proof. intros H. rewrite <-(app_nil_r l) at 1. by apply span_prefix. Qed.

Lemma forallb_weaken (p q : N → bool) l : (∀ c, p c = true → q c = true) → forallb p l = true → forallb q l = true.
Proof. intros Hpq. rewrite !forallb_forall. eauto. Qed.

Lemma whole_literal_ok n : literal_ok (whole_literal n) = true.
Proof.
  assert (Hp : ∀ m : N, ∃ d r, points (pretty m) = d :: r ∧ (d ≠ 48 ∨ r = []) ∧ decimal d = true ∧ forallb decimal r = true).
  { intros m. unfold pretty, pretty_N. case_decide as Hm; [by exists 48, []; auto|].
    destruct (pretty_go_decimal m "") as (d & r & E & Hd & H1 & H2); [lia|done|]. exists d, r. auto. }
  destruct (Hp (Z.abs_N n)) as (d & r & E & Hd & H1 & H2). unfold whole_literal, literal_ok. rewrite E.
  assert (Hd45 : d ≠ 45) by (intros ->; by vm_compute in H1).
  assert (Hdr : forallb decimal (d :: r) = true) by (apply andb_true_intro; done).
  assert (Hn : number_ok (d :: r) = true ∧ number_ok (45 :: d :: r) = true).
  { unfold number_ok. rewrite (proj2 (N.eqb_neq d 45)) by done. cbn [N.eqb Pos.eqb]. rewrite (span_decimal _ Hdr).
    rewrite andb_true_r. destruct Hd as [Hd|Hd].
    - by rewrite (proj2 (N.eqb_neq d 48)).
    - rewrite (bool_decide_eq_true_2 _ Hd), orb_true_r. done. }
  destruct Hn as [Hn1 Hn2]. assert (forallb numeric (d :: r) = true) as Hnum.
  { by apply (forallb_weaken decimal _ _ decimal_numeric). }
  destruct (n <? 0)%Z; cbn [app]; [by rewrite Hn2|by rewrite Hn1].
Qed.

(** ** Frames *)

Lemma next_frame_line line l :
  forallb (λ c, negb (c =? 10)) line = true → line ≠ [] → l ≠ [] →
  next_frame (line ++ l) = '(frame, rest) ← next_frame l; Some (line ++ frame, rest).
Proof.
  intros Hl Hne Hl0. induction line as [|c line IH]; [done|]. apply andb_prop in Hl as [Hc Hl]. apply negb_true_iff in Hc.
  assert (E : next_frame (c :: (line ++ l)) = '(frame, rest) ← next_frame (line ++ l); Some (c :: frame, rest)).
  { cbn [next_frame]. destruct (line ++ l) as [|b m] eqn:Em; [by apply app_eq_nil in Em as [_ ->]|]. by rewrite Hc. }
  cbn [app]. rewrite E. destruct line as [|d line].
  - cbn [app]. by destruct (next_frame l) as [[f r]|].
  - rewrite IH by done. by destruct (next_frame l) as [[f r]|].
Qed.

(** A frame of two lines, or of one, ends where the blank line begins. *)
Lemma next_frame_one line rest :
  forallb (λ c, negb (c =? 10)) line = true → line ≠ [] → next_frame (line ++ 10 :: 10 :: rest) = Some (line, rest).
Proof. intros. rewrite next_frame_line by done. cbn. by rewrite app_nil_r. Qed.

Lemma next_frame_two line line' rest :
  forallb (λ c, negb (c =? 10)) line = true → line ≠ [] →
  forallb (λ c, negb (c =? 10)) line' = true → line' ≠ [] →
  next_frame (line ++ 10 :: line' ++ 10 :: 10 :: rest) = Some (line ++ 10 :: line', rest).
Proof.
  intros. rewrite next_frame_line by done. destruct line' as [|d line']; [done|].
  assert (Hd : (d =? 10) = false) by (apply negb_true_iff; by apply andb_prop in H1 as [? _]).
  assert (E : next_frame (10 :: (d :: line') ++ 10 :: 10 :: rest) =
    '(frame, rest) ← next_frame ((d :: line') ++ 10 :: 10 :: rest); Some (10 :: frame, rest)).
  { cbn [app next_frame]. by rewrite Hd. }
  by rewrite E, next_frame_one by done.
Qed.

Lemma next_frame_app b c f r : next_frame b = Some (f, r) → next_frame (b ++ c) = Some (f, r ++ c).
Proof.
  revert f r. induction b as [|x b IH]; intros f r; [done|]. cbn [next_frame]. destruct b as [|y b]; [done|].
  cbn [app next_frame]. destruct ((x =? 10) && (y =? 10)); [by intros [= <- <-]|].
  intros ([f' r'] & E & [= <- <-])%bind_Some. cbn [next_frame app] in IH. by rewrite (IH f' r' E).
Qed.

Lemma next_frame_length b f r : next_frame b = Some (f, r) → (length r < length b)%nat.
Proof.
  revert f r. induction b as [|x b IH]; intros f r; [done|]. cbn [next_frame]. destruct b as [|y b]; [done|].
  destruct ((x =? 10) && (y =? 10)); [intros [= <- <-]; simpl; lia|].
  intros ([f' r'] & E & [= <- <-])%bind_Some. specialize (IH _ _ E). simpl in *. lia.
Qed.

(** A text is cut into frames, and what is left of it. *)
Inductive cuts : list N → list (list N) → list N → Prop :=
  | cuts_done b : next_frame b = None → cuts b [] b
  | cuts_frame b f b' fs r : next_frame b = Some (f, b') → cuts b' fs r → cuts b (f :: fs) r.

Lemma cuts_total b : ∃ fs r, cuts b fs r.
Proof.
  remember (length b) as n eqn:Hn. revert b Hn. induction (lt_wf n) as [n _ IH]. intros b ->.
  destruct (next_frame b) as [[f b']|] eqn:E; [|by exists [], b; constructor].
  destruct (IH (length b') (next_frame_length _ _ _ E) b' eq_refl) as (fs & r & H). exists (f :: fs), r. by econstructor.
Qed.

Lemma cuts_fun b fs r fs' r' : cuts b fs r → cuts b fs' r' → fs = fs' ∧ r = r'.
Proof.
  intros H. revert fs' r'. induction H as [b E|b f b' fs r E _ IH]; intros fs' r'; inversion 1; simplify_eq; [done|].
  destruct (IH _ _ ltac:(eassumption)) as [-> ->]. done.
Qed.

Lemma cuts_left b fs r : cuts b fs r → next_frame r = None.
Proof. by induction 1. Qed.

(** How a text is cut does not depend on what has arrived of it when. *)
Lemma cuts_app b c fs r fs' r' : cuts b fs r → cuts (r ++ c) fs' r' → cuts (b ++ c) (fs ++ fs') r'.
Proof. induction 1 as [b E|b f b' fs r E _ IH]; [done|]. intros. econstructor; [by apply next_frame_app|by apply IH]. Qed.

(** ** What is said is heard *)

Section heard.
Context (number_string : list N → list N).
Notation parseFrame := (parseFrame number_string).
Notation drain := (drain number_string).
Notation read_body := (read_body number_string).

(** The events of frames, if reading none of them throws. *)
Fixpoint notices_of (frames : list (list N)) : option (list LogNotice) :=
  match frames with
  | [] => Some []
  | f :: fs =>
      match parseFrame f with
      | Threw => None
      | Nothing => notices_of fs
      | Read n => cons n <$> notices_of fs
      end
  end.

Lemma notices_of_app fs fs' ns :
  notices_of (fs ++ fs') = Some ns → ∃ n1 n2, notices_of fs = Some n1 ∧ notices_of fs' = Some n2 ∧ ns = n1 ++ n2.
Proof.
  revert ns. induction fs as [|f fs IH]; intros ns H; [by exists [], ns|]. cbn in *. destruct (parseFrame f) as [| |n]; [done|by apply IH|].
  apply fmap_Some in H as (ns' & H & ->). apply IH in H as (n1 & n2 & -> & -> & ->). by exists (n :: n1), n2.
Qed.

Lemma drain_cuts b fs r fuel ns :
  cuts b fs r → (length b ≤ fuel)%nat → notices_of fs = Some ns → drain fuel b = (ns, r, false).
Proof.
  intros H. revert fuel ns. induction H as [b E|b f b' fs r E _ IH]; intros fuel ns Hf Hn.
  - injection Hn as <-. destruct fuel; cbn [EventStream.drain]; by rewrite ?E.
  - pose proof (next_frame_length _ _ _ E). destruct fuel as [|fuel]; [lia|]. cbn [EventStream.drain]. rewrite E.
    cbn in Hn. destruct (parseFrame f) as [| |n]; [done|apply IH; [lia|done]|].
    apply fmap_Some in Hn as (ns' & Hn & ->). by rewrite (IH fuel ns') by (done || lia).
Qed.

(** The bytes as they arrive, and the end of the body. *)
Definition in_chunks (chunks : list (list N * bool)) : list Arrival := ((λ c, Chunk c.1 c.2) <$> chunks) ++ [Body_ended].

(** However the bytes are cut into chunks, the frames of the text they say are read. *)
Lemma read_chunks chunks decoding started buffer text decoding' fs r ns :
  decode_from decoding (concat chunks.*1) = (text, decoding') →
  started = true ∨ head text ≠ Some 65279 →
  cuts (buffer ++ text) fs r → notices_of fs = Some ns → next_frame buffer = None →
  read_body decoding started buffer (in_chunks chunks) = (ns, true).
Proof.
  revert decoding started buffer text fs ns. induction chunks as [|[bytes aborted] chunks IH];
    intros decoding started buffer text fs ns Hd Hs Hc Hn Hb.
  { cbn in Hd. injection Hd as <- <-. rewrite app_nil_r in Hc.
    destruct (cuts_fun _ _ _ _ _ Hc (cuts_done _ Hb)) as [-> _]. by injection Hn as <-. }
  change (concat ((bytes, aborted) :: chunks).*1) with (bytes ++ concat chunks.*1) in Hd. rewrite decode_from_app in Hd.
  change (in_chunks ((bytes, aborted) :: chunks)) with (Chunk bytes aborted :: in_chunks chunks). cbn [EventStream.read_body].
  destruct (decode_from decoding bytes) as [t1 d1]. destruct (decode_from d1 (concat chunks.*1)) as [t2 d2] eqn:E2.
  injection Hd as <- <-. assert (without_mark started t1 = t1) as ->.
  { destruct t1 as [|c t1]; [done|]. unfold without_mark. destruct Hs as [->|Hs]; [done|]. cbn in Hs.
    rewrite (proj2 (N.eqb_neq c 65279)) by (intros ->; done). by rewrite andb_false_r. }
  rewrite app_assoc in Hc. destruct (cuts_total (buffer ++ t1)) as (f1 & r1 & H1). destruct (cuts_total (r1 ++ t2)) as (f2 & r2 & H2).
  destruct (cuts_fun _ _ _ _ _ Hc (cuts_app _ _ _ _ _ _ H1 H2)) as [-> ->].
  apply notices_of_app in Hn as (n1 & n2 & Hn1 & Hn2 & ->). rewrite (drain_cuts _ _ _ _ _ H1 (le_n _) Hn1).
  rewrite (IH d1 (started || bool_decide (t1 ≠ [])) r1 t2 f2 n2 E2); [done| |done|done|by eapply cuts_left].
  destruct t1 as [|c t1]; [|left; by rewrite bool_decide_eq_true_2, orb_true_r].
  destruct Hs as [->|Hs]; [by left|by right].
Qed.

(** *** Frames the server writes *)

Lemma text_lines_one line : forallb (λ c, negb (terminator c)) line = true → text_lines line = [line].
Proof.
  induction line as [|c line IH]; [done|]. intros [Hc%negb_true_iff Hl]%andb_prop. cbn. by rewrite Hc, IH.
Qed.

Lemma text_lines_app line rest :
  forallb (λ c, negb (terminator c)) line = true → text_lines (line ++ 10 :: rest) = line :: text_lines rest.
Proof.
  induction line as [|c line IH]; [done|]. intros [Hc%negb_true_iff Hl]%andb_prop. cbn. by rewrite Hc, IH.
Qed.

Definition separators : list N := [8232; 8233].

(** Characters from the space on that end no line. *)
Definition printable (c : N) : bool := (32 <=? c) && negb (bool_decide (c ∈ separators)).

Lemma printable_ascii c : 32 <= c <= 126 → printable c = true.
Proof.
  intros Hc. unfold printable, separators. rewrite (proj2 (N.leb_le 32 c)), bool_decide_eq_false_2; [done| |lia].
  rewrite !elem_of_cons, elem_of_nil. lia.
Qed.

Lemma printable_no_terminator c : printable c = true → negb (terminator c) = true ∧ negb (c =? 10) = true.
Proof.
  unfold printable, separators, terminator. intros [Hc%N.leb_le Hs%negb_true_iff%bool_decide_eq_false]%andb_prop.
  rewrite !elem_of_cons in Hs. rewrite !(proj2 (N.eqb_neq c _)) by (intros ->; naive_solver lia || lia). done.
Qed.

(** A text with a character for a line separator in none of its strings. *)
Definition unseparated (v : value) : bool := value_all (λ c, negb (bool_decide (c ∈ separators))) v.

Definition names : list (list N) := points <$> ["open"; "lines"; "dropped"; "end"].

Lemma data_printable data :
  value_ok data = true → unseparated data = true → forallb printable (points "data: " ++ stringify data) = true.
Proof.
  intros Hv Hs. rewrite forallb_app. rewrite stringify_within; [done|exact printable_ascii|done|].
  eapply value_all_weaken; [|exact Hs]. intros c Hc. unfold written_within, printable. cbv beta in Hc. rewrite Hc.
  destruct (N.ltb_spec c 32); [done|]. rewrite (proj2 (N.leb_le 32 c)) by done. apply orb_true_r.
Qed.

Lemma frame_read name data :
  name ∈ names → value_ok data = true → unseparated data = true →
  frame_field (points "event: ") (event_frame name data) = Some name ∧
  frame_field (points "data: ") (event_frame name data) = Some (stringify data).
Proof.
  intros Hname Hv Hs. unfold frame_field, event_frame.
  assert (Hn : forallb (λ c, negb (terminator c)) (points "event: " ++ name) = true ∧
    name ≠ [] ∧ take 6 (points "event: " ++ name) ≠ points "data: ").
  { unfold names in Hname. repeat (apply elem_of_cons in Hname as [->|Hname]; [by vm_compute|]). by apply elem_of_nil in Hname. }
  destruct Hn as (Hn & Hne & Hnd). destruct (stringify_begins data Hv) as (c & r & Ej & _).
  rewrite app_assoc. cbn [app]. rewrite text_lines_app by done. rewrite text_lines_one; cycle 1.
  { eapply forallb_weaken; [|by apply data_printable]. intros x Hx. by apply printable_no_terminator. }
  cbn [omap list_omap]. split.
  - rewrite take_app_length, drop_app_length, !bool_decide_eq_true_2 by done. done.
  - change (length (points "data: ")) with 6%nat. rewrite (bool_decide_eq_false_2 _ Hnd). cbn [andb].
    change 6%nat with (length (points "data: ")). rewrite take_app_length, drop_app_length, !bool_decide_eq_true_2; [done|by rewrite Ej|done].
Qed.

Lemma event_frame_cut name data rest :
  name ∈ names → value_ok data = true → unseparated data = true →
  next_frame ((event_frame name data ++ [10; 10]) ++ rest) = Some (event_frame name data, rest).
Proof.
  intros Hname Hv Hs. unfold event_frame.
  assert (Hn : forallb (λ c, negb (c =? 10)) (points "event: " ++ name) = true).
  { unfold names in Hname. repeat (apply elem_of_cons in Hname as [->|Hname]; [by vm_compute|]). by apply elem_of_nil in Hname. }
  rewrite <-!app_assoc, (app_assoc (points "event: ")). cbn [app].
  rewrite (app_assoc (points "data: ")). rewrite next_frame_two; [by rewrite <-app_assoc|done|done| |done].
  eapply forallb_weaken; [|by apply data_printable]. intros x Hx. by apply printable_no_terminator.
Qed.

(** What the browser is to be told for a call. *)
Definition notice_of (c : SinkCall) : LogNotice :=
  match c with
  | Call_open streamId => Notice_open (text_of_bytes streamId)
  | Call_lines lines => Notice_lines (line_value <$> lines)
  | Call_dropped count at_server => Notice_dropped (whole_literal count) at_server
  | Call_close reason code => Notice_end (text_of_bytes reason) (text_of_bytes <$> code)
  end.

Definition rejection (code : option string) : SinkCall := Call_close "failed" (Some (code ?? "LOG_STREAM_UNAVAILABLE")).

Definition call_of (e : HandlerEvent) : option SinkCall :=
  match e with Told c => Some c | Open_rejected code => Some (rejection code) | _ => None end.

Definition ends (e : HandlerEvent) : bool :=
  match e with Told (Call_close _ _) | Open_rejected _ | Request_closed => true | _ => false end.

(** What is said until the response ends. *)
Fixpoint said (events : list HandlerEvent) : list LogNotice :=
  match events with
  | [] => []
  | e :: es => option_list (notice_of <$> call_of e) ++ if ends e then [] else said es
  end.

(** No line or paragraph separator in what is to be said. *)
Definition plain (e : HandlerEvent) : bool :=
  match call_of e with Some c => unseparated (event_data c) | None => true end.

Lemma points_ok s : forallb (λ c, (N_of_ascii c <? 128)) (chars s) = true → text_ok (points s) = true.
Proof.
  intros H. unfold text_ok, points. apply forallb_Forall, Forall_fmap. apply forallb_Forall in H.
  eapply Forall_impl; [exact H|]. intros c Hc%N.ltb_lt. apply scalar_of, scalar_value_iff. lia.
Qed.

Lemma line_value_ok line : value_ok (line_value line) = true.
Proof.
  unfold line_value. destruct (line_timestamp line), (line_truncated line); cbn [app if_there fmap option_fmap option_map];
    cbn -[text_of_bytes text_ok points]; by rewrite !text_of_bytes_ok, !points_ok by done.
Qed.

Lemma event_data_ok c : value_ok (event_data c) = true.
Proof.
  destruct c as [i|lines|n []|reason [code|]]; cbn -[text_of_bytes text_ok points literal_ok whole_literal];
    rewrite ?text_of_bytes_ok, ?points_ok, ?whole_literal_ok by done; try done.
  rewrite !andb_true_r. cbn. apply forallb_Forall, Forall_fmap, Forall_true. intros line. apply line_value_ok.
Qed.

Lemma event_name_known c : event_name c ∈ names.
Proof. destruct c; apply (bool_decide_unpack _); by vm_compute. Qed.

Lemma parse_event c : unseparated (event_data c) = true → parseFrame (event_frame (event_name c) (event_data c)) = Read (notice_of c).
Proof.
  intros Hs. destruct (frame_read (event_name c) (event_data c)) as [E1 E2];
    [apply event_name_known|apply event_data_ok|done|].
  unfold EventStream.parseFrame. rewrite E1, E2, parse_stringify by apply event_data_ok.
  destruct c as [i|lines|n []|reason [code|]]; reflexivity.
Qed.

(** What is written is characters. *)
Lemma ok_scalar v : value_ok v = true → value_all (written_within scalar_value) v = true.
Proof.
  assert (Ht : ∀ s, text_ok s = true → forallb (written_within scalar_value) s = true).
  { intros s. apply forallb_weaken. intros c [Hc%negb_true_iff Hm%N.leb_le]%andb_prop. unfold written_within.
    apply orb_true_iff. right. apply scalar_value_iff. unfold surrogate in Hc. apply andb_false_iff in Hc as [Hc%N.leb_gt|Hc%N.leb_gt]; lia. }
  induction v as [|b|l|s|l IH|fs IH] using value_nested_ind; intros Hv; cbn [value_all]; [done..|by apply Ht| |].
  - apply forallb_Forall in Hv. apply forallb_Forall. rewrite Forall_forall in *. eauto.
  - apply forallb_Forall in Hv. apply forallb_Forall. rewrite Forall_forall in *. intros f Hf. specialize (Hv f Hf).
    apply andb_prop in Hv as [Hk Hv]. by rewrite Ht, IH.
Qed.

Lemma scalar_ascii c : 32 <= c <= 126 → scalar_value c = true.
Proof. intros Hc. apply scalar_value_iff. lia. Qed.

Lemma frame_scalar c : forallb scalar_value (event_frame (event_name c) (event_data c)) = true.
Proof.
  unfold event_frame. rewrite !forallb_app.
  rewrite stringify_within; [|exact scalar_ascii|apply event_data_ok|apply ok_scalar, event_data_ok].
  by destruct c.
Qed.
(** *** What the server has written *)

Definition closed_frame (f : list N) : list N := f ++ [10; 10].

Definition cut_out (f : list N) : Prop := ∀ rest, next_frame (closed_frame f ++ rest) = Some (f, rest).

(** A frame that is found where it ends, of characters, and not with a byte order mark first. *)
Definition good_frame (f : list N) : Prop := cut_out f ∧ forallb scalar_value f = true ∧ head f ≠ Some 65279.

Lemma ended_handle s e : str_ended s = true → str_ended (handle s e) = true ∧ str_written (handle s e) = str_written s.
Proof.
  intros He. destruct s as [written ended keepalive stop stopped]. cbn in He. subst ended.
  destruct e as [[]| | | |]; cbn; unfold send, write; cbn; try done; [by destruct keepalive|by destruct stop].
Qed.

Lemma ended_stays s es : str_ended s = true → str_written (foldl handle s es) = str_written s.
Proof.
  revert s. induction es as [|e es IH]; intros s He; [done|]. cbn. destruct (ended_handle s e He) as [He' Ew].
  by rewrite IH.
Qed.

Lemma handle_frames s e :
  str_ended s = false → plain e = true →
  str_ended (handle s e) = ends e ∧
  ∃ fs, str_written (handle s e) = str_written s ++ (closed_frame <$> fs) ∧ Forall good_frame fs ∧
    notices_of fs = Some (option_list (notice_of <$> call_of e)).
Proof.
  intros He Hp.
  assert (Hsend : ∀ c, unseparated (event_data c) = true →
    let f := event_frame (event_name c) (event_data c) in
    good_frame f ∧ notices_of [f] = Some [notice_of c]).
  { intros c Hc. cbv zeta. split; [|cbn [notices_of]; by rewrite parse_event].
    split; [|split; [apply frame_scalar|done]].
    intros rest. apply event_frame_cut; [apply event_name_known|apply event_data_ok|done]. }
  destruct s as [written ended keepalive stop stopped]. cbn in He. subst ended.
  assert (Hone : ∀ c s', str_written s' = written ++ [closed_frame (event_frame (event_name c) (event_data c))] →
    unseparated (event_data c) = true →
    ∃ fs, str_written s' = written ++ (closed_frame <$> fs) ∧ Forall good_frame fs ∧ notices_of fs = Some [notice_of c]).
  { intros c s' Es Hc. destruct (Hsend c Hc) as [Hcut Hn]. exists [event_frame (event_name c) (event_data c)].
    split; [done|]. split; [by constructor|done]. }
  destruct e as [c| | | |code].
  - split; [by destruct c|]. apply (Hone c); [by destruct c|done].
  - destruct keepalive; (split; [done|]).
    + exists [keepalive_frame]. split; [done|]. split; [|reflexivity]. constructor; [|constructor].
      split; [|by vm_compute]. intros rest. unfold closed_frame. rewrite <-app_assoc. cbn [app]. by apply next_frame_one.
    + exists []. split; [by rewrite app_nil_r|]. split; [constructor|done].
  - split; [by destruct stop|]. exists []. split; [destruct stop; cbn; by rewrite app_nil_r|]. split; [constructor|done].
  - split; [done|]. exists []. split; [cbn; by rewrite app_nil_r|]. split; [constructor|done].
  - split; [done|]. apply (Hone (rejection code)); [done|done].
Qed.

Lemma handled_frames es s :
  str_ended s = false → forallb plain es = true →
  ∃ fs, str_written (foldl handle s es) = str_written s ++ (closed_frame <$> fs) ∧ Forall good_frame fs ∧
    notices_of fs = Some (said es).
Proof.
  revert s. induction es as [|e es IH]; intros s He Hp.
  { exists []. split; [by rewrite app_nil_r|]. split; [constructor|done]. }
  apply andb_prop in Hp as [Hp Hps]. destruct (handle_frames s e He Hp) as (He' & fs & Ew & Hf & Hn). cbn [foldl said].
  destruct (ends e).
  - exists fs. rewrite ended_stays by done. by rewrite app_nil_r.
  - destruct (IH (handle s e) He' Hps) as (fs' & Ew' & Hf' & Hn'). exists (fs ++ fs').
    rewrite Ew', Ew, fmap_app, app_assoc. split; [done|]. split; [by apply Forall_app|].
    clear -Hn Hn'. revert Hn. generalize (option_list (notice_of <$> call_of e)) as ns. induction fs as [|f fs IH]; intros ns Hn.
    + by injection Hn as <-.
    + cbn in *. destruct (parseFrame f) as [| |n]; [done|by apply IH|]. apply fmap_Some in Hn as (ns' & Hn & ->).
      by rewrite (IH ns' Hn).
Qed.

Lemma cuts_written fs : Forall good_frame fs → cuts (concat (closed_frame <$> fs)) fs [].
Proof. induction 1 as [|f fs [Hf _] _ IH]; [by constructor|]. econstructor; [apply Hf|done]. Qed.

Lemma written_scalar fs : Forall good_frame fs → forallb scalar_value (concat (closed_frame <$> fs)) = true.
Proof.
  induction 1 as [|f fs (_ & Hf & _) _ IH]; [done|]. cbn [fmap list_fmap concat]. unfold closed_frame at 1.
  rewrite !forallb_app, Hf. cbn. exact IH.
Qed.

Lemma written_head fs : Forall good_frame fs → head (concat (closed_frame <$> fs)) ≠ Some 65279.
Proof. destruct 1 as [|f fs (_ & _ & Hf) _]; [done|]. by destruct f. Qed.


End heard.

(** ** Ending a response *)

(** The timer runs as long as the response is open, and the reader on the host is stopped only
    when the response ended. *)
Definition streaming_ok (s : Streaming) : Prop := str_keepalive s = negb (str_ended s) ∧ (str_stopped s = true → str_ended s = true).

Lemma handle_ok s e : streaming_ok s → streaming_ok (handle s e).
Proof.
  intros [Hk Hs]. unfold streaming_ok. destruct s as [written [] keepalive [] stopped]; cbn in *; subst keepalive;
    destruct e as [[]| | | |]; cbn; auto.
Qed.

(** Once the browser has gone after the stream was open nothing more is written, the timer
    is off and the log service was told to stop, whatever comes after. *)
Lemma gone_is_stopped before later :
  Open_resolved ∈ before → str_ended (handled before) = false →
  let s := handled (before ++ Request_closed :: later) in
  str_ended s = true ∧ str_keepalive s = false ∧ str_stopped s = true ∧ str_written s = str_written (handled before).
Proof.
  intros Hin He.
  assert (Hok : ∀ es, streaming_ok (handled es)).
  { intros es. unfold handled. assert (H : streaming_ok stream_started) by done. revert H. generalize stream_started.
    induction es as [|e es IH]; intros s H; [done|]. by apply IH, handle_ok. }
  assert (Hstop : ∀ es s, str_stop s = true ∨ Open_resolved ∈ es → str_stop (foldl handle s es) = true).
  { induction es as [|e es IH]; intros s [H|H]; [done|by apply elem_of_nil in H|..]; cbn; apply IH.
    - left. destruct s as [w [] k stop t]; cbn in H; subst; by destruct e as [[]| | | |]; cbn; unfold write; cbn; try destruct k.
    - apply elem_of_cons in H as [<-|H]; [by left|by right]. }
  assert (Hstay : ∀ es s, str_stopped s = true ∧ str_ended s = true →
    str_stopped (foldl handle s es) = true ∧ str_ended (foldl handle s es) = true ∧ str_written (foldl handle s es) = str_written s).
  { induction es as [|e es IH]; intros s [H1 H2]; [done|]. cbn. destruct (ended_handle s e H2) as [H3 H4]. rewrite <-H4. apply IH. split; [|done].
    destruct s as [w ended k stop t]; cbn in *; subst; by destruct e as [[]| | | |]; cbn; unfold write; cbn; try destruct k; try destruct stop. }
  cbv zeta. unfold handled. rewrite foldl_app. cbn [foldl]. set (s := foldl handle stream_started before) in *.
  assert (Hs : str_stop s = true) by (apply Hstop; by right).
  destruct (Hstay later (handle s Request_closed)) as (H1 & H2 & H3).
  { unfold handle, finish. rewrite Hs. done. }
  pose proof (Hok (before ++ Request_closed :: later)) as [Hk _]. unfold handled in Hk. rewrite foldl_app in Hk. cbn [foldl] in Hk. fold s in Hk.
  rewrite Hk, H1, H2, H3. split_and!; try done. unfold handle, finish. by rewrite Hs.
Qed.

(** *** A short log *)

Definition accented : string := text ["195"%char; "169"%char].

Definition one_entry (message : string) : LogLine :=
  {| line_stream := "stdout"; line_timestamp := None; line_message := message; line_truncated := false |}.

Definition short_log : list HandlerEvent :=
  [Open_resolved; Told (Call_open "s1"); Keepalive_due; Told (Call_lines [one_entry accented]); Told (Call_dropped 12 false);
   Told (Call_close "completed" None); Keepalive_due].

Definition short_bytes : list N := utf8_encode (concat (str_written (handled short_log))).

(** Three bytes at a time, which cuts the accented letter in two. *)
Definition by_three : list (list N * bool) :=
  (λ i, (take 3 (drop (3 * i) short_bytes), false)) <$> seq 0 (S (length short_bytes / 3)).


(** *** What is not heard *)

(** A line with a line separator in it is lost, and every line that came with it. *)
Example separator_loses_lines :
  let separator := text ["226"%char; "128"%char; "168"%char] in
  let events := [Told (Call_lines [one_entry "before"; one_entry ("a" +:+ separator +:+ "b"); one_entry "after"])] in
  readEventStream id (Body [Chunk (utf8_encode (concat (str_written (handled events)))) false; Body_ended]) = ([], true).
Proof. vm_compute. reflexivity. Qed.

(** A browser that leaves while the stream is being opened does not stop it: the response has ended and
    the log service goes on. *)
Example leaving_early_stops_nothing :
  let s := handled [Request_closed; Open_resolved; Told (Call_open "s1"); Told (Call_lines [one_entry "on and on"])] in
  str_ended s = true ∧ str_stop s = true ∧ str_stopped s = false ∧ str_written s = [].
Proof. vm_compute. done. Qed.
