(* ===== verification/StackService.v ===== *)
(** * Saving stacks and revisions

    [api/src/stacks/stack.service.ts]: a stack is a name, a host and a history of
    configurations; saving one compiles it and adds a revision, and nothing here
    deploys anything.

    [createRevision] is in two parts, [prepareRevision] before its transaction and
    [saveRevision], so that two saves can be interleaved.  The orders PostgreSQL and
    [localeCompare] sort text by depend on a locale and are parameters. *)

From Stdlib Require Import Ascii String NArith ZArith.
From stdpp Require Import gmap strings list sorting pretty.
From S2P Require Import Prelude Schema Store Registry Effects Logic PendingGuard.
From S2P Require Import StackPlan Base64 Environment Discovery StackDeployment JsMap.

Class Collation := {
  sql_le : string → string → bool;
  locale_le : string → string → bool
}.

(** ** Requests and answers *)

Record StackRequest := {
  new_name : string;
  new_hostId : string;
  new_compose : string;
  new_environment : list EnvironmentChange
}.

Record RevisionRequest := {
  change_baseRevisionId : string;
  change_compose : string;
  change_environment : list EnvironmentChange
}.

Record SavedRevision := {
  saved_stackId : string;
  saved_revisionId : string;
  saved_number : N;
  saved_summary : RevisionSummary
}.

Record RevisionView := {
  rview_id : string;
  rview_number : N;
  rview_summary : option RevisionSummary
}.

Record StackView := {
  sview_id : string;
  sview_name : string;
  sview_hostId : string;
  sview_hostname : string;
  sview_hostDisplayName : option string;
  sview_sourceType : string;
  sview_status : string;
  sview_latestRevision : option RevisionView;
  sview_deployedRevision : option RevisionView;
  sview_deployedRevisionId : option string;
  sview_reconciling : bool;
  sview_hostReachable : bool;
  sview_lastDeployedAt : option time
}.

Record RevisionEntry := {
  listed_revision : RevisionView;
  listed_createdAt : time;
  listed_createdBy : option string;
  listed_protocolVersion : option Z;
  listed_planVersion : option Z;
  listed_validatedAt : option time;
  listed_latest : bool;
  listed_deployed : bool
}.

Record ServiceView := {
  svc_containerId : string;
  svc_serviceName : string;
  svc_name : string;
  svc_image : string;
  svc_state : string;
  svc_health : string;
  svc_dockerId : option string;
  svc_revisionId : option string;
  svc_observedAt : time
}.

(** A variable of a configuration: of a secret, only that it is one. *)
Inductive VariableView :=
  | Secret_variable (key : string)
  | Plain_variable (key value : string).

Record ConfigurationView := {
  config_revisionId : string;
  config_revisionNumber : N;
  config_compose : string;
  config_environment : list VariableView;
  config_summary : option RevisionSummary
}.

Definition COMPILER_PROTOCOL_VERSION : Z := 1.

(** ** Guards *)

Definition find_stack (stackId : string) : M Stack :=
  stack ← select_id (R := Stack) stackId;
  match stack with
  | None => notFound "STACK_NOT_FOUND"
  | Some stack => mret stack
  end.

Definition host (hostId : string) : M Host :=
  row ← select_id (R := Host) hostId;
  match row with
  | None => notFound "HOST_NOT_FOUND"
  | Some h => assertNotArchived (host_archivedAt h);; mret h
  end.

Definition assertNameFree (hostId name : string) : M unit :=
  existing ← select_first (λ s : Stack,
    bool_decide (stack_hostId s = hostId) && bool_decide (stack_name s = name));
  match existing with
  | Some _ => conflict "STACK_NAME_CONFLICT"
  | None =>
      discovered ← select_first (λ p : ComposeProject,
        bool_decide (project_hostId p = hostId) && bool_decide (project_projectName p = name));
      match discovered with
      | Some _ => conflict "STACK_NAME_CONFLICT"
      | None => mret tt
      end
  end.

(** ** Compiling *)

(** The names of what a plan would create. *)
Definition summaryOf (plan : StackDeploymentPlan) : RevisionSummary := {|
  summary_services := service_serviceName <$> plan_services plan;
  summary_networks := resource_name <$> plan_networks plan;
  summary_volumes := resource_name <$> plan_volumes plan;
  summary_dependsOn := Some (foldl (λ m (s : PlanService),
    if (0 <? length (service_dependsOn s ?? []))%nat
    then jset (service_serviceName s) (service_dependsOn s ?? []) m else m) [] (plan_services plan)) |}.

Section saving.
Context `{AesGcm} `{ComposeCompiler} (box : list ascii).

Definition compileOrRefuse (projectName compose : string) (environment : list StoredVariable) :
    M StackDeploymentPlan :=
  match spec_env box environment with
  | None => throw PlainError
  | Some values =>
      result ← raise (compiler_compile projectName compose values);
      match result with
      | Some plan => mret plan
      | None => throw (AppError "STACK_CONFIGURATION_INVALID" BAD_REQUEST)
      end
  end.

Definition revision_variable (id revisionId : string) (v : StoredVariable) : StackRevisionVariable := {|
  revenv_id := id; revenv_revisionId := revisionId; revenv_key := variable_key v;
  revenv_value := variable_value v; revenv_valueEncrypted := variable_valueEncrypted v;
  revenv_isSecret := variable_isSecret v |}.

Definition new_revision (id stackId : string) (number : N) (envelope : string)
    (summary : RevisionSummary) (actorId : string) (at_ : time) : StackRevision := {|
  revision_id := id; revision_stackId := stackId; revision_number := number;
  revision_composeSourceEncrypted := envelope; revision_environmentSnapshot := None;
  revision_changeSummary := None; revision_compilerProtocolVersion := Some COMPILER_PROTOCOL_VERSION;
  revision_planVersion := Some COMPILER_PROTOCOL_VERSION; revision_validatedAt := Some at_;
  revision_summary := Some summary; revision_createdBy := Some actorId; revision_createdAt := at_ |}.

Definition writeRevision (stackId : string) (number : N) (compose : string)
    (environment : list StoredVariable) (summary : RevisionSummary) (actorId : string) : M string :=
  iv ← randomIv;
  at_ ← now;
  id ← randomUUID;
  insert_into (new_revision id stackId number (encrypt box iv compose) summary actorId at_);;
  for_each environment (λ v, i ← randomUUID; insert_into (revision_variable i id v));;
  mret id.

Definition point_to_latest (stackId revisionId : string) : M unit :=
  update_id (R := Stack) stackId (λ s, s <| stack_latestRevisionId := Some revisionId |>);; mret tt.

(** ** Saving *)

Definition new_stack (id hostId name actorId : string) : Stack := {|
  stack_id := id; stack_hostId := hostId; stack_name := name; stack_sourceType := "dockplane";
  stack_status := "not_deployed"; stack_latestRevisionId := None; stack_currentRevisionId := None;
  stack_desiredRevisionId := None; stack_createdBy := Some actorId; stack_lastDeployedAt := None;
  stack_adoptedAt := None; stack_composeProjectId := None |}.

(** The transaction of [create]. *)
Definition saveStack (request : StackRequest) (environment : list StoredVariable)
    (summary : RevisionSummary) (actor : AuthenticatedUser) : M (string * string) :=
  transaction (
    stackId ← randomUUID;
    insert_into (new_stack stackId (new_hostId request) (new_name request) (actor_id actor));;
    revisionId ← writeRevision stackId 1 (new_compose request) environment summary (actor_id actor);
    point_to_latest stackId revisionId;;
    mret (stackId, revisionId)).

Definition audit_stack (action stackId name reasonCode : string) (actor : AuthenticatedUser)
    (context : RequestContext) : M unit :=
  audit_record {|
    entry_action := action; entry_result := Audit_success;
    entry_actorUserId := Some (actor_id actor); entry_actorLabel := actor_email actor;
    entry_targetType := Some "stack"; entry_targetId := Some stackId; entry_targetLabel := Some name;
    entry_reasonCode := Some reasonCode; entry_sourceIp := context_sourceIp context;
    entry_userAgent := context_userAgent context |}.

Definition create (request : StackRequest) (actor : AuthenticatedUser) (context : RequestContext) :
    M SavedRevision :=
  host (new_hostId request);;
  assertNameFree (new_hostId request) (new_name request);;
  environment ← resolveStackEnvironment box (new_environment request) [];
  plan ← compileOrRefuse (new_name request) (new_compose request) environment;
  created ← saveStack request environment (summaryOf plan) actor;
  let '(stackId, revisionId) := created in
  audit_stack "stack.created" stackId (new_name request) revisionId actor context;;
  mret {| saved_stackId := stackId; saved_revisionId := revisionId; saved_number := 1;
          saved_summary := summaryOf plan |}.

(** [createRevision] until its transaction. *)
Definition prepareRevision (stackId : string) (request : RevisionRequest) :
    M (Stack * list StoredVariable * StackDeploymentPlan) :=
  stack ← find_stack stackId;
  if bool_decide (stack_latestRevisionId stack ≠ Some (change_baseRevisionId request))
  then conflict "STACK_REVISION_CONFLICT"
  else
    previous ← select (λ v : StackRevisionVariable,
      bool_decide (revenv_revisionId v = change_baseRevisionId request));
    environment ← resolveStackEnvironment box (change_environment request) previous;
    plan ← compileOrRefuse (stack_name stack) (change_compose request) environment;
    mret (stack, environment, plan).

(** [coalesce(max(number), 0)] over the revisions of a stack. *)
Definition highest (stackId : string) (d : DB) : N :=
  foldr N.max 0%N (revision_number <$> select_where (λ r : StackRevision,
    bool_decide (revision_stackId r = stackId)) d).

(** Its transaction; the row of the stack is locked from the first statement on. *)
Definition saveRevision (stackId : string) (request : RevisionRequest) (environment : list StoredVariable)
    (summary : RevisionSummary) (actorId : string) : M (string * N) :=
  transaction (
    locked ← select_id (R := Stack) stackId;
    if bool_decide ((locked ≫= stack_latestRevisionId) ≠ Some (change_baseRevisionId request))
    then conflict "STACK_REVISION_CONFLICT"
    else
      number ← statement (λ d, inr (highest stackId d, d));
      revisionId ← writeRevision stackId (number + 1) (change_compose request) environment summary actorId;
      point_to_latest stackId revisionId;;
      mret (revisionId, (number + 1)%N)).

Definition createRevision (stackId : string) (request : RevisionRequest) (actor : AuthenticatedUser)
    (context : RequestContext) : M SavedRevision :=
  prepared ← prepareRevision stackId request;
  let '(stack, environment, plan) := prepared in
  created ← saveRevision stackId request environment (summaryOf plan) (actor_id actor);
  let '(revisionId, number) := created in
  audit_stack "stack.revision.created" stackId (stack_name stack) (pretty number) actor context;;
  mret {| saved_stackId := stackId; saved_revisionId := revisionId; saved_number := number;
          saved_summary := summaryOf plan |}.
End saving.

(** ** Reading *)

Definition revision_view (r : StackRevision) : RevisionView :=
  {| rview_id := revision_id r; rview_number := revision_number r; rview_summary := revision_summary r |}.

(** A stack joined with its host, the newest revision and the one deployed. *)
Record StackRow := {
  row_stack : Stack;
  row_host : Host;
  row_revision : option StackRevision;
  row_running : option StackRevision
}.

Definition joined (s : Stack) (d : DB) : option StackRow :=
  h ← hosts d !! stack_hostId s;
  Some {| row_stack := s; row_host := h;
          row_revision := stack_latestRevisionId s ≫= λ i, stackRevisions d !! i;
          row_running := stack_currentRevisionId s ≫= λ i, stackRevisions d !! i |}.

Definition present (row : StackRow) (reconciling hostReachable : bool) : StackView := {|
  sview_id := stack_id (row_stack row);
  sview_name := stack_name (row_stack row);
  sview_hostId := stack_hostId (row_stack row);
  sview_hostname := host_hostname (row_host row);
  sview_hostDisplayName := host_displayName (row_host row);
  sview_sourceType := stack_sourceType (row_stack row);
  sview_status := stack_status (row_stack row);
  sview_latestRevision := revision_view <$> row_revision row;
  sview_deployedRevision := revision_view <$> row_running row;
  sview_deployedRevisionId := stack_currentRevisionId (row_stack row);
  sview_reconciling := reconciling;
  sview_hostReachable := hostReachable;
  sview_lastDeployedAt := stack_lastDeployedAt (row_stack row) |}.

Definition reachableHosts : M (list string) :=
  agents ← select (λ a : Agent, bool_decide (agent_revokedAt a = None));
  w ← world;
  mret (agent_hostId <$> List.filter (λ a, bool_decide (agent_id a ∈ w_connected w)) agents).

(** Of one stack, or of all. *)
Definition unresolvedStacks (stackId : option string) : M (list string) :=
  let asked i := match stackId with Some x => bool_decide (i = x) | None => true end in
  deployments ← select (λ r : StackDeployment,
    unresolved_status (deployment_status r) && asked (deployment_stackId r));
  operations ← select (λ r : StackOperation,
    unresolved_status (operation_status r) && asked (operation_stackId r));
  mret ((deployment_stackId <$> deployments) ++ (operation_stackId <$> operations)).

Definition detail (stackId : string) : M StackView :=
  row ← statement (λ d, inr (s ← stacks d !! stackId; joined s d, d));
  match row with
  | None => notFound "STACK_NOT_FOUND"
  | Some row =>
      unresolved ← unresolvedStacks (Some stackId);
      reachable ← reachableHosts;
      mret (present row (mem stackId unresolved) (mem (stack_hostId (row_stack row)) reachable))
  end.

Record Page := { page_limit : nat; page_offset : nat }.

Definition of_page {A} (page : Page) (l : list A) : list A := take (page_limit page) (drop (page_offset page) l).

Section reading.
Context `{Collation}.

(** [orderBy(hosts.hostname, stacks.name)] *)
Definition before_stack (a b : StackRow) : Prop :=
  if bool_decide (host_hostname (row_host a) = host_hostname (row_host b))
  then sql_le (stack_name (row_stack a)) (stack_name (row_stack b)) = true
  else sql_le (host_hostname (row_host a)) (host_hostname (row_host b)) = true.

#[global] Instance before_stack_dec : RelDecision before_stack.
Proof. intros a b. unfold before_stack. destruct (bool_decide _); apply _. Defined.

Definition stack_rows (d : DB) : list StackRow :=
  merge_sort before_stack (omap (λ s, joined s d) (all_rows d)).

Definition list_stacks (page : Page) : M (list StackView * nat) :=
  rows ← statement (λ d, inr (of_page page (stack_rows d), d));
  total ← statement (λ d, inr (length (all_rows (R := Stack) d), d));
  unresolved ← unresolvedStacks None;
  reachable ← reachableHosts;
  mret ((λ row, present row (mem (stack_id (row_stack row)) unresolved)
                  (mem (stack_hostId (row_stack row)) reachable)) <$> rows, total).

Definition service_view (r : Container) : ServiceView := {|
  svc_containerId := container_id r; svc_serviceName := container_stackService r ?? "";
  svc_name := container_name r; svc_image := container_image r; svc_state := container_state r;
  svc_health := container_health r; svc_dockerId := container_dockerId r;
  svc_revisionId := container_stackRevisionId r; svc_observedAt := container_observedAt r |}.

(** [orderBy(containers.stackService)]: a null comes last. *)
Definition before_service (a b : Container) : Prop :=
  match container_stackService a, container_stackService b with
  | Some x, Some y => sql_le x y = true
  | Some _, None => True
  | None, Some _ => False
  | None, None => True
  end.

#[global] Instance before_service_dec : RelDecision before_service.
Proof. intros a b. unfold before_service. repeat case_match; apply _. Defined.

Definition services (stackId : string) : M (list ServiceView) :=
  find_stack stackId;;
  rows ← select (λ r : Container, bool_decide (container_stackId r = Some stackId));
  mret (service_view <$> merge_sort before_service rows).

Definition newer (a b : StackRevision) : Prop := (revision_number b <= revision_number a)%N.
#[global] Instance newer_dec : RelDecision newer.
Proof. intros a b. unfold newer. apply _. Defined.

Definition history (stackId : string) (d : DB) : list StackRevision :=
  merge_sort newer (select_where (λ r : StackRevision, bool_decide (revision_stackId r = stackId)) d).

Definition revision_entry (stack : Stack) (r : StackRevision) : RevisionEntry := {|
  listed_revision := revision_view r; listed_createdAt := revision_createdAt r;
  listed_createdBy := revision_createdBy r;
  listed_protocolVersion := revision_compilerProtocolVersion r;
  listed_planVersion := revision_planVersion r; listed_validatedAt := revision_validatedAt r;
  listed_latest := bool_decide (Some (revision_id r) = stack_latestRevisionId stack);
  listed_deployed := bool_decide (Some (revision_id r) = stack_currentRevisionId stack) |}.

Definition revisions (stackId : string) (page : Page) : M (list RevisionEntry * nat) :=
  stack ← find_stack stackId;
  rows ← statement (λ d, inr (of_page page (history stackId d), d));
  total ← statement (λ d, inr (length (history stackId d), d));
  mret (revision_entry stack <$> rows, total).

Definition by_key (a b : StackRevisionVariable) : Prop := locale_le (revenv_key a) (revenv_key b) = true.
#[global] Instance by_key_dec : RelDecision by_key.
Proof. intros a b. unfold by_key. apply _. Defined.

Definition variable_view (v : StackRevisionVariable) : VariableView :=
  if revenv_isSecret v then Secret_variable (revenv_key v)
  else Plain_variable (revenv_key v) (revenv_value v ?? "").

Definition configuration `{AesGcm} (box : list ascii) (stackId revisionId : string) : M ConfigurationView :=
  r ← revision stackId revisionId;
  environment ← select (λ v : StackRevisionVariable, bool_decide (revenv_revisionId v = revisionId));
  match decrypt box (revision_composeSourceEncrypted r) with
  | None => throw PlainError
  | Some compose =>
      mret {| config_revisionId := revision_id r; config_revisionNumber := revision_number r;
              config_compose := compose;
              config_environment := variable_view <$> merge_sort by_key environment;
              config_summary := revision_summary r |}
  end.
End reading.

(** ** What a saved revision adds to the database *)

Lemma filter_permutation {A} (p : A → bool) (l k : list A) :
  l ≡ₚ k → List.filter p l ≡ₚ List.filter p k.
Proof.
  induction 1 as [|x l k _ IH|x y l|l1 l2 l3 _ IH1 _ IH2]; simpl; [done| | |by etrans].
  - by destruct (p x); [f_equiv|].
  - destruct (p x), (p y); try done. apply Permutation_swap.
Qed.

Lemma filter_none {A} (p : A → bool) (l : list A) : (∀ x, x ∈ l → p x = false) → List.filter p l = [].
Proof.
  induction l as [|x l IH]; intros Hp; simpl; [done|]. rewrite (Hp x) by by left.
  apply IH. intros y Hy. apply Hp. by right.
Qed.

(** Variables are added and nothing else changes. *)
Definition adds (vars : list StackRevisionVariable) (d d' : DB) : Prop :=
  d' = d <| stackRevisionEnvironment := stackRevisionEnvironment d' |> ∧
  stackRevisionEnvironment d ⊆ stackRevisionEnvironment d' ∧
  (∀ i v, stackRevisionEnvironment d' !! i = Some v → stackRevisionEnvironment d !! i = Some v ∨ v ∈ vars) ∧
  all_rows d' ≡ₚ vars ++ all_rows d.

Lemma add_variables_inr revisionId environment w u w' :
  for_each environment (λ v, i ← randomUUID; insert_into (revision_variable i revisionId v)) w = (inr u, w') →
  ∃ vars, adds vars (w_db w) (w_db w') ∧ of_revision_row <$> vars = environment ∧
    Forall (λ v, revenv_revisionId v = revisionId) vars.
Proof.
  revert w. induction environment as [|v environment IH]; simpl; intros w E.
  { apply ret_inr in E as [_ ->]. exists []. unfold adds. split_and!; try done; [by destruct (w_db w)|by left]. }
  apply bind_inr in E as (u1 & w1 & E1 & E). apply bind_inr in E1 as (i & w2 & Ei & E1).
  unfold randomUUID in Ei. simplify_eq. apply insert_inr in E1 as [Hn [fs ->]].
  apply IH in E as (vars & (Hd & Hsub & Hnew & Hp) & Hv & Hf). simpl in *.
  exists (revision_variable (uuid (w_seed w)) revisionId v :: vars). unfold adds. split_and!.
  - exact Hd.
  - etrans; [|exact Hsub]. by apply insert_subseteq.
  - intros i x [[[<- <-]|[_ ?]]%lookup_insert_Some|?]%Hnew; [right; by left|by left|right; by right].
  - unfold all_rows in *. simpl in *. rewrite Hp, map_to_list_insert by done. simpl.
    by rewrite <-Permutation_middle.
  - rewrite fmap_cons, Hv. f_equal. by destruct v.
  - by constructor.
Qed.

(** The compiler reads the environment into a map: the order it is given in does not
    matter. *)
Class CompilerLaws `{ComposeCompiler} : Prop :=
  compile_order : ∀ name compose values values', NoDup values.*1 → values ≡ₚ values' →
    compiler_compile name compose values = compiler_compile name compose values'.

Section saved.
Context `{AesGcm} `{ComposeCompiler} (box : list ascii).

Lemma writeRevision_inr stackId number compose environment summary actorId w id w' :
  writeRevision box stackId number compose environment summary actorId w = (inr id, w') →
  ∃ n at_ vars, let r := new_revision id stackId number (encrypt box (random_iv n) compose) summary actorId at_ in
    stackRevisions (w_db w) !! id = None ∧
    adds vars ((w_db w) <| stackRevisions := <[id := r]> (stackRevisions (w_db w)) |>) (w_db w') ∧
    of_revision_row <$> vars = environment ∧ Forall (λ v, revenv_revisionId v = id) vars.
Proof.
  unfold writeRevision. intros E. apply bind_inr in E as (iv & w1 & E1 & E). unfold randomIv in E1. simplify_eq.
  apply bind_inr in E as (at_ & w2 & [-> ->]%now_inr & E). simpl in E.
  apply bind_inr in E as (i & w3 & E3 & E). unfold randomUUID in E3. simplify_eq. simpl in E.
  apply bind_inr in E as (u & w4 & E4 & E). apply insert_inr in E4 as [Hn [fs ->]].
  apply bind_inr in E as (u2 & w5 & E5 & [-> ->]%ret_inr).
  apply add_variables_inr in E5 as (vars & Hv). simpl in *. by eexists _, _, vars.
Qed.

Lemma point_to_latest_inr stackId revisionId w u w' :
  point_to_latest stackId revisionId w = (inr u, w') →
  w_db w' = (w_db w) <| stacks := change_rows (λ s, bool_decide (stack_id s = stackId))
                         (λ s, s <| stack_latestRevisionId := Some revisionId |>) (stacks (w_db w)) |>.
Proof.
  unfold point_to_latest. intros (l & w1 & E & [_ ->]%ret_inr)%bind_inr.
  by apply update_inr in E as [_ [fs ->]].
Qed.

(** ** The history of a stack *)

Definition revision_of (stackId : string) (n : N) (d : DB) : Prop :=
  ∃ i r, stackRevisions d !! i = Some r ∧ revision_stackId r = stackId ∧ revision_number r = n.

Lemma highest_max stackId n d : revision_of stackId n d → (n <= highest stackId d)%N.
Proof.
  intros (i & r & Hi & Hs & <-). unfold highest.
  assert (Hin : r ∈ select_where (λ r : StackRevision, bool_decide (revision_stackId r = stackId)) d).
  { apply elem_of_select_where. split; [by exists i|by apply bool_decide_eq_true]. }
  induction (select_where _ d) as [|r' l IH]; [by apply not_elem_of_nil in Hin|]. csimpl.
  apply elem_of_cons in Hin as [->|Hin]; [lia|]. specialize (IH Hin). lia.
Qed.

Lemma highest_found stackId d : highest stackId d = 0%N ∨ revision_of stackId (highest stackId d) d.
Proof.
  unfold highest.
  assert (Hin : ∀ r, r ∈ select_where (λ r : StackRevision, bool_decide (revision_stackId r = stackId)) d →
    revision_of stackId (revision_number r) d).
  { intros r [[i Hi] Hs%bool_decide_eq_true]%elem_of_select_where. by exists i, r. }
  induction (select_where _ d) as [|r' l IH]; [by left|]. right. csimpl.
  destruct IH as [->|IH]; [intros r Hr; apply Hin; by right| |].
  - rewrite N.max_0_r. apply Hin. by left.
  - destruct (N.max_spec (revision_number r') (foldr N.max 0%N (revision_number <$> l))) as [[_ ->]|[_ ->]];
      [done|apply Hin; by left].
Qed.

Lemma highest_is stackId n d :
  revision_of stackId n d → (∀ m, revision_of stackId m d → (m <= n)%N) → highest stackId d = n.
Proof.
  intros Hn Hm. pose proof (highest_max _ _ _ Hn). destruct (highest_found stackId d) as [E|E%Hm]; lia.
Qed.

(** Revisions belong to stacks and variables to revisions; the revisions of a stack
    are numbered from one without a gap, and the stack points to the last. *)
Record History (d : DB) : Prop := {
  history_owned i r : stackRevisions d !! i = Some r → is_Some (stacks d !! revision_stackId r);
  history_variables i v : stackRevisionEnvironment d !! i = Some v →
    is_Some (stackRevisions d !! revenv_revisionId v);
  history_latest i s : stacks d !! i = Some s →
    ∃ l r, stack_latestRevisionId s = Some l ∧ stackRevisions d !! l = Some r ∧
      revision_stackId r = i ∧ revision_number r = highest i d;
  history_numbers i n : revision_of i n d ↔ is_Some (stacks d !! i) ∧ (1 <= n <= highest i d)%N
}.

(** One more revision of a stack, old or new, which then points to it. *)
Lemma history_extend d d' stackId s id r :
  History d →
  (∀ i, i ≠ stackId → stacks d' !! i = stacks d !! i) → stacks d' !! stackId = Some s →
  stack_latestRevisionId s = Some id →
  stackRevisions d !! id = None → stackRevisions d' = <[id := r]> (stackRevisions d) →
  revision_stackId r = stackId → revision_number r = (highest stackId d + 1)%N →
  (∀ i v, stackRevisionEnvironment d' !! i = Some v →
     stackRevisionEnvironment d !! i = Some v ∨ revenv_revisionId v = id) →
  History d'.
Proof.
  intros [H1 H2 H3 H4] Hother Hs Hl Hfresh Er Hsid Hn Hv.
  assert (Hrev : ∀ i n, revision_of i n d' ↔ revision_of i n d ∨ (i = stackId ∧ n = (highest stackId d + 1)%N)).
  { intros i n. unfold revision_of. rewrite Er. split.
    - intros (j & x & Hj & <- & <-). apply lookup_insert_Some in Hj as [[<- <-]|[_ Hj]]; [by right|].
      left. by exists j, x.
    - intros [(j & x & Hj & <- & <-)|[-> ->]].
      + exists j, x. split; [|done]. rewrite lookup_insert_ne; [done|]. intros ->. congruence.
      + exists id, r. by rewrite lookup_insert_eq. }
  assert (Hhi : ∀ i, highest i d' = if decide (i = stackId) then (highest stackId d + 1)%N else highest i d).
  { intros i. case_decide as Hi.
    - subst i. apply highest_is; [apply Hrev; by right|]. intros m [Hm%highest_max|[_ ->]]%Hrev; lia.
    - destruct (highest_found i d) as [E|E].
      + destruct (highest_found i d') as [E'|[E'|[? _]]%Hrev]; [congruence| |done].
        apply highest_max in E'. lia.
      + apply highest_is; [apply Hrev; by left|]. intros m [Hm%highest_max|[? _]]%Hrev; done. }
  split.
  - intros i x. rewrite Er. destruct (decide (revision_stackId x = stackId)) as [->|Hne]; [by eexists|].
    rewrite Hother by done. intros [[_ <-]|[_ Hx]]%lookup_insert_Some; [done|by eapply H1].
  - intros i v [Hv'|<-]%Hv; rewrite Er; [|rewrite lookup_insert_eq; by eexists].
    apply H2 in Hv' as [x Hx]. destruct (decide (id = revenv_revisionId v)) as [<-|];
      [rewrite lookup_insert_eq; by eexists|rewrite lookup_insert_ne by done; by eexists].
  - intros i x Hx. rewrite Hhi. case_decide as Hi.
    + subst i. exists id, r. rewrite Er, lookup_insert_eq. split_and!; try done. congruence.
    + rewrite Hother in Hx by done. destruct (H3 i x Hx) as (l & y & Hl' & Hy & ? & ?). exists l, y.
      split_and!; try done. rewrite Er, lookup_insert_ne; [done|]. intros ->. congruence.
  - intros i n. rewrite Hrev, H4, Hhi. case_decide as Hi.
    + subst i. rewrite Hs. split; [intros [[_ ?]|[_ ->]]; (split; [by eexists|lia])|].
      intros [_ Hn']. destruct (decide (n = highest stackId d + 1)%N) as [->|]; [by right|]. left.
      apply H4. destruct (highest_found stackId d) as [E|E]; [lia|].
      apply H4. apply H4 in E as [E _]. split; [done|lia].
    + rewrite Hother by done. naive_solver.
Qed.

(** What saving adds, whether the stack is new or not. *)
Definition written (stackId : string) (number : N) (compose : string) (environment : list StoredVariable)
    (summary : RevisionSummary) (actorId id : string) (d d' : DB) : Prop :=
  ∃ n at_ vars,
    stackRevisions d !! id = None ∧
    d' = d <| stacks := stacks d' |>
           <| stackRevisions := <[id := new_revision id stackId number (encrypt box (random_iv n) compose)
                                        summary actorId at_]> (stackRevisions d) |>
           <| stackRevisionEnvironment := stackRevisionEnvironment d' |> ∧
    stackRevisionEnvironment d ⊆ stackRevisionEnvironment d' ∧
    (∀ i v, stackRevisionEnvironment d' !! i = Some v → stackRevisionEnvironment d !! i = Some v ∨ v ∈ vars) ∧
    all_rows d' ≡ₚ vars ++ all_rows d ∧
    of_revision_row <$> vars = environment ∧ Forall (λ v, revenv_revisionId v = id) vars.

Lemma written_revisions stackId number compose environment summary actorId id d d' :
  written stackId number compose environment summary actorId id d d' →
  ∃ r, stackRevisions d !! id = None ∧ stackRevisions d' = <[id := r]> (stackRevisions d) ∧
    revision_stackId r = stackId ∧ revision_number r = number ∧
    (∀ i v, stackRevisionEnvironment d' !! i = Some v →
       stackRevisionEnvironment d !! i = Some v ∨ revenv_revisionId v = id).
Proof.
  intros (n & at_ & vars & Hf & Ed & Hsub & Hnew & _ & _ & Hall). eexists. split; [done|].
  split; [by rewrite Ed|]. split_and!; try done. intros i v [?|Hv]%Hnew; [by left|right].
  by rewrite Forall_forall in Hall; apply Hall.
Qed.

Lemma saveStack_inr request environment summary actor w stackId id w' :
  saveStack box request environment summary actor w = (inr (stackId, id), w') →
  let d := w_db w in let d' := w_db w' in
  stacks d !! stackId = None ∧
  stacks d' = change_rows (λ s, bool_decide (stack_id s = stackId))
                (λ s, s <| stack_latestRevisionId := Some id |>)
                (<[stackId := new_stack stackId (new_hostId request) (new_name request) (actor_id actor)]> (stacks d)) ∧
  written stackId 1 (new_compose request) environment summary (actor_id actor) id d d'.
Proof.
  unfold saveStack. intros (w1 & E & [fs ->])%transaction_inr.
  apply bind_inr in E as (i & w2 & E2 & E). unfold randomUUID in E2. simplify_eq.
  apply bind_inr in E as (u & w3 & E3 & E). apply insert_inr in E3 as [Hn [gs ->]].
  apply bind_inr in E as (r & w4 & E4 & E). apply bind_inr in E as (u' & w5 & E5 & [[= -> ->] ->]%ret_inr).
  apply point_to_latest_inr in E5. apply writeRevision_inr in E4 as (n & at_ & vars & Hf & (Ed & Hsub & Hnew & Hp) & Hv & Hall).
  simpl in *. rewrite E5. simpl. rewrite Ed. simpl. split_and!; try done.
  exists n, at_, vars. simpl. by split_and!.
Qed.

Lemma saveRevision_inr stackId request environment summary actorId w id number w' :
  saveRevision box stackId request environment summary actorId w = (inr (id, number), w') →
  let d := w_db w in let d' := w_db w' in
  (stacks d !! stackId ≫= stack_latestRevisionId) = Some (change_baseRevisionId request) ∧
  number = (highest stackId d + 1)%N ∧
  stacks d' = change_rows (λ s, bool_decide (stack_id s = stackId))
                (λ s, s <| stack_latestRevisionId := Some id |>) (stacks d) ∧
  written stackId number (change_compose request) environment summary actorId id d d'.
Proof.
  unfold saveRevision. intros (w1 & E & [fs ->])%transaction_inr.
  apply bind_inr in E as (locked & w2 & E2 & E). apply select_id_inr in E2 as [-> [gs ->]]. simpl in E.
  case_bool_decide as Hb; [done|].
  apply bind_inr in E as (num & w3 & E3 & E). apply read_inr in E3 as [-> [hs ->]]. simpl in E.
  apply bind_inr in E as (r & w4 & E4 & E). apply bind_inr in E as (u' & w5 & E5 & [[= -> ->] ->]%ret_inr).
  apply point_to_latest_inr in E5. apply writeRevision_inr in E4 as (n & at_ & vars & Hf & (Ed & Hsub & Hnew & Hp) & Hv & Hall).
  simpl in *. rewrite E5. simpl. rewrite Ed. simpl. split_and!; try done.
  exists n, at_, vars. simpl. by split_and!.
Qed.

(** ** What no save does *)

(** Everything but stacks, their revisions and the trail. *)
Definition elsewhere (d : DB) : DB :=
  d <| stacks := ∅ |> <| stackRevisions := ∅ |> <| stackRevisionEnvironment := ∅ |> <| auditEntries := ∅ |>.

(** Nothing saved is lost or changed; of a stack, only the pointer to its latest
    revision moves. *)
Definition append_only (d d' : DB) : Prop :=
  stackRevisions d ⊆ stackRevisions d' ∧ stackRevisionEnvironment d ⊆ stackRevisionEnvironment d' ∧
  (∀ i s, stacks d !! i = Some s → ∃ l, stacks d' !! i = Some (s <| stack_latestRevisionId := l |>)) ∧
  elsewhere d' = elsewhere d.

Definition saves : relation DB := λ d d', db_ok d → History d → db_ok d' ∧ History d' ∧ append_only d d'.

Lemma append_only_refl d : append_only d d.
Proof. split_and!; try done. intros i s Hs. exists (stack_latestRevisionId s). rewrite Hs. by destruct s. Qed.

#[local] Instance saves_preorder : PreOrder saves.
Proof.
  split.
  - intros d Hok Hh. split_and!; try done. apply append_only_refl.
  - intros d1 d2 d3 H12 H23 Hok Hh. destruct (H12 Hok Hh) as (Hok2 & Hh2 & A1 & A2 & A3 & A4).
    destruct (H23 Hok2 Hh2) as (Hok3 & Hh3 & B1 & B2 & B3 & B4). split; [done|]. split; [done|].
    split_and!; [by etrans|by etrans| |congruence]. intros i s [l Hs]%A3.
    apply B3 in Hs as [l' Hs]. by exists l'.
Qed.

Lemma well_keyed_stack d i s : db_ok d → stacks d !! i = Some s → stack_id s = i.
Proof. intros Hok. destruct (db_ok_rows (R := Stack) d Hok) as [Hid _]. apply Hid. Qed.

(** The row of one stack, in a table where every row is filed under its own id. *)
Lemma change_one (t : gmap string Stack) stackId f i :
  (∀ j s, t !! j = Some s → stack_id s = j) →
  change_rows (λ s, bool_decide (stack_id s = stackId)) f t !! i =
  if decide (i = stackId) then f <$> t !! i else t !! i.
Proof.
  intros Ht. rewrite lookup_change_rows. destruct (t !! i) as [s|] eqn:E; simpl; [|by case_decide].
  rewrite (Ht i s E). case_decide; [by rewrite bool_decide_true|by rewrite bool_decide_false].
Qed.

Lemma keeps_ok_run {A} (m : M A) w r w' :
  framed (on_db keeps_db_ok) m → m w = (r, w') → db_ok (w_db w) → db_ok (w_db w').
Proof. intros Hm E. exact (framed_run _ _ _ _ _ Hm E). Qed.

Lemma writeRevision_ok stackId number compose environment summary actorId :
  framed (on_db keeps_db_ok) (writeRevision box stackId number compose environment summary actorId).
Proof. unfold writeRevision. frame. Qed.
#[local] Hint Resolve writeRevision_ok : frames.

Lemma saveStack_saves request environment summary actor :
  framed (on_db saves) (saveStack box request environment summary actor).
Proof.
  intros w. unfold on_db. destruct (saveStack _ _ _ _ _ w) as [r w'] eqn:E. simpl. intros Hok Hh.
  destruct r as [e|[stackId id]].
  { apply transaction_inl in E as ->. split_and!; try done. apply append_only_refl. }
  assert (Hok' : db_ok (w_db w')).
  { eapply keeps_ok_run; [|exact E|done]. unfold saveStack, point_to_latest. frame. }
  apply saveStack_inr in E as (Hnew & Es & Hw). split; [done|].
  assert (Hrow : ∀ i, stacks (w_db w') !! i = if decide (i = stackId)
    then Some ((new_stack stackId (new_hostId request) (new_name request) (actor_id actor))
                 <| stack_latestRevisionId := Some id |>)
    else stacks (w_db w) !! i).
  { intros i. rewrite Es, change_one.
    - case_decide; [subst; by rewrite lookup_insert_eq|by rewrite lookup_insert_ne].
    - intros j s [[<- <-]|[_ Hs]]%lookup_insert_Some; [done|by apply (well_keyed_stack (w_db w))]. }
  pose proof (written_revisions _ _ _ _ _ _ _ _ _ Hw) as (x & Hf & Er & Hsid & Hnum & Hv).
  assert (Hzero : highest stackId (w_db w) = 0%N).
  { destruct (highest_found stackId (w_db w)) as [|E%(history_numbers _ Hh)]; [done|].
    destruct E as [[s Hs] _]. congruence. }
  split.
  - eapply (history_extend (w_db w) (w_db w') stackId); try done.
    + intros i Hi. rewrite Hrow. by rewrite decide_False.
    + rewrite Hrow, decide_True by done. done.
    + done.
    + by rewrite Hnum, Hzero.
  - destruct Hw as (n & at_ & vars & _ & Ed & Hsub & _). split_and!.
    + rewrite Er. by apply insert_subseteq.
    + done.
    + intros i s Hs. rewrite Hrow. rewrite decide_False by congruence.
      exists (stack_latestRevisionId s). rewrite Hs. by destruct s.
    + by rewrite Ed.
Qed.

Lemma saveRevision_saves stackId request environment summary actorId :
  framed (on_db saves) (saveRevision box stackId request environment summary actorId).
Proof.
  intros w. unfold on_db. destruct (saveRevision _ _ _ _ _ _ w) as [r w'] eqn:E. simpl. intros Hok Hh.
  destruct r as [e|[id number]].
  { apply transaction_inl in E as ->. split_and!; try done. apply append_only_refl. }
  assert (Hok' : db_ok (w_db w')).
  { eapply keeps_ok_run; [|exact E|done]. unfold saveRevision, point_to_latest. frame. }
  apply saveRevision_inr in E as (Hbase & -> & Es & Hw). split; [done|].
  assert (Hrow : ∀ i, stacks (w_db w') !! i = if decide (i = stackId)
    then (λ s, s <| stack_latestRevisionId := Some id |>) <$> stacks (w_db w) !! i
    else stacks (w_db w) !! i).
  { intros i. rewrite Es, change_one; [done|]. intros j s. by apply well_keyed_stack. }
  destruct (stacks (w_db w) !! stackId) as [s|] eqn:Hs; [|done].
  pose proof (written_revisions _ _ _ _ _ _ _ _ _ Hw) as (x & Hf & Er & Hsid & Hnum & Hv). split.
  - eapply (history_extend (w_db w) (w_db w') stackId (s <| stack_latestRevisionId := Some id |>)); try done.
    + intros i Hi. rewrite Hrow. by rewrite decide_False.
    + by rewrite Hrow, decide_True, Hs by done.
  - destruct Hw as (n & at_ & vars & _ & Ed & Hsub & _). split_and!.
    + rewrite Er. by apply insert_subseteq.
    + done.
    + intros i s' Hs'. rewrite Hrow. case_decide; [subst; rewrite Hs'; by eexists|].
      exists (stack_latestRevisionId s'). rewrite Hs'. by destruct s'.
    + by rewrite Ed.
Qed.

Lemma insert_audit_saves (r : AuditEntry) : framed (on_db saves) (insert_into r).
Proof.
  apply framed_insert; [apply _|]. intros d Hn Hv Hok [H1 H2 H3 H4]. split; [|split; [by split|]].
  - eapply (insert_row_ok r d); [exact Hok|]. unfold insert_row. by rewrite Hn, Hv.
  - split_and!; try done. intros i s Hs. exists (stack_latestRevisionId s). simpl. rewrite Hs. by destruct s.
Qed.

Lemma compileOrRefuse_reads projectName compose environment :
  reads (compileOrRefuse box projectName compose environment).
Proof. unfold compileOrRefuse, raise. reads. Qed.

Lemma no_repeats_reads seen l : reads (no_repeats seen l).
Proof. revert seen. induction l as [|v l IH]; intros seen; simpl; [apply reads_ret|]. case_match; [reads|apply IH]. Qed.

Lemma resolve_framed R `{!Frame R} changes previous : framed R (resolveStackEnvironment box changes previous).
Proof.
  unfold resolveStackEnvironment. apply framed_bind; [apply _|apply resolve_entries_framed, _|].
  intros l. apply framed_bind; [apply _|apply reads_framed; [apply _|apply no_repeats_reads]|].
  intros _. apply framed_ret, _.
Qed.

Inductive SaveCall :=
  | Create (request : StackRequest) (actor : AuthenticatedUser) (context : RequestContext)
  | Revise (stackId : string) (request : RevisionRequest) (actor : AuthenticatedUser) (context : RequestContext).

Definition save (call : SaveCall) : M SavedRevision :=
  match call with
  | Create request actor context => create box request actor context
  | Revise stackId request actor context => createRevision box stackId request actor context
  end.

Lemma host_reads hostId : reads (host hostId).
Proof. unfold host, assertNotArchived. reads. Qed.

Lemma assertNameFree_reads hostId name : reads (assertNameFree hostId name).
Proof. unfold assertNameFree. reads. Qed.

Lemma save_framed R `{!Frame R} call :
  (∀ request environment summary actor, framed R (saveStack box request environment summary actor)) →
  (∀ stackId request environment summary actorId,
     framed R (saveRevision box stackId request environment summary actorId)) →
  (∀ action stackId name reasonCode actor context,
     framed R (audit_stack action stackId name reasonCode actor context)) →
  framed R (save call).
Proof.
  intros H1 H2 H3.
  assert (Hr : ∀ A (m : M A), reads m → framed R m) by (intros A m; apply reads_framed, _).
  pose proof host_reads. pose proof assertNameFree_reads. pose proof compileOrRefuse_reads.
  pose proof (resolve_framed R).
  destruct call; simpl; unfold create, createRevision, prepareRevision, find_stack; frame; auto.
Qed.

Lemma save_saves call : framed (on_db saves) (save call).
Proof.
  apply save_framed; [apply _|apply saveStack_saves|apply saveRevision_saves|].
  intros. unfold audit_stack, audit_record. pose proof insert_audit_saves. frame.
Qed.

Lemma save_off R `{!OffDb R} call : framed R (save call).
Proof.
  apply save_framed; [apply _|..]; intros; unfold saveStack, saveRevision, writeRevision, point_to_latest,
    audit_stack, audit_record; frame; intros w; unfold randomIv; simpl; apply frame_seed.
Qed.

(** C21: saving a stack or a revision, whatever fails: no revision and no variable that
    was saved is changed or lost, the revisions of every stack stay numbered from
    one without a gap and its pointer stays on the last, nothing but stacks and
    the trail is touched, no lock is taken and no agent is asked. *)
Theorem saving_keeps_history call w r w' :
  db_ok (w_db w) → History (w_db w) → save call w = (r, w') →
  db_ok (w_db w') ∧ History (w_db w') ∧ append_only (w_db w) (w_db w') ∧
  w_outbox w' = w_outbox w ∧ w_registry w' = w_registry w.
Proof.
  intros Hok Hh E. destruct (framed_run _ _ _ _ _ (save_saves call) E Hok Hh) as (? & ? & ?).
  pose proof (framed_run _ _ _ _ _ (save_off same_locks call) E) as Hl.
  destruct (framed_run _ _ _ _ _ (save_off (sends (λ _, False)) call) E) as (sent & Ho & Hs).
  split_and!; try done. rewrite Ho. destruct Hs; [apply app_nil_r|done].
Qed.

(** C20: no update is lost: once a change has been saved, every change that was made
    from the same revision is refused, however the two were interleaved before
    their transactions, and leaves nothing behind. *)
Theorem stale_save_refused stackId request environment summary actorId w id number w1
    request' environment' summary' actorId' w2 :
  History (w_db w) →
  saveRevision box stackId request environment summary actorId w = (inr (id, number), w1) →
  change_baseRevisionId request' = change_baseRevisionId request →
  db_ok (w_db w) → stacks (w_db w2) !! stackId = stacks (w_db w1) !! stackId →
  ∃ e w3, saveRevision box stackId request' environment' summary' actorId' w2 = (inl e, w3) ∧
    w_db w3 = w_db w2 ∧ (e = AppError "STACK_REVISION_CONFLICT" CONFLICT ∨ e = DatabaseError).
Proof.
  intros Hh E Hbase Hok Hsame. apply saveRevision_inr in E as (Hb & -> & Es & Hw).
  destruct (stacks (w_db w) !! stackId) as [s|] eqn:Hs; [|done]. simpl in Hb.
  destruct (history_latest _ Hh stackId s Hs) as (l & r & Hl & Hr & _).
  apply written_revisions in Hw as (x & Hf & _).
  assert (Hne : id ≠ change_baseRevisionId request) by congruence.
  assert (Hnow : (stacks (w_db w2) !! stackId ≫= stack_latestRevisionId) = Some id).
  { rewrite Hsame, Es, change_one by (intros j y; by apply well_keyed_stack).
    by rewrite decide_True, Hs by done. }
  destruct (saveRevision box stackId request' environment' summary' actorId' w2) as [[e|[id' n']] w3] eqn:E.
  - exists e, w3. split; [done|]. pose proof (transaction_inl _ _ _ _ E). split; [done|].
    apply transaction_throws in E as [(w4 & E)| ->]; [|by right].
    apply bind_cases in E as [(e0 & [= <-] & E)|(o & w5 & E5 & E)].
    + right. unfold select_id, statement in E. destruct (next_fault w2); by simplify_eq.
    + apply select_id_inr in E5 as [-> _]. simpl in E. rewrite Hnow in E.
      rewrite bool_decide_true in E by congruence. unfold conflict, throw in E. simplify_eq. by left.
  - exfalso. apply saveRevision_inr in E as (Hb' & _). congruence.
Qed.

(** ** What was validated is what is deployed *)

Lemma spec_env_keys vs values : spec_env box vs = Some values → values.*1 = variable_key <$> vs.
Proof.
  revert values. induction vs as [|v vs IH]; simpl; intros values; [by intros [= <-]|].
  destruct (env_value box v) as [x|]; simpl; [|done]. destruct (spec_env box vs) as [xs|]; simpl; [|done].
  intros [= <-]. csimpl. by rewrite IH.
Qed.

Lemma spec_env_permutation vs vs' values :
  vs ≡ₚ vs' → spec_env box vs = Some values → ∃ values', spec_env box vs' = Some values' ∧ values ≡ₚ values'.
Proof.
  intros Hp. revert values. induction Hp as [|v vs vs' _ IH|v v' vs|vs1 vs2 vs3 _ IH1 _ IH2]; simpl; intros values E.
  - by exists values.
  - destruct (env_value box v) as [x|]; simpl in *; [|done]. destruct (spec_env box vs) as [xs|]; simpl in *; [|done].
    destruct (IH xs eq_refl) as (xs' & -> & Hx). injection E as <-. simpl. eexists. split; [done|]. by f_equiv.
  - destruct (env_value box v') as [x'|], (env_value box v) as [x|]; simpl in *; try done.
    destruct (spec_env box vs) as [xs|]; simpl in *; [|done]. injection E as <-. eexists. split; [done|].
    apply Permutation_swap.
  - apply IH1 in E as (v2 & E2 & P2). apply IH2 in E2 as (v3 & E3 & P3). exists v3. split; [done|by etrans].
Qed.

Lemma no_repeats_inr seen l w u w' :
  no_repeats seen l w = (inr u, w') → NoDup (variable_key <$> l) ∧ ∀ v, v ∈ l → variable_key v ∉ seen.
Proof.
  revert seen w. induction l as [|v l IH]; intros seen w; simpl.
  { intros _. split; [constructor|by intros v Hv%not_elem_of_nil]. }
  case_bool_decide as Hs; [done|]. intros [Hn Hl]%IH. split.
  - csimpl. apply NoDup_cons. split; [|done]. intros (x & Hx & Hin)%list_elem_of_fmap.
    apply (Hl x Hin). rewrite <-Hx. set_solver.
  - intros x [->|Hx]%elem_of_cons; [done|]. specialize (Hl x Hx). set_solver.
Qed.

Lemma resolve_inr changes previous w environment w' :
  resolveStackEnvironment box changes previous w = (inr environment, w') → NoDup (variable_key <$> environment).
Proof.
  unfold resolveStackEnvironment. intros (l & w1 & _ & E)%bind_inr.
  apply bind_inr in E as (u & w2 & E & [-> ->]%ret_inr). by apply no_repeats_inr in E as [? _].
Qed.

Lemma compileOrRefuse_inr projectName compose environment w plan w' :
  compileOrRefuse box projectName compose environment w = (inr plan, w') →
  ∃ values, spec_env box environment = Some values ∧
    compiler_compile projectName compose values = inr (Some plan).
Proof.
  unfold compileOrRefuse. destruct (spec_env box environment) as [values|]; [|done].
  intros (result & w1 & E1 & E)%bind_inr. exists values. split; [done|].
  unfold raise in E1. destruct (compiler_compile _ _ _) as [e|o]; [done|]. apply ret_inr in E1 as [-> ->].
  destruct o as [p|]; [|done]. by apply ret_inr in E as [-> ->].
Qed.

(** The variables of a revision. *)
Definition variables_of (id : string) (d : DB) : list StackRevisionVariable :=
  select_where (λ v : StackRevisionVariable, bool_decide (revenv_revisionId v = id)) d.

Lemma written_variables stackId number compose environment summary actorId id d d' :
  History d → written stackId number compose environment summary actorId id d d' →
  of_revision_row <$> variables_of id d' ≡ₚ environment.
Proof.
  intros Hh (n & at_ & vars & Hf & _ & _ & _ & Hp & <- & Hall). f_equiv.
  unfold variables_of, select_where. rewrite (filter_permutation _ _ _ Hp), List.filter_app, filter_Forall.
  - rewrite filter_none; [by rewrite app_nil_r|]. intros v Hv.
    apply bool_decide_eq_false. intros <-. unfold all_rows in Hv.
    apply list_elem_of_fmap in Hv as ([i v'] & -> & Hv%elem_of_map_to_list).
    apply (history_variables _ Hh) in Hv as [r Hr]. simpl in *. congruence.
  - eapply Forall_impl; [exact Hall|]. intros v Hv. by apply bool_decide_eq_true.
Qed.

Lemma written_compiles `{!CompilerLaws} stackId number compose environment summary actorId id d d' name values plan :
  History d → written stackId number compose environment summary actorId id d d' →
  NoDup (variable_key <$> environment) → spec_env box environment = Some values →
  compiler_compile name compose values = inr (Some plan) → compose ≠ "" →
  ∃ r, stackRevisions d' !! id = Some r ∧ revision_stackId r = stackId ∧ revision_number r = number ∧
    revision_summary r = Some summary ∧
    ∀ w, healthy w → variables_of id (w_db w) ≡ₚ variables_of id d' → compile box name r w = (inr plan, w).
Proof.
  intros Hh Hw Hnd Hv Hc Hne. pose proof (written_variables _ _ _ _ _ _ _ _ _ Hh Hw) as Hp.
  destruct Hw as (n & at_ & vars & _ & Ed & _). eexists. split_and!.
  - rewrite Ed. simpl. apply lookup_insert_eq.
  - done.
  - done.
  - done.
  - intros w Hw Hvars. unfold compile. rewrite (run_bind _ _ _ _ _ (run_select w Hw _)). simpl.
    rewrite decrypt_encrypt; [|intros E; pose proof (random_iv_length n) as Hl; by rewrite E in Hl|done].
    destruct (spec_env_permutation environment (of_revision_row <$> variables_of id (w_db w)) values)
      as (values' & Hs & Hpv); [by rewrite Hvars|done|].
    unfold variables_of in Hs. rewrite Hs.
    rewrite <-(compile_order name compose values values'), Hc by (try done; by rewrite (spec_env_keys _ _ Hv)).
    done.
Qed.

Definition compose_of (call : SaveCall) : string :=
  match call with Create request _ _ => new_compose request | Revise _ request _ _ => change_compose request end.

Lemma audit_stack_inr action stackId name reasonCode actor context w u w' :
  audit_stack action stackId name reasonCode actor context w = (inr u, w') →
  stacks (w_db w') = stacks (w_db w) ∧ stackRevisions (w_db w') = stackRevisions (w_db w) ∧
  stackRevisionEnvironment (w_db w') = stackRevisionEnvironment (w_db w).
Proof.
  intros E. split_and!; refine (framed_run (on_db (unchanged _)) _ _ _ _ _ E); unfold audit_stack, audit_record; frame.
Qed.

(** A save that succeeds: what was compiled is what was written. *)
Definition saved_as (call : SaveCall) (saved : SavedRevision) (d d' : DB) : Prop :=
  ∃ environment values plan actorId d1 s,
    NoDup (variable_key <$> environment) ∧ spec_env box environment = Some values ∧
    compiler_compile (stack_name s) (compose_of call) values = inr (Some plan) ∧
    saved_summary saved = summaryOf plan ∧
    written (saved_stackId saved) (saved_number saved) (compose_of call) environment (summaryOf plan) actorId
      (saved_revisionId saved) d d1 ∧
    stackRevisions d' = stackRevisions d1 ∧ stackRevisionEnvironment d' = stackRevisionEnvironment d1 ∧
    stacks d' !! saved_stackId saved = Some s ∧ stack_latestRevisionId s = Some (saved_revisionId saved).

Lemma create_inr request actor context w saved w' :
  db_ok (w_db w) → create box request actor context w = (inr saved, w') →
  saved_as (Create request actor context) saved (w_db w) (w_db w').
Proof.
  intros Hok E. unfold create in E. apply bind_inr in E as (h & w1 & E1 & E).
  pose proof (reads_db _ _ _ _ (host_reads _) E1) as D1.
  apply bind_inr in E as (u & w2 & E2 & E). pose proof (reads_db _ _ _ _ (assertNameFree_reads _ _) E2) as D2.
  apply bind_inr in E as (environment & w3 & E3 & E).
  pose proof (framed_run _ _ _ _ _ (resolve_framed (on_db (unchanged id)) _ _) E3) as D3.
  unfold on_db, unchanged, id in D3. simpl in D3.
  apply bind_inr in E as (plan & w4 & E4 & E).
  pose proof (reads_db _ _ _ _ (compileOrRefuse_reads _ _ _) E4) as D4.
  apply bind_inr in E as ([stackId id] & w5 & E5 & E). simpl in E.
  apply bind_inr in E as (u' & w6 & E6 & [-> ->]%ret_inr).
  apply resolve_inr in E3. apply compileOrRefuse_inr in E4 as (values & Hv & Hc).
  apply saveStack_inr in E5 as (Hn & Es & Hw). apply audit_stack_inr in E6 as (A1 & A2 & A3).
  assert (D : w_db w4 = w_db w) by congruence. rewrite D in Hn, Es, Hw.
  exists environment, values, plan, (actor_id actor), (w_db w5),
    ((new_stack stackId (new_hostId request) (new_name request) (actor_id actor))
       <| stack_latestRevisionId := Some id |>). simpl. rewrite A1, Es, change_one.
  2:{ intros j s [[<- <-]|[_ Hs]]%lookup_insert_Some; [done|by apply (well_keyed_stack (w_db w))]. }
  rewrite decide_True, lookup_insert_eq by done. simpl. by split_and!.
Qed.

Lemma createRevision_inr stackId request actor context w saved w' :
  db_ok (w_db w) → createRevision box stackId request actor context w = (inr saved, w') →
  saved_as (Revise stackId request actor context) saved (w_db w) (w_db w').
Proof.
  intros Hok E. unfold createRevision in E. apply bind_inr in E as ([[s environment] plan] & w1 & E1 & E).
  apply bind_inr in E as ([id number] & w2 & E2 & E). simpl in E.
  apply bind_inr in E as (u & w3 & E3 & [-> ->]%ret_inr).
  unfold prepareRevision, find_stack in E1. apply bind_inr in E1 as (s' & v1 & F1 & E1).
  apply bind_inr in F1 as (o & v0 & F0 & F1). apply select_id_inr in F0 as [-> [fs ->]].
  destruct (rows (w_db w) !! stackId) as [s0|] eqn:Hs; [|done]. apply ret_inr in F1 as [-> ->].
  case_bool_decide; [done|]. apply bind_inr in E1 as (previous & v2 & F2 & E1).
  apply select_inr in F2 as [-> [gs ->]]. apply bind_inr in E1 as (env & v3 & F3 & E1).
  pose proof (framed_run _ _ _ _ _ (resolve_framed (on_db (unchanged (λ d, d))) _ _) F3) as D3.
  unfold on_db, unchanged in D3. simpl in D3.
  apply bind_inr in E1 as (p & v4 & F4 & [[= -> -> ->] ->]%ret_inr).
  pose proof (reads_db _ _ _ _ (compileOrRefuse_reads _ _ _) F4) as D4.
  assert (D : w_db v4 = w_db w) by congruence.
  apply resolve_inr in F3. apply compileOrRefuse_inr in F4 as (values & Hv & Hc).
  apply saveRevision_inr in E2 as (Hb & -> & Es & Hw). apply audit_stack_inr in E3 as (A1 & A2 & A3).
  rewrite D in Hb, Es, Hw. simpl in Hs.
  exists env, values, p, (actor_id actor), (w_db w2), (s0 <| stack_latestRevisionId := Some id |>). simpl. rewrite A1, Es, change_one
    by (intros j y; by apply well_keyed_stack).
  rewrite decide_True, Hs by done. simpl. rewrite D. by split_and!.
Qed.

(** C22: what was validated is what is deployed.  A save that succeeds leaves the newest
    revision of its stack, and compiling that revision to deploy it, at any later
    time while it has the variables it was saved with, gives the very plan the
    save was accepted for, whose names are its stored summary. *)
Theorem saved_revision_compiles `{!CompilerLaws} call w saved w' :
  db_ok (w_db w) → History (w_db w) → compose_of call ≠ "" → save call w = (inr saved, w') →
  ∃ s r plan,
    stacks (w_db w') !! saved_stackId saved = Some s ∧
    stack_latestRevisionId s = Some (saved_revisionId saved) ∧
    stackRevisions (w_db w') !! saved_revisionId saved = Some r ∧
    revision_stackId r = saved_stackId saved ∧ revision_number r = saved_number saved ∧
    revision_summary r = Some (summaryOf plan) ∧ saved_summary saved = summaryOf plan ∧
    ∀ w2, healthy w2 →
      variables_of (saved_revisionId saved) (w_db w2) ≡ₚ variables_of (saved_revisionId saved) (w_db w') →
      compile box (stack_name s) r w2 = (inr plan, w2).
Proof.
  intros Hok Hh Hne E. assert (Hs : saved_as call saved (w_db w) (w_db w')).
  { destruct call; [by apply create_inr|by apply createRevision_inr]. }
  destruct Hs as (env & values & plan & actorId & d1 & s & Hnd & Hv & Hc & Hsum & Hw & Er & Ev & Hrow & Hl).
  destruct (written_compiles _ _ _ _ _ _ _ _ _ _ _ _ Hh Hw Hnd Hv Hc Hne) as (r & Hr & Hsid & Hnum & Hsm & Hcomp).
  exists s, r, plan. rewrite Er. split_and!; try done. intros w2 Hw2 Hp. apply Hcomp; [done|].
  rewrite Hp. unfold variables_of, select_where, all_rows. simpl. by rewrite Ev.
Qed.
End saved.

(** ** What is shown and what is refused *)

Lemma unresolvedStacks_run stackId w :
  healthy w →
  unresolvedStacks (Some stackId) w = (inr (
    (deployment_stackId <$> select_where (unresolved_deployment_of stackId) (w_db w)) ++
    (operation_stackId <$> select_where (unresolved_operation_of stackId) (w_db w))), w).
Proof.
  intros Hw. unfold unresolvedStacks. rewrite !(run_bind _ _ _ _ _ (run_select w Hw _)).
  unfold mret, M_ret, select_where. do 3 f_equal; f_equal; apply filter_ext; intros r; apply andb_comm.
Qed.

Lemma reachableHosts_run w : healthy w → ∃ l, reachableHosts w = (inr l, w).
Proof. intros Hw. unfold reachableHosts. rewrite (run_bind _ _ _ _ _ (run_select w Hw _)). by eexists. Qed.

(** A stack is shown as being reconciled exactly when the deployment guard would
    refuse it. *)
Theorem reconciling_iff_refused stackId w v w' :
  healthy w → detail stackId w = (inr v, w') →
  sview_reconciling v = true ↔
  ∃ code, fst (assertNoUnresolvedDeployment stackId w) = inl (AppError code CONFLICT).
Proof.
  intros Hw E. unfold detail in E. rewrite (run_bind _ _ _ _ _ (run_read w Hw _)) in E.
  destruct (stacks (w_db w) !! stackId ≫= _) as [row|]; [|done].
  rewrite (run_bind _ _ _ _ _ (unresolvedStacks_run stackId w Hw)) in E.
  destruct (reachableHosts_run w Hw) as [hosts Eh]. rewrite (run_bind _ _ _ _ _ Eh) in E.
  apply ret_inr in E as [-> _]. simpl. unfold assertNoUnresolvedDeployment.
  rewrite (run_bind _ _ _ _ _ (run_select_first w Hw _)). unfold mem. rewrite bool_decide_eq_true, elem_of_app.
  destruct (select_where (unresolved_deployment_of stackId) (w_db w)) as [|r l] eqn:Ed; simpl.
  - rewrite (run_bind _ _ _ _ _ (run_select_first w Hw _)).
    destruct (select_where (unresolved_operation_of stackId) (w_db w)) as [|o k] eqn:Eo; simpl.
    + split; [|intros [code E]; done]. intros [H|H]; by apply not_elem_of_nil in H.
    + split; [by eexists|]. intros _. right. apply elem_of_cons. left. symmetry.
      assert (Ho : o ∈ select_where (unresolved_operation_of stackId) (w_db w)) by (rewrite Eo; by left).
      apply elem_of_select_where in Ho as [_ [Ho%bool_decide_eq_true _]%andb_true_iff]. done.
  - split; [by eexists|]. intros _. left. apply elem_of_cons. left. symmetry.
    assert (Hr : r ∈ select_where (unresolved_deployment_of stackId) (w_db w)) by (rewrite Ed; by left).
    apply elem_of_select_where in Hr as [_ [Hr%bool_decide_eq_true _]%andb_true_iff]. done.
Qed.

(** *** A stack with two revisions, and a third *)

#[local] Existing Instances clear_cipher example_compiler.
#[local] Instance byte_order : Collation := {| sql_le _ _ := true; locale_le _ _ := true |}.

#[local] Instance example_compiler_laws : CompilerLaws.
Proof. by intros name compose values values' _ _. Qed.

Definition third_revision : RevisionRequest := {|
  change_baseRevisionId := R2; change_compose := "services: {web: {image: nginx}}";
  change_environment := [Set_value "MODE" "production"; Set_secret "TOKEN" "s3cret"] |}.

Lemma shop_history : History shop.
Proof.
  assert (Hr : ∀ i r, stackRevisions shop !! i = Some r →
    (i = R1 ∧ r = example_revision R1 1) ∨ (i = R2 ∧ r = example_revision R2 2)).
  { intros i r. simpl. intros [[<- <-]|[_ Hi]]%lookup_insert_Some; [by left|right].
    apply lookup_singleton_Some in Hi as [<- <-]. done. }
  assert (Hs : ∀ i, revision_of i 1 shop ↔ i = S1).
  { intros i. split; [intros (j & r & [[-> ->]|[-> ->]]%Hr & <- & _); done|].
    intros ->. exists R1, (example_revision R1 1). split_and!; by vm_compute. }
  assert (Hh : highest S1 shop = 2%N) by by vm_compute.
  split.
  - intros i r [[-> ->]|[-> ->]]%Hr; by vm_compute; eexists.
  - intros i v Hv. change (stackRevisionEnvironment shop) with (∅ : gmap string StackRevisionVariable) in Hv.
    by rewrite lookup_empty in Hv.
  - intros i s Hi. simpl in Hi. apply lookup_singleton_Some in Hi as [<- <-].
    exists R2, (example_revision R2 2). rewrite Hh. split_and!; by vm_compute.
  - intros i n. split.
    + intros (j & r & [[-> ->]|[-> ->]]%Hr & <- & <-); simpl; rewrite Hh; (split; [by vm_compute; eexists|lia]).
    + intros [[s Hi] Hn]. simpl in Hi. apply lookup_singleton_Some in Hi as [<- <-]. rewrite Hh in Hn.
      assert (n = 1 ∨ n = 2)%N as [->| ->] by lia; [by apply Hs|].
      exists R2, (example_revision R2 2). split_and!; by vm_compute.
Qed.

Definition saved_third : (exn + SavedRevision) * World :=
  save [] (Revise S1 third_revision operator from_ui) (quiet_world shop).

Example third_saved : saved_number <$> match fst saved_third with inr s => Some s | inl _ => None end = Some 3%N.
Proof. by vm_compute. Qed.

Lemma saving_keeps_history_witness : History (w_db saved_third.2).
Proof.
  destruct (saving_keeps_history [] (Revise S1 third_revision operator from_ui) (quiet_world shop) _ _
    shop_ok shop_history (surjective_pairing _)) as (_ & H & _).
  exact H.
Defined.

Lemma saved_revision_compiles_witness : ∃ r plan,
  stackRevisions (w_db saved_third.2) !! uuid 2 = Some r ∧ revision_summary r = Some (summaryOf plan) ∧
  compile [] "shop" r ((quiet_world (w_db saved_third.2)) <| w_seed := 100%N |>) =
    (inr plan, (quiet_world (w_db saved_third.2)) <| w_seed := 100%N |>).
Proof.
  assert (Ef : match fst saved_third with
               | inr saved => saved_revisionId saved = uuid 2 ∧ saved_stackId saved = S1
               | inl _ => False
               end) by by vm_compute.
  assert (En : stack_name <$> stacks (w_db saved_third.2) !! S1 = Some "shop") by by vm_compute.
  destruct saved_third as [[e|saved] w'] eqn:E; cbn [fst snd] in *; [destruct Ef|]. destruct Ef as [Hid Hsid].
  destruct (saved_revision_compiles [] (Revise S1 third_revision operator from_ui) (quiet_world shop)
    saved w' shop_ok shop_history) as (s & r & plan & Hs & _ & Hr & _ & _ & Hsum & _ & Hc);
    [discriminate|exact E|].
  clear E. rewrite Hid in Hr, Hc. rewrite Hsid in Hs. exists r, plan. split; [exact Hr|]. split; [exact Hsum|].
  assert (Hname : stack_name s = "shop").
  { rewrite Hs in En. by injection En. }
  rewrite <-Hname. by apply Hc.
Defined.

Lemma stale_save_refused_witness : ∃ e w3,
  saveRevision [] S1 third_revision [] (summaryOf example_plan) "u2"
    (saveRevision [] S1 third_revision [] (summaryOf example_plan) "u1" (quiet_world shop)).2 = (inl e, w3).
Proof.
  assert (Ef : match fst (saveRevision [] S1 third_revision [] (summaryOf example_plan) "u1" (quiet_world shop)) with
               | inr _ => True
               | inl _ => False
               end) by by vm_compute.
  destruct (saveRevision [] S1 third_revision [] (summaryOf example_plan) "u1" (quiet_world shop))
    as [[e|[id n]] w1] eqn:E; cbn [fst snd] in *; [destruct Ef|].
  destruct (stale_save_refused [] S1 third_revision [] (summaryOf example_plan) "u1" (quiet_world shop) id n w1
    third_revision [] (summaryOf example_plan) "u2" w1 shop_history E eq_refl shop_ok eq_refl)
    as (e & w3 & H & _). exists e, w3. exact H.
Defined.

Lemma reconciling_iff_refused_witness :
  sview_reconciling (present {| row_stack := example_stack; row_host := example_host "h1";
    row_revision := Some (example_revision R2 2); row_running := Some (example_revision R1 1) |} false true) = false.
Proof.
  pose proof (reconciling_iff_refused S1 (quiet_world shop)
    (present {| row_stack := example_stack; row_host := example_host "h1";
       row_revision := Some (example_revision R2 2); row_running := Some (example_revision R1 1) |} false true)
    (quiet_world shop)) as H.
  destruct H as [H _]; [done|by vm_compute|]. apply not_true_is_false. intros [code E]%H. by vm_compute in E.
Defined.

(** A host is archived with the words that stacks cannot be created or changed for
    it; a new stack is refused, and a new revision of an old one is saved. *)
Theorem archived_host_accepts_revisions :
  let w := quiet_world (shop <| hosts := {["h1" := (example_host "h1") <| host_archivedAt := Some 5%Z |>]} |>) in
  fst (create [] {| new_name := "blog"; new_hostId := "h1"; new_compose := "services: {}"; new_environment := [] |}
         operator from_ui w) = inl (AppError "HOST_ARCHIVED" CONFLICT) ∧
  (stack_latestRevisionId <$> stacks (w_db (createRevision [] S1 third_revision operator from_ui w).2) !! S1)
    = Some (Some (uuid 2)).
Proof. by vm_compute. Qed.
