(* ===== verification/Credentials.v ===== *)
(** * Credentials

    The bearer secrets and passwords of [api/src/common/crypto.ts], and a frame
    for the tables they are kept in.

    The random source, SHA-256 and Argon2 are libraries and are parameters: [n]
    random bytes are [n] bytes long, and nothing else is assumed of any of them.
    That two secrets are different is never assumed either: the unique index over
    their digests refuses a second one. *)

From Stdlib Require Import Ascii String NArith ZArith.
From stdpp Require Import gmap strings list.
From S2P Require Import Prelude Schema Store Registry Effects Logic Base64.

Class Credentials := {
  (** [randomBytes(n)], at one point of the random source *)
  random_bytes : nat → N → list ascii;
  random_bytes_length n seed : length (random_bytes n seed) = n;
  (** [createHash('sha256').update(secret, 'utf8').digest('hex')] *)
  hashSecret : string → string;
  argonHash : string → N → string;
  (** [None] is an error: the stored text is not a hash *)
  argonVerify : string → string → option bool
}.

Definition TOKEN_BYTES : nat := 32.

Section credentials.
Context `{Credentials}.

Definition generateSecret (bytes : nat) : M string := λ w,
  (inr (text (encode (random_bytes bytes (w_seed w)))), w <| w_seed := (w_seed w + 1)%N |>).

Definition hashPassword (password : string) : M string := λ w,
  (inr (argonHash password (w_seed w)), w <| w_seed := (w_seed w + 1)%N |>).

Definition verifyPassword (hash password : string) : bool := default false (argonVerify hash password).

Lemma framed_generateSecret R `{!Frame R} bytes : framed R (generateSecret bytes).
Proof. intros w. apply frame_seed. Qed.

Lemma framed_hashPassword R `{!Frame R} password : framed R (hashPassword password).
Proof. intros w. apply frame_seed. Qed.
End credentials.

#[export] Hint Resolve framed_generateSecret framed_hashPassword : frames.

(** [timingSafeEqual] needs texts of one length, and compares them. *)
Definition secretsEqual (a b : string) : bool :=
  if bool_decide (String.length a ≠ String.length b) then false else bool_decide (a = b).

Lemma secretsEqual_true a b : secretsEqual a b = true ↔ a = b.
Proof. unfold secretsEqual. case_bool_decide; rewrite ?bool_decide_eq_true; naive_solver. Qed.

(** [AppError.unauthorized] and [AppError.forbidden] *)
Definition unauthorized {A} (code : string) : M A := throw (AppError code 401).
Definition forbidden {A} (code : string) : M A := throw (AppError code 403).
(** [new AppError(code, message)], whose status is 400 *)
Definition refused {A} (code : string) : M A := throw (AppError code BAD_REQUEST).

Lemma framed_unauthorized {A} R `{!Frame R} code : framed R (unauthorized (A := A) code).
Proof. apply framed_throw, _. Qed.
Lemma framed_forbidden {A} R `{!Frame R} code : framed R (forbidden (A := A) code).
Proof. apply framed_throw, _. Qed.
Lemma framed_refused {A} R `{!Frame R} code : framed R (refused (A := A) code).
Proof. apply framed_throw, _. Qed.
#[export] Hint Resolve framed_unauthorized framed_forbidden framed_refused : frames.

(** [INSERT ... ON CONFLICT DO NOTHING] *)
Definition insert_or_ignore {R} `{Table R} (r : R) : M unit :=
  statement (λ d, inr (tt, match insert_row r d with inl _ => d | inr d' => d' end)).

(** ** Rows that only change in a given way

    No row of a table is lost, and what becomes of each is a [Q] of it. *)

Definition evolves {R} `{Table R} (Q : relation R) : relation DB := λ d d', ∀ i r,
  rows d !! i = Some r → ∃ r', rows d' !! i = Some r' ∧ Q r r'.

#[export] Instance evolves_preorder {R} `{Table R} (Q : relation R) `{!PreOrder Q} : PreOrder (evolves Q).
Proof.
  split.
  - intros d i r Hr. exists r. by split.
  - intros d1 d2 d3 H12 H23 i r Hr. destruct (H12 i r Hr) as (r2 & H2 & Q2).
    destruct (H23 i r2 H2) as (r3 & H3 & Q3). exists r3. split; [done|by etrans].
Qed.

Section evolves.
Context {R} `{Table R} (Q : relation R) `{!PreOrder Q}.

Lemma evolves_untouched d d' : rows d' = rows d → evolves Q d d'.
Proof. intros E i r Hr. exists r. by rewrite E. Qed.

Lemma framed_update_evolves (p : R → bool) f :
  (∀ r, p r = true → Q r (f r)) → framed (on_db (evolves Q)) (update p f).
Proof.
  intros Hf. apply framed_update; [apply _|]. intros d _ i r Hr.
  rewrite rows_set, lookup_change_rows, Hr. simpl. eexists. split; [done|].
  destruct (p r) eqn:Hp; [by apply Hf|reflexivity].
Qed.

Lemma framed_update_id_evolves i (f : R → R) :
  (∀ r, Q r (f r)) → framed (on_db (evolves Q)) (update_id i f).
Proof. intros Hf. apply framed_update_evolves. intros r _. apply Hf. Qed.

Lemma framed_insert_evolves (r : R) : framed (on_db (evolves Q)) (insert_into r).
Proof.
  apply framed_insert; [apply _|]. intros d Hnew _ i x Hx. rewrite rows_set.
  exists x. split; [|done]. rewrite lookup_insert_ne; [done|congruence].
Qed.

Lemma framed_untouched {A} (m : M A) :
  framed (on_db (unchanged rows)) m → framed (on_db (evolves Q)) m.
Proof. intros Hm w. apply evolves_untouched, Hm. Qed.
End evolves.

#[export] Hint Resolve framed_insert_evolves : frames.
#[export] Hint Extern 4 (framed (on_db (evolves _)) _) => apply framed_untouched; [apply _|solve [frame]] : frames.

(** The trail is a table of its own. *)
Lemma audit_untouched {R} `{Table R} entry :
  (∀ t d, rows (d <| auditEntries := t |>) = rows d) → framed (on_db (unchanged rows)) (audit_record entry).
Proof.
  intros Hr. unfold audit_record. frame. apply framed_insert; [apply _|]. intros d _ _. apply Hr.
Qed.
#[export] Hint Extern 2 (framed (on_db (unchanged rows)) (audit_record _)) =>
  apply audit_untouched; intros; reflexivity : frames.

Lemma audit_evolves {R} `{Table R} (Q : relation R) `{!PreOrder Q} entry :
  (∀ t d, rows (d <| auditEntries := t |>) = rows d) → framed (on_db (evolves Q)) (audit_record entry).
Proof. intros Hr. by apply framed_untouched, audit_untouched. Qed.
#[export] Hint Extern 2 (framed (on_db (evolves _)) (audit_record _)) =>
  apply audit_evolves; [apply _|intros; reflexivity] : frames.

#[export] Hint Extern 3 (framed (on_db (unchanged _)) (audit_record _)) =>
  unfold audit_record; solve [frame] : frames.

(** A trail can be written without touching the invariant, the locks or the agents. *)
Lemma audit_ok entry : framed (on_db keeps_db_ok) (audit_record entry).
Proof. unfold audit_record. frame. Qed.
#[export] Hint Resolve audit_ok : frames.

(** From a database to the one a run ends in. *)
Lemma framed_db {A} (P : relation DB) (m : M A) d w r w' :
  framed (on_db P) m → w_db w = d → m w = (r, w') → P d (w_db w').
Proof. intros Hm <- E. exact (framed_run _ _ _ _ _ Hm E). Qed.

(** A run whose answer is dropped is the run. *)
Lemma then_done {A} (m : M A) w r w' : (m;; mret tt) w = (r, w') → ∃ r0, m w = (r0, w').
Proof.
  intros [(e & _ & E)|(a & w1 & E & E1)]%bind_cases; [by eexists|]. unfold mret, M_ret in E1.
  simplify_eq. by eexists.
Qed.

(** What the digests of a table promise: a row that matches one is the only one. *)
Lemma unique_row `{TableLaws R} name (key : R → option (list string)) d i j r s k :
  db_ok d → (name, key) ∈ indexes → rows d !! i = Some r → rows d !! j = Some s →
  key r = Some k → key s = Some k → i = j.
Proof.
  intros Hok Hin Hi Hj Hr Hs. destruct (db_ok_rows d Hok) as [_ Hu].
  rewrite Forall_forall in Hu. by eapply (Hu _ Hin).
Qed.

Lemma row_named `{TableLaws R} d i r : db_ok d → rows d !! i = Some r → row_id r = i.
Proof. intros Hok Hr. destruct (db_ok_rows d Hok) as [Hid _]. by apply Hid. Qed.

(** A select by a condition at most one row meets. *)
Lemma select_where_one `{TableLaws R} (p : R → bool) d i r :
  db_ok d → rows d !! i = Some r → p r = true →
  (∀ j s, rows d !! j = Some s → p s = true → j = i) → select_where p d = [r].
Proof.
  intros Hok Hr Hp Hone.
  assert (Hnd : NoDup (select_where p d)).
  { apply NoDup_ListNoDup, List.NoDup_filter, NoDup_ListNoDup, NoDup_fmap_2_strong; [|apply NoDup_map_to_list].
    intros [a x] [b y] Ha%elem_of_map_to_list Hb%elem_of_map_to_list E. simpl in E. subst y.
    f_equal. rewrite <-(row_named d a x Hok Ha). by apply (row_named d b x). }
  assert (Hall : ∀ x, x ∈ select_where p d → x = r).
  { intros x [[j Hj] Hx]%elem_of_select_where. rewrite (Hone j x Hj Hx) in Hj. congruence. }
  assert (Hin : r ∈ select_where p d) by (apply elem_of_select_where; eauto).
  destruct (select_where p d) as [|x [|y l]]; [by apply not_elem_of_nil in Hin| |].
  - f_equal. apply Hall. by left.
  - exfalso. apply NoDup_cons in Hnd as [Hx _]. apply Hx.
    rewrite (Hall x), (Hall y) by (by repeat constructor). by left.
Qed.

(** An update of a condition one row meets changes that row. *)
Lemma change_rows_one {R} `{Table R} (p : R → bool) (f : R → R) (t : gmap string R) i r :
  t !! i = Some r → p r = true → (∀ j s, t !! j = Some s → p s = true → j = i) →
  change_rows p f t = alter f i t.
Proof.
  intros Hi Hp Hone. apply map_eq. intros j. rewrite lookup_change_rows.
  destruct (decide (i = j)) as [<-|Hij]; [by rewrite lookup_alter_eq, Hi; simpl; rewrite Hp|].
  rewrite lookup_alter_ne by done. destruct (t !! j) as [s|] eqn:Ej; [|done]. simpl.
  destruct (p s) eqn:Hs; [|done]. exfalso. apply Hij. symmetry. by eapply Hone.
Qed.

Lemma change_rows_none {R} `{Table R} (p : R → bool) (f : R → R) (t : gmap string R) :
  (∀ i r, t !! i = Some r → p r = false) → change_rows p f t = t.
Proof.
  intros Hp. apply map_eq. intros i. rewrite lookup_change_rows. destruct (t !! i) as [r|] eqn:E; [|done].
  simpl. by rewrite (Hp i r E).
Qed.

(** An update nothing meets the condition of does nothing. *)
Lemma run_update_none `{TableLaws R} (p : R → bool) f w :
  healthy w → db_ok (w_db w) → select_where p (w_db w) = [] → update p f w = (inr [], w).
Proof.
  intros Hw Hok Hnil. unfold update. rewrite (run_statement w Hw). unfold update_where.
  rewrite change_rows_none, Hnil by (by apply select_where_nil).
  destruct (violation _) as [n|] eqn:Ev.
  - exfalso. destruct (db_ok_rows (w_db w) Hok) as [_ Hu]. apply violation_None in Hu. congruence.
  - simpl. rewrite set_rows_same. by destruct w.
Qed.
