(* ===== verification/AuditTrail.v ===== *)
(** * Reading the audit trail

    [list] of [api/src/audit/audit.service.ts], the handler of [audit.controller.ts] that cuts
    the trail into pages, and the page of the web interface that follows the cursors
    ([app/src/app/features/administration/audit-log.ts], with [auditEntries] and [toAuditEntry] of
    [app/src/app/data/real-dockplane-api.ts]).  Times are whole milliseconds, which is what
    [Date] and a cursor have. *)

From Stdlib Require Import Ascii String NArith ZArith Lia.
From stdpp Require Import gmap strings list sorting pretty.
From S2P Require Import Prelude Schema Store Effects Logic ContainerSpec Credentials.

(** ** The server *)

Record AuditQuery := {
  query_limit : nat;
  query_before : option time;
  query_action : option string
}.

Definition asked_for (q : AuditQuery) (e : AuditEntry) : bool :=
  match query_before q with Some t => (audit_occurredAt e <? t)%Z | None => true end &&
  match query_action q with Some a => if bool_decide (a = "") then true else bool_decide (audit_action e = a) | None => true end.

(** [orderBy(desc(occurredAt))] *)
Definition later_first (a b : AuditEntry) : Prop := (audit_occurredAt b <= audit_occurredAt a)%Z.
#[global] Instance later_first_dec : RelDecision later_first.
Proof. intros a b. unfold later_first. apply _. Defined.

Definition audit_list (q : AuditQuery) : M (list AuditEntry) :=
  statement (λ d, inr (take (query_limit q) (merge_sort later_first (select_where (asked_for q) d)), d)).

Record AuditAnswer := { answer_entries : list AuditEntry; answer_nextBefore : option time }.

(** [MAX_PAGE_SIZE] *)
Definition MAX_PAGE_SIZE : nat := 100.

(** The least and the most [limit] may be; the default is the schema's. *)
Definition audit_limit (limit : option Z) : option nat :=
  let n := limit ?? 50%Z in
  if ((1 <=? n) && (n <=? Z.of_nat MAX_PAGE_SIZE))%Z then Some (Z.to_nat n) else None.

Definition get_audit (q : AuditQuery) : M AuditAnswer :=
  entries ← audit_list q;
  mret {| answer_entries := entries;
          answer_nextBefore := if bool_decide (length entries = query_limit q) then audit_occurredAt <$> last entries else None |}.

(** ** The page of the interface *)

Record ShownEntry := {
  shown_id : string;
  shown_time : time;
  shown_actor : string;
  shown_action : string;
  shown_target : string;
  shown_success : bool;
  shown_source : option string;
  shown_requestId : option string
}.

Definition toAuditEntry (e : AuditEntry) : ShownEntry := {|
  shown_id := audit_id e; shown_time := audit_occurredAt e; shown_actor := audit_actorLabel e;
  shown_action := audit_action e;
  shown_target := match audit_targetLabel e, audit_targetId e, audit_targetType e with
                  | Some s, _, _ | None, Some s, _ | None, None, Some s => s
                  | None, None, None => "—"
                  end;
  shown_success := match audit_result e with Audit_success => true | Audit_failure => false end;
  shown_source := audit_sourceIp e; shown_requestId := audit_requestId e |}.

Record AuditPage := { page_entries : list ShownEntry; page_nextBefore : option time }.

Record AuditLog := {
  log_before : option time;
  log_loaded : list ShownEntry;
  log_page : AuditPage
}.

Definition no_page : AuditPage := {| page_entries := []; page_nextBefore := None |}.

Definition log_start : AuditLog := {| log_before := None; log_loaded := []; log_page := no_page |}.

Definition log_entries (l : AuditLog) : list ShownEntry :=
  let seen := shown_id <$> log_loaded l in
  log_loaded l ++ List.filter (λ e, negb (mem (shown_id e) seen)) (page_entries (log_page l)).

Definition hasMore (l : AuditLog) : bool := bool_decide (is_Some (page_nextBefore (log_page l))).

Definition loadMore (l : AuditLog) : AuditLog :=
  match page_nextBefore (log_page l) with
  | None => l
  | Some cursor => {| log_before := Some cursor; log_loaded := log_entries l; log_page := log_page l |}
  end.

Definition LOG_PAGE : nat := 50.

(** What is asked for as it stands: [switchMap] to [auditEntries({ limit: 50, before })]. *)
Definition page_query (l : AuditLog) : AuditQuery :=
  {| query_limit := LOG_PAGE; query_before := log_before l; query_action := None |}.

(** The answer arrives. *)
Definition page_arrives (answer : AuditAnswer) (l : AuditLog) : AuditLog := {|
  log_before := log_before l; log_loaded := log_loaded l;
  log_page := {| page_entries := toAuditEntry <$> answer_entries answer; page_nextBefore := answer_nextBefore answer |} |}.

(** Which entries are shown: the words searched for, and a result. *)
Definition log_filtered (query : string) (result : option bool) (l : AuditLog) : list ShownEntry :=
  let term := lower (text (trim (chars query))) in
  List.filter (λ e,
    (bool_decide (term = "") || includes term (lower (shown_actor e)) || includes term (lower (shown_action e)) ||
     includes term (lower (shown_target e)) || includes term (lower (shown_requestId e ?? ""))) &&
    match result with None => true | Some r => bool_decide (shown_success e = r) end) (log_entries l).

(** A page is asked for and arrives, from the server as it is then. *)
Definition turn (w : World) (l : AuditLog) : AuditLog :=
  match (get_audit (page_query l) w).1 with inr answer => page_arrives answer l | inl _ => l end.

(** The first page, and the next one as long as there is one. *)
Fixpoint reading (ws : nat → World) (n : nat) : AuditLog :=
  match n with
  | O => turn (ws 0) log_start
  | S k => let l := reading ws k in if hasMore l then turn (ws n) (loadMore l) else l
  end.

(** ** Sorted lists and cursors *)

#[global] Instance later_first_trans : Transitive later_first.
Proof. unfold later_first. intros a b c. lia. Qed.
#[global] Instance later_first_total : Total later_first.
Proof. unfold later_first. intros a b. lia. Qed.

Lemma sorted_unique l l' :
  NoDup (audit_occurredAt <$> l) → l ≡ₚ l' → StronglySorted later_first l → StronglySorted later_first l' → l = l'.
Proof.
  intros Hd Hp Hl Hl'. apply (StronglySorted_unique_strong later_first); try done. intros x y Hx Hy H1 H2.
  rewrite <-Hp in Hy. assert (audit_occurredAt x = audit_occurredAt y) as E by (unfold later_first in *; lia).
  clear -Hd Hx Hy E. apply list_elem_of_lookup in Hx as [i Hi], Hy as [j Hj].
  assert (i = j) as ->; [|congruence].
  eapply (NoDup_lookup _ i j (audit_occurredAt x) Hd); rewrite list_lookup_fmap; [by rewrite Hi|by rewrite Hj, E].
Qed.

(** What is older than an entry is what comes after it. *)
Lemma older_is_after l i e :
  NoDup (audit_occurredAt <$> l) → StronglySorted later_first l → l !! i = Some e →
  List.filter (λ x, (audit_occurredAt x <? audit_occurredAt e)%Z) l = drop (S i) l.
Proof.
  revert i. induction l as [|x l IH]; intros i Hd Hs Hi; [done|]. apply NoDup_cons in Hd as [Hx Hd].
  apply StronglySorted_inv in Hs as [Hs Hall]. rewrite Forall_forall in Hall. destruct i as [|i]; simpl in Hi.
  - injection Hi as ->. cbn [List.filter]. rewrite Z.ltb_irrefl. change (drop 1 (e :: l)) with l.
    apply filter_Forall, Forall_forall. intros y Hy. apply Z.ltb_lt. specialize (Hall y Hy). unfold later_first in Hall.
    assert (audit_occurredAt y ≠ audit_occurredAt e); [|lia]. intros E. apply Hx. rewrite <-E. by apply list_elem_of_fmap_2.
  - cbn [List.filter drop]. rewrite (proj2 (Z.ltb_ge _ _)); [by apply IH|].
    apply (Hall e). by eapply list_elem_of_lookup_2.
Qed.

(** ** The trail is read whole *)

(** The entries of a database, newest first. *)
Definition newest_first (d : DB) : list AuditEntry := merge_sort later_first (all_rows d).

Definition distinct_times (d : DB) : Prop := ∀ i j e e',
  auditEntries d !! i = Some e → auditEntries d !! j = Some e' → audit_occurredAt e = audit_occurredAt e' → i = j.

Lemma rows_values_NoDup {A B} (f : A → B) (m : gmap string A) :
  (∀ i j x y, m !! i = Some x → m !! j = Some y → f x = f y → i = j) → NoDup (f <$> (map_to_list m).*2).
Proof.
  intros Hf. rewrite <-list_fmap_compose. apply NoDup_fmap_2_strong; [|apply NoDup_map_to_list].
  intros [i x] [j y] Hi%elem_of_map_to_list Hj%elem_of_map_to_list E. simpl in E. pose proof (Hf i j x y Hi Hj E). subst. congruence.
Qed.

Lemma newest_first_times d : distinct_times d → NoDup (audit_occurredAt <$> newest_first d).
Proof.
  intros Hd. unfold newest_first. rewrite (merge_sort_Permutation later_first). by apply (rows_values_NoDup audit_occurredAt).
Qed.

Lemma newest_first_ids d : db_ok d → NoDup (audit_id <$> newest_first d).
Proof.
  intros Hok. unfold newest_first. rewrite (merge_sort_Permutation later_first). apply (rows_values_NoDup audit_id).
  intros i j x y Hi Hj E. rewrite <-(@row_named AuditEntry _ _ d i x Hok Hi), <-(@row_named AuditEntry _ _ d j y Hok Hj). exact E.
Qed.

Lemma filter_values {A} (p : A → bool) (l : list (string * A)) : List.filter p l.*2 = (List.filter (p ∘ snd) l).*2.
Proof. induction l as [|[k x] l IH]; [done|]. cbn. destruct (p x); cbn; by rewrite <-IH. Qed.

Lemma NoDup_filter_bool {A} (p : A → bool) (l : list A) : NoDup l → NoDup (List.filter p l).
Proof.
  induction 1 as [|x l Hx _ IH]; [constructor|]. simpl. destruct (p x); [|done]. constructor; [|done].
  rewrite elem_of_filter_bool. tauto.
Qed.

(** Reading the part of a table that two databases have in common gives the same. *)
Lemma select_where_common p (d d' : DB) :
  (∀ i e, p e = true → auditEntries d !! i = Some e ↔ auditEntries d' !! i = Some e) →
  select_where p d ≡ₚ select_where p d'.
Proof.
  intros H. unfold select_where, all_rows. rewrite !filter_values. apply fmap_Permutation.
  apply NoDup_Permutation; [apply NoDup_filter_bool, NoDup_map_to_list..|]. intros [i e].
  rewrite !elem_of_filter_bool, !elem_of_map_to_list. unfold compose. cbn. specialize (H i e). destruct (p e); naive_solver.
Qed.

Lemma filter_bool_perm {A} (p : A → bool) l l' : l ≡ₚ l' → List.filter p l ≡ₚ List.filter p l'.
Proof.
  induction 1 as [|x l l' _ IH|x y l|l l' l'' _ IH1 _ IH2]; simpl; [done| | |by etrans].
  - destruct (p x); [by constructor|done].
  - destruct (p x), (p y); try done. apply perm_swap.
Qed.

Lemma sorted_filter {A} (R : relation A) (p : A → bool) l : StronglySorted R l → StronglySorted R (List.filter p l).
Proof.
  induction 1 as [|x l _ IH Hx]; [constructor|]. simpl. destruct (p x); [|done]. constructor; [done|].
  rewrite Forall_forall in *. intros y [Hy _]%elem_of_filter_bool. by apply Hx.
Qed.

Lemma fmap_filter_NoDup {A B} (f : A → B) (p : A → bool) l : NoDup (f <$> l) → NoDup (f <$> List.filter p l).
Proof.
  induction l as [|x l IH]; [done|]. intros [Hx Hl]%NoDup_cons. simpl. destruct (p x); [|by apply IH].
  apply NoDup_cons. split; [|by apply IH]. intros (y & E & [Hy _]%elem_of_filter_bool)%list_elem_of_fmap.
  apply Hx. rewrite E. by apply list_elem_of_fmap_2.
Qed.

Lemma filter_fmap_true {A B} (p : B → bool) (f : A → B) l :
  (∀ x, x ∈ l → p (f x) = true) → List.filter p (f <$> l) = f <$> l.
Proof. intros H. apply filter_Forall, Forall_fmap, Forall_forall. exact H. Qed.

Section whole_trail.
Context (ws : nat → World) (t0 : time).
Context (Hh : ∀ k, healthy (ws k)) (Hok : db_ok (w_db (ws 0))) (Hd : distinct_times (w_db (ws 0))).
Context (Hold : ∀ i e, auditEntries (w_db (ws 0)) !! i = Some e → (audit_occurredAt e <= t0)%Z).
Context (Hnew : ∀ k i e, (audit_occurredAt e <= t0)%Z →
  auditEntries (w_db (ws k)) !! i = Some e ↔ auditEntries (w_db (ws 0)) !! i = Some e).

Notation trail := (newest_first (w_db (ws 0))).

Lemma trail_sorted : StronglySorted later_first trail.
Proof. apply (StronglySorted_merge_sort later_first). Qed.

Lemma trail_elem e : e ∈ trail → (audit_occurredAt e <= t0)%Z.
Proof.
  unfold newest_first. rewrite (merge_sort_Permutation later_first). unfold all_rows. intros ([i e'] & -> & Hi)%list_elem_of_fmap.
  apply elem_of_map_to_list in Hi. by eapply Hold.
Qed.

Lemma answer_of k q : (get_audit q (ws k)).1 = inr (let es := take (query_limit q) (merge_sort later_first (select_where (asked_for q) (w_db (ws k)))) in
  {| answer_entries := es; answer_nextBefore := if bool_decide (length es = query_limit q) then audit_occurredAt <$> last es else None |}).
Proof. unfold get_audit, audit_list. by rewrite (run_bind _ _ _ _ _ (run_read _ (Hh k) _)). Qed.

(** The entries before a cursor are those of the first reading, whatever was added since. *)
Lemma entries_before k i e :
  trail !! i = Some e →
  merge_sort later_first (select_where (asked_for {| query_limit := LOG_PAGE; query_before := Some (audit_occurredAt e); query_action := None |})
    (w_db (ws k))) = drop (S i) trail.
Proof.
  intros Hi. pose proof (newest_first_times _ Hd) as Ht. rewrite <-(older_is_after trail i e Ht trail_sorted Hi).
  set (p := λ x, (audit_occurredAt x <? audit_occurredAt e)%Z).
  assert (Hp : select_where (asked_for {| query_limit := LOG_PAGE; query_before := Some (audit_occurredAt e); query_action := None |})
    (w_db (ws k)) ≡ₚ List.filter p trail).
  { unfold newest_first, all_rows. transitivity (List.filter p (all_rows (R := AuditEntry) (w_db (ws 0)))).
    - transitivity (select_where p (w_db (ws k))).
      + unfold select_where, asked_for. cbn. erewrite filter_ext; [done|]. intros x. apply andb_true_r.
      + apply select_where_common. intros j x Hx%Z.ltb_lt. apply Hnew.
        pose proof (trail_elem e (list_elem_of_lookup_2 _ _ _ Hi)). lia.
    - apply filter_bool_perm. by rewrite (merge_sort_Permutation later_first). }
  apply sorted_unique.
  - rewrite (merge_sort_Permutation later_first), Hp. by apply fmap_filter_NoDup.
  - by rewrite (merge_sort_Permutation later_first).
  - apply (StronglySorted_merge_sort later_first).
  - apply sorted_filter, trail_sorted.
Qed.

(** A page that has [m] entries of the trail before it. *)
Definition answer_after (m : nat) : AuditAnswer :=
  let es := take LOG_PAGE (drop m trail) in
  {| answer_entries := es; answer_nextBefore := if bool_decide (length es = LOG_PAGE) then audit_occurredAt <$> last es else None |}.

(** The first [m] entries are shown and there are more, or all of them are and there are no more. *)
Definition shows (m : nat) (l : AuditLog) : Prop :=
  (∃ e, trail !! (m - 1) = Some e ∧ (0 < m)%nat ∧ page_nextBefore (log_page l) = Some (audit_occurredAt e) ∧
     log_entries l = toAuditEntry <$> take m trail) ∨
  (hasMore l = false ∧ log_entries l = toAuditEntry <$> trail).

Lemma page_shows m before :
  (m ≤ length trail)%nat →
  shows (m + LOG_PAGE) (page_arrives (answer_after m)
    {| log_before := before; log_loaded := toAuditEntry <$> take m trail; log_page := no_page |}).
Proof.
  intros Hm. set (es := take LOG_PAGE (drop m trail)).
  assert (Hseen : log_entries (page_arrives (answer_after m) {| log_before := before; log_loaded := toAuditEntry <$> take m trail;
    log_page := no_page |}) = toAuditEntry <$> take (m + LOG_PAGE) trail).
  { unfold log_entries, page_arrives, answer_after. cbn [log_loaded log_page page_entries answer_entries]. fold es.
    rewrite filter_fmap_true, <-fmap_app.
    - unfold es. by rewrite take_take_drop.
    - intros x Hx. apply negb_true_iff, bool_decide_eq_false. rewrite <-list_fmap_compose. intros Hin.
      assert (Hid : shown_id ∘ toAuditEntry <$> take m trail = audit_id <$> take m trail) by done. rewrite Hid in Hin.
      pose proof (newest_first_ids _ Hok) as Hn. rewrite <-(take_drop m trail), fmap_app in Hn.
      apply NoDup_app in Hn as (_ & Hn & _). apply (Hn _ Hin). apply (list_elem_of_fmap_2 audit_id _ x).
      unfold es in Hx. rewrite <-(take_drop LOG_PAGE (drop m trail)). apply elem_of_app. by left. }
  assert (Hlen : length es = Nat.min LOG_PAGE (length trail - m)) by (unfold es; by rewrite length_take, length_drop).
  unfold shows. rewrite Hseen. unfold hasMore, page_arrives, answer_after. cbn [log_page page_nextBefore answer_nextBefore]. fold es.
  destruct (bool_decide_reflect (length es = LOG_PAGE)) as [Hfull|Hpart].
  - left. destruct (lookup_lt_is_Some_2 trail (m + LOG_PAGE - 1)) as [e He]; [unfold LOG_PAGE in *; lia|]. exists e.
    split; [done|]. split; [unfold LOG_PAGE; lia|]. split; [|done].
    assert (last es = Some e) as ->; [|done]. rewrite last_lookup, Hfull. unfold es.
    rewrite lookup_take_lt by (unfold LOG_PAGE; lia). rewrite lookup_drop. rewrite <-He. f_equal. unfold LOG_PAGE. lia.
  - right. split; [done|]. f_equal. apply take_ge. unfold LOG_PAGE in *. lia.
Qed.

Lemma arrives_same answer before loaded page page' :
  page_arrives answer {| log_before := before; log_loaded := loaded; log_page := page |} =
  page_arrives answer {| log_before := before; log_loaded := loaded; log_page := page' |}.
Proof. done. Qed.

Lemma first_turn : shows LOG_PAGE (turn (ws 0) log_start).
Proof.
  unfold turn. rewrite answer_of. cbv zeta.
  assert (E : merge_sort later_first (select_where (asked_for (page_query log_start)) (w_db (ws 0))) = drop 0 trail).
  { unfold newest_first, select_where. rewrite filter_Forall; [done|]. by apply Forall_forall. }
  rewrite E. apply (page_shows 0 None). lia.
Qed.

Lemma next_turn k m l :
  shows m l → hasMore l = true → shows (m + LOG_PAGE) (turn (ws k) (loadMore l)).
Proof.
  intros [(e & He & Hm & Hn & El)|[Hn _]] Hmore; [|congruence].
  unfold turn. rewrite answer_of. cbv zeta. unfold loadMore. rewrite Hn. unfold page_query. cbn [log_before query_limit].
  rewrite (entries_before k (m - 1) e He), El. replace (S (m - 1)) with m by lia.
  rewrite (arrives_same _ _ _ _ no_page). apply page_shows. apply lookup_lt_Some in He. lia.
Qed.

Lemma reading_shows n :
  (hasMore (reading ws n) = true ∧ shows (LOG_PAGE * S n) (reading ws n)) ∨
  (hasMore (reading ws n) = false ∧ log_entries (reading ws n) = toAuditEntry <$> trail).
Proof.
  induction n as [|n IH].
  - pose proof first_turn as H. cbn [reading]. destruct (hasMore _) eqn:Eh; [left; by rewrite Nat.mul_1_r|right].
    split; [done|]. destruct H as [(e & _ & _ & Hn & _)|[_ ?]]; [|done]. unfold hasMore in Eh. by rewrite Hn in Eh.
  - cbn [reading]. destruct (hasMore (reading ws n)) eqn:En; [|right; destruct IH as [[? _]|[_ ?]]; done].
    destruct IH as [[_ IH]|[? _]]; [|done]. pose proof (next_turn (S n) _ _ IH En) as H.
    replace (LOG_PAGE * S n + LOG_PAGE)%nat with (LOG_PAGE * S (S n))%nat in H by (unfold LOG_PAGE; lia).
    destruct (hasMore (turn (ws (S n)) (loadMore (reading ws n)))) eqn:Eh; [by left|right]. split; [done|].
    destruct H as [(e & _ & _ & Hn & _)|[_ ?]]; [|done]. unfold hasMore in Eh. by rewrite Hn in Eh.
Qed.

End whole_trail.

(** *** A trail of sixty entries *)

Definition recorded (i : nat) (at_ : time) : AuditEntry := {|
  audit_id := pretty i; audit_actorUserId := None; audit_actorLabel := "admin@example.org"; audit_action := "auth.login.succeeded";
  audit_targetType := None; audit_targetId := None; audit_targetLabel := None; audit_result := Audit_success;
  audit_reasonCode := None; audit_sourceIp := None; audit_userAgent := None; audit_requestId := None; audit_occurredAt := at_ |}.

(** The entry of each number, at the time it is given. *)
Definition trail_world (n : nat) (at_ : nat → time) : World :=
  quiet_world (empty_db <| auditEntries := list_to_map ((λ i, (pretty i, recorded i (at_ i))) <$> seq 0 n) |>).

Definition sixty : World := trail_world 60 Z.of_nat.

Lemma times_distinct d :
  NoDup (audit_occurredAt <$> (map_to_list (auditEntries d)).*2) → distinct_times d.
Proof.
  rewrite <-list_fmap_compose. intros Hn i j e e' Hi Hj E.
  apply elem_of_map_to_list, list_elem_of_lookup in Hi as [x Hx]. apply elem_of_map_to_list, list_elem_of_lookup in Hj as [y Hy].
  assert (x = y) as <-; [|congruence].
  eapply (NoDup_lookup _ x y (audit_occurredAt e) Hn); rewrite list_lookup_fmap; [by rewrite Hx|by rewrite Hy, E].
Qed.

Lemma sixty_distinct : distinct_times (w_db sixty).
Proof. apply times_distinct, (bool_decide_unpack _). by vm_compute. Qed.

Lemma sixty_ok : db_ok (w_db sixty).
Proof. apply db_okb_true. by vm_compute. Qed.

Lemma sixty_old i e : auditEntries (w_db sixty) !! i = Some e → (audit_occurredAt e <= 59)%Z.
Proof.
  assert (H : map_Forall (λ _ e, audit_occurredAt e <= 59)%Z (auditEntries (w_db sixty))).
  { apply (bool_decide_unpack _). by vm_compute. }
  apply H.
Qed.

Lemma sixty_length : length (newest_first (w_db sixty)) < LOG_PAGE * 2.
Proof. apply (bool_decide_unpack _). by vm_compute. Qed.


(** *** Entries of one millisecond *)

(** The last entry of a page and the next one are of one time: that one is on no page. *)
Example same_time_never_shown :
  let w := trail_world 51 (λ i, Z.max 1 (Z.of_nat i)) in
  let l := reading (λ _, w) 1 in
  length (newest_first (w_db w)) = 51 ∧ hasMore l = false ∧ length (log_entries l) = 50.
Proof. vm_compute. done. Qed.
