(* ===== verification/Rbac.v ===== *)
(** * Roles and permissions

    [api/src/rbac/permissions.ts], [rbac.service.ts] and [permissions.guard.ts],
    the two controllers of [api/src/users/users.controller.ts], the catalog
    [api/src/database/seed.ts] writes and the transaction of
    [api/src/cli/bootstrap-admin.ts]: what somebody may do is what the roles
    assigned to them grant, and nothing else. *)

From Stdlib Require Import Ascii String NArith ZArith.
From stdpp Require Import gmap strings list sorting.
From S2P Require Import Prelude Schema Store Registry Effects Logic Base64 StackDeployment StackService.
From S2P Require Import RecoveryFinalizer Credentials.

(** ** The catalog *)

Definition PERMISSIONS : list (string * string) := [
  ("hosts.read", "View Docker hosts and their reported state");
  ("hosts.archive", "Archive a host, and restore an archived one");
  ("containers.read", "View discovered containers");
  ("containers.start", "Start a container");
  ("containers.stop", "Stop a container");
  ("containers.restart", "Restart a container");
  ("containers.logs", "Read and follow container logs");
  ("containers.create", "Create a container");
  ("containers.update", "Change a container’s configuration, which recreates it");
  ("containers.delete", "Remove a container");
  ("compose.read", "View discovered Compose projects");
  ("stacks.read", "View stacks and their revisions");
  ("stacks.create", "Create a stack");
  ("stacks.update", "Change a stack’s Compose source or environment");
  ("stacks.deploy", "Deploy, redeploy, start, stop or restart a stack");
  ("stacks.delete", "Remove a stack");
  ("agents.read", "View enrolled agents");
  ("agents.enroll", "Create agent enrollment tokens");
  ("agents.revoke", "Revoke an agent credential");
  ("audit.read", "Read the audit log");
  ("users.read", "View users");
  ("users.manage", "Create, modify and deactivate users");
  ("roles.read", "View roles and their permissions");
  ("sessions.read", "View active sessions");
  ("sessions.revoke", "Revoke sessions")].

Definition PERMISSION_KEYS : list string := PERMISSIONS.*1.

Definition isKnownPermission (key : string) : bool := mem key PERMISSION_KEYS.

Definition READ_ONLY : list string := ["hosts.read"; "containers.read"; "compose.read"; "stacks.read"].
Definition OPERATOR : list string :=
  READ_ONLY ++ ["containers.restart"; "containers.logs"; "agents.read"; "audit.read"].

Record BuiltInRole := { builtin_name : string; builtin_description : string; builtin_permissions : list string }.

Definition BUILT_IN_ROLES : list BuiltInRole := [
  {| builtin_name := "Administrator";
     builtin_description := "Full access including user, role and agent administration.";
     builtin_permissions := PERMISSION_KEYS |};
  {| builtin_name := "Operator";
     builtin_description := "Day-to-day visibility into hosts, workloads, agents and the audit log.";
     builtin_permissions := OPERATOR |};
  {| builtin_name := "Read Only";
     builtin_description := "Read-only visibility into hosts and workloads.";
     builtin_permissions := READ_ONLY |}].

(** ** RbacService *)

Record UserAuthorization := {
  authorization_roles : list string;
  authorization_permissions : gset string
}.

(** [roles LEFT JOIN role_permissions LEFT JOIN permissions], one role of it. *)
Definition role_rows (role : Role) (d : DB) : list (string * option string) :=
  match select_where (λ g : RolePermission, bool_decide (grant_roleId g = role_id role)) d with
  | [] => [(role_name role, None)]
  | grants => (λ g, (role_name role, permission_key <$> permissions d !! grant_permissionId g)) <$> grants
  end.

Definition authorization_rows (userId : string) (d : DB) : list (string * option string) :=
  a ← select_where (λ a : UserRole, bool_decide (assignment_userId a = userId)) d;
  match roles d !! assignment_roleId a with
  | Some role => role_rows role d
  | None => []
  end.

(** [[...set].sort()] *)
Definition text_le (a b : string) : Prop := String.leb a b = true.
#[export] Instance text_le_dec : RelDecision text_le.
Proof. intros a b. unfold text_le. apply _. Defined.

Definition granted_by (rows_ : list (string * option string)) : gset string :=
  list_to_set (List.filter isKnownPermission (omap snd rows_)).

Definition authorizationFor (userId : string) : M UserAuthorization :=
  rows_ ← statement (λ d, inr (authorization_rows userId d, d));
  mret {| authorization_roles := merge_sort text_le (remove_dups rows_.*1);
          authorization_permissions := granted_by rows_ |}.

Definition assignRoleByName (userId roleName : string) : M unit :=
  role ← select_first (λ r : Role, bool_decide (role_name r = roleName));
  match role with
  | None => throw PlainError
  | Some role => insert_or_ignore {| assignment_userId := userId; assignment_roleId := role_id role |}
  end.

(** ** PermissionsGuard

    [required] is what the route declares, [held] what the request carries. *)

Definition permissionsGuard (required : option (list string)) (held : option (gset string)) : M unit :=
  match required with
  | None | Some [] => mret tt
  | Some ps =>
      match held with
      | None => forbidden "PERMISSION_DENIED"
      | Some held =>
          if (0 <? length (List.filter (λ p, negb (bool_decide (p ∈ held))) ps))%nat
          then forbidden "PERMISSION_DENIED" else mret tt
      end
  end.

(** ** The controllers *)

Record UserView := {
  userview_id : string;
  userview_email : string;
  userview_displayName : string;
  userview_isActive : bool;
  userview_mfaEnabled : bool;
  userview_lastLoginAt : option time;
  userview_createdAt : time
}.

Definition user_view (u : User) : UserView := {|
  userview_id := user_id u; userview_email := user_email u; userview_displayName := user_displayName u;
  userview_isActive := user_isActive u; userview_mfaEnabled := user_mfaEnabled u;
  userview_lastLoginAt := user_lastLoginAt u; userview_createdAt := user_createdAt u |}.

Section controllers.
Context `{Collation}.

Definition by_email (a b : User) : Prop := sql_le (user_email a) (user_email b) = true.
#[global] Instance by_email_dec : RelDecision by_email.
Proof. intros a b. unfold by_email. apply _. Defined.

Definition list_users : M (list UserView) :=
  rows_ ← select (λ _ : User, true);
  mret (user_view <$> merge_sort by_email rows_).

Record RoleView := {
  roleview_id : string;
  roleview_name : string;
  roleview_description : string;
  roleview_isBuiltIn : bool;
  roleview_permissions : list string
}.

Definition by_role_name (a b : Role) : Prop := sql_le (role_name a) (role_name b) = true.
#[global] Instance by_role_name_dec : RelDecision by_role_name.
Proof. intros a b. unfold by_role_name. apply _. Defined.

(** A role with the keys of its permissions; the rows of one role are together, so the map of the
    loop has one entry per role, in order. *)
Definition role_view (d : DB) (r : Role) : RoleView := {|
  roleview_id := role_id r; roleview_name := role_name r; roleview_description := role_description r;
  roleview_isBuiltIn := role_isBuiltIn r;
  roleview_permissions :=
    List.filter (λ k, negb (bool_decide (k = ""))) (omap snd (role_rows r d)) |}.

Definition list_roles : M (list RoleView) :=
  statement (λ d, inr (role_view d <$> merge_sort by_role_name (all_rows d), d)).
End controllers.

Definition assignRole (id role : string) (actor : AuthenticatedUser) (context : RequestContext) : M unit :=
  target ← select_id (R := User) id;
  match target with
  | None => notFound "USER_NOT_FOUND"
  | Some target =>
      try_catch (assignRoleByName id role) (λ _, notFound "ROLE_NOT_FOUND");;
      audit_record {|
        entry_action := "role.assigned"; entry_result := Audit_success;
        entry_actorUserId := Some (actor_id actor); entry_actorLabel := actor_email actor;
        entry_targetType := Some "user"; entry_targetId := Some id;
        entry_targetLabel := Some (user_email target); entry_reasonCode := Some role;
        entry_sourceIp := context_sourceIp context; entry_userAgent := context_userAgent context |}
  end.

(** ** The catalog in the database *)

(** [onConflictDoUpdate] on the key *)
Definition seed_permission (entry : string * string) : M unit :=
  id ← randomUUID;
  statement (λ d,
    let same p := bool_decide (permission_key p = entry.1) in
    match select_where same d with
    | [] =>
        match insert_row {| permission_id := id; permission_key := entry.1;
                            permission_description := entry.2 |} d with
        | inl name => inl (UniqueViolation name)
        | inr d' => inr (tt, d')
        end
    | _ =>
        match update_where same (λ p, p <| permission_description := entry.2 |>) d with
        | inl name => inl (UniqueViolation name)
        | inr (_, d') => inr (tt, d')
        end
    end).

Definition seed_role (byKey : string → option string) (role : BuiltInRole) : M unit :=
  existing ← select_first (λ r : Role, bool_decide (role_name r = builtin_name role));
  roleId ← match existing with
    | Some r => mret (role_id r)
    | None =>
        id ← randomUUID;
        insert_into {| role_id := id; role_name := builtin_name role;
                       role_description := builtin_description role; role_isBuiltIn := true |};;
        mret id
    end;
  when (bool_decide (is_Some existing))
    (update_id roleId (λ r, r <| role_description := builtin_description role |> <| role_isBuiltIn := true |>);;
     mret tt);;
  delete_from (λ g : RolePermission, bool_decide (grant_roleId g = roleId));;
  for_each (List.filter (λ i, negb (bool_decide (i = ""))) (omap byKey (builtin_permissions role)))
    (λ i, insert_into {| grant_roleId := roleId; grant_permissionId := i |}).

Definition seedAuthorizationCatalog : M (nat * nat) :=
  transaction (
    for_each PERMISSIONS seed_permission;;
    delete_from (λ p : PermissionRow, negb (mem (permission_key p) PERMISSION_KEYS));;
    catalog ← select (λ _ : PermissionRow, true);
    for_each BUILT_IN_ROLES (seed_role (λ key, permission_id <$> map_get permission_key catalog key));;
    mret (length PERMISSION_KEYS, length BUILT_IN_ROLES)).

(** ** The first administrator *)

Definition ADMINISTRATOR_ROLE : string := "Administrator".
Definition MINIMUM_PASSWORD_LENGTH : nat := 12.

Definition bootstrap (email displayName passwordHash : string) : M unit :=
  transaction (
    role ← select_first (λ r : Role, bool_decide (role_name r = ADMINISTRATOR_ROLE));
    match role with
    | None => throw PlainError
    | Some role =>
        (** the advisory lock *)
        statement (λ d, inr (tt, d));;
        existing ← statement (λ d, inr (List.filter
          (λ a : UserRole, bool_decide (assignment_roleId a = role_id role) &&
             match users d !! assignment_userId a with Some u => user_isActive u | None => false end)
          (all_rows d), d));
        if (0 <? length existing)%nat then throw PlainError else
        userId ← randomUUID;
        at_ ← now;
        insert_into {| user_id := userId; user_email := email; user_passwordHash := passwordHash;
          user_displayName := displayName; user_isActive := true; user_mfaEnabled := false;
          user_mfaSecretEncrypted := None; user_mfaConfirmedAt := None; user_lastLoginAt := None;
          user_createdAt := at_ |};;
        insert_into {| assignment_userId := userId; assignment_roleId := role_id role |};;
        auditId ← randomUUID;
        insert_into {| audit_id := auditId; audit_actorUserId := Some userId;
          audit_actorLabel := "bootstrap-cli"; audit_action := "user.bootstrapped";
          audit_targetType := Some "user"; audit_targetId := Some userId;
          audit_targetLabel := Some email; audit_result := Audit_success;
          audit_reasonCode := Some "initial_administrator"; audit_sourceIp := None;
          audit_userAgent := None; audit_requestId := None; audit_occurredAt := at_ |}
    end).

(** [main], given the arguments and the password that was read. *)
Definition bootstrap_admin `{Credentials} (email displayName : option string) (password : string) : M unit :=
  let address := default "" ((λ e, lower (text (trim (chars e)))) <$> email) in
  let displayName := default "Administrator"
    (or_truthy ((λ n, text (trim (chars n))) <$> displayName) None) in
  if bool_decide (address = "") || negb (mem "@"%char (chars address)) then throw PlainError
  else if (String.length password <? MINIMUM_PASSWORD_LENGTH)%nat then throw PlainError
  else hash ← hashPassword password; bootstrap address displayName hash.

(** ** Authority comes from assignments *)

(** A role of the database grants a permission. *)
Definition role_grants (d : DB) (role : Role) (p : string) : Prop :=
  ∃ g q, (∃ i, rolePermissions d !! i = Some g) ∧ grant_roleId g = role_id role ∧
    permissions d !! grant_permissionId g = Some q ∧ permission_key q = p.

(** A user has a role. *)
Definition assigned (d : DB) (userId : string) (role : Role) : Prop :=
  ∃ a, (∃ i, userRoles d !! i = Some a) ∧ assignment_userId a = userId ∧
    roles d !! assignment_roleId a = Some role.

Lemma elem_of_role_rows role d name o :
  (name, o) ∈ role_rows role d →
  name = role_name role ∧ (∀ p, o = Some p → role_grants d role p).
Proof.
  unfold role_rows. destruct (select_where _ d) as [|g l] eqn:E; intros Hin.
  - apply list_elem_of_singleton in Hin. naive_solver.
  - apply list_elem_of_fmap in Hin as (x & [= -> ->] & Hx). split; [done|].
    rewrite <-E in Hx. apply elem_of_select_where in Hx as [Hi Hr%bool_decide_eq_true].
    intros p (q & Hq & ->)%fmap_Some. by exists x, q.
Qed.

Lemma role_rows_granted role d p : role_grants d role p → (role_name role, Some p) ∈ role_rows role d.
Proof.
  intros (g & q & Hi & Hr & Hq & <-). unfold role_rows.
  assert (Hg : g ∈ select_where (λ g : RolePermission, bool_decide (grant_roleId g = role_id role)) d).
  { apply elem_of_select_where. split; [done|by apply bool_decide_eq_true]. }
  destruct (select_where _ d) as [|x l]; [by apply not_elem_of_nil in Hg|].
  apply list_elem_of_fmap. exists g. by rewrite Hq.
Qed.

Lemma role_rows_named role d : ∃ o, (role_name role, o) ∈ role_rows role d.
Proof. unfold role_rows. destruct (select_where _ d) as [|g l]; eexists; by left. Qed.

Lemma elem_of_authorization_rows userId d x :
  x ∈ authorization_rows userId d ↔ ∃ role, assigned d userId role ∧ x ∈ role_rows role d.
Proof.
  unfold authorization_rows. rewrite list_elem_of_bind. split.
  - intros (a & Hx & Ha). apply elem_of_select_where in Ha as [Hi Hu%bool_decide_eq_true].
    destruct (roles d !! assignment_roleId a) as [role|] eqn:E; [|by apply not_elem_of_nil in Hx].
    exists role. split; [by exists a|done].
  - intros (role & (a & Hi & Hu & Hr) & Hx). exists a. rewrite Hr. split; [done|].
    apply elem_of_select_where. split; [done|by apply bool_decide_eq_true].
Qed.

Lemma elem_of_granted_by p rows_ :
  p ∈ granted_by rows_ ↔ p ∈ PERMISSION_KEYS ∧ ∃ name, (name, Some p) ∈ rows_.
Proof.
  unfold granted_by. rewrite elem_of_list_to_set, elem_of_filter_bool, list_elem_of_omap.
  unfold isKnownPermission, mem. rewrite bool_decide_eq_true. split.
  - intros [([name o] & Hin & E) Hk]. simpl in E. subst. eauto.
  - intros [Hk [name Hin]]. split; [|done]. by exists (name, Some p).
Qed.

Lemma elem_of_granted userId d p :
  p ∈ granted_by (authorization_rows userId d) ↔
  p ∈ PERMISSION_KEYS ∧ ∃ role, assigned d userId role ∧ role_grants d role p.
Proof.
  rewrite elem_of_granted_by. setoid_rewrite elem_of_authorization_rows. split.
  - intros (Hk & name & role & Ha & Hx). apply elem_of_role_rows in Hx as [_ Hg]. eauto.
  - intros (Hk & role & Ha & Hg). split; [done|]. exists (role_name role), role.
    split; [done|]. by apply role_rows_granted.
Qed.

Lemma elem_of_role_names userId d name :
  name ∈ (authorization_rows userId d).*1 ↔ ∃ role, assigned d userId role ∧ role_name role = name.
Proof.
  rewrite list_elem_of_fmap. setoid_rewrite elem_of_authorization_rows. split.
  - intros ([n o] & -> & role & Ha & Hx). apply elem_of_role_rows in Hx as [-> _]. eauto.
  - intros (role & Ha & <-). destruct (role_rows_named role d) as [o Ho]. exists (role_name role, o). eauto.
Qed.

(** What a user may do is exactly what the catalog has and some role assigned to them
    grants; a key that left the catalog, a role nobody assigned and a user without
    roles grant nothing.  The names are those of the assigned roles, each once. *)
Theorem authorization_exact userId w :
  healthy w → ∃ a, authorizationFor userId w = (inr a, w) ∧
  (∀ p, p ∈ authorization_permissions a ↔
     p ∈ PERMISSION_KEYS ∧ ∃ role, assigned (w_db w) userId role ∧ role_grants (w_db w) role p) ∧
  (∀ name, name ∈ authorization_roles a ↔ ∃ role, assigned (w_db w) userId role ∧ role_name role = name) ∧
  NoDup (authorization_roles a).
Proof.
  intros Hw. unfold authorizationFor. rewrite (run_bind _ _ _ _ _ (run_read w Hw _)).
  eexists. split; [done|]. cbn [authorization_permissions authorization_roles].
  split; [intros p; apply elem_of_granted|]. rewrite merge_sort_Permutation. split.
  - intros name. rewrite merge_sort_Permutation, elem_of_remove_dups. apply elem_of_role_names.
  - apply NoDup_remove_dups.
Qed.

(** *** Assigning a role *)

Definition link (userId : string) (role : Role) : UserRole :=
  {| assignment_userId := userId; assignment_roleId := role_id role |}.

Lemma insert_or_ignore_inr `{Table R} (r : R) w u w' :
  insert_or_ignore r w = (inr u, w') →
  only_faults (w <| w_db := match insert_row r (w_db w) with inl _ => w_db w | inr d => d end |>) w'.
Proof.
  unfold insert_or_ignore, statement. destruct (next_fault w); [done|]. intros; simplify_eq/=.
  eexists. by destruct w.
Qed.

(** The pair is there afterwards, once, and no other pair came or went. *)
Lemma link_inserted userId role d :
  db_ok d →
  let d' := match insert_row (link userId role) d with inl _ => d | inr d' => d' end in
  d' = d <| userRoles := userRoles d' |> ∧
  ∀ a, (∃ i, userRoles d' !! i = Some a) ↔ a = link userId role ∨ ∃ i, userRoles d !! i = Some a.
Proof.
  intros Hok. unfold insert_row. cbn [rows row_id userRoles_table].
  destruct (userRoles d !! _) as [x|] eqn:E.
  - split; [by destruct d|]. intros a. split; [by right|]. intros [->|H]; [|done].
    pose proof (row_named (R := UserRole) d _ _ Hok E) as Hx. apply pair_key_inj in Hx as [Hu Hr].
    eexists. rewrite E. f_equal. destruct x. simpl in *. by subst.
  - destruct (violation _) as [n|] eqn:Ev; [by vm_compute in Ev|]. split; [done|]. intros a. simpl. split.
    + intros [i [[_ <-]|[_ Hi]]%lookup_insert_Some]; [by left|by right; exists i].
    + intros [->|[i Hi]]; [by eexists; apply lookup_insert_eq|]. exists i.
      rewrite lookup_insert_ne; [done|]. intros <-. simpl in E. congruence.
Qed.

Lemma assignRoleByName_inr userId roleName w u w' :
  db_ok (w_db w) → assignRoleByName userId roleName w = (inr u, w') →
  ∃ role, (∃ i, roles (w_db w) !! i = Some role) ∧ role_name role = roleName ∧
    w_db w' = (w_db w) <| userRoles := userRoles (w_db w') |> ∧
    ∀ a, (∃ i, userRoles (w_db w') !! i = Some a) ↔
         a = link userId role ∨ ∃ i, userRoles (w_db w) !! i = Some a.
Proof.
  intros Hok E. apply bind_inr in E as (o & w1 & E1 & E). apply select_first_inr in E1 as [-> [fs ->]].
  destruct (head _) as [role|] eqn:Eh; [|done].
  apply head_select_Some in Eh as [Hi Hn%bool_decide_eq_true].
  exists role. split; [done|]. split; [done|].
  apply insert_or_ignore_inr in E as [gs ->].
  by apply (link_inserted userId role (w_db w) Hok).
Qed.

Lemma role_named d i r : db_ok d → roles d !! i = Some r → role_id r = i.
Proof. exact (@row_named Role _ _ d i r). Qed.

(** Everything but who has which role, and the trail. *)
Definition but_assignments (d : DB) : DB := d <| userRoles := ∅ |> <| auditEntries := ∅ |>.

(** Assigning a role that exists gives the user exactly that role beside those they
    had; nobody else gains or loses one, and nothing else is touched. *)
Theorem assignRole_adds id role actor context w u w' :
  db_ok (w_db w) → assignRole id role actor context w = (inr u, w') →
  but_assignments (w_db w') = but_assignments (w_db w) ∧
  ∀ who r, assigned (w_db w') who r ↔
    assigned (w_db w) who r ∨ (who = id ∧ role_name r = role ∧ roles (w_db w) !! role_id r = Some r).
Proof.
  intros Hok E. unfold assignRole in E. apply bind_inr in E as (o & w1 & E1 & E).
  apply select_id_inr in E1 as [-> [fs ->]]. destruct (rows _ !! id) as [target|]; [|done].
  apply bind_inr in E as ([] & w2 & E2 & E3).
  assert (E2' : assignRoleByName id role (w <| w_faults := fs |>) = (inr (), w2)).
  { unfold try_catch in E2. destruct (assignRoleByName _ _ _) as [[e|[]] w0]; [done|exact E2]. }
  apply assignRoleByName_inr in E2' as (r0 & [i Hi] & Hn & Ed & Ha); [|exact Hok]. simpl in Hi, Ed, Ha.
  assert (E4 : unaudited (w_db w') = unaudited (w_db w2)).
  { eapply (framed_run (on_db (unchanged unaudited))); [|exact E3]. apply audit_record_unaudited. }
  assert (Hu : userRoles (w_db w') = userRoles (w_db w2)) by (apply (f_equal userRoles) in E4; exact E4).
  assert (Hr : roles (w_db w') = roles (w_db w)).
  { apply (f_equal roles) in E4. apply (f_equal roles) in Ed. simpl in E4, Ed. congruence. }
  split.
  - apply (f_equal (λ d, d <| userRoles := ∅ |>)) in E4. unfold but_assignments.
    trans ((w_db w2) <| userRoles := ∅ |> <| auditEntries := ∅ |>); [exact E4|]. by rewrite Ed.
  - intros who r. unfold assigned. rewrite Hr, Hu. setoid_rewrite Ha. split.
    + intros (a & [->|Hx] & Hw & Hro); [right|left; by exists a]. simpl in *.
      rewrite (role_named (w_db w) i r0 Hok Hi) in Hro. rewrite Hi in Hro. simplify_eq.
      rewrite (role_named (w_db w) i r Hok Hi). done.
    + intros [(a & Hx & Hw & Hro)|(-> & Hn' & Hro)]; [exists a; auto|].
      exists (link id r0). split; [by left|]. simpl.
      rewrite (role_named (w_db w) i r0 Hok Hi), Hi. split; [done|]. f_equal.
      assert (Hk : role_id r = i).
      { eapply (unique_row (R := Role) "roles_name_unique" _ (w_db w)); [done|by left|done|done|done|]. simpl. congruence. }
      congruence.
Qed.

(** *** One first administrator *)

(** Somebody active has the role. *)
Definition administered (d : DB) : Prop := ∃ role u a,
  (∃ i, roles d !! i = Some role) ∧ role_name role = ADMINISTRATOR_ROLE ∧
  (∃ i, userRoles d !! i = Some a) ∧ assignment_roleId a = role_id role ∧
  users d !! assignment_userId a = Some u ∧ user_isActive u = true.

Lemma the_role d r r' :
  db_ok d → (∃ i, roles d !! i = Some r) → (∃ i, roles d !! i = Some r') → role_name r = role_name r' → r = r'.
Proof.
  intros Hok [i Hi] [j Hj] E. assert (i = j) as ->; [|congruence].
  eapply (unique_row (R := Role) "roles_name_unique" _ d); [done|by left|done|done|done|]. simpl. congruence.
Qed.

(** The active holders of a role, as the command looks for them. *)
Definition active_holders (role : Role) (d : DB) : list UserRole :=
  List.filter (λ a : UserRole, bool_decide (assignment_roleId a = role_id role) &&
    match users d !! assignment_userId a with Some u => user_isActive u | None => false end) (all_rows d).

Lemma bootstrap_inr email displayName hash w u w' :
  bootstrap email displayName hash w = (inr u, w') →
  ∃ role x, (∃ i, roles (w_db w) !! i = Some role) ∧ role_name role = ADMINISTRATOR_ROLE ∧
    active_holders role (w_db w) = [] ∧ user_isActive x = true ∧
    roles (w_db w') = roles (w_db w) ∧ users (w_db w') = <[user_id x := x]> (users (w_db w)) ∧
    userRoles (w_db w') = <[row_id (link (user_id x) role) := link (user_id x) role]> (userRoles (w_db w)).
Proof.
  intros E. apply transaction_inr in E as (w1 & E & [fs ->]). apply bind_inr in E as (o & w2 & Es & E).
  apply select_first_inr in Es as [-> [gs ->]]. destruct (head _) as [role|] eqn:Eh; [|done].
  apply head_select_Some in Eh as [Hr Hn%bool_decide_eq_true].
  apply bind_inr in E as (b & w3 & El & E). apply read_inr in El as [_ [hs ->]].
  apply bind_inr in E as (l & w4 & El & E). apply read_inr in El as [-> [ks ->]].
  destruct (0 <? _)%nat eqn:Ez; [done|]. apply Nat.ltb_ge, Nat.le_0_r, nil_length_inv in Ez.
  apply bind_inr in E as (i & w5 & Ei & E). unfold randomUUID in Ei. simplify_eq.
  apply bind_inr in E as (t & w6 & Ei & E). apply now_inr in Ei as [-> ->].
  apply bind_inr in E as (c & w7 & Ei & E). apply insert_inr in Ei as [_ [ls ->]].
  apply bind_inr in E as (c' & w8 & Ei & E). apply insert_inr in Ei as [_ [ms ->]].
  apply bind_inr in E as (i & w9 & Ei & E). unfold randomUUID in Ei. simplify_eq.
  apply insert_inr in E as [_ [ns ->]]. eexists role, _. split_and!; [exact Hr|done|exact Ez| |done|done|done].
  done.
Qed.

Lemma administered_holders d role :
  db_ok d → (∃ i, roles d !! i = Some role) → role_name role = ADMINISTRATOR_ROLE →
  active_holders role d = [] → ¬ administered d.
Proof.
  intros Hok Hr Hn Enil (r & x & a & Hr' & Hn' & [j Hj] & Ha & Hu & Hact).
  assert (r = role) as -> by (eapply the_role; [done|done|done|congruence]).
  apply (not_elem_of_nil a). rewrite <-Enil. apply elem_of_filter_bool. split.
  - apply list_elem_of_fmap. exists (j, a). split; [done|]. by apply elem_of_map_to_list.
  - rewrite Hu, Hact, andb_true_r. by apply bool_decide_eq_true.
Qed.

(** The command that creates the first administrator creates one only when there is
    none, and then there is one; and while somebody active has the role it never
    succeeds, however it is called. *)
Theorem bootstrap_once email displayName hash w u w' :
  db_ok (w_db w) → bootstrap email displayName hash w = (inr u, w') →
  ¬ administered (w_db w) ∧ administered (w_db w') ∧
  ∀ w2 email' displayName' hash', db_ok (w_db w2) → administered (w_db w2) →
    ∀ u', (bootstrap email' displayName' hash' w2).1 ≠ inr u'.
Proof.
  intros Hok E. apply bootstrap_inr in E as (role & x & Hr & Hn & Enil & Hx & Er & Eu & Ea). split_and!.
  - by eapply administered_holders.
  - exists role, x, (link (user_id x) role). rewrite Er, Ea, Eu. split_and!; try done.
    + by eexists; apply lookup_insert_eq.
    + apply lookup_insert_eq.
  - intros w2 email' name' hash' Hok2 Hadm u' E2.
    destruct (bootstrap email' name' hash' w2) as [r w3] eqn:Eb. simpl in E2. subst r.
    apply bootstrap_inr in Eb as (role' & x' & Hr' & Hn' & Enil' & _).
    by apply (administered_holders _ _ Hok2 Hr' Hn' Enil').
Qed.

(** *** A small office *)

Definition example_user (id email : string) (active : bool) : User := {|
  user_id := id; user_email := email; user_passwordHash := "hash of secret"; user_displayName := email;
  user_isActive := active; user_mfaEnabled := false; user_mfaSecretEncrypted := None;
  user_mfaConfirmedAt := None; user_lastLoginAt := None; user_createdAt := 0%Z |}.

Definition example_role (id name : string) : Role :=
  {| role_id := id; role_name := name; role_description := ""; role_isBuiltIn := true |}.

Definition office : DB := empty_db
  <| users := {["u1" := example_user "u1" "ada@example.org" true;
                "u2" := example_user "u2" "bob@example.org" false]} |>
  <| roles := {["r1" := example_role "r1" "Administrator"; "r2" := example_role "r2" "Operator"]} |>
  <| permissions := {["p1" := {| permission_id := "p1"; permission_key := "containers.restart";
                                 permission_description := "" |}]} |>
  <| rolePermissions := {[pair_key "r2" "p1" := {| grant_roleId := "r2"; grant_permissionId := "p1" |}]} |>.

Definition office_world : World := (quiet_world office) <| w_seed := 100%N |>.

Lemma office_ok : db_ok (w_db office_world).
Proof. apply db_okb_true. by vm_compute. Qed.

Definition administrator : AuthenticatedUser := {| actor_id := "u0"; actor_email := "root@example.org" |}.

Definition from_browser : RequestContext :=
  {| context_sourceIp := Some "192.0.2.1"; context_userAgent := None; context_requestId := None |}.

Definition after_assignment : World := (assignRole "u1" "Operator" administrator from_browser office_world).2.

Lemma assignRole_adds_witness :
  assigned (w_db after_assignment) "u1" (example_role "r2" "Operator") ∧
  ¬ assigned (w_db after_assignment) "u2" (example_role "r2" "Operator").
Proof.
  assert (E : assignRole "u1" "Operator" administrator from_browser office_world = (inr tt, after_assignment))
    by (vm_compute; reflexivity).
  destruct (assignRole_adds _ _ _ _ _ _ _ office_ok E) as [_ H]. clear E. split.
  - apply H. right. by vm_compute.
  - intros [(a & [i Hi] & _)|[E _]]%H; [by vm_compute in Hi|done].
Defined.

Lemma authorization_exact_witness : ∃ a,
  authorizationFor "u1" after_assignment = (inr a, after_assignment) ∧
  "containers.restart" ∈ authorization_permissions a ∧ "containers.stop" ∉ authorization_permissions a.
Proof.
  destruct (authorization_exact "u1" after_assignment) as (a & E & _); [by vm_compute|].
  exists a. split; [exact E|]. vm_compute in E. simplify_eq. split; by apply (bool_decide_unpack _).
Defined.

Definition bootstrapped : World :=
  (bootstrap "root@example.org" "Root" "hash of another" office_world).2.

Lemma bootstrap_once_witness :
  ¬ administered (w_db office_world) ∧ administered (w_db bootstrapped) ∧
  ∀ u', (bootstrap "eve@example.org" "Eve" "hash of a third" bootstrapped).1 ≠ inr u'.
Proof.
  assert (E : bootstrap "root@example.org" "Root" "hash of another" office_world = (inr tt, bootstrapped))
    by (vm_compute; reflexivity).
  destruct (bootstrap_once _ _ _ _ _ _ office_ok E) as (H1 & H2 & H3). clear E.
  split_and!; [exact H1|exact H2|]. intros u'. apply H3; [|exact H2].
  apply db_okb_true. by vm_compute.
Defined.

(** The catalog, written to an empty database: who may restart, and who may stop. *)
Example seeded_roles :
  let d := w_db (seedAuthorizationCatalog (quiet_world empty_db)).2 in
  let may p r := mem p (omap snd (role_rows r d)) in
  (λ r, (role_name r, may "containers.restart" r, may "containers.stop" r)) <$> all_rows d =
  [("Administrator", true, true); ("Operator", true, false); ("Read Only", false, false)].
Proof. vm_compute. reflexivity. Qed.
