(* ===== verification/Sessions.v ===== *)
(** * Sessions and the guards of a request

    [api/src/auth/session.service.ts], [session.guard.ts], [csrf.guard.ts],
    [throttling.ts] and [session-cookie.ts]: a session is a row whose token only the browser has,
    and every request is resolved against it before its handler runs. *)

From Stdlib Require Import Ascii String NArith ZArith.
From stdpp Require Import gmap strings list.
From S2P Require Import Prelude Schema Store Registry Effects Logic Base64 StackDeployment Credentials Rbac.

(** What [AppConfig] says about sessions, in seconds, and how a URL is read. *)
Class SessionConfig := {
  SESSION_TTL : Z;
  SESSION_IDLE_TIMEOUT : Z;
  PUBLIC_APP_URL : string;
  DEV_ALLOW_INSECURE_COOKIES : bool;
  (** [new URL(value).origin], or why there is none *)
  url_origin : string → option string
}.

(** ** Data *)

Record IssuedSession := {
  issued_sessionId : string;
  issued_token : string;
  issued_csrfToken : string;
  issued_expiresAt : time
}.

Record ActiveSession := {
  active_id : string;
  active_userId : string;
  active_mfaPending : bool;
  active_csrfTokenHash : string;
  active_expiresAt : time
}.

Record SessionContext := {
  from_userAgent : option string;
  from_sourceIp : option string
}.

(** What the guard leaves on the request. *)
Record Principal := {
  principal_id : string;
  principal_email : string;
  principal_displayName : string;
  principal_mfaEnabled : bool;
  principal_roles : list string;
  principal_permissions : gset string
}.

(** ** SessionService *)

Section sessions.
Context `{Credentials} `{SessionConfig}.

Definition new_session (id userId token csrfToken : string) (mfaPending : bool)
    (context : SessionContext) (at_ : time) : Session := {|
  session_id := id; session_userId := userId; session_tokenHash := hashSecret token;
  session_csrfTokenHash := hashSecret csrfToken; session_mfaPending := mfaPending;
  session_userAgent := substring 0 256 <$> from_userAgent context;
  session_sourceIp := from_sourceIp context; session_createdAt := at_; session_lastSeenAt := at_;
  session_expiresAt := (at_ + SESSION_TTL * 1000)%Z; session_revokedAt := None |}.

(** The part [issue] and [completeMfa] share. *)
Definition issue (userId : string) (mfaPending : bool) (context : SessionContext) : M IssuedSession :=
  token ← generateSecret TOKEN_BYTES;
  csrfToken ← generateSecret TOKEN_BYTES;
  at_ ← now;
  id ← randomUUID;
  insert_into (new_session id userId token csrfToken mfaPending context at_);;
  mret {| issued_sessionId := id; issued_token := token; issued_csrfToken := csrfToken;
          issued_expiresAt := (at_ + SESSION_TTL * 1000)%Z |}.

Definition revoke (sessionId : string) : M unit :=
  at_ ← now;
  update (λ s : Session, bool_decide (session_id s = sessionId) && bool_decide (session_revokedAt s = None))
    (λ s, s <| session_revokedAt := Some at_ |>);;
  mret tt.

(** [sessions INNER JOIN users], the first row. *)
Definition session_row (p : Session → bool) (d : DB) : option (Session * User) :=
  head (omap (λ s, u ← users d !! session_userId s; Some (s, u)) (select_where p d)).

Definition ended (s : Session) (u : User) (at_ : time) : bool :=
  bool_decide (session_revokedAt s ≠ None) || negb (user_isActive u) || (session_expiresAt s <=? at_)%Z.

Definition idleDeadline (s : Session) : time := (session_lastSeenAt s + SESSION_IDLE_TIMEOUT * 1000)%Z.

Definition active_session (s : Session) : ActiveSession := {|
  active_id := session_id s; active_userId := session_userId s; active_mfaPending := session_mfaPending s;
  active_csrfTokenHash := session_csrfTokenHash s; active_expiresAt := session_expiresAt s |}.

Definition resolve (token : string) : M (option ActiveSession) :=
  now_ ← now;
  row ← statement (λ d, inr (session_row (λ s, bool_decide (session_tokenHash s = hashSecret token)) d, d));
  match row with
  | None => mret None
  | Some (s, u) =>
      if ended s u now_ then mret None
      else if (idleDeadline s <=? now_)%Z then revoke (session_id s);; mret None
      else
        update_id (session_id s) (λ s, s <| session_lastSeenAt := now_ |>);;
        mret (Some (active_session s))
  end.

Definition isActive (sessionId : string) : M bool :=
  now_ ← now;
  row ← statement (λ d, inr (session_row (λ s, bool_decide (session_id s = sessionId)) d, d));
  match row with
  | None => mret false
  | Some (s, u) => mret (if ended s u now_ then false else (now_ <? idleDeadline s)%Z)
  end.

Definition issueCsrfToken (sessionId : string) : M string :=
  csrfToken ← generateSecret TOKEN_BYTES;
  update_id (R := Session) sessionId (λ s, s <| session_csrfTokenHash := hashSecret csrfToken |>);;
  mret csrfToken.

Definition verifyCsrf (session : ActiveSession) (presented : option string) : bool :=
  match presented with
  | Some p => secretsEqual (active_csrfTokenHash session) (hashSecret p)
  | None => false
  end.

Definition completeMfa (sessionId : string) (context : SessionContext) : M IssuedSession :=
  previous ← select_id (R := Session) sessionId;
  match previous with
  | None => throw PlainError
  | Some previous =>
      transaction (
        at_ ← now;
        update_id (R := Session) sessionId (λ s, s <| session_revokedAt := Some at_ |>);;
        issue (session_userId previous) false context)
  end.

Definition revokeAllForUser (userId : string) (except : option string) : M nat :=
  at_ ← now;
  rows_ ← update (λ s : Session,
      bool_decide (session_userId s = userId) && bool_decide (session_revokedAt s = None) &&
      (if truthy except then negb (bool_decide (Some (session_id s) = except)) else true))
    (λ s, s <| session_revokedAt := Some at_ |>);
  mret (length rows_).

Definition findById (sessionId : string) : M (option Session) := select_id sessionId.

(** ** The guards *)

(** [SessionGuard.canActivate]: who is asking.  [token] is the cookie; an empty one is none. *)
Definition sessionGuard (isPublic allowsPending : bool) (token : option string) :
    M (option (ActiveSession * Principal)) :=
  if negb (truthy token) then
    if isPublic then mret None else unauthorized "SESSION_REQUIRED"
  else
    session ← resolve (default "" token);
    match session with
    | None => if isPublic then mret None else unauthorized "SESSION_EXPIRED"
    | Some session =>
        user ← select_id (R := User) (active_userId session);
        match user with
        | None => unauthorized "SESSION_REVOKED"
        | Some user =>
            authorization ← authorizationFor (user_id user);
            let principal := {|
              principal_id := user_id user; principal_email := user_email user;
              principal_displayName := user_displayName user; principal_mfaEnabled := user_mfaEnabled user;
              principal_roles := authorization_roles authorization;
              principal_permissions := authorization_permissions authorization |} in
            if active_mfaPending session && negb allowsPending
            then unauthorized "AUTH_MFA_REQUIRED"
            else mret (Some (session, principal))
        end
    end.

Definition SAFE_METHODS : list string := ["GET"; "HEAD"; "OPTIONS"].

(** A request as the second guard sees it. *)
Record Request := {
  request_method : string;
  request_origin : option string;
  request_referer : option string;
  request_csrf : option string
}.

(** [url.replace(/\/$/, '')] *)
Definition without_slash (url : string) : string :=
  match rev (chars url) with
  | "/"%char :: l => text (rev l)
  | _ => url
  end.

Definition assertOriginAllowed (request : Request) : M unit :=
  let declared :=
    match request_origin request with
    | Some o => Some o
    | None => match request_referer request with
              | Some r => if truthy (Some r) then url_origin r else None
              | None => None
              end
    end in
  if negb (truthy declared) then mret tt
  else if bool_decide (declared ≠ Some (without_slash PUBLIC_APP_URL)) then forbidden "CSRF_INVALID"
  else mret tt.

Definition csrfGuard (request : Request) (session : option ActiveSession) : M unit :=
  if mem (request_method request) SAFE_METHODS then mret tt
  else
    assertOriginAllowed request;;
    match session with
    | None => mret tt
    | Some session => if verifyCsrf session (request_csrf request) then mret tt else forbidden "CSRF_INVALID"
    end.

(** What a route declares with its decorators. *)
Record Route := {
  route_public : bool;
  route_allowsPending : bool;
  route_permissions : option (list string)
}.

(** The guards in the order [AppModule] provides them; what comes back is what the handler sees. *)
Definition guards (route : Route) (token : option string) (request : Request) :
    M (option (ActiveSession * Principal)) :=
  who ← sessionGuard (route_public route) (route_allowsPending route) token;
  csrfGuard request (fst <$> who);;
  permissionsGuard (route_permissions route) (principal_permissions ∘ snd <$> who);;
  mret who.

(** ** The rest of the request *)

(** [CredentialThrottlerGuard.getTracker] *)
Definition getTracker (ip email : option string) : string :=
  let address := ip ?? "unknown" in
  let account := (λ e, substring 0 320 (lower (text (trim (chars e))))) <$> email in
  if truthy account then address +:+ "|" +:+ default "" account else address.

Record CookieOptions := {
  cookie_httpOnly : bool;
  cookie_secure : bool;
  cookie_sameSite : string;
  cookie_path : string;
  cookie_expires : option time
}.

Definition sessionCookieOptions (expiresAt : time) : CookieOptions := {|
  cookie_httpOnly := true; cookie_secure := negb DEV_ALLOW_INSECURE_COOKIES; cookie_sameSite := "lax";
  cookie_path := "/"; cookie_expires := Some expiresAt |}.

Definition clearedCookieOptions : CookieOptions := {|
  cookie_httpOnly := true; cookie_secure := negb DEV_ALLOW_INSECURE_COOKIES; cookie_sameSite := "lax";
  cookie_path := "/"; cookie_expires := None |}.
End sessions.

(** ** What a token resolves to *)

Section resolving.
Context `{Credentials} `{SessionConfig}.

Lemma session_row_one p d s u :
  db_ok d → (∀ i j a b, sessions d !! i = Some a → sessions d !! j = Some b → p a = true → p b = true → i = j) →
  session_row p d = Some (s, u) ↔
  (∃ i, sessions d !! i = Some s) ∧ p s = true ∧ users d !! session_userId s = Some u.
Proof.
  intros Hok Hone. unfold session_row. split.
  - intros E. assert (Hin : (s, u) ∈ omap (λ s, u ← users d !! session_userId s; Some (s, u)) (select_where p d)).
    { destruct (omap _ _); simplify_eq/=. by left. }
    apply list_elem_of_omap in Hin as (x & Hx & Ex). apply elem_of_select_where in Hx as [Hx Hp].
    destruct (users d !! session_userId x) as [y|] eqn:Ey; simplify_eq/=. done.
  - intros ([i Hi] & Hp & Hu). rewrite (@select_where_one Session sessions_table sessions_laws p d i s Hok Hi Hp); [by simpl; rewrite Hu|].
    intros j x Hj Hx. by eapply Hone.
Qed.

Lemma session_row_token token d s u :
  db_ok d →
  session_row (λ s, bool_decide (session_tokenHash s = hashSecret token)) d = Some (s, u) ↔
  (∃ i, sessions d !! i = Some s) ∧ session_tokenHash s = hashSecret token ∧
  users d !! session_userId s = Some u.
Proof.
  intros Hok. rewrite session_row_one; [by rewrite bool_decide_eq_true|done|].
  intros i j a b Ha Hb Ea%bool_decide_eq_true Eb%bool_decide_eq_true.
  eapply (unique_row (R := Session) "sessions_token_hash_unique" _ d); [done|by left|done|done|done|].
  simpl. congruence.
Qed.

Lemma session_named d i s : db_ok d → sessions d !! i = Some s → session_id s = i.
Proof. exact (@row_named Session _ _ d i s). Qed.

Lemma session_row_id i d s u :
  db_ok d →
  session_row (λ s, bool_decide (session_id s = i)) d = Some (s, u) ↔
  sessions d !! i = Some s ∧ users d !! session_userId s = Some u.
Proof.
  intros Hok. rewrite session_row_one; [rewrite bool_decide_eq_true|done|].
  - split.
    + intros ([j Hj] & <- & Hu). by rewrite (session_named d j s Hok Hj).
    + intros [Hi Hu]. split; [by exists i|]. by rewrite (session_named d i s Hok Hi).
  - intros j k a b Ha Hb Ea%bool_decide_eq_true Eb%bool_decide_eq_true.
    rewrite <-(session_named d j a Hok Ha), <-(session_named d k b Hok Hb). congruence.
Qed.

(** A session somebody can act with: not revoked, not expired, not idle, of an active user. *)
Definition usable (d : DB) (at_ : time) (s : Session) (u : User) : Prop :=
  users d !! session_userId s = Some u ∧ user_isActive u = true ∧ session_revokedAt s = None ∧
  (at_ < session_expiresAt s)%Z ∧ (at_ < idleDeadline s)%Z.

Lemma usable_iff d at_ s u :
  usable d at_ s u ↔ users d !! session_userId s = Some u ∧ ended s u at_ = false ∧ (at_ < idleDeadline s)%Z.
Proof.
  unfold usable, ended. rewrite !orb_false_iff, negb_false_iff, Z.leb_gt, bool_decide_eq_false.
  destruct (session_revokedAt s); naive_solver.
Qed.

Lemma isActive_run i w :
  healthy w → db_ok (w_db w) → ∃ b, isActive i w = (inr b, w) ∧
  (b = true ↔ ∃ s u, sessions (w_db w) !! i = Some s ∧ usable (w_db w) (w_now w) s u).
Proof.
  intros Hw Hok. unfold isActive. rewrite (run_bind _ _ _ _ _ (eq_refl : now w = (inr (w_now w), w))).
  rewrite (run_bind _ _ _ _ _ (run_read w Hw _)).
  destruct (session_row _ (w_db w)) as [[s u]|] eqn:E; (eexists; split; [done|]).
  - apply session_row_id in E as [Hs Hu]; [|done]. split.
    + intros Hb. exists s, u. split; [done|]. apply usable_iff. destruct (ended s u (w_now w)); [done|].
      split_and!; [done|done|by apply Z.ltb_lt].
    + intros (s' & u' & Hs' & (Hu' & He & Hi)%usable_iff). simplify_eq. rewrite He. by apply Z.ltb_lt.
  - split; [done|]. intros (s & u & Hs & Hu & _). exfalso.
    enough (session_row (λ s, bool_decide (session_id s = i)) (w_db w) = Some (s, u)) by congruence.
    by apply session_row_id.
Qed.

(** What [resolve] answers, when it answers. *)
Lemma resolved_session_inr token w r w' :
  db_ok (w_db w) → resolve token w = (inr r, w') →
  match r with
  | Some a => ∃ i s u, sessions (w_db w) !! i = Some s ∧ session_tokenHash s = hashSecret token ∧
      usable (w_db w) (w_now w) s u ∧ a = active_session s
  | None => ∀ i s u, sessions (w_db w) !! i = Some s → session_tokenHash s = hashSecret token →
      ¬ usable (w_db w) (w_now w) s u
  end.
Proof.
  intros Hok E. unfold resolve in E. apply bind_inr in E as (t & w1 & [-> ->]%now_inr & E).
  apply bind_inr in E as (o & w1 & [-> [fs ->]]%read_inr & E).
  destruct (session_row _ (w_db w)) as [[s u]|] eqn:Er.
  - apply session_row_token in Er as ([i Hi] & Ht & Hu); [|done].
    assert (Hsame : ∀ j s', sessions (w_db w) !! j = Some s' → session_tokenHash s' = hashSecret token → s' = s).
    { intros j s' Hj Ht'. assert (i = j) as ->; [|congruence].
      eapply (unique_row (R := Session) "sessions_token_hash_unique" _ (w_db w)); [done|by left|done|done|done|].
      simpl. congruence. }
    destruct (ended s u (w_now w)) eqn:He.
    { apply ret_inr in E as [-> ->]. intros j s' u' Hj Ht' (Hu' & He' & _)%usable_iff.
      rewrite (Hsame j s' Hj Ht') in *. congruence. }
    destruct (idleDeadline s <=? w_now w)%Z eqn:Ei.
    { apply bind_inr in E as (x & w2 & _ & [-> _]%ret_inr). intros j s' u' Hj Ht' (_ & _ & Hi')%usable_iff.
      rewrite (Hsame j s' Hj Ht') in *. apply Z.leb_le in Ei. lia. }
    apply bind_inr in E as (x & w2 & _ & [-> _]%ret_inr). exists i, s, u. split_and!; try done.
    apply usable_iff. apply Z.leb_gt in Ei. done.
  - apply ret_inr in E as [-> _]. intros i s u Hi Ht (Hu & _).
    enough (session_row (λ s, bool_decide (session_tokenHash s = hashSecret token)) (w_db w) = Some (s, u)) by congruence.
    apply session_row_token; [done|]. eauto.
Qed.

(** A request and a running stream agree about who is signed in: a token resolves to a
    session exactly when asking about that session says it is active, and asking
    leaves everything as it was. *)
Theorem resolve_agrees token w :
  healthy w → db_ok (w_db w) → ∃ r w', resolve token w = (inr r, w') ∧
  match r with
  | Some a => isActive (active_id a) w = (inr true, w) ∧
      session_tokenHash <$> sessions (w_db w) !! active_id a = Some (hashSecret token)
  | None => ∀ i s, sessions (w_db w) !! i = Some s → session_tokenHash s = hashSecret token →
      isActive i w = (inr false, w)
  end.
Proof.
  intros Hw Hok. assert (Hr : ∃ r w', resolve token w = (inr r, w')).
  { unfold resolve. rewrite (run_bind _ _ _ _ _ (eq_refl : now w = (inr (w_now w), w))).
    rewrite (run_bind _ _ _ _ _ (run_read w Hw _)). destruct (session_row _ _) as [[s u]|]; [|by eexists _, _].
    assert (Hup : ∀ p (f : Session → Session), (∀ s, session_tokenHash (f s) = session_tokenHash s) →
      ∃ l w', update p f w = (inr l, w')).
    { intros p f Hf. eexists _, _. apply (run_update w Hw p f Hok). intros x _. simpl.
      apply Forall_singleton. left. simpl. by rewrite Hf. }
    destruct (ended s u (w_now w)); [by eexists _, _|]. destruct (_ <=? _)%Z.
    - unfold revoke. destruct (Hup (λ x, bool_decide (session_id x = session_id s) && bool_decide (session_revokedAt x = None))
        (λ x, x <| session_revokedAt := Some (w_now w) |>)) as (l & w' & E); [done|].
      exists None, w'. unfold mbind, M_bind. cbn. by rewrite E.
    - destruct (Hup (λ x, bool_decide (row_id x = session_id s)) (λ x, x <| session_lastSeenAt := w_now w |>))
        as (l & w' & E); [done|].
      eexists _, w'. unfold update_id, mbind, M_bind. by rewrite E. }
  destruct Hr as (r & w' & E). exists r, w'. split; [done|]. apply resolved_session_inr in E; [|done].
  destruct r as [a|].
  - destruct E as (i & s & u & Hi & Ht & Hus & ->). simpl. rewrite (session_named _ i s Hok Hi), Hi. simpl.
    split; [|by rewrite Ht]. destruct (isActive_run i w Hw Hok) as (b & -> & Hb).
    assert (b = true) as -> by (apply Hb; by exists s, u). done.
  - intros i s Hi Ht. destruct (isActive_run i w Hw Hok) as (b & -> & Hb). do 2 f_equal.
    apply not_true_is_false. intros (s' & u & Hs' & Hus)%Hb. simplify_eq. by apply (E i s u).
Qed.

(** ** A session that is over stays over *)

Inductive SessionEvent :=
  | Issue (userId : string) (mfaPending : bool) (context : SessionContext)
  | Resolve (token : string)
  | Ask (sessionId : string)
  | Renew_csrf (sessionId : string)
  | Complete_mfa (sessionId : string) (context : SessionContext)
  | Revoke (sessionId : string)
  | Revoke_all (userId : string) (except : option string)
  | Wait (ms : N).

Definition wait (ms : N) : M unit := λ w, (inr tt, w <| w_now := (w_now w + Z.of_N ms)%Z |>).

Definition session_event (e : SessionEvent) : M unit :=
  match e with
  | Issue userId mfaPending context => issue userId mfaPending context;; mret tt
  | Resolve token => resolve token;; mret tt
  | Ask sessionId => isActive sessionId;; mret tt
  | Renew_csrf sessionId => issueCsrfToken sessionId;; mret tt
  | Complete_mfa sessionId context => completeMfa sessionId context;; mret tt
  | Revoke sessionId => revoke sessionId
  | Revoke_all userId except => revokeAllForUser userId except;; mret tt
  | Wait ms => wait ms
  end.

(** Whatever an event ends with, the next one follows. *)
Definition happen (es : list SessionEvent) (w : World) : World :=
  foldl (λ w e, (session_event e w).2) w es.

(** Whose session it is, its token, what it may do and when it ends are fixed; a revocation stays. *)
Definition outlives (s s' : Session) : Prop :=
  session_userId s' = session_userId s ∧ session_tokenHash s' = session_tokenHash s ∧
  session_mfaPending s' = session_mfaPending s ∧ session_expiresAt s' = session_expiresAt s ∧
  (session_revokedAt s ≠ None → session_revokedAt s' ≠ None).

#[export] Instance outlives_preorder : PreOrder outlives.
Proof. split; unfold outlives; [done|]. intros s1 s2 s3. naive_solver congruence. Qed.

Definition clock_forward : relation World := λ w w', (w_now w <= w_now w')%Z.

#[export] Instance clock_forward_off_db : OffDb clock_forward.
Proof. unfold clock_forward. repeat split; intros; simpl in *; try lia. - intros x. lia. - intros x y z. lia. Qed.

#[local] Hint Extern 2 (framed (on_db (evolves outlives)) (update _ _)) =>
  apply framed_update_evolves; [apply _|intros; unfold outlives; naive_solver] : frames.
#[local] Hint Extern 2 (framed (on_db (evolves outlives)) (update_id _ _)) =>
  apply framed_update_id_evolves; [apply _|intros; unfold outlives; naive_solver] : frames.

Ltac sessions_unfold := unfold issue, resolve, isActive, issueCsrfToken, completeMfa, revoke, revokeAllForUser, issue.

Lemma session_event_outlives e : framed (on_db (evolves outlives)) (session_event e).
Proof. destruct e; simpl; sessions_unfold; [frame..|]. intros w i s Hs. by exists s. Qed.

Lemma session_event_ok e : framed (on_db keeps_db_ok) (session_event e).
Proof. destruct e; simpl; sessions_unfold; [frame..|]. intros w Hok. exact Hok. Qed.

Lemma session_event_clock e : framed clock_forward (session_event e).
Proof. destruct e; simpl; sessions_unfold; [frame..|]. intros w. unfold clock_forward. simpl. lia. Qed.

Lemma happen_framed R `{!PreOrder R} es w :
  (∀ e, framed R (session_event e)) → R w (happen es w).
Proof.
  intros HR. unfold happen. revert w. induction es as [|e es IH]; intros w; simpl; [reflexivity|].
  etrans; [apply HR|apply IH].
Qed.

(** C27: once a session was revoked or has expired, no sequence of sign-ins, requests,
    second factors, revocations and waiting makes its token resolve again. *)
Theorem ended_sessions_stay_ended es token w i s a w' :
  db_ok (w_db w) → sessions (w_db w) !! i = Some s →
  session_revokedAt s ≠ None ∨ (session_expiresAt s <= w_now w)%Z →
  session_tokenHash s = hashSecret token →
  resolve token (happen es w) ≠ (inr (Some a), w').
Proof.
  intros Hok Hi Hend Ht E.
  pose proof (happen_framed (on_db keeps_db_ok) es w session_event_ok Hok) as Hok'.
  pose proof (happen_framed clock_forward es w session_event_clock) as Hc. unfold clock_forward in Hc.
  destruct (happen_framed (on_db (evolves outlives)) es w session_event_outlives i s Hi)
    as (s' & Hi' & Hu' & Ht' & _ & Hx' & Hr').
  apply resolved_session_inr in E as (j & s2 & u & Hj & Ht2 & (Hus & _ & Hr2 & Hx2 & _) & _); [|done].
  assert (i = j) as <-.
  { eapply (unique_row (R := Session) "sessions_token_hash_unique" _ (w_db (happen es w)));
      [done|by left|done|done|done|]. simpl. congruence. }
  simpl in Hi'. simplify_eq. destruct Hend as [Hend|Hend]; [by apply Hr'|lia].
Qed.
End resolving.

(** ** What a handler may rely on *)

Section guarding.
Context `{Credentials} `{SessionConfig}.

Definition but_sessions (d : DB) : DB := d <| sessions := ∅ |>.

Lemma assertOriginAllowed_reads request : reads (assertOriginAllowed request).
Proof. unfold assertOriginAllowed, forbidden. reads. Qed.

Lemma csrfGuard_reads request session : reads (csrfGuard request session).
Proof. unfold csrfGuard, forbidden. reads. apply assertOriginAllowed_reads. Qed.

Lemma permissionsGuard_reads required held : reads (permissionsGuard required held).
Proof. unfold permissionsGuard, forbidden. reads. Qed.

Lemma authorizationFor_reads userId : reads (authorizationFor userId).
Proof. unfold authorizationFor. reads. apply reads_statement. Qed.

Lemma guards_touch route token request : framed (on_db (unchanged but_sessions)) (guards route token request).
Proof.
  unfold guards, sessionGuard, resolve, revoke. frame; apply reads_framed; try apply _.
  - apply authorizationFor_reads.
  - apply csrfGuard_reads.
  - apply permissionsGuard_reads.
Qed.

(** The origin a request declares is the application's, if it declares one. *)
Definition same_origin (request : Request) : Prop :=
  ∃ w w', assertOriginAllowed request w = (inr tt, w').

(** The request carries the secret of its session, if it may change anything. *)
Definition not_forged (request : Request) (session : option ActiveSession) : Prop :=
  request_method request ∈ SAFE_METHODS ∨
  same_origin request ∧ ∀ a, session = Some a →
    ∃ presented, request_csrf request = Some presented ∧ hashSecret presented = active_csrfTokenHash a.

Lemma csrfGuard_inr request session w u w' :
  csrfGuard request session w = (inr u, w') → not_forged request session.
Proof.
  unfold csrfGuard, not_forged, mem. case_bool_decide; [by left|]. intros E. right.
  apply bind_inr in E as ([] & w1 & E1 & E2). split; [by exists w, w1|]. intros a ->.
  destruct (verifyCsrf a (request_csrf request)) eqn:Ev; [|done]. unfold verifyCsrf in Ev.
  destruct (request_csrf request) as [p|]; [|done]. apply secretsEqual_true in Ev. by exists p.
Qed.

Lemma permissionsGuard_inr required held w u w' :
  permissionsGuard required held w = (inr u, w') →
  ∀ p, p ∈ required ?? [] → ∃ h, held = Some h ∧ p ∈ h.
Proof.
  unfold permissionsGuard. intros E p Hp. destruct required as [ps|]; [|by apply not_elem_of_nil in Hp].
  change (p ∈ ps) in Hp. assert (Hps : ps ≠ []) by (intros ->; by apply not_elem_of_nil in Hp).
  destruct held as [h|]; [|by destruct ps]. exists h. split; [done|].
  assert (Ef : List.filter (λ p, negb (bool_decide (p ∈ h))) ps = []).
  { destruct (List.filter _ ps); [done|]. by destruct ps. }
  destruct (decide (p ∈ h)) as [|Hn]; [done|]. exfalso. apply (not_elem_of_nil p).
  rewrite <-Ef. apply elem_of_filter_bool. split; [done|]. by rewrite bool_decide_eq_false_2.
Qed.

(** Who may be behind a request, according to the database. *)
Record Authentic (d : DB) (at_ : time) (route : Route) (token : option string)
    (session : ActiveSession) (principal : Principal) (s : Session) (u : User) : Prop := {
  authentic_row : ∃ i, sessions d !! i = Some s;
  authentic_session : session = active_session s;
  authentic_token : ∃ t, token = Some t ∧ session_tokenHash s = hashSecret t;
  authentic_usable : usable d at_ s u;
  authentic_user : principal_id principal = user_id u ∧ principal_email principal = user_email u;
  authentic_factor : session_mfaPending s = true → route_allowsPending route = true;
  authentic_permissions p : p ∈ principal_permissions principal ↔
    p ∈ PERMISSION_KEYS ∧ ∃ role, assigned d (user_id u) role ∧ role_grants d role p
}.

Lemma authorizationFor_inr userId w a w' :
  authorizationFor userId w = (inr a, w') →
  authorization_permissions a = granted_by (authorization_rows userId (w_db w)).
Proof.
  intros E. unfold authorizationFor in E.
  apply bind_inr in E as (l & w1 & [-> _]%read_inr & [-> _]%ret_inr). done.
Qed.

Lemma authorization_but_sessions userId d d' :
  but_sessions d = but_sessions d' → authorization_rows userId d = authorization_rows userId d'.
Proof.
  intros E. unfold but_sessions in E. destruct d, d'. simpl in E. by injection E as -> -> -> -> -> -> -> -> -> -> -> -> -> -> -> -> -> -> -> -> -> ->.
Qed.

Lemma sessionGuard_inr route token w who w' :
  db_ok (w_db w) →
  sessionGuard (route_public route) (route_allowsPending route) token w = (inr who, w') →
  match who with
  | None => route_public route = true
  | Some (session, principal) => ∃ s u, Authentic (w_db w) (w_now w) route token session principal s u
  end.
Proof.
  intros Hok E. unfold sessionGuard in E. destruct (negb (truthy token)) eqn:Et.
  { destruct (route_public route) eqn:Ep; [|done]. apply ret_inr in E as [-> _]. done. }
  apply bind_inr in E as (o & w1 & Er & E). pose proof Er as Er'.
  apply resolved_session_inr in Er; [|done].
  assert (Hd : but_sessions (w_db w1) = but_sessions (w_db w)).
  { eapply (framed_run (on_db (unchanged but_sessions))); [|exact Er']. unfold resolve, revoke. frame. }
  destruct o as [session|].
  2: { destruct (route_public route) eqn:Ep; [|done]. apply ret_inr in E as [-> _]. done. }
  destruct Er as (i & s & u & Hi & Ht & Hu & ->).
  apply bind_inr in E as (o & w2 & [-> [fs ->]]%select_id_inr & E).
  assert (Hus : rows (w_db w1) !! active_userId (active_session s) = Some u).
  { destruct Hu as [Hu _]. apply (f_equal users) in Hd. simpl in *. by rewrite Hd. }
  rewrite Hus in E. apply bind_inr in E as (a & w2 & Ea & E). apply authorizationFor_inr in Ea. simpl in Ea.
  destruct (active_mfaPending (active_session s) && negb (route_allowsPending route)) eqn:Em; [done|].
  apply ret_inr in E as [-> _]. exists s, u. split; try done; try (by exists i).
  - destruct token as [t|]; [|done]. by exists t.
  - simpl in *. intros Hm. rewrite Hm in Em. by destruct (route_allowsPending route).
  - simpl. intros p. rewrite Ea, (authorization_but_sessions _ _ (w_db w)) by done. apply elem_of_granted.
Qed.

End guarding.

(** *** Two sessions *)

#[export] Instance example_credentials : Credentials := {|
  random_bytes n seed := replicate n (ascii_of_N (seed mod 256));
  random_bytes_length n seed := length_replicate n _;
  hashSecret s := "#" +:+ s;
  argonHash p _ := "hash of " +:+ p;
  argonVerify h p := Some (bool_decide (h = "hash of " +:+ p)) |}.

#[export] Instance example_session_config : SessionConfig := {|
  SESSION_TTL := 43200; SESSION_IDLE_TIMEOUT := 7200; PUBLIC_APP_URL := "https://dockplane.example.org/";
  DEV_ALLOW_INSECURE_COOKIES := false; url_origin _ := None |}.

Definition example_session (id token : string) (pending : bool) : Session := {|
  session_id := id; session_userId := "u1"; session_tokenHash := hashSecret token;
  session_csrfTokenHash := hashSecret "csrf"; session_mfaPending := pending; session_userAgent := None;
  session_sourceIp := None; session_createdAt := 0%Z; session_lastSeenAt := 0%Z;
  session_expiresAt := 43200000%Z; session_revokedAt := None |}.

(** A full session of an operator, one that waits for its second factor, and one that was revoked. *)
Definition signed_in : World := after_assignment <| w_db := (w_db after_assignment) <| sessions :=
  {["s1" := example_session "s1" "token-1" false; "s2" := example_session "s2" "token-2" true;
    "s3" := (example_session "s3" "token-3" false) <| session_revokedAt := Some 5%Z |>]} |> |>.

Lemma signed_in_ok : db_ok (w_db signed_in).
Proof. apply db_okb_true. by vm_compute. Qed.

Lemma resolve_agrees_witness :
  ∃ a w', resolve "token-1" signed_in = (inr (Some a), w') ∧ isActive "s1" signed_in = (inr true, signed_in).
Proof.
  destruct (resolve_agrees "token-1" signed_in) as ([a|] & w' & E & Ha); [by vm_compute|exact signed_in_ok| |].
  - exists a, w'. split; [exact E|]. destruct Ha as [Ha _]. enough (active_id a = "s1") as <- by exact Ha.
    clear Ha. assert (Hid : match (resolve "token-1" signed_in).1 with
      inr (Some b) => active_id b = "s1" | _ => False end) by (vm_compute; reflexivity).
    rewrite E in Hid. exact Hid.
  - exfalso. assert (Hid : match (resolve "token-1" signed_in).1 with inr (Some b) => True | _ => False end)
      by (vm_compute; exact I). rewrite E in Hid. exact Hid.
Defined.

Definition revoked_session : Session :=
  (example_session "s3" "token-3" false) <| session_revokedAt := Some 5%Z |>.

Lemma ended_sessions_stay_ended_witness :
  let later := happen [Wait 10; Resolve "token-3"; Renew_csrf "s3"; Revoke_all "u1" (Some "s3")] signed_in in
  resolve "token-3" later ≠ (inr (Some (active_session revoked_session)), later).
Proof.
  cbv zeta. apply (ended_sessions_stay_ended _ "token-3" signed_in "s3" revoked_session);
    [exact signed_in_ok|vm_compute; reflexivity|left; vm_compute; discriminate|reflexivity].
Defined.

Definition restart_route : Route :=
  {| route_public := false; route_allowsPending := false; route_permissions := Some ["containers.restart"] |}.
Definition posted : Request := {| request_method := "POST"; request_origin := Some "https://dockplane.example.org";
  request_referer := None; request_csrf := Some "csrf" |}.


(** A browser that stopped before its second factor holds the cookie of a session that
    waits for one: it cannot sign in again, although that route is public, and it cannot
    sign out either. *)
Theorem pending_session_blocks_login :
  let login := {| route_public := true; route_allowsPending := false; route_permissions := None |} in
  let logout := {| route_public := false; route_allowsPending := false; route_permissions := None |} in
  (guards login (Some "token-2") posted signed_in).1 = inl (AppError "AUTH_MFA_REQUIRED" 401) ∧
  (guards logout (Some "token-2") posted signed_in).1 = inl (AppError "AUTH_MFA_REQUIRED" 401) ∧
  (guards login None posted signed_in).1 = inr None.
Proof. by vm_compute. Qed.
