(* ===== verification/Mfa.v ===== *)
(** * The second factor

    [api/src/mfa/mfa.service.ts] and [mfa.controller.ts]: a one-time password
    whose secret is kept encrypted, and recovery codes of which only digests are
    kept, each good for one sign-in.

    One-time passwords are a library's and are a parameter: whether a token is
    valid for a secret at a time, one step of skew included. *)

From Stdlib Require Import Ascii String NArith ZArith.
From stdpp Require Import gmap strings list.
From S2P Require Import Prelude Schema Store Registry Effects Logic Base64 Environment StackDeployment.
From S2P Require Import RecoveryFinalizer Credentials Rbac Sessions.

Class Totp := {
  (** [new Secret({ size: 20 }).base32], at one point of the random source *)
  totp_secret : N → string;
  (** [new TOTP(...).toString()] of a secret and a label *)
  totp_url : string → string → string;
  (** [totp.validate({ token, window: 1 }) !== null], of a secret and a token, at a time *)
  totp_valid : string → string → time → bool
}.

Definition RECOVERY_CODE_COUNT : nat := 10.
Definition RECOVERY_CODE_BYTES : nat := 10.

Record MfaSetup := { setup_secret : string; setup_otpauthUrl : string }.
Record ChallengeResult := { challenge_accepted : bool; challenge_usedRecoveryCode : bool }.

(** ** MfaService *)

Section mfa.
Context `{AesGcm} `{Credentials} `{Totp} (box : list ascii).

Definition drawSecret : M string := λ w,
  (inr (totp_secret (w_seed w)), w <| w_seed := (w_seed w + 1)%N |>).

Definition requireUser (userId : string) : M User :=
  user ← select_id (R := User) userId;
  match user with
  | None => notFound "USER_NOT_FOUND"
  | Some user => mret user
  end.

Definition beginSetup (userId email : string) : M MfaSetup :=
  secret ← drawSecret;
  iv ← randomIv;
  update_id (R := User) userId (λ u, u <| user_mfaSecretEncrypted := Some (encrypt box iv secret) |>
    <| user_mfaEnabled := false |> <| user_mfaConfirmedAt := None |>);;
  mret {| setup_secret := secret; setup_otpauthUrl := totp_url secret email |}.

(** [/^\d{6}$/.test(code)] *)
Definition six_digits (l : list ascii) : bool := bool_decide (length l = 6) && forallb is_digit l.

(** Decrypting may fail, and that is an error. *)
Definition verifyTotp (encryptedSecret code : string) : M bool :=
  let normalized := List.filter (λ c, negb (is_space c)) (chars code) in
  if negb (six_digits normalized) then mret false
  else
    at_ ← now;
    match decrypt box encryptedSecret with
    | None => throw PlainError
    | Some secret => mret (totp_valid secret (text normalized) at_)
    end.

Definition recovery_code (id userId code : string) : RecoveryCode := {|
  rcode_id := id; rcode_userId := userId; rcode_codeHash := hashSecret code; rcode_consumedAt := None |}.

(** [Array.from({ length: 10 }, () => generateSecret(10))] *)
Fixpoint draw_codes (n : nat) : M (list string) :=
  match n with
  | O => mret []
  | S n' => code ← generateSecret RECOVERY_CODE_BYTES; codes ← draw_codes n'; mret (code :: codes)
  end.

(** Every code of the user goes, and these take their place. *)
Definition replace_codes (userId : string) (codes : list string) : M unit :=
  delete_from (λ c : RecoveryCode, bool_decide (rcode_userId c = userId));;
  for_each codes (λ code, id ← randomUUID; insert_into (recovery_code id userId code)).

Definition confirmSetup (userId code : string) : M (list string) :=
  user ← requireUser userId;
  if negb (truthy (user_mfaSecretEncrypted user)) then refused "AUTH_MFA_INVALID"
  else
    valid ← verifyTotp (default "" (user_mfaSecretEncrypted user)) code;
    if negb valid then refused "AUTH_MFA_INVALID"
    else
      codes ← draw_codes RECOVERY_CODE_COUNT;
      transaction (
        at_ ← now;
        update_id (R := User) userId
          (λ u, u <| user_mfaEnabled := true |> <| user_mfaConfirmedAt := Some at_ |>);;
        replace_codes userId codes);;
      mret codes.

Definition disable (userId : string) : M unit :=
  transaction (
    update_id (R := User) userId (λ u, u <| user_mfaEnabled := false |>
      <| user_mfaSecretEncrypted := None |> <| user_mfaConfirmedAt := None |>);;
    delete_from (λ c : RecoveryCode, bool_decide (rcode_userId c = userId));;
    mret tt).

Definition regenerateRecoveryCodes (userId : string) : M (list string) :=
  user ← requireUser userId;
  if negb (user_mfaEnabled user) then refused "AUTH_MFA_INVALID"
  else
    codes ← draw_codes RECOVERY_CODE_COUNT;
    transaction (replace_codes userId codes);;
    mret codes.

(** An unspent code of the user. *)
Definition redeemable (userId code : string) (c : RecoveryCode) : bool :=
  bool_decide (rcode_userId c = userId) &&
  bool_decide (rcode_codeHash c = hashSecret (text (trim (chars code)))) &&
  bool_decide (rcode_consumedAt c = None).

Definition consumeRecoveryCode (userId code : string) : M bool :=
  at_ ← now;
  consumed ← update (redeemable userId code) (λ c, c <| rcode_consumedAt := Some at_ |>);
  mret (bool_decide (length consumed = 1)).

Definition verifyChallenge (userId code : string) : M ChallengeResult :=
  user ← requireUser userId;
  if negb (user_mfaEnabled user) || negb (truthy (user_mfaSecretEncrypted user))
  then mret {| challenge_accepted := false; challenge_usedRecoveryCode := false |}
  else
    valid ← verifyTotp (default "" (user_mfaSecretEncrypted user)) code;
    if (valid : bool) then mret {| challenge_accepted := true; challenge_usedRecoveryCode := false |}
    else
      accepted ← consumeRecoveryCode userId code;
      mret {| challenge_accepted := accepted; challenge_usedRecoveryCode := true |}.

Definition remainingRecoveryCodes (userId : string) : M nat :=
  rows_ ← select (λ c : RecoveryCode,
    bool_decide (rcode_userId c = userId) && bool_decide (rcode_consumedAt c = None));
  mret (length rows_).

(** ** MfaController *)

Definition audit_mfa (action : string) (result : AuditResult) (reasonCode : option string)
    (user : Principal) (context : RequestContext) : M unit :=
  audit_record {|
    entry_action := action; entry_result := result; entry_actorUserId := Some (principal_id user);
    entry_actorLabel := principal_email user; entry_targetType := Some "user";
    entry_targetId := Some (principal_id user); entry_targetLabel := None; entry_reasonCode := reasonCode;
    entry_sourceIp := context_sourceIp context; entry_userAgent := context_userAgent context |}.

Definition post_setup (user : Principal) : M MfaSetup :=
  beginSetup (principal_id user) (principal_email user).

Definition post_confirm (code : string) (user : Principal) (context : RequestContext) : M (list string) :=
  codes ← confirmSetup (principal_id user) code;
  audit_mfa "mfa.enabled" Audit_success None user context;;
  mret codes.

Definition post_disable (code : string) (user : Principal) (context : RequestContext) : M unit :=
  result ← verifyChallenge (principal_id user) code;
  if negb (challenge_accepted result) then
    audit_mfa "mfa.disabled" Audit_failure (Some "invalid_code") user context;;
    refused "AUTH_MFA_INVALID"
  else
    disable (principal_id user);;
    revokeAllForUser (principal_id user) None;;
    audit_mfa "mfa.disabled" Audit_success None user context.

Definition post_regenerate (code : string) (user : Principal) (context : RequestContext) : M (list string) :=
  result ← verifyChallenge (principal_id user) code;
  if negb (challenge_accepted result) then refused "AUTH_MFA_INVALID"
  else
    codes ← regenerateRecoveryCodes (principal_id user);
    audit_mfa "mfa.recovery_codes.regenerated" Audit_success None user context;;
    mret codes.
End mfa.

(** ** A recovery code works once *)

Section recovery.
Context `{AesGcm} `{Credentials} `{Totp} (box : list ascii).

(** The digest a code is looked up by. *)
Definition digest (code : string) : string := hashSecret (text (trim (chars code))).

(** No unspent code of the user has the digest. *)
Definition exhausted (userId h : string) (d : DB) : Prop := ∀ i c,
  recoveryCodes d !! i = Some c → rcode_userId c = userId → rcode_codeHash c = h → rcode_consumedAt c ≠ None.

Lemma redeemable_true userId code c :
  redeemable userId code c = true ↔
  rcode_userId c = userId ∧ rcode_codeHash c = digest code ∧ rcode_consumedAt c = None.
Proof. unfold redeemable. rewrite !andb_true_iff, !bool_decide_eq_true. naive_solver. Qed.

Lemma consumeRecoveryCode_inr userId code w b w' :
  consumeRecoveryCode userId code w = (inr b, w') →
  w_db w' = (w_db w) <| recoveryCodes := change_rows (redeemable userId code)
    (λ c, c <| rcode_consumedAt := Some (w_now w) |>) (recoveryCodes (w_db w)) |> ∧
  b = bool_decide (length (select_where (redeemable userId code) (w_db w)) = 1).
Proof.
  intros E. unfold consumeRecoveryCode in E. apply bind_inr in E as (t & w1 & [-> ->]%now_inr & E).
  apply bind_inr in E as (l & w1 & [-> [fs ->]]%update_inr & [-> ->]%ret_inr).
  by rewrite length_fmap.
Qed.

Lemma consumed_exhausted userId code w b w' :
  consumeRecoveryCode userId code w = (inr b, w') → exhausted userId (digest code) (w_db w').
Proof.
  intros [-> _]%consumeRecoveryCode_inr i c Hi Hu Hh. simpl in Hi.
  rewrite lookup_change_rows in Hi. destruct (recoveryCodes (w_db w) !! i) as [x|]; [|done].
  simpl in Hi. injection Hi as <-. destruct (redeemable userId code x) eqn:Er; [done|]. intros Hn.
  apply not_true_iff_false in Er. apply Er, redeemable_true. done.
Qed.

Lemma exhausted_refused userId code w b w' :
  exhausted userId (digest code) (w_db w) → consumeRecoveryCode userId code w = (inr b, w') → b = false.
Proof.
  intros Hx [_ ->]%consumeRecoveryCode_inr. rewrite (proj2 (select_where_nil _ _)); [done|].
  intros i c Hi. apply not_true_is_false. intros (Hu & Hh & Hn)%redeemable_true. by eapply Hx.
Qed.

(** What can happen without a new set of codes. *)
Inductive MfaEvent :=
  | Challenge (userId code : string)
  | Begin_setup (userId email : string)
  | Disable (userId : string)
  | Passes (ms : N).

Definition mfa_event (e : MfaEvent) : M unit :=
  match e with
  | Challenge userId code => verifyChallenge box userId code;; mret tt
  | Begin_setup userId email => beginSetup box userId email;; mret tt
  | Disable userId => disable userId
  | Passes ms => wait ms
  end.

Definition keeps_exhausted (userId h : string) : relation DB := λ d d',
  exhausted userId h d → exhausted userId h d'.

#[export] Instance keeps_exhausted_preorder userId h : PreOrder (keeps_exhausted userId h).
Proof. split; unfold keeps_exhausted; [by intros d|]. intros d1 d2 d3. auto. Qed.

Lemma framed_codes {A} userId h (m : M A) :
  framed (on_db (unchanged recoveryCodes)) m → framed (on_db (keeps_exhausted userId h)) m.
Proof. intros Hm w. unfold on_db, keeps_exhausted, exhausted. by rewrite (Hm w). Qed.

Lemma mfa_event_exhausted userId h e : framed (on_db (keeps_exhausted userId h)) (mfa_event e).
Proof.
  destruct e as [u code|u email|u|ms]; simpl.
  - unfold verifyChallenge, requireUser, verifyTotp, consumeRecoveryCode. frame.
    apply framed_update; [apply _|]. intros d _ Hx i c Hi. simpl in Hi. rewrite lookup_change_rows in Hi.
    destruct (recoveryCodes d !! i) as [x|] eqn:Ex; simplify_eq/=. destruct (redeemable u code x); [done|].
    by apply (Hx i).
  - apply framed_codes. unfold beginSetup, drawSecret, randomIv. frame; by intros w.
  - unfold disable. frame.
    + apply framed_codes. frame.
    + apply framed_delete; [apply _|]. intros d Hx i c Hi. apply (Hx i).
      eapply lookup_weaken; [exact Hi|apply drop_rows_subseteq].
  - intros w Hx. exact Hx.
Qed.

Lemma requireUser_reads userId : reads (requireUser userId).
Proof. unfold requireUser. reads. Qed.

Lemma verifyTotp_reads secret code : reads (verifyTotp box secret code).
Proof. unfold verifyTotp. reads. Qed.

Definition mfa_run (es : list MfaEvent) (w : World) : World := foldl (λ w e, (mfa_event e w).2) w es.

Lemma verifyChallenge_recovery userId code w w' :
  verifyChallenge box userId code w =
    (inr {| challenge_accepted := true; challenge_usedRecoveryCode := true |}, w') →
  ∃ w1, w_db w1 = w_db w ∧ w_now w1 = w_now w ∧ consumeRecoveryCode userId code w1 = (inr true, w').
Proof.
  intros E. unfold verifyChallenge in E. apply bind_inr in E as (user & w1 & E1 & E).
  assert (R1 : only_faults w w1).
  { by apply (framed_run _ _ _ _ _ (requireUser_reads userId)) in E1. }
  destruct (_ || _); [by apply ret_inr in E as [? _]|].
  apply bind_inr in E as (v & w2 & E2 & E).
  assert (R2 : only_faults w1 w2).
  { by apply (framed_run _ _ _ _ _ (verifyTotp_reads _ code)) in E2. }
  destruct v; [by apply ret_inr in E as [? _]|]. apply bind_inr in E as (b & w3 & E3 & [Er ->]%ret_inr).
  injection Er as <-. exists w2. destruct R1 as [fs ->], R2 as [gs ->]. done.
Qed.

(** A recovery code that was accepted is never accepted again, not by the same user
    and not with white space around it, whatever challenges, setups and
    deactivations come in between, until a new set of codes is issued. *)
Theorem recovery_code_once es userId code code' w w1 w' :
  verifyChallenge box userId code w =
    (inr {| challenge_accepted := true; challenge_usedRecoveryCode := true |}, w1) →
  digest code' = digest code →
  verifyChallenge box userId code' (mfa_run es w1) ≠
    (inr {| challenge_accepted := true; challenge_usedRecoveryCode := true |}, w').
Proof.
  intros (w0 & _ & _ & E1)%verifyChallenge_recovery Hd (w2 & Ed & _ & E2)%verifyChallenge_recovery.
  apply consumed_exhausted in E1. rewrite <-Hd in E1.
  enough (exhausted userId (digest code') (w_db w2)) as Hx by (by apply (exhausted_refused _ _ _ _ _ Hx) in E2).
  rewrite Ed. clear -E1. revert w1 E1. induction es as [|e es IH]; intros w1 E1; simpl; [done|].
  apply IH. by apply (mfa_event_exhausted userId (digest code') e w1).
Qed.

(** *** The codes of a set *)

Lemma encode_no_space l : Forall (λ c, is_space c = false) (encode l).
Proof.
  assert (Hc : ∀ n, is_space (char_of n) = false).
  { intros n. unfold char_of. destruct (alphabet !! N.to_nat n) as [c|] eqn:E; [|done]. simpl.
    assert (Ha : forallb (λ c, negb (is_space c)) alphabet = true) by reflexivity.
    rewrite forallb_Forall, Forall_forall in Ha.
    apply list_elem_of_lookup_2 in E. by apply negb_true_iff, Ha. }
  induction l as [|a|a b|a b c l IH] using list_ind_3; simpl; by repeat constructor.
Qed.

Lemma encode_length l : (4 * length l <= 3 * length (encode l))%nat.
Proof. induction l as [|a|a b|a b c l IH] using list_ind_3; simpl; lia. Qed.

(** A code as it is drawn: fourteen characters, none of them white space. *)
Definition drawn (code : string) : Prop := ∃ seed, code = text (encode (random_bytes RECOVERY_CODE_BYTES seed)).

Lemma drawn_digest code : drawn code → digest code = hashSecret code.
Proof.
  intros [seed ->]. unfold digest. rewrite chars_text, trim_id; [done|]. apply encode_no_space.
Qed.

Lemma drawn_not_otp code : drawn code → six_digits (List.filter (λ c, negb (is_space c)) (chars code)) = false.
Proof.
  intros [seed ->]. rewrite chars_text. pose proof (random_bytes_length RECOVERY_CODE_BYTES seed) as Hl.
  assert (Hf : List.filter (λ c, negb (is_space c)) (encode (random_bytes RECOVERY_CODE_BYTES seed)) =
               encode (random_bytes RECOVERY_CODE_BYTES seed)).
  { pose proof (encode_no_space (random_bytes RECOVERY_CODE_BYTES seed)) as Hs.
    induction Hs as [|c l Hc Hs IH]; simpl; [done|]. by rewrite Hc, IH. }
  rewrite Hf. unfold six_digits. apply andb_false_iff. left. apply bool_decide_eq_false.
  pose proof (encode_length (random_bytes RECOVERY_CODE_BYTES seed)). unfold RECOVERY_CODE_BYTES in *. lia.
Qed.

Lemma draw_codes_inr n w codes w' :
  draw_codes n w = (inr codes, w') → w_db w' = w_db w ∧ length codes = n ∧ Forall drawn codes.
Proof.
  revert w codes. induction n as [|n IH]; intros w codes E; simpl in E.
  { by apply ret_inr in E as [-> ->]. }
  apply bind_inr in E as (c & w1 & E1 & E). apply bind_inr in E as (l & w2 & E2 & [-> ->]%ret_inr).
  unfold generateSecret in E1. simplify_eq. destruct (IH _ _ E2) as (-> & <- & Hl).
  split_and!; [done|done|]. constructor; [by eexists|done].
Qed.

Lemma insert_codes_inr userId codes w u w' :
  for_each codes (λ code, id ← randomUUID; insert_into (recovery_code id userId code)) w = (inr u, w') →
  w_db w' = (w_db w) <| recoveryCodes := recoveryCodes (w_db w') |> ∧
  recoveryCodes (w_db w) ⊆ recoveryCodes (w_db w') ∧
  (∀ code, code ∈ codes → ∃ i, recoveryCodes (w_db w') !! i = Some (recovery_code i userId code)) ∧
  (∀ i c, recoveryCodes (w_db w') !! i = Some c →
     recoveryCodes (w_db w) !! i = Some c ∨ ∃ code, code ∈ codes ∧ c = recovery_code i userId code).
Proof.
  revert w. induction codes as [|code codes IH]; intros w E; simpl in E.
  { apply ret_inr in E as [_ ->]. split_and!; [by destruct (w_db w)|done| |by left].
    intros code Hc. by apply not_elem_of_nil in Hc. }
  apply bind_inr in E as ([] & w1 & E1 & E). apply bind_inr in E1 as (i & w0 & Ei & E1).
  unfold randomUUID in Ei. simplify_eq. apply insert_inr in E1 as [Hnew [fs ->]].
  apply IH in E as (Ed & Hsub & Hall & Hback). clear IH. simpl in *. split_and!.
  - exact Ed.
  - etrans; [|exact Hsub]. by apply insert_subseteq.
  - intros x [->|Hx]%elem_of_cons; [|by apply Hall]. eexists. eapply lookup_weaken; [|exact Hsub].
    apply lookup_insert_eq.
  - intros i c Hi. apply Hback in Hi as [Hi|(x & Hx & ->)].
    + apply lookup_insert_Some in Hi as [[<- <-]|[_ Hi]]; [right|by left]. exists code. split; [by left|done].
    + right. exists x. split; [by right|done].
Qed.

Lemma replace_codes_inr userId codes w u w' :
  replace_codes userId codes w = (inr u, w') →
  w_db w' = (w_db w) <| recoveryCodes := recoveryCodes (w_db w') |> ∧
  (∀ code, code ∈ codes → ∃ i, recoveryCodes (w_db w') !! i = Some (recovery_code i userId code)) ∧
  (∀ i c, recoveryCodes (w_db w') !! i = Some c → rcode_userId c = userId →
     ∃ code, code ∈ codes ∧ c = recovery_code i userId code).
Proof.
  intros E. apply bind_inr in E as (l & w1 & [-> [fs ->]]%delete_inr & E).
  apply insert_codes_inr in E as (Ed & _ & Hall & Hback). split_and!; [by rewrite Ed|done|].
  intros i c Hi Hu. apply Hback in Hi as [Hi|Hi]; [|done]. exfalso. simpl in Hi.
  unfold delete_rows, codes_deletable, delete_codes in Hi. simpl in Hi.
  rewrite lookup_drop_rows in Hi. destruct (recoveryCodes (w_db w) !! i) as [x|]; [|done]. simpl in Hi.
  case_bool_decide as Hb; [done|]. by simplify_eq.
Qed.

(** A set of codes is issued by confirming a setup, or by asking for a new one. *)
Definition issue_codes (confirm : option string) (userId : string) : M (list string) :=
  match confirm with
  | Some code => confirmSetup box userId code
  | None => regenerateRecoveryCodes userId
  end.

#[local] Opaque draw_codes replace_codes.

(** What issuing leaves: a user whose factor is on, with the secret they had, and exactly these codes. *)
Lemma issue_codes_inr confirm userId w codes w' :
  db_ok (w_db w) → issue_codes confirm userId w = (inr codes, w') →
  length codes = RECOVERY_CODE_COUNT ∧ Forall drawn codes ∧
  (∃ u u', users (w_db w) !! userId = Some u ∧ users (w_db w') !! userId = Some u' ∧
    user_mfaEnabled u' = true ∧ user_mfaSecretEncrypted u' = user_mfaSecretEncrypted u) ∧
  (∀ code, code ∈ codes → ∃ i, recoveryCodes (w_db w') !! i = Some (recovery_code i userId code)) ∧
  (∀ i c, recoveryCodes (w_db w') !! i = Some c → rcode_userId c = userId →
     ∃ code, code ∈ codes ∧ c = recovery_code i userId code).
Proof.
  intros Hok E.
  assert (Hreq : ∀ w u w1, requireUser userId w = (inr u, w1) → users (w_db w) !! userId = Some u ∧ only_faults w w1).
  { clear. intros w u w1 E. apply bind_inr in E as (o & w2 & [-> Hf]%select_id_inr & E).
    destruct (rows (w_db w) !! userId) as [x|] eqn:Ex; [|done]. by apply ret_inr in E as [-> ->]. }
  unfold issue_codes in E. destruct confirm as [code|]; [unfold confirmSetup in E|unfold regenerateRecoveryCodes in E].
  - apply bind_inr in E as (u & w1 & [Hu [fs ->]]%Hreq & E). destruct (negb _); [done|].
    apply bind_inr in E as (v & w2 & Ev & E). apply (framed_run _ _ _ _ _ (verifyTotp_reads _ code)) in Ev as [gs ->].
    destruct (negb v); [done|]. apply bind_inr in E as (l & w3 & El & E).
    apply draw_codes_inr in El as (Ed & Hlen & Hdr). apply bind_inr in E as ([] & w4 & Et & [-> ->]%ret_inr).
    apply transaction_inr in Et as (w5 & Et & [hs ->]).
    apply bind_inr in Et as (t & w6 & [-> ->]%now_inr & Et). apply bind_inr in Et as (x & w6 & Eu & Et).
    apply update_id_inr in Eu as [ks ->]; [|rewrite Ed; exact (@db_ok_rows User _ _ _ Hok)].
    apply replace_codes_inr in Et as (Ew & Hall & Hback). simpl in *. rewrite Ew. simpl. rewrite Ed. simpl.
    split_and!; try done. exists u. eexists. rewrite lookup_alter_eq, Hu. by split_and!.
  - apply bind_inr in E as (u & w1 & [Hu [fs ->]]%Hreq & E). destruct (user_mfaEnabled u) eqn:Hm; [|done].
    apply bind_inr in E as (l & w3 & El & E). apply draw_codes_inr in El as (Ed & Hlen & Hdr).
    apply bind_inr in E as ([] & w4 & Et & [-> ->]%ret_inr). apply transaction_inr in Et as (w5 & Et & [hs ->]).
    apply replace_codes_inr in Et as (Ew & Hall & Hback). simpl in *. rewrite Ew. simpl. rewrite Ed. simpl.
    split_and!; try done. by exists u, u.
Qed.

Lemma verifyTotp_drawn secret code w : drawn code → verifyTotp box secret code w = (inr false, w).
Proof. intros Hd. unfold verifyTotp. by rewrite drawn_not_otp. Qed.

(** A user whose factor is on, and a healthy database: one unspent code is enough. *)
Lemma challenge_run userId code u i w :
  healthy w → db_ok (w_db w) → drawn code → users (w_db w) !! userId = Some u → user_mfaEnabled u = true →
  truthy (user_mfaSecretEncrypted u) = true → recoveryCodes (w_db w) !! i = Some (recovery_code i userId code) →
  ∃ w', verifyChallenge box userId code w =
    (inr {| challenge_accepted := true; challenge_usedRecoveryCode := true |}, w').
Proof.
  intros Hw Hok Hdr Hu Hm Ht Hi. unfold verifyChallenge.
  assert (Er : requireUser userId w = (inr u, w)).
  { unfold requireUser. rewrite (run_bind _ _ _ _ _ (run_select_id w Hw userId)). simpl. by rewrite Hu. }
  rewrite (run_bind _ _ _ _ _ Er), Hm, Ht. simpl.
  rewrite (run_bind _ _ _ _ _ (verifyTotp_drawn _ code w Hdr)).
  assert (Hs : select_where (redeemable userId code) (w_db w) = [recovery_code i userId code]).
  { apply (@select_where_one RecoveryCode recoveryCodes_table recoveryCodes_laws _ _ i); [done|done| |].
    - apply redeemable_true. simpl. by rewrite drawn_digest.
    - intros j c Hj (_ & Hh & _)%redeemable_true. rewrite drawn_digest in Hh by done.
      eapply (@unique_row RecoveryCode recoveryCodes_table recoveryCodes_laws "recovery_codes_hash_unique" _ (w_db w));
        [done|by left|exact Hj|exact Hi|done|]. simpl. by rewrite Hh. }
  assert (Ec : ∃ w', consumeRecoveryCode userId code w = (inr true, w')).
  { unfold consumeRecoveryCode. rewrite (run_bind _ _ _ _ _ (eq_refl : now w = (inr (w_now w), w))).
    eexists. erewrite run_bind; [|apply (run_update w Hw)]; [by rewrite Hs|done|].
    intros r _. apply Forall_singleton. by left. }
  destruct Ec as (w' & Ec). exists w'. by rewrite (run_bind _ _ _ _ _ Ec).
Qed.

(** A set of recovery codes is ten codes; as long as the user and the codes stay as
    they were issued each of them is accepted, and nothing but them is. *)
Theorem issued_codes_work confirm userId w codes w' u :
  db_ok (w_db w) → users (w_db w) !! userId = Some u → truthy (user_mfaSecretEncrypted u) = true →
  issue_codes confirm userId w = (inr codes, w') →
  length codes = 10 ∧
  ∀ w2, healthy w2 → db_ok (w_db w2) → users (w_db w2) = users (w_db w') →
    recoveryCodes (w_db w2) = recoveryCodes (w_db w') →
    (∀ code, code ∈ codes → ∃ w3, verifyChallenge box userId code w2 =
       (inr {| challenge_accepted := true; challenge_usedRecoveryCode := true |}, w3)) ∧
    (∀ code r w3, digest code ∉ hashSecret <$> codes → consumeRecoveryCode userId code w2 = (r, w3) → r = inr false).
Proof.
  intros Hok Hu Ht E. apply issue_codes_inr in E as (Hlen & Hdr & (x & y & Hx & Hy & Hm & Hsec) & Hall & Hback); [|done].
  split; [done|]. intros w2 Hw2 Hok2 Eu Ec. split.
  - intros code Hcode. destruct (Hall code Hcode) as [i Hi]. rewrite Forall_forall in Hdr.
    eapply (challenge_run userId code y i w2); try done; [by apply Hdr|by rewrite Eu| |by rewrite Ec].
    rewrite Hsec. congruence.
  - intros code r w3 Hn Er.
    assert (Hnil : select_where (redeemable userId code) (w_db w2) = []).
    { apply select_where_nil. intros i c Hi. apply not_true_is_false. intros (Hcu & Hch & _)%redeemable_true.
      simpl in Hi. rewrite Ec in Hi. destruct (Hback i c Hi Hcu) as (code' & Hin & ->).
      apply Hn. rewrite <-Hch. simpl. by apply list_elem_of_fmap_2. }
    unfold consumeRecoveryCode in Er.
    rewrite (run_bind _ _ _ _ _ (eq_refl : now w2 = (inr (w_now w2), w2))) in Er.
    erewrite run_bind in Er; [|apply (run_update w2 Hw2)]; [|done|].
    + rewrite Hnil in Er. by apply (f_equal fst) in Er.
    + intros z _. apply Forall_singleton. by left.
Qed.
End recovery.

(** *** An account with a factor *)

#[local] Existing Instance clear_cipher.

#[export] Instance example_totp : Totp := {|
  totp_secret _ := "JBSWY3DPEHPK3PXP";
  totp_url secret label := "otpauth://totp/" +:+ label +:+ "?secret=" +:+ secret;
  totp_valid secret token _ := bool_decide (secret = "JBSWY3DPEHPK3PXP" ∧ token = "123456") |}.

Definition secured_user : User := (example_user "u1" "ada@example.org" true)
  <| user_mfaEnabled := true |> <| user_mfaSecretEncrypted := Some (encrypt [] (random_iv 0) "JBSWY3DPEHPK3PXP") |>.

Definition secured : World := signed_in <| w_db := (w_db signed_in)
  <| users := <["u1" := secured_user]> (users (w_db signed_in)) |>
  <| recoveryCodes := {["c1" := recovery_code "c1" "u1" "recovery-code"]} |> |>.

Lemma secured_ok : db_ok (w_db secured).
Proof. apply db_okb_true. by vm_compute. Qed.

Definition by_code : ChallengeResult := {| challenge_accepted := true; challenge_usedRecoveryCode := true |}.

Lemma recovery_code_once_witness :
  let after := (verifyChallenge [] "u1" "recovery-code" secured).2 in
  let later := mfa_run [] [Passes 10; Challenge "u1" "000000"] after in
  verifyChallenge [] "u1" " recovery-code " later ≠ (inr by_code, later).
Proof.
  cbv zeta. apply (recovery_code_once [] [Passes 10; Challenge "u1" "000000"] "u1" "recovery-code" " recovery-code " secured).
  - vm_compute. reflexivity.
  - vm_compute. reflexivity.
Defined.

Lemma issued_codes_work_witness : ∃ codes w', issue_codes [] (Some "123 456") "u1" secured = (inr codes, w') ∧
  length codes = 10.
Proof.
  destruct (issue_codes [] (Some "123 456") "u1" secured) as [r w'] eqn:E.
  assert (Hr : match (issue_codes [] (Some "123 456") "u1" secured).1 with inr _ => True | _ => False end)
    by (vm_compute; exact I).
  rewrite E in Hr. cbn [fst] in Hr. destruct r as [e|codes]; [destruct Hr|].
  exists codes, w'. split; [reflexivity|].
  destruct (issued_codes_work [] (Some "123 456") "u1" secured codes w' secured_user) as [H _];
    [exact secured_ok|vm_compute; reflexivity|vm_compute; reflexivity|exact E|exact H].
Defined.
