(* ===== verification/Auth.v ===== *)
(** * Signing in and out

    [api/src/auth/auth.service.ts], and what [auth.controller.ts] and
    [sessions.controller.ts] do with it: a password, a second factor where there is
    one, and a session whose token is replaced when the factor succeeds. *)

From Stdlib Require Import Ascii String NArith ZArith.
From stdpp Require Import gmap strings list sorting.
From S2P Require Import Prelude Schema Store Registry Effects Logic Base64 Environment StackDeployment.
From S2P Require Import StackService RecoveryFinalizer Credentials Rbac Sessions Mfa.

Inductive LoginKind := Authenticated | Mfa_required.

Record LoginOutcome := {
  login_kind : LoginKind;
  login_session : IssuedSession;
  login_userId : string
}.

Section auth.
Context `{AesGcm} `{Credentials} `{SessionConfig} `{Totp} (box : list ascii).

(** ** AuthService *)

Definition audit_auth (action : string) (result : AuditResult) (actorUserId : option string) (actorLabel : string)
    (targetType : string) (targetId : option string) (reasonCode : option string)
    (context : SessionContext) : M unit :=
  audit_record {|
    entry_action := action; entry_result := result; entry_actorUserId := actorUserId;
    entry_actorLabel := actorLabel; entry_targetType := Some targetType; entry_targetId := targetId;
    entry_targetLabel := None; entry_reasonCode := reasonCode;
    entry_sourceIp := from_sourceIp context; entry_userAgent := from_userAgent context |}.

Definition completeLogin (userId email : string) (context : SessionContext) : M unit :=
  at_ ← now;
  update_id (R := User) userId (λ u, u <| user_lastLoginAt := Some at_ |>);;
  audit_auth "auth.login.succeeded" Audit_success (Some userId) email "user" (Some userId) None context.

(** [burnTime] verifies against a hash nobody has, and answers false. *)
Definition burnTime (password : string) : M bool :=
  decoyHash ← hashPassword "dockplane-timing-equaliser";
  let _ := verifyPassword decoyHash password in
  mret false.

(** The account an address names. *)
Definition account (email : string) (u : User) : bool :=
  bool_decide (lower (user_email u) = lower (text (trim (chars email)))).

Definition refusal_reason (user : option User) (passwordMatches : bool) : string :=
  match user with
  | None => "unknown_account"
  | Some _ => if negb passwordMatches then "invalid_password" else "account_inactive"
  end.

(** A password is verified whether or not the account exists. *)
Definition check_password (user : option User) (password : string) : M bool :=
  match user with
  | Some user => mret (verifyPassword (user_passwordHash user) password)
  | None => burnTime password
  end.

Definition refuse_login {A} (user : option User) (passwordMatches : bool) (context : SessionContext) : M A :=
  audit_auth "auth.login.failed" Audit_failure (user_id <$> user)
    (match user with Some u => user_email u | None => "unknown" end) "user" (user_id <$> user)
    (Some (refusal_reason user passwordMatches)) context;;
  unauthorized "AUTH_INVALID_CREDENTIALS".

(** [login] once the password was checked. *)
Definition login_checked (user : option User) (passwordMatches : bool) (context : SessionContext) : M LoginOutcome :=
  match user with
  | None => refuse_login user passwordMatches context
  | Some u =>
      if negb passwordMatches || negb (user_isActive u) then refuse_login user passwordMatches context
      else
        session ← issue (user_id u) (user_mfaEnabled u) context;
        if user_mfaEnabled u
        then mret {| login_kind := Mfa_required; login_session := session; login_userId := user_id u |}
        else
          completeLogin (user_id u) (user_email u) context;;
          mret {| login_kind := Authenticated; login_session := session; login_userId := user_id u |}
  end.

Definition login (email password : string) (context : SessionContext) : M LoginOutcome :=
  user ← select_first (account email);
  passwordMatches ← check_password user password;
  login_checked user passwordMatches context.

Definition verifyMfa (sessionId userId code : string) (context : SessionContext) : M IssuedSession :=
  user ← select_id (R := User) userId;
  let label := (user_email <$> user) ?? userId in
  result ← verifyChallenge box userId code;
  if negb (challenge_accepted result) then
    audit_auth "auth.mfa.challenge.failed" Audit_failure (Some userId) label "user" (Some userId)
      (Some "invalid_code") context;;
    unauthorized "AUTH_MFA_INVALID"
  else
    when (challenge_usedRecoveryCode result)
      (audit_auth "mfa.recovery_code.used" Audit_success (Some userId) label "user" (Some userId) None context);;
    rotated ← completeMfa sessionId context;
    completeLogin userId label context;;
    mret rotated.

Definition logout (sessionId userId email : string) (context : SessionContext) : M unit :=
  Sessions.revoke sessionId;;
  audit_auth "auth.logout" Audit_success (Some userId) email "session" (Some sessionId) None context.

(** ** The controllers *)

Record Me := {
  me_csrfToken : string;
  me_principal : Principal;
  me_recoveryCodesRemaining : nat;
  me_sessionId : string;
  me_expiresAt : time
}.

(** [POST mfa/verify], behind the guard *)
Definition post_mfa_verify (session : ActiveSession) (user : Principal) (code : string)
    (context : SessionContext) : M IssuedSession :=
  if negb (active_mfaPending session) then refused "AUTH_MFA_INVALID"
  else verifyMfa (active_id session) (principal_id user) code context.

(** [GET me] *)
Definition get_me (session : ActiveSession) (user : Principal) : M Me :=
  csrfToken ← issueCsrfToken (active_id session);
  remaining ← if principal_mfaEnabled user then remainingRecoveryCodes (principal_id user) else mret 0;
  mret {| me_csrfToken := csrfToken; me_principal := user; me_recoveryCodesRemaining := remaining;
          me_sessionId := active_id session; me_expiresAt := active_expiresAt session |}.

Record SessionView := {
  sessview_id : string;
  sessview_createdAt : time;
  sessview_lastSeenAt : time;
  sessview_expiresAt : time;
  sessview_revokedAt : option time;
  sessview_userAgent : option string;
  sessview_sourceIp : option string;
  sessview_current : bool
}.

Definition session_view (current : string) (s : Session) : SessionView := {|
  sessview_id := session_id s; sessview_createdAt := session_createdAt s;
  sessview_lastSeenAt := session_lastSeenAt s; sessview_expiresAt := session_expiresAt s;
  sessview_revokedAt := session_revokedAt s; sessview_userAgent := session_userAgent s;
  sessview_sourceIp := session_sourceIp s; sessview_current := bool_decide (session_id s = current) |}.

(** [orderBy(desc(lastSeenAt))] *)
Definition seen_later (a b : Session) : Prop := (session_lastSeenAt b <= session_lastSeenAt a)%Z.
#[global] Instance seen_later_dec : RelDecision seen_later.
Proof. intros a b. unfold seen_later. apply _. Defined.

Definition listForUser (userId : string) : M (list Session) :=
  rows_ ← select (λ s : Session, bool_decide (session_userId s = userId));
  mret (merge_sort seen_later rows_).

Definition list_sessions (asked : option string) (user : Principal) (session : ActiveSession) : M (list SessionView) :=
  let target := asked ?? principal_id user in
  if bool_decide (target ≠ principal_id user) && negb (bool_decide ("sessions.read" ∈ principal_permissions user))
  then forbidden "PERMISSION_DENIED"
  else rows_ ← listForUser target; mret (session_view (active_id session) <$> rows_).

Definition delete_session (id : string) (user : Principal) (context : RequestContext) : M unit :=
  target ← Sessions.findById id;
  match target with
  | None => notFound "SESSION_REVOKED"
  | Some target =>
      if bool_decide (session_userId target ≠ principal_id user) &&
         negb (bool_decide ("sessions.revoke" ∈ principal_permissions user))
      then forbidden "PERMISSION_DENIED"
      else
        Sessions.revoke id;;
        audit_record {|
          entry_action := "session.revoked"; entry_result := Audit_success;
          entry_actorUserId := Some (principal_id user); entry_actorLabel := principal_email user;
          entry_targetType := Some "session"; entry_targetId := Some id; entry_targetLabel := None;
          entry_reasonCode := Some (if bool_decide (session_userId target = principal_id user)
                                    then "self" else "administrative");
          entry_sourceIp := context_sourceIp context; entry_userAgent := context_userAgent context |}
  end.
End auth.

(** ** How a session comes about *)

Section arising.
Context (Q : Session → Prop).

(** Sessions live on as they do, and every new one is a [Q]. *)
Definition arises : relation DB := λ d d',
  evolves outlives d d' ∧
  ∀ i s, sessions d' !! i = Some s → (∃ s0, sessions d !! i = Some s0) ∨ Q s.

(** [Q] is about what never changes of a session. *)
Class Closed : Prop := closed s s' : outlives s s' → Q s → Q s'.

Context `{HC : !Closed}.

#[export] Instance arises_preorder : PreOrder arises.
Proof using HC.
  split.
  - intros d. split; [reflexivity|]. eauto.
  - intros d1 d2 d3 [E12 N12] [E23 N23]. split; [by etrans|]. intros i s Hs.
    destruct (N23 i s Hs) as [[s2 Hs2]|]; [|by right]. destruct (N12 i s2 Hs2) as [|HQ]; [by left|].
    destruct (E23 i s2 Hs2) as (s3 & Hs3 & Ho). right. simpl in Hs3. simplify_eq. by eapply closed.
Qed.

Lemma framed_arises_other {A} (m : M A) :
  framed (on_db (unchanged sessions)) m → framed (on_db arises) m.
Proof using HC.
  intros Hm w. split; [apply evolves_untouched; [apply _|exact (Hm w)]|]. intros i s Hs.
  rewrite (Hm w) in Hs. by left; exists s.
Qed.

Lemma framed_arises_update (p : Session → bool) f :
  (∀ s, p s = true → outlives s (f s)) → framed (on_db arises) (update p f).
Proof using HC.
  intros Hf. apply framed_update; [apply _|]. intros d _. split.
  - intros i s Hs. simpl in *. rewrite lookup_change_rows, Hs. simpl. eexists. split; [done|].
    destruct (p s) eqn:Hp; [by apply Hf|reflexivity].
  - intros i s Hs. simpl in Hs. rewrite lookup_change_rows in Hs.
    destruct (sessions d !! i) as [x|] eqn:Ex; [|done]. by left; exists x.
Qed.

Lemma framed_arises_insert (s : Session) : Q s → framed (on_db arises) (insert_into s).
Proof using HC.
  intros HQ. apply framed_insert; [apply _|]. intros d Hnew _. split.
  - intros i x Hx. exists x. split; [|reflexivity]. simpl in *. rewrite lookup_insert_ne; [done|congruence].
  - intros i x Hx. simpl in Hx. apply lookup_insert_Some in Hx as [[<- <-]|[_ Hx]]; [by right|by left; exists x].
Qed.
End arising.

Section signing_in.
Context `{AesGcm} `{Credentials} `{SessionConfig} `{Totp} (box : list ascii).

(** The user and whether the factor is still missing, of a new session. *)
Definition of_user (userId : string) (pending : bool) (s : Session) : Prop :=
  session_userId s = userId ∧ session_mfaPending s = pending.

#[local] Instance of_user_closed userId pending : Closed (of_user userId pending).
Proof. intros s s' (Hu & _ & Hp & _) [E1 E2]. split; congruence. Qed.

#[local] Instance nobody_closed : Closed (λ _, False).
Proof. by intros s s' _. Qed.

#[local] Hint Extern 1 (framed (on_db (arises _)) (audit_record _)) =>
  refine (framed_arises_other _ _ _); solve [frame] : frames.
#[local] Hint Extern 2 (framed (on_db (arises _)) (update (R := Session) _ _)) =>
  refine (framed_arises_update _ _ _ _); intros; unfold outlives; naive_solver : frames.
#[local] Hint Extern 2 (framed (on_db (arises _)) (update_id (R := Session) _ _)) =>
  refine (framed_arises_update _ _ _ _); intros; unfold outlives; naive_solver : frames.
#[local] Hint Extern 3 (framed (on_db (arises _)) _) => refine (framed_arises_other _ _ _); solve [frame] : frames.

Lemma issue_arises Q `{!Closed Q} userId pending context :
  (∀ s, of_user userId pending s → Q s) → framed (on_db (arises Q)) (issue userId pending context).
Proof. intros HQ. unfold issue. frame. apply framed_arises_insert; [done|by apply HQ]. Qed.

Lemma completeLogin_arises Q `{!Closed Q} userId email context :
  framed (on_db (arises Q)) (completeLogin userId email context).
Proof. unfold completeLogin, audit_auth. frame. Qed.

(** The account, the password and the account's state are right. *)
Definition proven (d : DB) (email password : string) (u : User) : Prop :=
  (∃ i, users d !! i = Some u) ∧ account email u = true ∧
  verifyPassword (user_passwordHash u) password = true ∧ user_isActive u = true.

(** The second factor of a user: a valid one-time password, or a recovery code nobody used. *)
Definition factor_proven (d : DB) (at_ : time) (userId code : string) : Prop := ∃ u,
  users d !! userId = Some u ∧ user_mfaEnabled u = true ∧
  ((∃ envelope secret, user_mfaSecretEncrypted u = Some envelope ∧ decrypt box envelope = Some secret ∧
      totp_valid secret (text (List.filter (λ c, negb (is_space c)) (chars code))) at_ = true) ∨
   (∃ i c, recoveryCodes d !! i = Some c ∧ redeemable userId code c = true)).

Lemma verifyTotp_inr secret code w w' :
  verifyTotp box secret code w = (inr true, w') → ∃ s, decrypt box secret = Some s ∧
    totp_valid s (text (List.filter (λ c, negb (is_space c)) (chars code))) (w_now w) = true.
Proof.
  intros E. unfold verifyTotp in E. destruct (negb _); [by apply ret_inr in E as [? _]|].
  apply bind_inr in E as (t & w1 & [-> ->]%now_inr & E). destruct (decrypt box secret) as [s|]; [|done].
  apply ret_inr in E as [Ht _]. by exists s.
Qed.

Lemma verifyChallenge_inr userId code w r w' :
  verifyChallenge box userId code w = (inr r, w') →
  sessions (w_db w') = sessions (w_db w) ∧
  (challenge_accepted r = true → factor_proven (w_db w) (w_now w) userId code).
Proof.
  intros E. split.
  { eapply (framed_run (on_db (unchanged sessions))); [|exact E].
    unfold verifyChallenge, requireUser, verifyTotp, consumeRecoveryCode. frame. }
  intros Hacc. unfold verifyChallenge in E. apply bind_inr in E as (u & w1 & E1 & E).
  apply bind_inr in E1 as (o & w2 & [-> [fs ->]]%select_id_inr & E1).
  destruct (rows (w_db w) !! userId) as [x|] eqn:Ex; [|done]. apply ret_inr in E1 as [-> ->].
  destruct (user_mfaEnabled x) eqn:Hm; [|by apply ret_inr in E as [-> _]].
  destruct (user_mfaSecretEncrypted x) as [envelope|] eqn:Hs; [|by apply ret_inr in E as [-> _]].
  destruct (negb true || _) eqn:Et; [by apply ret_inr in E as [-> _]|].
  apply bind_inr in E as (v & w3 & Ev & E). exists x. split; [done|]. split; [done|]. destruct v.
  - left. apply verifyTotp_inr in Ev as (s & Hd & Ht). by exists envelope, s.
  - right. apply (framed_run _ _ _ _ _ (verifyTotp_reads box _ code)) in Ev as [gs ->].
    apply bind_inr in E as (b & w4 & Ec & [-> _]%ret_inr). simpl in Hacc. subst b.
    apply consumeRecoveryCode_inr in Ec as [_ Hb]. symmetry in Hb. apply bool_decide_eq_true in Hb.
    simpl in Hb. destruct (select_where (redeemable userId code) (w_db w)) as [|c l] eqn:El; [done|].
    assert (Hc : c ∈ select_where (redeemable userId code) (w_db w)) by (rewrite El; by left).
    apply elem_of_select_where in Hc as [[i Hi] Hr]. by exists i, c.
Qed.

(** *** Every call somebody can make *)

Inductive AuthCall :=
  | Login (email password : string) (context : SessionContext)
  | Verify_mfa (session : ActiveSession) (user : Principal) (code : string) (context : SessionContext)
  | Logout (sessionId userId email : string) (context : SessionContext)
  | Get_me (session : ActiveSession) (user : Principal)
  | Delete_session (id : string) (user : Principal) (context : RequestContext)
  | Mfa_setup (user : Principal)
  | Mfa_confirm (code : string) (user : Principal) (context : RequestContext)
  | Mfa_disable (code : string) (user : Principal) (context : RequestContext)
  | Mfa_regenerate (code : string) (user : Principal) (context : RequestContext).

Definition call (c : AuthCall) : M unit :=
  match c with
  | Login email password context => login email password context;; mret tt
  | Verify_mfa session user code context => post_mfa_verify box session user code context;; mret tt
  | Logout sessionId userId email context => logout sessionId userId email context
  | Get_me session user => get_me session user;; mret tt
  | Delete_session id user context => delete_session id user context
  | Mfa_setup user => post_setup box user;; mret tt
  | Mfa_confirm code user context => post_confirm box code user context;; mret tt
  | Mfa_disable code user context => post_disable box code user context
  | Mfa_regenerate code user context => post_regenerate box code user context;; mret tt
  end.

(** What a new session needed. *)
Definition earned (c : AuthCall) (d : DB) (at_ : time) (s : Session) : Prop :=
  match c with
  | Login email password _ => ∃ u, proven d email password u ∧ of_user (user_id u) (user_mfaEnabled u) s
  | Verify_mfa session user code _ => factor_proven d at_ (principal_id user) code ∧
      ∃ old, sessions d !! active_id session = Some old ∧ of_user (session_userId old) false s
  | _ => False
  end.

#[local] Instance earned_closed c d at_ : Closed (earned c d at_).
Proof.
  intros s s' Ho. destruct c; simpl; try done.
  - intros (u & Hp & Hu). exists u. split; [done|]. exact (of_user_closed _ _ s s' Ho Hu).
  - intros (Hf & old & Hold & Hu). split; [done|]. exists old. split; [done|]. exact (of_user_closed _ _ s s' Ho Hu).
Qed.

Lemma check_password_framed R `{!Frame R} user password : framed R (check_password user password).
Proof. unfold check_password, burnTime. frame. Qed.

Lemma check_password_inr user password w b w' :
  check_password user password w = (inr b, w') →
  w_db w' = w_db w ∧ b = match user with Some u => verifyPassword (user_passwordHash u) password | None => false end.
Proof.
  destruct user as [u|]; simpl; [by intros [-> ->]%ret_inr|]. unfold burnTime.
  intros (h & w1 & E & [-> ->]%ret_inr)%bind_inr. unfold hashPassword in E. by simplify_eq.
Qed.

(** What [login] does once the account and the password are known. *)
Lemma login_cases email password context w r w' :
  login email password context w = (r, w') →
  (w_db w' = w_db w ∧ r = inl DatabaseError) ∨
  ∃ user b w1, user = head (select_where (account email) (w_db w)) ∧ w_db w1 = w_db w ∧
    b = match user with Some u => verifyPassword (user_passwordHash u) password | None => false end ∧
    login_checked user b context w1 = (r, w').
Proof.
  intros E. apply bind_cases in E as [(e & -> & E)|(user & w1 & E1 & E)].
  { left. unfold select_first, select, statement, fmap, M_fmap in E. destruct (next_fault w); by simplify_eq. }
  apply select_first_inr in E1 as [-> [fs ->]].
  apply bind_cases in E as [(e & -> & E)|(b & w1 & E1 & E)].
  { exfalso. destruct (head _); simpl in E; [done|]. unfold burnTime in E.
    apply bind_cases in E as [(e0 & _ & E)|(h & w1 & _ & E)]; done. }
  apply check_password_inr in E1 as [Hd Hb]. right. by eexists _, b, w1.
Qed.

Lemma login_checked_arises Q `{!Closed Q} user b context :
  (∀ u, user = Some u → b = true → user_isActive u = true → ∀ s, of_user (user_id u) (user_mfaEnabled u) s → Q s) →
  framed (on_db (arises Q)) (login_checked user b context).
Proof.
  intros HQ. assert (Hr : framed (on_db (arises Q)) (refuse_login (A := LoginOutcome) user b context)).
  { unfold refuse_login, audit_auth. frame. }
  unfold login_checked. destruct user as [u|]; [|done]. destruct b; [|done]. destruct (user_isActive u) eqn:Ha; [|done].
  simpl. frame; [apply issue_arises; [done|]; by apply (HQ u)|by apply completeLogin_arises].
Qed.

Lemma completeMfa_arises Q `{!Closed Q} sessionId context w r w' :
  (∀ old s, sessions (w_db w) !! sessionId = Some old → of_user (session_userId old) false s → Q s) →
  completeMfa sessionId context w = (r, w') → arises Q (w_db w) (w_db w').
Proof.
  intros HQ E. apply bind_cases in E as [(e & _ & E)|(o & w1 & [-> [fs ->]]%select_id_inr & E)].
  { eapply (framed_db (arises Q)); [| |exact E]; [|reflexivity]. frame. }
  simpl in E. destruct (sessions (w_db w) !! sessionId) as [old|] eqn:Eo.
  - eapply (framed_db (arises Q)); [| |exact E]; [|reflexivity]. frame.
    apply issue_arises; [done|]. intros s Hs. by apply (HQ old).
  - eapply (framed_db (arises Q)); [| |exact E]; [|reflexivity]. frame.
Qed.

Lemma verify_arises session user code context w r w' :
  post_mfa_verify box session user code context w = (r, w') →
  arises (earned (Verify_mfa session user code context) (w_db w) (w_now w)) (w_db w) (w_db w').
Proof.
  intros E. set (Q := earned (Verify_mfa session user code context) (w_db w) (w_now w)).
  assert (HQ : Closed Q) by apply _. unfold post_mfa_verify in E. destruct (negb _).
  { eapply (framed_db (arises Q)); [| |exact E]; [|reflexivity]. frame. }
  apply bind_cases in E as [(e & _ & E)|(o & w1 & [-> [fs ->]]%select_id_inr & E)].
  { eapply (framed_db (arises Q)); [| |exact E]; [|reflexivity]. frame. }
  apply bind_cases in E as [(e & _ & E)|(result & w1 & E1 & E)].
  { eapply (framed_db (arises Q)); [| |exact E]; [|reflexivity].
    unfold verifyChallenge, requireUser, verifyTotp, consumeRecoveryCode. frame. }
  assert (H01 : arises Q (w_db w) (w_db w1)).
  { eapply (framed_db (arises Q)); [| |exact E1]; [|reflexivity].
    unfold verifyChallenge, requireUser, verifyTotp, consumeRecoveryCode. frame. }
  apply verifyChallenge_inr in E1 as [Hs Hf]. simpl in Hs, Hf.
  etrans; [exact H01|]. clear H01. destruct (challenge_accepted result); simpl in E.
  2: { eapply (framed_db (arises Q)); [| |exact E]; [|reflexivity]. unfold audit_auth. frame. }
  apply bind_cases in E as [(e & _ & E)|([] & w2 & E2 & E)].
  { eapply (framed_db (arises Q)); [| |exact E]; [|reflexivity]. unfold audit_auth. frame. }
  assert (Hs2 : sessions (w_db w2) = sessions (w_db w)).
  { rewrite <-Hs. eapply (framed_run (on_db (unchanged sessions)) _ w1); [|exact E2]. unfold audit_auth. frame. }
  assert (H12 : arises Q (w_db w1) (w_db w2)).
  { eapply (framed_db (arises Q)); [| |exact E2]; [|reflexivity]. unfold audit_auth. frame. }
  etrans; [exact H12|]. apply bind_cases in E as [(e & _ & E)|(rotated & w3 & E3 & E)].
  - eapply (completeMfa_arises Q); [|exact E]. rewrite Hs2. intros old s Ho Hu. split; [by apply Hf|by exists old].
  - trans (w_db w3).
    + eapply (completeMfa_arises Q); [|exact E3]. rewrite Hs2. intros old s Ho Hu. split; [by apply Hf|by exists old].
    + eapply (framed_db (arises Q)); [| |exact E]; [|reflexivity]. frame. by apply completeLogin_arises.
Qed.

Lemma draw_codes_framed R `{!Frame R} n : framed R (draw_codes n).
Proof. induction n as [|n IH]; simpl; frame. Qed.
#[local] Hint Resolve draw_codes_framed : frames.

Lemma login_arises email password context w r w' :
  login email password context w = (r, w') →
  arises (earned (Login email password context) (w_db w) (w_now w)) (w_db w) (w_db w').
Proof.
  intros [[-> _]|(user & b & w1 & -> & Hd & Hb & E)]%login_cases; [reflexivity|].
  rewrite <-Hd at 2. eapply (framed_db (arises _)); [|reflexivity|exact E]. apply login_checked_arises; [apply _|].
  intros u Hu -> Ha s Hs. rewrite Hu in Hb. exists u. split; [|done].
  apply head_select_Some in Hu as [Hi Hacc]. by split_and!.
Qed.

Lemma call_arises c w r w' : call c w = (r, w') → arises (earned c (w_db w) (w_now w)) (w_db w) (w_db w').
Proof.
  intros E. destruct c; simpl in E.
  - apply then_done in E as [r0 E]. by eapply login_arises.
  - apply then_done in E as [r0 E]. by eapply verify_arises.
  - eapply (framed_db (arises _)); [|reflexivity|exact E]. unfold logout, Sessions.revoke, audit_auth. frame.
  - eapply (framed_db (arises _)); [|reflexivity|exact E]. unfold get_me, issueCsrfToken, remainingRecoveryCodes. frame.
  - eapply (framed_db (arises _)); [|reflexivity|exact E]. unfold delete_session, Sessions.findById, Sessions.revoke. frame.
  - eapply (framed_db (arises _)); [|reflexivity|exact E]. unfold post_setup, beginSetup. frame; by intros ?.
  - eapply (framed_db (arises _)); [|reflexivity|exact E].
    unfold post_confirm, confirmSetup, requireUser, verifyTotp, replace_codes, audit_mfa. frame.
  - eapply (framed_db (arises _)); [|reflexivity|exact E].
    unfold post_disable, verifyChallenge, requireUser, verifyTotp, consumeRecoveryCode, disable, revokeAllForUser, audit_mfa. frame.
  - eapply (framed_db (arises _)); [|reflexivity|exact E].
    unfold post_regenerate, verifyChallenge, regenerateRecoveryCodes, requireUser, verifyTotp,
      consumeRecoveryCode, replace_codes, audit_mfa. frame.
Qed.


(** *** What signing in answers *)

(** The errors of a database, not of the program. *)
Definition db_error (e : exn) : Prop := e = DatabaseError ∨ ∃ name, e = UniqueViolation name.

Lemma statement_inl {A} (f : DB → exn + (A * DB)) w e w' :
  (∀ d e, f d = inl e → db_error e) → statement f w = (inl e, w') → db_error e.
Proof.
  intros Hf E. unfold statement in E. destruct (next_fault w); [simplify_eq; by left|].
  destruct (f (w_db w)) as [e0|[]] eqn:Ef; simplify_eq. by eapply Hf.
Qed.

Lemma audit_inl entry w e w' : audit_record entry w = (inl e, w') → db_error e.
Proof.
  intros E. apply bind_cases in E as [(e0 & _ & E)|(i & w1 & _ & E)]; [done|].
  apply bind_cases in E as [(e0 & _ & E)|(x & w2 & _ & E)]; [done|].
  unfold insert_into in E. eapply statement_inl; [|exact E]. intros d e0 E0. simpl in E0.
  case_match; simplify_eq. right. by eexists.
Qed.

Lemma refuse_login_run {A} user b context w r w' :
  refuse_login (A := A) user b context w = (r, w') →
  ∃ e, r = inl e ∧ (e = AppError "AUTH_INVALID_CREDENTIALS" 401 ∨ db_error e).
Proof.
  intros E. apply bind_cases in E as [(e & -> & E)|(x & w1 & _ & E)].
  - exists e. split; [done|]. right. by eapply audit_inl.
  - unfold unauthorized, throw in E. simplify_eq. eexists. split; [done|by left].
Qed.

(** The outcome of a sign-in, in terms of the session it made. *)
Definition signed_in_as (d : DB) (o : LoginOutcome) (u : User) : Prop :=
  login_userId o = user_id u ∧
  login_kind o = (if user_mfaEnabled u then Mfa_required else Authenticated) ∧
  ∃ s, sessions d !! issued_sessionId (login_session o) = Some s ∧ session_revokedAt s = None ∧
    session_tokenHash s = hashSecret (issued_token (login_session o)) ∧
    session_csrfTokenHash s = hashSecret (issued_csrfToken (login_session o)) ∧
    of_user (user_id u) (user_mfaEnabled u) s.

Lemma issue_inr userId pending context w o w' :
  issue userId pending context w = (inr o, w') →
  ∃ s, sessions (w_db w') !! issued_sessionId o = Some s ∧ session_revokedAt s = None ∧
    session_tokenHash s = hashSecret (issued_token o) ∧
    session_csrfTokenHash s = hashSecret (issued_csrfToken o) ∧ of_user userId pending s.
Proof.
  intros E. unfold issue in E. apply bind_inr in E as (t & w1 & E1 & E). apply bind_inr in E as (c & w2 & E2 & E).
  apply bind_inr in E as (a & w3 & [-> ->]%now_inr & E). apply bind_inr in E as (i & w3 & E3 & E).
  apply bind_inr in E as (x & w4 & [_ [fs ->]]%insert_inr & [-> ->]%ret_inr). simpl.
  eexists. split; [apply lookup_insert_eq|done].
Qed.

End signing_in.

(** *** Ada signs in *)

#[local] Existing Instance clear_cipher.

Definition somewhere : SessionContext := {| from_userAgent := None; from_sourceIp := Some "192.0.2.1" |}.


(** The session that waits for the factor, and its user. *)
Definition pending_session : ActiveSession := active_session (example_session "s2" "token-2" true).
Definition ada : Principal := {|
  principal_id := "u1"; principal_email := "ada@example.org"; principal_displayName := "Ada";
  principal_mfaEnabled := true; principal_roles := []; principal_permissions := ∅ |}.


(** Asking for a new setup switches the factor off, without a code: after it the
    password is enough. *)
Theorem setup_switches_factor_off :
  let kind w := match (login "ada@example.org" "secret" somewhere w).1 with
                | inr o => Some (login_kind o) | inl _ => None end in
  kind secured = Some Mfa_required ∧ kind (post_setup [] ada secured).2 = Some Authenticated ∧
  (post_disable [] "000000" ada from_browser secured).1 = inl (AppError "AUTH_MFA_INVALID" BAD_REQUEST).
Proof. vm_compute. auto. Qed.

(** A sign-in that waits for its factor survives being revoked: completing it does not look. *)
Theorem revoked_sign_in_completes :
  let w := (Sessions.revoke "s2" secured).2 in
  (sessions (w_db w) !! "s2" ≫= session_revokedAt) = Some 1000%Z ∧
  match verifyMfa [] "s2" "u1" "123456" somewhere w with
  | (inr issued, w') => (Sessions.resolve (issued_token issued) w').1 =
      inr (active_session <$> sessions (w_db w') !! issued_sessionId issued)
  | _ => False
  end.
Proof. vm_compute. auto. Qed.
