(* ===== verification/Enrollment.v ===== *)
(** * Enrolling agents

    [api/src/agents/enrollment.service.ts]: a token is exchanged once for a
    certificate over an identity the server chose.

    Reading a certificate request and issuing a certificate are the authority's,
    which goes through a library, and are parameters. *)

From Stdlib Require Import Ascii String NArith ZArith.
From stdpp Require Import gmap strings list sorting.
From S2P Require Import Prelude Schema Store Registry Effects Logic Base64 StackDeployment.
From S2P Require Import RecoveryFinalizer Protocol AgentRegistry Credentials Rbac Sessions.

(** Why the authority refuses: the request is at fault, or something else. *)
Inductive CaError := CertificateRequestError | OtherError.

Class Authority := {
  (** whether [parseCsr] accepts a request *)
  parseCsr : string → bool;
  (** [issueAgentCertificate(csrPem, agentId)], at a time *)
  ca_issue : string → string → time → CaError + IssuedCertificate;
  chainPem : string;
  AGENT_ENROLLMENT_TTL : Z;
  AGENT_GATEWAY_ADVERTISED_URL : string
}.

Record CreatedEnrollmentToken := {
  created_id : string;
  created_token : string;
  created_expiresAt : time
}.

Record EnrollmentRequest := {
  enroll_token : string;
  enroll_csrPem : string;
  enroll_agentVersion : option string;
  enroll_protocolVersion : Z;
  enroll_declaredHostname : option string;
  enroll_sourceIp : option string
}.

Record EnrollmentResult := {
  enrolled_agentId : string;
  enrolled_certificatePem : string;
  enrolled_caChainPem : string;
  enrolled_gatewayUrl : string;
  enrolled_protocolVersion : Z;
  enrolled_certificateNotAfter : time
}.

(** [[\w.-]] *)
Definition host_char (c : ascii) : bool :=
  is_alpha c || is_digit c || mem c ["_"; "."; "-"]%char.

Definition sanitiseHostname (value : option string) : string :=
  let cleaned := List.filter host_char (trim (chars (value ?? ""))) in
  match take 253 cleaned with
  | [] => "unidentified-host"
  | l => text l
  end.

Section enrollment.
Context `{Credentials} `{Authority}.

Definition new_token (id token : string) (createdBy intendedHostname : option string) (at_ : time) : EnrollmentToken := {|
  etoken_id := id; etoken_tokenHash := hashSecret token; etoken_createdBy := createdBy;
  etoken_intendedHostname := intendedHostname; etoken_createdAt := at_;
  etoken_expiresAt := (at_ + AGENT_ENROLLMENT_TTL * 1000)%Z; etoken_consumedAt := None;
  etoken_consumedByAgentId := None; etoken_revokedAt := None; etoken_revokedBy := None |}.

Definition createToken (actorId : option string) (actorEmail : string) (intendedHostname sourceIp userAgent : option string) :
    M CreatedEnrollmentToken :=
  token ← generateSecret TOKEN_BYTES;
  at_ ← now;
  id ← randomUUID;
  insert_into (new_token id token actorId intendedHostname at_);;
  audit_record {|
    entry_action := "agent.enrollment_token.created"; entry_result := Audit_success;
    entry_actorUserId := actorId; entry_actorLabel := actorEmail;
    entry_targetType := Some "enrollment_token"; entry_targetId := Some id;
    entry_targetLabel := intendedHostname; entry_reasonCode := None;
    entry_sourceIp := sourceIp; entry_userAgent := userAgent |};;
  mret {| created_id := id; created_token := token;
          created_expiresAt := (at_ + AGENT_ENROLLMENT_TTL * 1000)%Z |}.

Definition revokeToken (id : string) (actor : AuthenticatedUser) (context : RequestContext) : M unit :=
  at_ ← now;
  revoked ← update (λ t : EnrollmentToken, bool_decide (etoken_id t = id) &&
      bool_decide (etoken_revokedAt t = None) && bool_decide (etoken_consumedAt t = None))
    (λ t, t <| etoken_revokedAt := Some at_ |> <| etoken_revokedBy := Some (actor_id actor) |>);
  if bool_decide (length revoked = 0) then notFound "ENROLLMENT_TOKEN_INVALID"
  else
    audit_record {|
      entry_action := "agent.enrollment_token.revoked"; entry_result := Audit_success;
      entry_actorUserId := Some (actor_id actor); entry_actorLabel := actor_email actor;
      entry_targetType := Some "enrollment_token"; entry_targetId := Some id; entry_targetLabel := None;
      entry_reasonCode := None; entry_sourceIp := context_sourceIp context;
      entry_userAgent := context_userAgent context |}.

(** [orderBy(desc(createdAt)).limit(100)] *)
Definition token_later (a b : EnrollmentToken) : Prop := (etoken_createdAt b <= etoken_createdAt a)%Z.
#[global] Instance token_later_dec : RelDecision token_later.
Proof. intros a b. unfold token_later. apply _. Defined.

(** The rows as they are; the caller selects the columns it shows, and a digest is not one of them. *)
Definition listTokens : M (list EnrollmentToken) :=
  rows_ ← select (λ _ : EnrollmentToken, true);
  mret (take 100 (merge_sort token_later rows_)).

Definition assertCsrAcceptable (csrPem : string) : M unit :=
  if parseCsr csrPem then mret tt else refused "ENROLLMENT_CSR_INVALID".

(** A token that can be spent now. *)
Definition claimable_token (digest : string) (at_ : time) (t : EnrollmentToken) : bool :=
  bool_decide (etoken_tokenHash t = digest) && bool_decide (etoken_consumedAt t = None) &&
  bool_decide (etoken_revokedAt t = None) && (at_ <? etoken_expiresAt t)%Z.

Definition claimToken (token : string) : M string :=
  let digest := hashSecret token in
  now_ ← now;
  claimed ← update (claimable_token digest now_) (λ t, t <| etoken_consumedAt := Some now_ |>);
  match claimed with
  | [t] => mret (etoken_id t)
  | _ =>
      existing ← select_first (λ t : EnrollmentToken, bool_decide (etoken_tokenHash t = digest));
      match existing with
      | None => unauthorized "ENROLLMENT_TOKEN_INVALID"
      | Some t =>
          if bool_decide (etoken_revokedAt t ≠ None) then unauthorized "ENROLLMENT_TOKEN_REVOKED"
          else if bool_decide (etoken_consumedAt t ≠ None) then unauthorized "ENROLLMENT_TOKEN_CONSUMED"
          else unauthorized "ENROLLMENT_TOKEN_EXPIRED"
      end
  end.

Definition new_host (id hostname : string) : Host := {|
  host_id := id; host_hostname := hostname; host_displayName := None; host_os := None;
  host_architecture := None; host_kernel := None; host_dockerVersion := None; host_agentVersion := None;
  host_metrics := None; host_metadata := None; host_lastSeenAt := None; host_observedAt := None;
  host_archivedAt := None |}.

Definition new_agent (id hostId tokenId : string) (request : EnrollmentRequest) (at_ : time) : Agent := {|
  agent_id := id; agent_hostId := hostId; agent_certificateFingerprint := "pending:" +:+ tokenId;
  agent_certificateSerial := "pending"; agent_certificateNotAfter := 0%Z;
  agent_version := enroll_agentVersion request; agent_protocolVersion := enroll_protocolVersion request;
  agent_capabilities := []; agent_status := Agent_pending; agent_enrolledAt := at_;
  agent_firstSeenAt := None; agent_lastSeenAt := None; agent_revokedAt := None;
  agent_revocationReason := None |}.

(** The transaction: a host, an agent on it, and the token that made them. *)
Definition createIdentity (tokenId : string) (request : EnrollmentRequest) : M string :=
  transaction (
    hostId ← randomUUID;
    insert_into (new_host hostId (sanitiseHostname (enroll_declaredHostname request)));;
    agentId ← randomUUID;
    at_ ← now;
    insert_into (new_agent agentId hostId tokenId request at_);;
    update_id (R := EnrollmentToken) tokenId (λ t, t <| etoken_consumedByAgentId := Some agentId |>);;
    mret agentId).

Definition issueCertificate (csrPem agentId : string) : M IssuedCertificate :=
  at_ ← now;
  match ca_issue csrPem agentId at_ with
  | inr certificate => mret certificate
  | inl error =>
      delete_from (λ a : Agent, bool_decide (agent_id a = agentId));;
      match error with
      | CertificateRequestError => refused "ENROLLMENT_CSR_INVALID"
      | OtherError => throw PlainError
      end
  end.

Definition audit_enrollment (action targetType targetId : string) (targetLabel reasonCode sourceIp : option string) : M unit :=
  audit_record {|
    entry_action := action; entry_result := Audit_success; entry_actorUserId := None;
    entry_actorLabel := "agent-enrollment"; entry_targetType := Some targetType;
    entry_targetId := Some targetId; entry_targetLabel := targetLabel; entry_reasonCode := reasonCode;
    entry_sourceIp := sourceIp; entry_userAgent := None |}.

Definition issueForClaimedToken (tokenId : string) (request : EnrollmentRequest) : M EnrollmentResult :=
  agentId ← createIdentity tokenId request;
  certificate ← issueCertificate (enroll_csrPem request) agentId;
  replaceCertificate agentId certificate;;
  audit_enrollment "agent.enrollment_token.consumed" "enrollment_token" tokenId None None (enroll_sourceIp request);;
  audit_enrollment "agent.enrolled" "agent" agentId
    (Some (sanitiseHostname (enroll_declaredHostname request))) (Some (cert_serial certificate))
    (enroll_sourceIp request);;
  mret {| enrolled_agentId := agentId; enrolled_certificatePem := cert_pem certificate;
          enrolled_caChainPem := chainPem; enrolled_gatewayUrl := AGENT_GATEWAY_ADVERTISED_URL;
          enrolled_protocolVersion := PROTOCOL_VERSION; enrolled_certificateNotAfter := cert_notAfter certificate |}.

Definition enroll (request : EnrollmentRequest) : M EnrollmentResult :=
  if negb (isSupportedProtocolVersion (enroll_protocolVersion request))
  then refused "AGENT_PROTOCOL_UNSUPPORTED"
  else
    assertCsrAcceptable (enroll_csrPem request);;
    tokenId ← claimToken (enroll_token request);
    issueForClaimedToken tokenId request.
End enrollment.

(** ** A token is spent once *)

Section tokens.
Context `{Credentials} `{Authority}.

(** The digest and the end of a token are fixed; what was spent or revoked stays so. *)
Definition spends (t t' : EnrollmentToken) : Prop :=
  etoken_id t' = etoken_id t ∧ etoken_tokenHash t' = etoken_tokenHash t ∧
  etoken_expiresAt t' = etoken_expiresAt t ∧
  (etoken_consumedAt t ≠ None → etoken_consumedAt t' = etoken_consumedAt t) ∧
  (etoken_revokedAt t ≠ None → etoken_revokedAt t' = etoken_revokedAt t).

#[export] Instance spends_preorder : PreOrder spends.
Proof.
  split; unfold spends; [done|]. intros t1 t2 t3 (? & ? & ? & C1 & R1) (? & ? & ? & C2 & R2).
  split_and!; try congruence; intros Hn.
  - rewrite C2, C1; [done|done|]. by rewrite C1.
  - rewrite R2, R1; [done|done|]. by rewrite R1.
Qed.

Lemma token_named d i t : db_ok d → agentEnrollmentTokens d !! i = Some t → etoken_id t = i.
Proof. exact (@row_named EnrollmentToken _ _ d i t). Qed.

Lemma token_unique d i j a b :
  db_ok d → agentEnrollmentTokens d !! i = Some a → agentEnrollmentTokens d !! j = Some b →
  etoken_tokenHash a = etoken_tokenHash b → i = j.
Proof.
  intros Hok Ha Hb E. eapply (unique_row (R := EnrollmentToken) "enrollment_tokens_hash_unique" _ d);
    [done|by left|exact Ha|exact Hb|done|]. simpl. by rewrite E.
Qed.

#[local] Hint Extern 2 (framed (on_db (evolves spends)) (update (R := EnrollmentToken) _ _)) =>
  apply framed_update_evolves; [apply _|intros ? Hp; unfold claimable_token in Hp;
    rewrite ?andb_true_iff, ?bool_decide_eq_true in Hp; unfold spends; simpl; naive_solver] : frames.
#[local] Hint Extern 2 (framed (on_db (evolves spends)) (update_id (R := EnrollmentToken) _ _)) =>
  apply framed_update_id_evolves; [apply _|intros; unfold spends; simpl; naive_solver] : frames.

Lemma claimToken_spends token : framed (on_db (evolves spends)) (claimToken token).
Proof. unfold claimToken. frame. Qed.

Lemma issueForClaimedToken_spends tokenId request :
  framed (on_db (evolves spends)) (issueForClaimedToken tokenId request).
Proof.
  unfold issueForClaimedToken, createIdentity, issueCertificate, replaceCertificate, audit_enrollment. frame.
Qed.

Lemma enroll_spends request : framed (on_db (evolves spends)) (enroll request).
Proof.
  unfold enroll, assertCsrAcceptable. frame; [apply claimToken_spends|apply issueForClaimedToken_spends].
Qed.

Lemma enroll_ok request : framed (on_db keeps_db_ok) (enroll request).
Proof.
  unfold enroll, assertCsrAcceptable, claimToken, issueForClaimedToken, createIdentity, issueCertificate,
    replaceCertificate, audit_enrollment. frame.
Qed.

Lemma claimable_token_true digest at_ t :
  claimable_token digest at_ t = true ↔ etoken_tokenHash t = digest ∧ etoken_consumedAt t = None ∧
    etoken_revokedAt t = None ∧ (at_ < etoken_expiresAt t)%Z.
Proof. unfold claimable_token. rewrite !andb_true_iff, !bool_decide_eq_true, Z.ltb_lt. naive_solver. Qed.

(** What a claim that succeeded found, and what it left. *)
Lemma claimToken_inr token w i w' :
  db_ok (w_db w) → claimToken token w = (inr i, w') →
  ∃ t, agentEnrollmentTokens (w_db w) !! i = Some t ∧ etoken_tokenHash t = hashSecret token ∧
    etoken_consumedAt t = None ∧ etoken_revokedAt t = None ∧ (w_now w < etoken_expiresAt t)%Z ∧
    w_now w' = w_now w ∧
    w_db w' = (w_db w) <| agentEnrollmentTokens :=
      alter (λ t, t <| etoken_consumedAt := Some (w_now w) |>) i (agentEnrollmentTokens (w_db w)) |>.
Proof.
  intros Hok E. unfold claimToken in E. apply bind_inr in E as (a & w1 & [-> ->]%now_inr & E).
  apply bind_inr in E as (l & w1 & [-> [fs ->]]%update_inr & E).
  set (p := claimable_token (hashSecret token) (w_now w)) in *.
  destruct (select_where p (w_db w)) as [|t [|t' l]] eqn:El; simpl in E.
  - exfalso. apply bind_inr in E as (o & w2 & _ & E). destruct o; [|done]. by repeat case_match.
  - apply ret_inr in E as [-> ->]. simpl.
    assert (Ht : t ∈ select_where p (w_db w)) by (rewrite El; by left).
    apply elem_of_select_where in Ht as [[i Hi] Hp]. rewrite (token_named _ i t Hok Hi).
    assert (Hone : ∀ j x, agentEnrollmentTokens (w_db w) !! j = Some x → p x = true → j = i).
    { intros j x Hj Hx. unfold p in Hp, Hx. apply claimable_token_true in Hp as (Hh & _), Hx as (Hh' & _).
      eapply token_unique; [done|done|exact Hi|congruence]. }
    rewrite (change_rows_one p _ (agentEnrollmentTokens (w_db w)) i t Hi Hp Hone).
    apply claimable_token_true in Hp as (Hh & Hc & Hr & Hx). exists t. by split_and!.
  - exfalso. apply bind_inr in E as (o & w2 & _ & E). destruct o; [|done]. by repeat case_match.
Qed.

(** Everything people and agents can do about tokens. *)
Inductive TokenEvent :=
  | Create_token (actorId : option string) (email : string) (intendedHostname sourceIp userAgent : option string)
  | Revoke_token (id : string) (actor : AuthenticatedUser) (context : RequestContext)
  | Enroll (request : EnrollmentRequest)
  | Elapse (ms : N).

Definition token_event (e : TokenEvent) : M unit :=
  match e with
  | Create_token actorId email intendedHostname sourceIp userAgent =>
      createToken actorId email intendedHostname sourceIp userAgent;; mret tt
  | Revoke_token id actor context => revokeToken id actor context
  | Enroll request => enroll request;; mret tt
  | Elapse ms => wait ms
  end.

Definition token_run (es : list TokenEvent) (w : World) : World := foldl (λ w e, (token_event e w).2) w es.

Lemma token_event_spends e : framed (on_db (evolves spends)) (token_event e).
Proof.
  destruct e; simpl.
  - unfold createToken. frame.
  - unfold revokeToken. frame.
  - frame. apply enroll_spends.
  - intros w i t Ht. by exists t.
Qed.

Lemma token_event_ok e : framed (on_db keeps_db_ok) (token_event e).
Proof.
  destruct e; simpl; [unfold createToken; frame|unfold revokeToken; frame|frame; apply enroll_ok|intros w Hok; exact Hok].
Qed.

Lemma token_run_framed P `{!PreOrder P} es w :
  (∀ e, framed (on_db P) (token_event e)) → P (w_db w) (w_db (token_run es w)).
Proof.
  intros HP. unfold token_run. revert w. induction es as [|e es IH]; intros w; simpl; [reflexivity|].
  etrans; [apply (HP e w)|apply IH].
Qed.

Lemma enroll_inr request w res w' :
  enroll request w = (inr res, w') → ∃ tokenId w1, claimToken (enroll_token request) w = (inr tokenId, w1) ∧
    issueForClaimedToken tokenId request w1 = (inr res, w').
Proof.
  intros E. unfold enroll in E. destruct (negb _); [done|].
  apply bind_inr in E as ([] & w0 & E0 & E). unfold assertCsrAcceptable in E0.
  destruct (parseCsr _); [|done]. apply ret_inr in E0 as [_ ->].
  apply bind_inr in E as (tokenId & w1 & E1 & E). eauto.
Qed.

(** An enrollment token enrolls one agent: after it was exchanged for a certificate,
    nothing that is done about tokens, by people, by agents or by the clock, makes a
    second exchange of it succeed. *)
Theorem token_single_use es request request' w res w1 res' w' :
  db_ok (w_db w) → enroll request w = (inr res, w1) →
  hashSecret (enroll_token request') = hashSecret (enroll_token request) →
  enroll request' (token_run es w1) ≠ (inr res', w').
Proof.
  intros Hok E Hh E'. pose proof (enroll_ok request w) as Hok1. rewrite E in Hok1. specialize (Hok1 Hok). simpl in Hok1.
  pose proof (token_run_framed keeps_db_ok es w1 token_event_ok Hok1) as Hok2.
  apply enroll_inr in E as (i & w0 & Ec & Ei). apply enroll_inr in E' as (j & w3 & Ec' & _).
  apply claimToken_inr in Ec as (t & Hi & Ht & _ & _ & _ & _ & Ew); [|done].
  apply claimToken_inr in Ec' as (t' & Hj & Ht' & Hc' & _); [|done].
  assert (Hw0 : agentEnrollmentTokens (w_db w0) !! i = Some (t <| etoken_consumedAt := Some (w_now w) |>)).
  { rewrite Ew. simpl. by rewrite lookup_alter_eq, Hi. }
  destruct (framed_db _ _ _ _ _ _ (issueForClaimedToken_spends i request) eq_refl Ei i _ Hw0)
    as (t1 & Hw1 & _ & Hh1 & _ & Hc1 & _).
  destruct (token_run_framed (evolves spends) es w1 token_event_spends i t1 Hw1) as (t2 & Hw2 & _ & Hh2 & _ & Hc2 & _).
  simpl in Hh1, Hc1. assert (i = j) as <-.
  { eapply token_unique; [exact Hok2|exact Hw2|exact Hj|congruence]. }
  simpl in Hw2. rewrite Hw2 in Hj. simplify_eq. rewrite Hc2 in Hc'; rewrite Hc1 in *; done.
Qed.

(** What presenting a token comes to. *)
Definition claim_answer (d : DB) (at_ : time) (token : string) : exn + string :=
  match head (select_where (λ t : EnrollmentToken, bool_decide (etoken_tokenHash t = hashSecret token)) d) with
  | None => inl (AppError "ENROLLMENT_TOKEN_INVALID" 401)
  | Some t =>
      if bool_decide (etoken_revokedAt t ≠ None) then inl (AppError "ENROLLMENT_TOKEN_REVOKED" 401)
      else if bool_decide (etoken_consumedAt t ≠ None) then inl (AppError "ENROLLMENT_TOKEN_CONSUMED" 401)
      else if (etoken_expiresAt t <=? at_)%Z then inl (AppError "ENROLLMENT_TOKEN_EXPIRED" 401)
      else inr (etoken_id t)
  end.

(** The one conditional update and the reading after it tell exactly what became of a
    token: it is accepted when nobody spent or revoked it and its time is not over,
    and otherwise the answer names the reason. *)
Theorem claim_exact token w :
  healthy w → db_ok (w_db w) → (claimToken token w).1 = claim_answer (w_db w) (w_now w) token.
Proof.
  intros Hw Hok. unfold claimToken, claim_answer.
  rewrite (run_bind _ _ _ _ _ (eq_refl : now w = (inr (w_now w), w))).
  set (p := claimable_token (hashSecret token) (w_now w)).
  set (q := λ t : EnrollmentToken, bool_decide (etoken_tokenHash t = hashSecret token)).
  assert (Hq : ∀ t, head (select_where q (w_db w)) = Some t →
    ∃ i, agentEnrollmentTokens (w_db w) !! i = Some t ∧ etoken_tokenHash t = hashSecret token).
  { intros t Ht. apply head_select_Some in Ht as [[i Hi] Hh%bool_decide_eq_true]. by exists i. }
  destruct (select_where p (w_db w)) as [|t l] eqn:Ep.
  - rewrite (run_bind _ _ _ _ _ (run_update_none p _ w Hw Hok Ep)).
    rewrite (run_bind _ _ _ _ _ (run_select_first w Hw q)).
    destruct (head (select_where q (w_db w))) as [t|]; [|done]. destruct (Hq t eq_refl) as (i & Hi & Hh).
    destruct (etoken_revokedAt t) eqn:Hr; [done|]. destruct (etoken_consumedAt t) eqn:Hc; [done|]. simpl.
    destruct (etoken_expiresAt t <=? w_now w)%Z eqn:Hx; [done|]. exfalso. apply Z.leb_gt in Hx.
    rewrite select_where_nil in Ep. specialize (Ep i t Hi). apply not_true_iff_false in Ep.
    by apply Ep, claimable_token_true.
  - assert (Ht : t ∈ select_where p (w_db w)) by (rewrite Ep; by left).
    apply elem_of_select_where in Ht as [[i Hi] Hp].
    assert (Hone : ∀ (f : EnrollmentToken → bool), f t = true →
      (∀ x, f x = true → etoken_tokenHash x = etoken_tokenHash t) → select_where f (w_db w) = [t]).
    { intros f Hf Hsame.
      apply (@select_where_one EnrollmentToken agentEnrollmentTokens_table agentEnrollmentTokens_laws f _ i); [done..|].
      intros j x Hj Hx. eapply token_unique; [done|exact Hj|exact Hi|by apply Hsame]. }
    pose proof Hp as (Hh & Hc & Hr & Hx)%claimable_token_true.
    assert (Eu : update p (λ t, t <| etoken_consumedAt := Some (w_now w) |>) w =
      (inr ((λ t, t <| etoken_consumedAt := Some (w_now w) |>) <$> select_where p (w_db w)),
       w <| w_db := set_rows (change_rows p (λ t, t <| etoken_consumedAt := Some (w_now w) |>) (rows (w_db w))) (w_db w) |>)).
    { apply (run_update w Hw p _ Hok). intros x _. apply Forall_singleton. by left. }
    rewrite (run_bind _ _ _ _ _ Eu). clear Eu.
    rewrite (Hone p Hp) by (intros x (Hx' & _)%claimable_token_true; congruence).
    assert (Hqt : q t = true) by (by apply bool_decide_eq_true).
    rewrite (Hone q Hqt) by (intros x Hx'%bool_decide_eq_true; congruence). simpl. rewrite Hr, Hc. simpl. by rewrite (proj2 (Z.leb_gt _ _)) by done.
Qed.

(** *** What an enrollment makes *)

(** Everything enrolling has no say in. *)
Definition but_enrollment (d : DB) : DB :=
  d <| hosts := ∅ |> <| agents := ∅ |> <| agentEnrollmentTokens := ∅ |> <| auditEntries := ∅ |>.

Definition certified (certificate : IssuedCertificate) (a : Agent) : Agent :=
  a <| agent_certificateFingerprint := cert_fingerprint certificate |>
    <| agent_certificateSerial := cert_serial certificate |>
    <| agent_certificateNotAfter := cert_notAfter certificate |>.

Lemma createIdentity_inr tokenId request w agentId w' :
  db_ok (w_db w) → createIdentity tokenId request w = (inr agentId, w') →
  ∃ hostId, hosts (w_db w) !! hostId = None ∧ agents (w_db w) !! agentId = None ∧ w_now w' = w_now w ∧
    w_db w' = (w_db w)
      <| hosts := <[hostId := new_host hostId (sanitiseHostname (enroll_declaredHostname request))]> (hosts (w_db w)) |>
      <| agents := <[agentId := new_agent agentId hostId tokenId request (w_now w)]> (agents (w_db w)) |>
      <| agentEnrollmentTokens :=
           alter (λ t, t <| etoken_consumedByAgentId := Some agentId |>) tokenId (agentEnrollmentTokens (w_db w)) |>.
Proof.
  intros Hok E. apply transaction_inr in E as (w1 & E & [fs ->]).
  apply bind_inr in E as (hostId & w2 & E2 & E). unfold randomUUID in E2. simplify_eq.
  apply bind_inr in E as (x & w3 & [Hh [gs ->]]%insert_inr & E).
  apply bind_inr in E as (a & w4 & E4 & E). unfold randomUUID in E4. simplify_eq.
  apply bind_inr in E as (t & w5 & [-> ->]%now_inr & E).
  apply bind_inr in E as (y & w6 & [Ha [hs ->]]%insert_inr & E). simpl in *.
  apply bind_inr in E as (z & w7 & [_ [ks ->]]%update_inr & [-> ->]%ret_inr). simpl in *.
  eexists. split_and!; [exact Hh|exact Ha|done|]. simpl.
  assert (Hc : change_rows (λ r : EnrollmentToken, bool_decide (row_id r = tokenId))
    (λ t, t <| etoken_consumedByAgentId := Some (uuid (w_seed w + 1)) |>) (agentEnrollmentTokens (w_db w)) =
    alter (λ t, t <| etoken_consumedByAgentId := Some (uuid (w_seed w + 1)) |>) tokenId (agentEnrollmentTokens (w_db w))).
  { apply change_rows_id. intros j r. by apply token_named. }
  simpl in Hc. by rewrite Hc.
Qed.

Lemma claimToken_ok token : framed (on_db keeps_db_ok) (claimToken token).
Proof. unfold claimToken. frame. Qed.

Lemma createIdentity_ok tokenId request : framed (on_db keeps_db_ok) (createIdentity tokenId request).
Proof. unfold createIdentity. frame. Qed.

(** An enrollment that succeeds makes exactly one agent, on exactly one new host, with an
    identity the server drew and nobody had; its certificate is the one the authority
    issued for that identity, and the token it spent points to it.  What the agent
    says of itself becomes a label and nothing else, and no other agent or host
    changes. *)
Theorem enroll_makes_one request w res w' :
  db_ok (w_db w) → enroll request w = (inr res, w') →
  ∃ tokenId t hostId certificate,
    agentEnrollmentTokens (w_db w) !! tokenId = Some t ∧
    claimable_token (hashSecret (enroll_token request)) (w_now w) t = true ∧
    hosts (w_db w) !! hostId = None ∧ agents (w_db w) !! enrolled_agentId res = None ∧
    ca_issue (enroll_csrPem request) (enrolled_agentId res) (w_now w) = inr certificate ∧
    enrolled_certificatePem res = cert_pem certificate ∧
    hosts (w_db w') = <[hostId := new_host hostId (sanitiseHostname (enroll_declaredHostname request))]> (hosts (w_db w)) ∧
    agents (w_db w') = <[enrolled_agentId res := certified certificate
      (new_agent (enrolled_agentId res) hostId tokenId request (w_now w))]> (agents (w_db w)) ∧
    agentEnrollmentTokens (w_db w') = alter (λ t, t <| etoken_consumedAt := Some (w_now w) |>
      <| etoken_consumedByAgentId := Some (enrolled_agentId res) |>) tokenId (agentEnrollmentTokens (w_db w)) ∧
    but_enrollment (w_db w') = but_enrollment (w_db w).
Proof.
  intros Hok E. apply enroll_inr in E as (tokenId & w1 & Ec & E).
  pose proof (framed_db keeps_db_ok _ _ _ _ _ (claimToken_ok _) eq_refl Ec Hok) as Hok1.
  apply claimToken_inr in Ec as (t & Hi & Hh & Hc & Hr & Hx & Hn & Ew); [|done].
  apply bind_inr in E as (agentId & w2 & E2 & E).
  pose proof (framed_db keeps_db_ok _ _ _ _ _ (createIdentity_ok _ _) eq_refl E2 Hok1) as Hok2.
  apply createIdentity_inr in E2 as (hostId & Hnh & Hna & Hn2 & Ew2); [|done].
  apply bind_inr in E as (certificate & w3 & E3 & E). unfold issueCertificate in E3.
  apply bind_inr in E3 as (a & w4 & [-> ->]%now_inr & E3).
  destruct (ca_issue (enroll_csrPem request) agentId (w_now w2)) as [e|cert] eqn:Eca.
  { exfalso. apply bind_inr in E3 as (l & w5 & _ & E3). by destruct e. }
  apply ret_inr in E3 as [-> ->]. apply bind_inr in E as (u & w5 & E5 & E).
  apply bind_inr in E5 as (l & w6 & E5 & [-> ->]%ret_inr).
  apply update_id_inr in E5 as [fs ->]; [|exact (@db_ok_rows Agent _ _ _ Hok2)].
  assert (Et : unaudited (w_db w') = unaudited (set_rows (alter (certified cert) agentId (agents (w_db w2))) (w_db w2)) ∧
    res = {| enrolled_agentId := agentId; enrolled_certificatePem := cert_pem cert;
          enrolled_caChainPem := chainPem; enrolled_gatewayUrl := AGENT_GATEWAY_ADVERTISED_URL;
          enrolled_protocolVersion := PROTOCOL_VERSION; enrolled_certificateNotAfter := cert_notAfter cert |}).
  { apply bind_inr in E as (u1 & w7 & E7 & E). apply bind_inr in E as (u2 & w8 & E8 & [-> ->]%ret_inr). split; [|done].
    apply (framed_db (unchanged unaudited) _ _ _ _ _ (audit_record_unaudited _) eq_refl) in E8 as ->.
    by apply (framed_db (unchanged unaudited) _ _ _ _ _ (audit_record_unaudited _) eq_refl) in E7 as ->. }
  destruct Et as [Et ->]. clear E. simpl.
  assert (Hcl : claimable_token (hashSecret (enroll_token request)) (w_now w) t = true) by (by apply claimable_token_true).
  exists tokenId, t, hostId, cert. rewrite Ew in Hnh, Hna. simpl in Hnh, Hna.
  pose proof (f_equal hosts Et) as Eh. pose proof (f_equal agents Et) as Ea.
  pose proof (f_equal agentEnrollmentTokens Et) as Ek. simpl in Eh, Ea, Ek.
  rewrite Hn2, Hn in Eca. rewrite Ew2, Ew, Hn in Ea. rewrite Ew2, Ew in Eh, Ek. simpl in Eh, Ea, Ek.
  split_and!; try done.
  - rewrite Ea. by rewrite alter_insert_eq.
  - rewrite Ek. by rewrite alter_alter_eq.
  - apply (f_equal (λ d, d <| hosts := ∅ |> <| agents := ∅ |> <| agentEnrollmentTokens := ∅ |>)) in Et.
    unfold but_enrollment. trans ((unaudited (w_db w')) <| hosts := ∅ |> <| agents := ∅ |> <| agentEnrollmentTokens := ∅ |>); [done|].
    rewrite Et, Ew2, Ew. done.
Qed.
End tokens.

(** *** A host enrolls *)

#[export] Instance example_authority : Authority := {|
  parseCsr csr := bool_decide (csr ≠ "");
  ca_issue csr agentId at_ :=
    if bool_decide (csr = "weak") then inl CertificateRequestError
    else inr {| cert_pem := "certificate of " +:+ agentId; cert_fingerprint := "print of " +:+ agentId;
                cert_serial := "01"; cert_notAfter := (at_ + 2592000000)%Z |};
  chainPem := "chain"; AGENT_ENROLLMENT_TTL := 600; AGENT_GATEWAY_ADVERTISED_URL := "https://gateway.example.org" |}.

Definition introduced : World := signed_in <| w_db := (w_db signed_in) <| agentEnrollmentTokens :=
  {["e1" := new_token "e1" "introduction" None None 0%Z]} |> |>.

Lemma introduced_ok : db_ok (w_db introduced).
Proof. apply db_okb_true. by vm_compute. Qed.

Definition introduction (csr : string) : EnrollmentRequest := {|
  enroll_token := "introduction"; enroll_csrPem := csr; enroll_agentVersion := Some "1.2.0";
  enroll_protocolVersion := 1; enroll_declaredHostname := Some " web 1/etc "; enroll_sourceIp := None |}.

Definition enrollment_of (w : World) : option EnrollmentResult :=
  match (enroll (introduction "csr") w).1 with inr res => Some res | inl _ => None end.

Lemma enroll_makes_one_witness : ∃ res w' hostId,
  enroll (introduction "csr") introduced = (inr res, w') ∧
  hosts (w_db w') !! hostId = Some (new_host hostId "web1etc") ∧ hosts (w_db introduced) !! hostId = None.
Proof.
  destruct (enroll (introduction "csr") introduced) as [r w'] eqn:E.
  assert (Hr : match (enroll (introduction "csr") introduced).1 with inr _ => True | _ => False end)
    by (vm_compute; exact I).
  rewrite E in Hr. cbn [fst] in Hr. destruct r as [e|res]; [destruct Hr|]. clear Hr.
  destruct (enroll_makes_one _ _ _ _ introduced_ok E) as (i & t & h & c & _ & _ & Hh & _ & _ & _ & Ehosts & _).
  clear E. exists res, w', h. split; [reflexivity|]. split; [|exact Hh].
  rewrite Ehosts. rewrite lookup_insert_eq. vm_compute. reflexivity.
Defined.

Lemma token_single_use_witness :
  let w1 := (enroll (introduction "csr") introduced).2 in
  let later := token_run [Revoke_token "e1" administrator from_browser; Elapse 5] w1 in
  match enrollment_of introduced with
  | Some res => enroll (introduction "other csr") later ≠ (inr res, later)
  | None => False
  end.
Proof.
  cbv zeta. unfold enrollment_of. destruct (enroll (introduction "csr") introduced) as [r w1] eqn:E. cbn [fst snd].
  assert (Hr : match (enroll (introduction "csr") introduced).1 with inr _ => True | _ => False end)
    by (vm_compute; exact I).
  rewrite E in Hr. cbn [fst] in Hr. destruct r as [e|res]; [destruct Hr|]. clear Hr.
  apply (token_single_use _ (introduction "csr") (introduction "other csr") introduced res w1 res);
    [exact introduced_ok|exact E|reflexivity].
Defined.

Definition too_late : World := introduced <| w_now := 600000%Z |>.

Lemma claim_exact_witness :
  (claimToken "introduction" too_late).1 = inl (AppError "ENROLLMENT_TOKEN_EXPIRED" 401).
Proof.
  assert (Hok : db_ok (w_db too_late)) by (apply db_okb_true; vm_compute; reflexivity).
  assert (Hw : healthy too_late) by (vm_compute; reflexivity).
  rewrite (claim_exact "introduction" too_late Hw Hok). vm_compute. reflexivity.
Defined.

(** When the authority refuses after the token was claimed the agent goes, and the host
    made for it stays, with the token spent on an agent that does not exist. *)
Theorem refused_enrollment_leaves_host :
  let d := w_db (enroll (introduction "weak") introduced).2 in
  (enroll (introduction "weak") introduced).1 = inl (AppError "ENROLLMENT_CSR_INVALID" BAD_REQUEST) ∧
  map_size (agents d) = map_size (agents (w_db introduced)) ∧
  map_size (hosts d) = S (map_size (hosts (w_db introduced))) ∧
  (agentEnrollmentTokens d !! "e1" ≫= etoken_consumedByAgentId) = Some (uuid 102).
Proof. vm_compute. auto. Qed.
