(* ===== verification/HostSetup.v ===== *)
(** * Adding a host

    [api/src/host-setup/host-setup.service.ts]: a setup has one ticket, which one
    machine spends for an enrollment token; what becomes of the token is followed
    to tell how far the setup got. *)

From Stdlib Require Import Ascii String NArith ZArith.
From stdpp Require Import gmap strings list sorting.
From S2P Require Import Prelude Schema Store Registry Effects Logic Base64 StackDeployment.
From S2P Require Import RecoveryFinalizer Protocol AgentRegistry Credentials Rbac Sessions Enrollment.

Class SetupConfig := HOST_SETUP_TICKET_TTL : Z.

(** ** Data *)

Inductive HostSetupStatus := waiting | installing | connected | expired | cancelled.

#[export] Instance HostSetupStatus_eq_dec : EqDecision HostSetupStatus.
Proof. solve_decision. Defined.

Record HostSetupProgress := {
  progress_bootstrapped : bool;
  progress_enrolled : bool;
  progress_connected : bool;
  progress_inventoryReported : bool
}.

Record HostSetupView := {
  hview_id : string;
  hview_displayName : option string;
  hview_status : HostSetupStatus;
  hview_progress : HostSetupProgress;
  hview_createdAt : time;
  hview_expiresAt : time;
  hview_agentId : option string;
  hview_hostId : option string;
  hview_completedAt : option time
}.

Record CreatedHostSetup := { hcreated_view : HostSetupView; hcreated_ticket : string }.

(** A setup and everything enrollment has since made of it. *)
Record ResolvedSetup := {
  resolved_setup : HostSetup;
  resolved_agentId : option string;
  resolved_agentStatus : option AgentStatus;
  resolved_hostId : option string;
  resolved_os : option string
}.

Record Bootstrapped := {
  boot_setupId : string;
  boot_displayName : option string;
  boot_enrollmentToken : string
}.

(** ** What a setup shows *)

Definition progressOf (row : ResolvedSetup) : HostSetupProgress := {|
  progress_bootstrapped := bool_decide (setup_ticketConsumedAt (resolved_setup row) ≠ None);
  progress_enrolled := truthy (resolved_agentId row);
  progress_connected := bool_decide (resolved_agentStatus row = Some Agent_connected);
  progress_inventoryReported := truthy (resolved_os row) |}.

Definition isComplete (row : ResolvedSetup) : bool :=
  let progress := progressOf row in
  progress_enrolled progress && progress_connected progress && progress_inventoryReported progress.

Definition statusOf (row : ResolvedSetup) (at_ : time) : HostSetupStatus :=
  let setup := resolved_setup row in
  if bool_decide (setup_cancelledAt setup ≠ None) then cancelled
  else if bool_decide (setup_completedAt setup ≠ None) || isComplete row then connected
  else if bool_decide (setup_ticketConsumedAt setup ≠ None) then installing
  else if (setup_ticketExpiresAt setup <=? at_)%Z then expired else waiting.

Definition view (row : ResolvedSetup) (at_ : time) : HostSetupView :=
  let setup := resolved_setup row in {|
    hview_id := setup_id setup; hview_displayName := setup_displayName setup;
    hview_status := statusOf row at_; hview_progress := progressOf row;
    hview_createdAt := setup_createdAt setup; hview_expiresAt := setup_ticketExpiresAt setup;
    hview_agentId := from_option Some (setup_agentId setup) (resolved_agentId row);
    hview_hostId := from_option Some (setup_hostId setup) (resolved_hostId row);
    hview_completedAt := setup_completedAt setup |}.

(** [value.replace(/\s+/g, ' ')] *)
Fixpoint one_space (l : list ascii) : list ascii :=
  match l with
  | [] => []
  | c :: l' =>
      if is_space c then
        match l' with
        | c' :: _ => if is_space c' then one_space l' else " "%char :: one_space l'
        | [] => [" "%char]
        end
      else c :: one_space l'
  end.

Definition normaliseDisplayName (value : option string) : option string :=
  match take 120 (one_space (trim (chars (value ?? "")))) with
  | [] => None
  | l => Some (text l)
  end.

(** A setup nobody has enrolled through. *)
Definition unresolved_setup (setup : HostSetup) : ResolvedSetup := {|
  resolved_setup := setup; resolved_agentId := None; resolved_agentStatus := None;
  resolved_hostId := None; resolved_os := None |}.

(** ** HostSetupService *)

Section setups.
Context `{Credentials} `{Authority} `{SetupConfig}.

Definition ticketExpiry (from : time) : time := (from + HOST_SETUP_TICKET_TTL * 1000)%Z.

Definition audit_setup (action id : string) (label reason : option string) (actorId : option string)
    (actorLabel : string) (sourceIp userAgent : option string) : M unit :=
  audit_record {|
    entry_action := action; entry_result := Audit_success; entry_actorUserId := actorId;
    entry_actorLabel := actorLabel; entry_targetType := Some "host_setup"; entry_targetId := Some id;
    entry_targetLabel := label; entry_reasonCode := reason; entry_sourceIp := sourceIp;
    entry_userAgent := userAgent |}.

Definition new_setup (id : string) (displayName : option string) (actorId ticket : string) (at_ : time) : HostSetup := {|
  setup_id := id; setup_displayName := displayName; setup_createdBy := Some actorId;
  setup_ticketHash := hashSecret ticket; setup_ticketExpiresAt := ticketExpiry at_;
  setup_ticketConsumedAt := None; setup_ticketIssuedAt := at_; setup_cancelledAt := None;
  setup_cancelledBy := None; setup_enrollmentTokenId := None; setup_agentId := None; setup_hostId := None;
  setup_completedAt := None; setup_createdAt := at_ |}.

Definition create (actor : AuthenticatedUser) (displayName : option string) (context : RequestContext) :
    M CreatedHostSetup :=
  let displayName := normaliseDisplayName displayName in
  ticket ← generateSecret TOKEN_BYTES;
  at_ ← now;
  id ← randomUUID;
  let created := new_setup id displayName (actor_id actor) ticket at_ in
  insert_into created;;
  audit_setup "host.setup.created" id displayName None (Some (actor_id actor)) (actor_email actor)
    (context_sourceIp context) (context_userAgent context);;
  mret {| hcreated_view := view (unresolved_setup created) at_; hcreated_ticket := ticket |}.

Definition regenerate (id : string) (actor : AuthenticatedUser) (context : RequestContext) : M CreatedHostSetup :=
  ticket ← generateSecret TOKEN_BYTES;
  now_ ← now;
  updated ← update (λ s : HostSetup, bool_decide (setup_id s = id) &&
      bool_decide (setup_ticketConsumedAt s = None) && bool_decide (setup_cancelledAt s = None))
    (λ s, s <| setup_ticketHash := hashSecret ticket |> <| setup_ticketExpiresAt := ticketExpiry now_ |>
            <| setup_ticketIssuedAt := now_ |>);
  match updated with
  | [] => notFound "HOST_SETUP_NOT_PENDING"
  | setup :: _ =>
      audit_setup "host.setup.regenerated" id None None (Some (actor_id actor)) (actor_email actor)
        (context_sourceIp context) (context_userAgent context);;
      mret {| hcreated_view := view (unresolved_setup setup) now_; hcreated_ticket := ticket |}
  end.

(** [host_setups LEFT JOIN agent_enrollment_tokens LEFT JOIN agents LEFT JOIN hosts] *)
Definition resolved (d : DB) (setup : HostSetup) : ResolvedSetup :=
  let token := setup_enrollmentTokenId setup ≫= λ i, agentEnrollmentTokens d !! i in
  let agent := (token ≫= etoken_consumedByAgentId) ≫= λ i, agents d !! i in
  let host := agent ≫= λ a, hosts d !! agent_hostId a in {|
    resolved_setup := setup; resolved_agentId := agent_id <$> agent;
    resolved_agentStatus := agent_status <$> agent; resolved_hostId := agent_hostId <$> agent;
    resolved_os := host ≫= host_os |}.

(** [orderBy(desc(createdAt))] *)
Definition setup_later (a b : HostSetup) : Prop := (setup_createdAt b <= setup_createdAt a)%Z.
#[global] Instance setup_later_dec : RelDecision setup_later.
Proof. intros a b. unfold setup_later. apply _. Defined.

(** An empty id asks for every setup, as no id does. *)
Definition resolve (id : option string) : M (list ResolvedSetup) :=
  statement (λ d, inr (resolved d <$>
    match or_truthy id None with
    | Some id => option_list (hostSetups d !! id)
    | None => take 100 (merge_sort setup_later (all_rows d))
    end, d)).

Definition resolveAndSettle (id : string) : M HostSetupView :=
  rows_ ← resolve (Some id);
  match rows_ with
  | [] => notFound "HOST_SETUP_NOT_FOUND"
  | row :: _ =>
      now_ ← now;
      if negb (isComplete row) || bool_decide (setup_completedAt (resolved_setup row) ≠ None)
      then mret (view row now_)
      else
        settled ← update (λ s : HostSetup, bool_decide (setup_id s = id) && bool_decide (setup_completedAt s = None))
          (λ s, s <| setup_agentId := resolved_agentId row |> <| setup_hostId := resolved_hostId row |>
                  <| setup_completedAt := Some now_ |>);
        match settled with
        | [] => mret (view row now_)
        | settled :: _ =>
            match or_truthy (setup_displayName settled) None, or_truthy (resolved_hostId row) None with
            | Some name, Some hostId => update_id (R := Host) hostId (λ h, h <| host_displayName := Some name |>);; mret tt
            | _, _ => mret tt
            end;;
            audit_setup "host.setup.completed" id (setup_displayName settled) (resolved_agentId row) None
              "host-setup" None None;;
            mret (view {| resolved_setup := settled; resolved_agentId := resolved_agentId row;
                          resolved_agentStatus := resolved_agentStatus row;
                          resolved_hostId := resolved_hostId row; resolved_os := resolved_os row |} now_)
        end
  end.

Definition cancel (id : string) (actor : AuthenticatedUser) (context : RequestContext) : M HostSetupView :=
  now_ ← now;
  rows_ ← update (λ s : HostSetup, bool_decide (setup_id s = id) && bool_decide (setup_cancelledAt s = None))
    (λ s, s <| setup_cancelledAt := Some now_ |> <| setup_cancelledBy := Some (actor_id actor) |>);
  match rows_ with
  | [] => notFound "HOST_SETUP_NOT_FOUND"
  | setup :: _ =>
      audit_setup "host.setup.cancelled" id None None (Some (actor_id actor)) (actor_email actor)
        (context_sourceIp context) (context_userAgent context);;
      resolveAndSettle (setup_id setup)
  end.

Definition list_setups : M (list HostSetupView) :=
  rows_ ← resolve None;
  at_ ← now;
  mret ((λ row, view row at_) <$> rows_).

Definition get (id : string) : M HostSetupView := resolveAndSettle id.

(** A ticket that can be spent now. *)
Definition spendable (digest : string) (at_ : time) (s : HostSetup) : bool :=
  bool_decide (setup_ticketHash s = digest) && bool_decide (setup_ticketConsumedAt s = None) &&
  bool_decide (setup_cancelledAt s = None) && (at_ <? setup_ticketExpiresAt s)%Z.

Definition consumeTicket (ticket : string) (sourceIp : option string) : M Bootstrapped :=
  let digest := hashSecret ticket in
  now_ ← now;
  claimed ← update (spendable digest now_) (λ s, s <| setup_ticketConsumedAt := Some now_ |>);
  match claimed with
  | [setup] =>
      token ← createToken (setup_createdBy setup) "host-setup" (setup_displayName setup) sourceIp None;
      update_id (R := HostSetup) (setup_id setup) (λ s, s <| setup_enrollmentTokenId := Some (created_id token) |>);;
      audit_setup "host.setup.bootstrapped" (setup_id setup) (setup_displayName setup) None None "host-setup"
        sourceIp None;;
      mret {| boot_setupId := setup_id setup; boot_displayName := setup_displayName setup;
              boot_enrollmentToken := created_token token |}
  | _ => unauthorized "HOST_SETUP_TICKET_INVALID"
  end.
End setups.

(** ** A ticket is spent once *)

Section tickets.
Context `{Credentials} `{Authority} `{SetupConfig}.

(** What was spent, cancelled or completed stays so, and a ticket that was spent is not replaced. *)
Definition proceeds (s s' : HostSetup) : Prop :=
  setup_id s' = setup_id s ∧
  (setup_ticketConsumedAt s ≠ None →
     setup_ticketConsumedAt s' = setup_ticketConsumedAt s ∧ setup_ticketHash s' = setup_ticketHash s) ∧
  (setup_cancelledAt s ≠ None → setup_cancelledAt s' = setup_cancelledAt s) ∧
  (setup_completedAt s ≠ None → setup_completedAt s' = setup_completedAt s).

#[export] Instance proceeds_preorder : PreOrder proceeds.
Proof.
  split; unfold proceeds; [done|]. intros s1 s2 s3 (I1 & T1 & C1 & D1) (I2 & T2 & C2 & D2).
  split_and!; [congruence|intros Hn..].
  - destruct (T1 Hn) as [Ea Eb]. destruct T2 as [Ec Ed]; [by rewrite Ea|]. split; congruence.
  - rewrite C2, C1; [done|done|]. by rewrite C1.
  - rewrite D2, D1; [done|done|]. by rewrite D1.
Qed.

Lemma setup_named d i s : db_ok d → hostSetups d !! i = Some s → setup_id s = i.
Proof. exact (@row_named HostSetup _ _ d i s). Qed.

Lemma setup_unique d i j a b :
  db_ok d → hostSetups d !! i = Some a → hostSetups d !! j = Some b →
  setup_ticketHash a = setup_ticketHash b → i = j.
Proof.
  intros Hok Ha Hb E. eapply (unique_row (R := HostSetup) "host_setups_ticket_hash_unique" _ d);
    [done|by left|exact Ha|exact Hb|done|]. simpl. by rewrite E.
Qed.

Lemma spendable_true digest at_ s :
  spendable digest at_ s = true ↔ setup_ticketHash s = digest ∧ setup_ticketConsumedAt s = None ∧
    setup_cancelledAt s = None ∧ (at_ < setup_ticketExpiresAt s)%Z.
Proof. unfold spendable. rewrite !andb_true_iff, !bool_decide_eq_true, Z.ltb_lt. naive_solver. Qed.

#[local] Hint Extern 2 (framed (on_db (evolves proceeds)) (update (R := HostSetup) _ _)) =>
  apply framed_update_evolves; [apply _|intros ? Hp; unfold spendable in Hp;
    rewrite ?andb_true_iff, ?bool_decide_eq_true in Hp; unfold proceeds; simpl; naive_solver] : frames.
#[local] Hint Extern 2 (framed (on_db (evolves proceeds)) (update_id (R := HostSetup) _ _)) =>
  apply framed_update_id_evolves; [apply _|intros; unfold proceeds; simpl; naive_solver] : frames.

(** Everything people and machines can do about setups; an agent also comes, goes and
    says what its host is. *)
Inductive SetupEvent :=
  | Create_setup (actor : AuthenticatedUser) (displayName : option string) (context : RequestContext)
  | Regenerate (id : string) (actor : AuthenticatedUser) (context : RequestContext)
  | Cancel (id : string) (actor : AuthenticatedUser) (context : RequestContext)
  | Get (id : string)
  | Consume (ticket : string) (sourceIp : option string)
  | Report (agentId : string) (status : AgentStatus) (hostId : string) (os : option string)
  | Token (e : TokenEvent).

Definition setup_event (e : SetupEvent) : M unit :=
  match e with
  | Create_setup actor displayName context => create actor displayName context;; mret tt
  | Regenerate id actor context => regenerate id actor context;; mret tt
  | Cancel id actor context => cancel id actor context;; mret tt
  | Get id => get id;; mret tt
  | Consume ticket sourceIp => consumeTicket ticket sourceIp;; mret tt
  | Report agentId status hostId os =>
      update_id (R := Agent) agentId (λ a, a <| agent_status := status |>);;
      update_id (R := Host) hostId (λ h, h <| host_os := os |>);; mret tt
  | Token e => token_event e
  end.

Definition setup_run (es : list SetupEvent) (w : World) : World := foldl (λ w e, (setup_event e w).2) w es.

Ltac setups_unfold := unfold create, regenerate, cancel, get, consumeTicket, resolveAndSettle, resolve,
  audit_setup, createToken, revokeToken, enroll, assertCsrAcceptable, claimToken, issueForClaimedToken,
  createIdentity, issueCertificate, replaceCertificate, audit_enrollment.

Lemma wait_framed P `{!PreOrder P} ms : framed (on_db P) (wait ms).
Proof. intros w. unfold on_db. simpl. reflexivity. Qed.
#[local] Hint Resolve wait_framed : frames.

Lemma setup_event_proceeds e : framed (on_db (evolves proceeds)) (setup_event e).
Proof. destruct e as [| | | | | |[]]; simpl; setups_unfold; frame. Qed.

Lemma setup_event_ok e : framed (on_db keeps_db_ok) (setup_event e).
Proof. destruct e as [| | | | | |[]]; simpl; setups_unfold; frame. Qed.

Lemma setup_run_framed P `{!PreOrder P} es w :
  (∀ e, framed (on_db P) (setup_event e)) → P (w_db w) (w_db (setup_run es w)).
Proof.
  intros HP. unfold setup_run. revert w. induction es as [|e es IH]; intros w; simpl; [reflexivity|].
  etrans; [apply (HP e w)|apply IH].
Qed.

(** What spending a ticket found, and where it got to. *)
Lemma consumeTicket_inr ticket sourceIp w res w' :
  db_ok (w_db w) → consumeTicket ticket sourceIp w = (inr res, w') →
  ∃ s w1, hostSetups (w_db w) !! boot_setupId res = Some s ∧
    spendable (hashSecret ticket) (w_now w) s = true ∧ w_now w1 = w_now w ∧
    w_db w1 = (w_db w) <| hostSetups :=
      alter (λ s, s <| setup_ticketConsumedAt := Some (w_now w) |>) (boot_setupId res) (hostSetups (w_db w)) |> ∧
    (token ← createToken (setup_createdBy s) "host-setup" (setup_displayName s) sourceIp None;
     update_id (R := HostSetup) (setup_id s) (λ s, s <| setup_enrollmentTokenId := Some (created_id token) |>);;
     audit_setup "host.setup.bootstrapped" (setup_id s) (setup_displayName s) None None "host-setup" sourceIp None;;
     mret {| boot_setupId := setup_id s; boot_displayName := setup_displayName s;
             boot_enrollmentToken := created_token token |}) w1 = (inr res, w').
Proof.
  intros Hok E. unfold consumeTicket in E. apply bind_inr in E as (a & w1 & [-> ->]%now_inr & E).
  apply bind_inr in E as (l & w1 & [-> [fs ->]]%update_inr & E).
  set (p := spendable (hashSecret ticket) (w_now w)) in *.
  destruct (select_where p (w_db w)) as [|s [|s' l]] eqn:El; simpl in E; [done| |done].
  assert (Hs : s ∈ select_where p (w_db w)) by (rewrite El; by left).
  apply elem_of_select_where in Hs as [[i Hi] Hp].
  assert (Hone : ∀ j x, hostSetups (w_db w) !! j = Some x → p x = true → j = i).
  { intros j x Hj Hx. apply spendable_true in Hp as (Hh & _), Hx as (Hh' & _).
    eapply setup_unique; [done|done|exact Hi|congruence]. }
  rewrite (change_rows_one p _ (hostSetups (w_db w)) i s Hi Hp Hone) in E.
  assert (boot_setupId res = i) as ->.
  { rewrite <-(setup_named _ i s Hok Hi). clear -E. apply bind_inr in E as (t & w2 & _ & E).
    apply bind_inr in E as (x & w3 & _ & E). by apply bind_inr in E as (y & w4 & _ & [-> _]%ret_inr). }
  exists s. eexists. split; [exact Hi|]. split; [exact Hp|]. split; [|split; [|exact E]]; done.
Qed.

(** C28: the ticket of a setup lets one machine in: once it was spent no sequence of setups,
    new tickets, cancellations, enrollments and waiting makes spending it again
    succeed. *)
Theorem ticket_single_use es ticket sourceIp ticket' sourceIp' w res w1 res' w' :
  db_ok (w_db w) → consumeTicket ticket sourceIp w = (inr res, w1) →
  hashSecret ticket' = hashSecret ticket →
  consumeTicket ticket' sourceIp' (setup_run es w1) ≠ (inr res', w').
Proof.
  intros Hok E Hh E'. pose proof (setup_event_ok (Consume ticket sourceIp) w Hok) as Hok1.
  assert (Hd1 : w_db (setup_event (Consume ticket sourceIp) w).2 = w_db w1).
  { simpl. unfold mbind, M_bind. by rewrite E. }
  rewrite Hd1 in Hok1. clear Hd1.
  pose proof (setup_run_framed keeps_db_ok es w1 setup_event_ok Hok1) as Hok2.
  apply consumeTicket_inr in E as (s & w0 & Hi & Hp & _ & Ew & E); [|done].
  apply consumeTicket_inr in E' as (s' & w2 & Hj & Hp' & _); [|done].
  apply spendable_true in Hp as (Hs & _), Hp' as (Hs' & Hc' & _).
  assert (Hw0 : hostSetups (w_db w0) !! boot_setupId res = Some (s <| setup_ticketConsumedAt := Some (w_now w) |>)).
  { rewrite Ew. simpl. by rewrite lookup_alter_eq, Hi. }
  assert (Hf : evolves proceeds (w_db w0) (w_db w1)).
  { eapply (framed_db (evolves proceeds)); [|reflexivity|exact E]. unfold createToken, audit_setup. frame. }
  destruct (Hf _ _ Hw0) as (t1 & Hw1 & _ & Ht1 & _).
  destruct (setup_run_framed (evolves proceeds) es w1 setup_event_proceeds _ t1 Hw1) as (t2 & Hw2 & _ & Ht2 & _).
  destruct Ht1 as [Hc1 Hh1]; [done|]. destruct Ht2 as [Hc2 Hh2]; [by rewrite Hc1|]. simpl in *.
  assert (boot_setupId res = boot_setupId res') as Heq.
  { eapply setup_unique; [exact Hok2|exact Hw2|exact Hj|congruence]. }
  rewrite <-Heq, Hw2 in Hj. simplify_eq. congruence.
Qed.

(** *** What the machine is given *)

Lemma audit_same {T} (π : DB → T) entry w r w' :
  (∀ d, π d = π (unaudited d)) → audit_record entry w = (r, w') → π (w_db w') = π (w_db w).
Proof.
  intros Hπ E. rewrite (Hπ (w_db w')), (Hπ (w_db w)). f_equal.
  exact (framed_db (unchanged unaudited) _ _ _ _ _ (audit_record_unaudited entry) eq_refl E).
Qed.

Lemma createToken_inr actorId email intended sourceIp userAgent w token w' :
  createToken actorId email intended sourceIp userAgent w = (inr token, w') →
  agentEnrollmentTokens (w_db w') !! created_id token =
    Some (new_token (created_id token) (created_token token) actorId intended (w_now w)) ∧
  hostSetups (w_db w') = hostSetups (w_db w).
Proof.
  intros E. split.
  2: { eapply (framed_run (on_db (unchanged hostSetups))); [|exact E]. unfold createToken. frame. }
  unfold createToken in E. apply bind_inr in E as (t & w1 & E1 & E). unfold generateSecret in E1. simplify_eq.
  apply bind_inr in E as (a & w2 & [-> ->]%now_inr & E). apply bind_inr in E as (i & w3 & E3 & E).
  unfold randomUUID in E3. simplify_eq. apply bind_inr in E as (u & w4 & [_ [fs ->]]%insert_inr & E).
  apply bind_inr in E as (v & w5 & E5 & [-> ->]%ret_inr).
  apply (audit_same agentEnrollmentTokens) in E5; [|done].
  rewrite E5. simpl. apply lookup_insert_eq.
Qed.

(** A token of the database is what presenting it finds. *)
Lemma claim_answer_fresh d i token actorId intended at_ now_ :
  db_ok d → agentEnrollmentTokens d !! i = Some (new_token i token actorId intended at_) →
  (now_ < at_ + AGENT_ENROLLMENT_TTL * 1000)%Z → claim_answer d now_ token = inr i.
Proof.
  intros Hok Hi Hx. unfold claim_answer.
  rewrite (@select_where_one EnrollmentToken agentEnrollmentTokens_table agentEnrollmentTokens_laws _ _ i _ Hok Hi).
  - simpl. by rewrite (proj2 (Z.leb_gt _ _)) by done.
  - by apply bool_decide_eq_true.
  - intros j x Hj Hh%bool_decide_eq_true. by eapply token_unique.
Qed.

(** A ticket is worth an enrollment: the machine that spends it is given a token that,
    until it expires, is accepted for enrolling, and the setup is linked to that
    token, so that what is made of it shows in the setup. *)
Theorem ticket_buys_enrollment ticket sourceIp w res w' :
  db_ok (w_db w) → consumeTicket ticket sourceIp w = (inr res, w') →
  ∃ s tokenId, hostSetups (w_db w') !! boot_setupId res = Some s ∧
    setup_ticketConsumedAt s = Some (w_now w) ∧ setup_enrollmentTokenId s = Some tokenId ∧
    ∀ at_, (at_ < w_now w + AGENT_ENROLLMENT_TTL * 1000)%Z →
      claim_answer (w_db w') at_ (boot_enrollmentToken res) = inr tokenId.
Proof.
  intros Hok E. assert (Hok' : db_ok (w_db w')).
  { pose proof (setup_event_ok (Consume ticket sourceIp) w Hok) as Hk. simpl in Hk. unfold mbind, M_bind in Hk.
    by rewrite E in Hk. }
  apply consumeTicket_inr in E as (s & w1 & Hi & Hp & Hn & Ew & E); [|done].
  apply bind_inr in E as (token & w2 & Et & E). apply createToken_inr in Et as [Ht Hs].
  apply bind_inr in E as (l & w3 & [_ [fs ->]]%update_inr & E).
  apply bind_inr in E as (u & w4 & Ea & [-> ->]%ret_inr). simpl in *.
  pose proof (audit_same hostSetups _ _ _ _ (λ _, eq_refl) Ea) as E1.
  pose proof (audit_same agentEnrollmentTokens _ _ _ _ (λ _, eq_refl) Ea) as E2. simpl in E1, E2. rewrite E1, lookup_change_rows, Hs, Ew. simpl.
  rewrite lookup_alter_eq, Hi. simpl. rewrite bool_decide_eq_true_2 by done. eexists _, _. split; [done|].
  split; [done|]. split; [done|]. intros at_ Hx. eapply claim_answer_fresh; [done| |].
  - rewrite E2, Ht. done.
  - by rewrite Hn.
Qed.

(** *** A setup is completed once *)

Definition SETUP_COMPLETED : string := "host.setup.completed".

(** The entry of the trail that says a setup was completed. *)
Definition completion (id : string) (e : AuditEntry) : Prop :=
  audit_action e = SETUP_COMPLETED ∧ audit_targetId e = Some id.

(** Of every setup the trail says at most once that it was completed, and then it was. *)
Definition once (d : DB) : Prop := ∀ id i e, auditEntries d !! i = Some e → completion id e →
  (∃ s, hostSetups d !! id = Some s ∧ setup_completedAt s ≠ None) ∧
  ∀ j e', auditEntries d !! j = Some e' → completion id e' → j = i.

(** Nothing is added to the trail about completions. *)
Definition quiet_trail : relation DB := λ d d', ∀ i e,
  auditEntries d' !! i = Some e → auditEntries d !! i = Some e ∨ audit_action e ≠ SETUP_COMPLETED.

#[export] Instance quiet_trail_preorder : PreOrder quiet_trail.
Proof.
  split; unfold quiet_trail; [by left|]. intros d1 d2 d3 H12 H23 i e Hi.
  destruct (H23 i e Hi) as [Hm|]; [|by right]. by apply H12.
Qed.

Lemma framed_quiet_same {A} (m : M A) :
  framed (on_db (unchanged auditEntries)) m → framed (on_db quiet_trail) m.
Proof. intros Hm w i e Hi. rewrite (Hm w) in Hi. by left. Qed.

Lemma audit_quiet entry : entry_action entry ≠ SETUP_COMPLETED → framed (on_db quiet_trail) (audit_record entry).
Proof.
  intros Hne. unfold audit_record. frame. apply framed_insert; [apply _|]. intros d _ _ i e Hi. simpl in Hi.
  apply lookup_insert_Some in Hi as [[<- <-]|[_ Hi]]; [by right|by left].
Qed.

Lemma quiet_once d d' : evolves proceeds d d' → quiet_trail d d' → once d → once d'.
Proof.
  intros Hev Hq Ho id i e Hi Hc. destruct (Hq i e Hi) as [Hi0|Hne]; [|by destruct Hc].
  destruct (Ho id i e Hi0 Hc) as [(s & Hs & Hd) Huniq]. split.
  - destruct (Hev id s Hs) as (s' & Hs' & _ & _ & _ & Hp). exists s'. split; [exact Hs'|]. by rewrite Hp.
  - intros j e' Hj Hc'. destruct (Hq j e' Hj) as [Hj0|Hne]; [by eapply Huniq|by destruct Hc'].
Qed.

#[local] Hint Extern 2 (framed (on_db quiet_trail) (audit_record _)) =>
  apply audit_quiet; intros ?; discriminate : frames.
#[local] Hint Extern 3 (framed (on_db quiet_trail) _) => apply framed_quiet_same; solve [frame] : frames.

(** Settling is quiet, or writes the one entry of a setup that had none. *)
Lemma resolveAndSettle_trail id w r w' :
  db_ok (w_db w) → resolveAndSettle id w = (r, w') →
  quiet_trail (w_db w) (w_db w') ∨
  ∃ s s' k e, hostSetups (w_db w) !! id = Some s ∧ setup_completedAt s = None ∧
    hostSetups (w_db w') !! id = Some s' ∧ setup_completedAt s' ≠ None ∧ completion id e ∧
    auditEntries (w_db w') = <[k := e]> (auditEntries (w_db w)).
Proof.
  intros Hok E. unfold resolveAndSettle in E. apply bind_cases in E as [(e & _ & E)|(row & w1 & E1 & E)].
  { left. eapply (framed_db quiet_trail); [|reflexivity|exact E]. unfold resolve. frame. }
  apply read_inr in E1 as [-> [fs ->]]. destruct (_ <$> _) as [|row rows_].
  { left. eapply (framed_db quiet_trail); [| |exact E]; [frame|reflexivity]. }
  apply bind_cases in E as [(e & _ & E)|(a & w1 & [-> ->]%now_inr & E)]; [done|].
  destruct (_ || _). { left. eapply (framed_db quiet_trail); [| |exact E]; [frame|reflexivity]. }
  apply bind_cases in E as [(e & _ & E)|(l & w1 & [-> [gs ->]]%update_inr & E)].
  { left. eapply (framed_db quiet_trail); [| |exact E]; [frame|reflexivity]. }
  set (p := λ s : HostSetup, bool_decide (setup_id s = id) && bool_decide (setup_completedAt s = None)) in *.
  set (f := λ s, s <| setup_agentId := resolved_agentId row |> <| setup_hostId := resolved_hostId row |>
                   <| setup_completedAt := Some (w_now (w <| w_faults := fs |>)) |>) in *. simpl in E.
  destruct (select_where p (w_db w)) as [|s l] eqn:El; simpl in E.
  { left. unfold mret, M_ret in E. simplify_eq. by left. }
  assert (Hs : s ∈ select_where p (w_db w)) by (rewrite El; by left).
  apply elem_of_select_where in Hs as [[i Hi] Hp]. pose proof Hp as Hp'.
  unfold p in Hp'. apply andb_true_iff in Hp' as [Hid%bool_decide_eq_true Hn%bool_decide_eq_true].
  simpl in Hi. rewrite (setup_named _ i s Hok Hi) in Hid. subst i.
  assert (Hs1 : change_rows p f (hostSetups (w_db w)) !! id = Some (f s)).
  { rewrite lookup_change_rows, Hi. simpl. by rewrite Hp. }
  match type of E with (?m ≫= ?g) ?w0 = _ => set (w0' := w0) in E;
    assert (Hm : framed (on_db (unchanged (λ d, (hostSetups d, auditEntries d)))) m) by (frame) end.
  apply bind_cases in E as [(e & _ & E)|([] & w2 & E2 & E)].
  { left. apply (framed_db _ _ _ _ _ _ Hm eq_refl) in E. injection E as _ Ea. intros j x Hj. rewrite Ea in Hj. by left. }
  apply (framed_db _ _ _ _ _ _ Hm eq_refl) in E2. injection E2 as Es Ea. simpl in Es, Ea.
  apply bind_cases in E as [(e & _ & E)|([] & w3 & E3 & E)].
  { left. unfold audit_setup, audit_record in E. apply bind_cases in E as [(e0 & _ & E)|(k & w4 & E4 & E)]; [done|].
    unfold randomUUID in E4. simplify_eq. apply bind_cases in E as [(e0 & _ & E)|(x & w4 & E4 & E)]; [done|].
    unfold world in E4. simplify_eq. unfold insert_into, statement in E.
    assert (Hd : w_db w' = w_db w2).
    { destruct (next_fault _); [by simplify_eq|]. repeat case_match; by simplify_eq. }
    intros j y Hj. rewrite Hd, Ea in Hj. by left. }
  right. unfold mret, M_ret in E. simplify_eq. unfold audit_setup, audit_record in E3.
  apply bind_inr in E3 as (k & w4 & E4 & E). unfold randomUUID in E4. simplify_eq.
  apply bind_inr in E as (x & w4 & E4 & E). unfold world in E4. simplify_eq.
  apply insert_inr in E as [_ [hs ->]]. simpl. rewrite Ea, Es. exists s, (f s). eexists _, _.
  split_and!; [exact Hi|exact Hn|exact Hs1|done| |done]. by split.
Qed.

Lemma settling_once id w r w' :
  db_ok (w_db w) → once (w_db w) → resolveAndSettle id w = (r, w') → once (w_db w').
Proof.
  intros Hok Ho E. assert (Hev : evolves proceeds (w_db w) (w_db w')).
  { eapply (framed_db (evolves proceeds)); [|reflexivity|exact E]. setups_unfold. frame. }
  destruct (resolveAndSettle_trail id w r w' Hok E)
    as [Hq|(s & s' & k & e & Hs & Hn & Hs' & Hd & He & Ea)]; [by eapply quiet_once|].
  assert (Hnew : ∀ j x, auditEntries (w_db w) !! j = Some x → ¬ completion id x).
  { intros j x Hj Hx. destruct (Ho id j x Hj Hx) as [(t & Ht & Htd) _]. congruence. }
  intros i j x Hj Hx. rewrite Ea in Hj. destruct He as [Hact Htgt].
  apply lookup_insert_Some in Hj as [[<- <-]|[Hkj Hj]].
  - destruct Hx as [_ Hx]. rewrite Htgt in Hx. injection Hx as <-. split; [by exists s'|].
    intros j y Hj Hy. rewrite Ea in Hj. apply lookup_insert_Some in Hj as [[<- _]|[_ Hj]]; [done|].
    by destruct (Hnew j y Hj).
  - assert (Hne : i ≠ id) by (intros ->; by destruct (Hnew j x Hj)).
    destruct (Ho i j x Hj Hx) as [(t & Ht & Htd) Huniq]. split.
    + destruct (Hev i t Ht) as (t' & Ht' & _ & _ & _ & Hp). exists t'. split; [exact Ht'|]. by rewrite Hp.
    + intros l y Hl Hy. rewrite Ea in Hl. apply lookup_insert_Some in Hl as [[_ <-]|[_ Hl]]; [|by eapply Huniq].
      destruct Hy as [_ Hy]. congruence.
Qed.

(** *** Every event keeps it *)

Definition keeps_once : relation DB := λ d d', db_ok d → once d → db_ok d' ∧ once d'.

#[export] Instance keeps_once_preorder : PreOrder keeps_once.
Proof. split; unfold keeps_once; [done|]. intros d1 d2 d3 H12 H23 Hok Ho. destruct (H12 Hok Ho). by apply H23. Qed.

Lemma framed_keeps_once {A} (m : M A) :
  framed (on_db (evolves proceeds)) m → framed (on_db quiet_trail) m → framed (on_db keeps_db_ok) m →
  framed (on_db keeps_once) m.
Proof. intros Hev Hq Hk w Hok Ho. split; [by apply Hk|]. eapply quiet_once; [apply Hev|apply Hq|done]. Qed.

Lemma resolveAndSettle_once id : framed (on_db keeps_once) (resolveAndSettle id).
Proof.
  intros w Hok Ho. destruct (resolveAndSettle id w) as [r w'] eqn:E. simpl. split; [|by eapply settling_once].
  revert Hok. eapply (framed_db keeps_db_ok); [|reflexivity|exact E]. setups_unfold. frame.
Qed.

#[local] Hint Resolve resolveAndSettle_once : frames.
#[local] Hint Extern 4 (framed (on_db keeps_once) _) => apply framed_keeps_once; solve [frame] : frames.

Lemma setup_event_once e : framed (on_db keeps_once) (setup_event e).
Proof.
  destruct e as [| | | | | |[]]; simpl; [| |unfold cancel, audit_setup; frame|unfold get; frame|..].
  all: apply framed_keeps_once; setups_unfold; frame.
Qed.

(** However often a setup is polled, by however many, and whatever else happens, the trail
    says at most once that it was completed, and only of a setup that was; nothing
    takes the completion back. *)
Theorem setup_completed_once es w :
  db_ok (w_db w) → once (w_db w) → once (w_db (setup_run es w)).
Proof.
  intros Hok Ho. by apply (setup_run_framed keeps_once es w setup_event_once).
Qed.
End tickets.

(** *** A host is added *)

#[export] Instance example_setup_config : SetupConfig := 900%Z.

(** A setup that was made, its command not run yet. *)
Definition offered : World := introduced <| w_db := (w_db introduced) <| hostSetups :=
  {["h1" := new_setup "h1" (Some "Web server") "u1" "ticket" 0%Z]} |> |>.

Lemma offered_ok : db_ok (w_db offered).
Proof. apply db_okb_true. by vm_compute. Qed.

Definition bootstrap_of (w : World) : option Bootstrapped :=
  match (consumeTicket "ticket" None w).1 with inr res => Some res | inl _ => None end.

Lemma ticket_single_use_witness :
  let w1 := (consumeTicket "ticket" None offered).2 in
  let later := setup_run [Cancel "h1" administrator from_browser; Regenerate "h1" administrator from_browser;
                          Token (Elapse 5)] w1 in
  match bootstrap_of offered with
  | Some res => consumeTicket "ticket" (Some "10.0.0.9") later ≠ (inr res, later)
  | None => False
  end.
Proof.
  cbv zeta. unfold bootstrap_of. destruct (consumeTicket "ticket" None offered) as [r w1] eqn:E. cbn [fst snd].
  assert (Hr : match (consumeTicket "ticket" None offered).1 with inr _ => True | _ => False end)
    by (vm_compute; exact I).
  rewrite E in Hr. cbn [fst] in Hr. destruct r as [e|res]; [destruct Hr|]. clear Hr.
  apply (ticket_single_use _ "ticket" None "ticket" (Some "10.0.0.9") offered res w1 res);
    [exact offered_ok|exact E|reflexivity].
Defined.

Lemma ticket_buys_enrollment_witness :
  let w1 := (consumeTicket "ticket" None offered).2 in
  match bootstrap_of offered with
  | Some res => ∃ tokenId, claim_answer (w_db w1) 1000%Z (boot_enrollmentToken res) = inr tokenId
  | None => False
  end.
Proof.
  cbv zeta. unfold bootstrap_of. destruct (consumeTicket "ticket" None offered) as [r w1] eqn:E. cbn [fst snd].
  assert (Hr : match (consumeTicket "ticket" None offered).1 with inr _ => True | _ => False end)
    by (vm_compute; exact I).
  rewrite E in Hr. cbn [fst] in Hr. destruct r as [e|res]; [destruct Hr|]. clear Hr.
  destruct (ticket_buys_enrollment _ _ _ _ _ offered_ok E) as (s & tokenId & _ & _ & _ & Hc). clear E.
  exists tokenId. apply Hc. vm_compute. reflexivity.
Defined.

(** From the command to the completed setup: the machine spends the ticket, enrolls with the
    token it is given, connects and says what it is, and the operator looks, twice.
    [meanwhile] happens once the ticket was spent. *)
Definition story_with (meanwhile : list SetupEvent) : list SetupEvent :=
  match bootstrap_of offered with
  | Some res =>
      let enrolling := {| enroll_token := boot_enrollmentToken res; enroll_csrPem := "csr";
        enroll_agentVersion := None; enroll_protocolVersion := 1; enroll_declaredHostname := Some "box";
        enroll_sourceIp := None |} in
      let enrolled := Consume "ticket" None :: meanwhile ++ [Token (Enroll enrolling)] in
      match filter (λ a, agent_status a.2 ≠ Agent_connected) (map_to_list (agents (w_db (setup_run enrolled offered)))) with
      | (agentId, a) :: _ =>
          enrolled ++ [Report agentId Agent_connected (agent_hostId a) (Some "linux"); Get "h1"; Get "h1"]
      | [] => []
      end
  | None => []
  end.

Definition story : list SetupEvent := story_with [].

Definition statuses (w : World) : list (option HostSetupStatus) :=
  (λ es, match (get "h1" (setup_run es w)).1 with inr v => Some (hview_status v) | inl _ => None end) <$> ((λ n, take n story) <$> seq 0 6).

(** What the operator sees before each step and after the last. *)
Example story_shows :
  statuses offered = [Some waiting; Some installing; Some installing; Some connected; Some connected; Some connected] ∧
  (host_displayName <$> hosts (w_db (setup_run story offered)) !! uuid 105) = Some (Some "Web server").
Proof. vm_compute. auto. Qed.

Lemma offered_once : once (w_db offered).
Proof.
  assert (Hall : map_Forall (λ _ e, audit_action e ≠ SETUP_COMPLETED) (auditEntries (w_db offered))).
  { apply (bool_decide_unpack _). vm_compute. exact I. }
  intros id i e Hi [Ha _]. by destruct (Hall i e Hi).
Qed.

Lemma setup_completed_once_witness :
  once (w_db (setup_run story offered)) ∧
  length (filter (λ e, audit_action e.2 = SETUP_COMPLETED) (map_to_list (auditEntries (w_db (setup_run story offered))))) = 1.
Proof.
  split; [|vm_compute; reflexivity]. apply (setup_completed_once story offered); [exact offered_ok|exact offered_once].
Defined.

(** *** Where the comments say otherwise *)

(** A setup whose command was run is shown as being installed for ever: it never expires. *)
Theorem installing_never_expires row at_ :
  setup_cancelledAt (resolved_setup row) = None → setup_completedAt (resolved_setup row) = None →
  isComplete row = false → setup_ticketConsumedAt (resolved_setup row) ≠ None → statusOf row at_ = installing.
Proof.
  intros Hc Hd Hn Ht. unfold statusOf. rewrite Hc, Hd, Hn. simpl. by rewrite bool_decide_eq_true_2.
Qed.

(** Cancelling a setup after its command was run does not stop the machine: the enrollment
    token it was given is still accepted, and the trail then says that the cancelled
    setup was completed. *)
Theorem cancelled_setup_completes :
  let d := w_db (setup_run (story_with [Cancel "h1" administrator from_browser]) offered) in
  map_size (hosts d) = S (map_size (hosts (w_db offered))) ∧
  ((λ s, (bool_decide (setup_cancelledAt s ≠ None), bool_decide (setup_completedAt s ≠ None))) <$> hostSetups d !! "h1")
    = Some (true, true) ∧
  length (filter (λ e, audit_action e.2 = SETUP_COMPLETED) (map_to_list (auditEntries d))) = 1.
Proof. vm_compute. auto. Qed.
