(* ===== verification/RevisionDiff.v ===== *)
(** * What changed between two revisions

    [app/src/app/features/stacks/revision-diff.ts], the comparison the web
    interface shows before a revision is applied: the lines of two Compose files
    by longest common subsequence, with the table and the walk the code has, and
    the variables of two environments without saying anything of a secret. *)

From Stdlib Require Import Ascii String NArith.
From stdpp Require Import base list strings sorting.
From S2P Require Import Prelude JsMap StackService.

(** ** Lines *)

Inductive LineKind := context | added | removed.

#[export] Instance LineKind_eq_dec : EqDecision LineKind.
Proof. solve_decision. Defined.

Record DiffLine := { line_kind : LineKind; line_text : list ascii }.

Notation Table := (list (list nat)) (only parsing).

(** [lengths[i][j]]; nothing outside the table is ever read. *)
Definition cell (t : Table) (i j : nat) : nat := default 0 (t !! i ≫= λ row, row !! j).

Definition set_cell (i j v : nat) (t : Table) : Table := alter (λ row, <[j := v]> row) i t.

Section lines.
Context (left right : list (list ascii)).

(** [Array.from({ length: left.length + 1 }, () => new Array(right.length + 1).fill(0))] *)
Definition zeros : Table := replicate (S (length left)) (replicate (S (length right)) 0).

(** What the inner assignment stores. *)
Definition best (t : Table) (index position : nat) : nat :=
  if bool_decide (left !! index = right !! position) then S (cell t (S index) (S position))
  else cell t (S index) position `max` cell t index (S position).

(** The inner loop from [n - 1] down to 0. *)
Fixpoint fill_row (index n : nat) (t : Table) : Table :=
  match n with
  | 0 => t
  | S position => fill_row index position (set_cell index position (best t index position) t)
  end.

(** The outer loop from [n - 1] down to 0. *)
Fixpoint fill (n : nat) (t : Table) : Table :=
  match n with
  | 0 => t
  | S index => fill index (fill_row index (length right) t)
  end.

Definition lengths : Table := fill (length left) zeros.

Record Walk := { walk_index : nat; walk_position : nat; walk_lines : list DiffLine }.

Definition start : Walk := {| walk_index := 0; walk_position := 0; walk_lines := [] |}.

(** One turn of the loop; [None] when its condition fails. *)
Definition walk_step (t : Table) (w : Walk) : option Walk :=
  let index := walk_index w in
  let position := walk_position w in
  match left !! index, right !! position with
  | Some a, Some b =>
      Some (if bool_decide (a = b) then
              {| walk_index := S index; walk_position := S position;
                 walk_lines := walk_lines w ++ [{| line_kind := context; line_text := a |}] |}
            else if cell t index (S position) <=? cell t (S index) position then
              {| walk_index := S index; walk_position := position;
                 walk_lines := walk_lines w ++ [{| line_kind := removed; line_text := a |}] |}
            else
              {| walk_index := index; walk_position := S position;
                 walk_lines := walk_lines w ++ [{| line_kind := added; line_text := b |}] |})
  | _, _ => None
  end.

(** The loop, for at most [fuel] turns. *)
Fixpoint walk (t : Table) (fuel : nat) (w : Walk) : option Walk :=
  match walk_step t w with
  | None => Some w
  | Some w' => match fuel with 0 => None | S fuel => walk t fuel w' end
  end.

(** The two loops that follow it. *)
Definition rest_of (w : Walk) : list DiffLine :=
  walk_lines w ++
  (Build_DiffLine removed <$> drop (walk_index w) left) ++
  (Build_DiffLine added <$> drop (walk_position w) right).

Definition diff : option (list DiffLine) :=
  rest_of <$> walk lengths (length left + length right) start.
End lines.

(** [text.split('\n')] *)
Definition newline : ascii := "010"%char.
Definition lines_of (s : string) : list (list ascii) := split_on newline (chars s).

(** [None] would be a loop that goes on; there is none ([diff_restores]). *)
Definition diffLines (before after : string) : option (list DiffLine) :=
  diff (lines_of before) (lines_of after).

(** ** The table *)

(** The length of a longest common subsequence. *)
Fixpoint lcs (l : list (list ascii)) : list (list ascii) → nat :=
  fix go r :=
    match l, r with
    | a :: l', b :: r' => if bool_decide (a = b) then S (lcs l' r') else lcs l' r `max` go r'
    | _, _ => 0
    end.

Lemma lcs_nil_l r : lcs [] r = 0.
Proof. by destruct r. Qed.

Lemma lcs_nil_r l : lcs l [] = 0.
Proof. by destruct l. Qed.

Lemma lcs_cons a l b r :
  lcs (a :: l) (b :: r) = if bool_decide (a = b) then S (lcs l r) else lcs l (b :: r) `max` lcs (a :: l) r.
Proof. done. Qed.

Lemma cell_set_eq t i j v : is_Some (t !! i ≫= λ row, row !! j) → cell (set_cell i j v t) i j = v.
Proof.
  unfold cell, set_cell. rewrite list_lookup_alter_eq. intros [x Hx].
  destruct (t !! i) as [row|]; simpl in *; [|done].
  rewrite list_lookup_insert_eq; [done|]. by eapply lookup_lt_Some.
Qed.

Lemma cell_set_ne t i j v i' j' : i ≠ i' ∨ j ≠ j' → cell (set_cell i j v t) i' j' = cell t i' j'.
Proof.
  unfold cell, set_cell. intros Hne. destruct (decide (i = i')) as [<-|Hi].
  - rewrite list_lookup_alter_eq. destruct (t !! i) as [row|]; simpl; [|done].
    rewrite list_lookup_insert_ne; [done|]. by destruct Hne.
  - by rewrite list_lookup_alter_ne.
Qed.

Section table.
Context (left right : list (list ascii)).

(** The table has its size whatever was stored. *)
Definition sized (t : Table) : Prop :=
  ∀ i j, i ≤ length left → j ≤ length right → is_Some (t !! i ≫= λ row, row !! j).

Lemma sized_zeros : sized (zeros left right).
Proof.
  intros i j Hi Hj. unfold zeros. rewrite lookup_replicate_2 by lia. cbn [mbind option_bind].
  rewrite lookup_replicate_2 by lia. by eexists.
Qed.

Lemma sized_set t i j v : sized t → sized (set_cell i j v t).
Proof.
  intros Ht i' j' Hi Hj. destruct (Ht i' j' Hi Hj) as [x Hx]. unfold set_cell.
  destruct (decide (i = i')) as [<-|Hne].
  - rewrite list_lookup_alter_eq. destruct (t !! i) as [row|]; simpl in *; [|done].
    destruct (decide (j = j')) as [<-|?].
    + rewrite list_lookup_insert_eq; [by eexists|]. by eapply lookup_lt_Some.
    + rewrite list_lookup_insert_ne; [by eexists|done].
  - rewrite list_lookup_alter_ne by done. by eexists.
Qed.

(** Cell [i, j] holds what it should. *)
Definition right_at (t : Table) (i j : nat) : Prop := cell t i j = lcs (drop i left) (drop j right).

Lemma best_right t i j :
  i < length left → j < length right →
  right_at t (S i) (S j) → right_at t (S i) j → right_at t i (S j) →
  best left right t i j = lcs (drop i left) (drop j right).
Proof.
  unfold right_at, best. intros Hi Hj H11 H10 H01.
  destruct (lookup_lt_is_Some_2 left i Hi) as [a Ha]. destruct (lookup_lt_is_Some_2 right j Hj) as [b Hb].
  rewrite Ha, Hb. rewrite (drop_S left a i Ha), (drop_S right b j Hb), lcs_cons.
  rewrite (bool_decide_ext (Some a = Some b) (a = b)) by naive_solver.
  case_bool_decide; [by rewrite H11|].
  by rewrite H10, H01, (drop_S right b j Hb), (drop_S left a i Ha).
Qed.

Lemma fill_row_right index n t :
  index < length left → n ≤ length right → sized t →
  (∀ i j, index < i → i ≤ length left → j ≤ length right → right_at t i j) →
  (∀ j, n ≤ j → j ≤ length right → right_at t index j) →
  sized (fill_row left right index n t) ∧
  ∀ i j, index ≤ i → i ≤ length left → j ≤ length right → right_at (fill_row left right index n t) i j.
Proof.
  revert t. induction n as [|n IH]; intros t Hi Hn Hsz Hbelow Hrow; simpl.
  { split; [done|]. intros i j Hle Hil Hj. destruct (decide (i = index)) as [->|]; [apply Hrow; lia|].
    apply Hbelow; lia. }
  apply IH; [done|lia|by apply sized_set| |].
  - intros i j Hlt Hil Hj. unfold right_at. rewrite cell_set_ne by (left; lia). by apply Hbelow.
  - intros j Hj Hjr. unfold right_at. destruct (decide (j = n)) as [->|Hne].
    + rewrite cell_set_eq by (apply Hsz; lia).
      apply best_right; [done|lia|apply Hbelow; lia|apply Hbelow; lia|apply Hrow; lia].
    + rewrite cell_set_ne by (right; done). apply Hrow; lia.
Qed.

Lemma fill_row_keeps index n t i j :
  n ≤ j ∨ i ≠ index → cell (fill_row left right index n t) i j = cell t i j.
Proof.
  revert t. induction n as [|n IH]; intros t Hj; simpl; [done|].
  rewrite IH by (destruct Hj; [left; lia|by right]). apply cell_set_ne. destruct Hj; [right; lia|by left].
Qed.

Lemma fill_right n t :
  n ≤ length left → sized t →
  (∀ i j, n ≤ i → i ≤ length left → j ≤ length right → right_at t i j) →
  (∀ i, cell t i (length right) = 0) →
  ∀ i j, i ≤ length left → j ≤ length right → right_at (fill left right n t) i j.
Proof.
  revert t. induction n as [|n IH]; intros t Hn Hsz Hbelow Hlast; simpl.
  { intros i j. apply Hbelow. lia. }
  destruct (fill_row_right n (length right) t) as [Hsz' Hright]; [lia|lia|done| | |].
  - intros i j Hi. apply Hbelow. lia.
  - intros j Hj Hj'. assert (j = length right) as -> by lia. unfold right_at.
    by rewrite Hlast, drop_all, lcs_nil_r.
  - apply IH; [lia|done|intros i j Hi; apply Hright; lia|].
    intros i. rewrite fill_row_keeps by (left; lia). apply Hlast.
Qed.

(** Every cell of the filled table is the length of a longest common subsequence of what is
    left of the two files. *)
Lemma lengths_right i j : i ≤ length left → j ≤ length right → right_at (lengths left right) i j.
Proof.
  assert (Hz : ∀ i j, cell (zeros left right) i j = 0).
  { intros i' j'. unfold cell, zeros. destruct (replicate _ _ !! i') as [row|] eqn:E; [|done].
    apply lookup_replicate in E as [-> _]. cbn [mbind option_bind].
    destruct (replicate _ _ !! j') as [x|] eqn:E; [|done]. by apply lookup_replicate in E as [-> _]. }
  apply fill_right; [lia|apply sized_zeros| |done].
  intros i' j' Hi Hi' Hj. unfold right_at. rewrite Hz. assert (i' = length left) as -> by lia. by rewrite drop_all, lcs_nil_l.
Qed.
End table.

(** ** The walk *)

Section walking.
Context (left right : list (list ascii)).

(** What the lines say the first and the second file were. *)
Definition is_before (d : DiffLine) : bool := bool_decide (line_kind d ≠ added).
Definition is_after (d : DiffLine) : bool := bool_decide (line_kind d ≠ removed).
Definition before_lines (ds : list DiffLine) : list (list ascii) := line_text <$> List.filter is_before ds.
Definition after_lines (ds : list DiffLine) : list (list ascii) := line_text <$> List.filter is_after ds.

(** How many lines the two files share, and how many were changed. *)
Definition is_context (d : DiffLine) : bool := bool_decide (line_kind d = context).
Definition shared (ds : list DiffLine) : nat := length (List.filter is_context ds).
Definition changed (ds : list DiffLine) : nat := length (List.filter (λ d, negb (is_context d)) ds).

(** What the loop keeps: the lines so far are those of what it has read, and with the best
    that can be had of the rest they share as many as can be shared. *)
Definition walking (w : Walk) : Prop :=
  walk_index w ≤ length left ∧ walk_position w ≤ length right ∧
  before_lines (walk_lines w) = take (walk_index w) left ∧
  after_lines (walk_lines w) = take (walk_position w) right ∧
  shared (walk_lines w) + lcs (drop (walk_index w) left) (drop (walk_position w) right) = lcs left right.

Lemma before_app ds ds' : before_lines (ds ++ ds') = before_lines ds ++ before_lines ds'.
Proof. unfold before_lines. by rewrite List.filter_app, fmap_app. Qed.
Lemma after_app ds ds' : after_lines (ds ++ ds') = after_lines ds ++ after_lines ds'.
Proof. unfold after_lines. by rewrite List.filter_app, fmap_app. Qed.
Lemma shared_app ds ds' : shared (ds ++ ds') = shared ds + shared ds'.
Proof. unfold shared. by rewrite List.filter_app, length_app. Qed.

Lemma walk_step_walking w w' :
  walking w → walk_step left right (lengths left right) w = Some w' → walking w'.
Proof.
  intros (Hi & Hp & Hb & Ha & Hs) E. unfold walk_step in E.
  destruct (left !! walk_index w) as [a|] eqn:El; [|done]. destruct (right !! walk_position w) as [b|] eqn:Er; [|done].
  pose proof (lookup_lt_Some _ _ _ El) as Hil. pose proof (lookup_lt_Some _ _ _ Er) as Hpl.
  rewrite (drop_S _ _ _ El), (drop_S _ _ _ Er), lcs_cons in Hs. injection E as <-.
  rewrite !(lengths_right left right) by lia. rewrite (drop_S _ _ _ El), (drop_S _ _ _ Er).
  destruct (bool_decide (a = b)) eqn:Eab; [apply bool_decide_eq_true in Eab as <-|destruct (_ <=? _) eqn:Ec].
  all: unfold walking; simpl; rewrite ?before_app, ?after_app, ?shared_app, ?Hb, ?Ha, ?app_nil_r; simpl.
  all: rewrite ?(take_S_r _ _ _ El), ?(take_S_r _ _ _ Er), ?(drop_S _ _ _ El), ?(drop_S _ _ _ Er).
  all: rewrite ?app_nil_r.
  all: split_and!; try done; try lia.
  - change (shared [_]) with 1. lia.
  - apply Nat.leb_le in Ec. change (shared [_]) with 0. lia.
  - apply Nat.leb_gt in Ec. change (shared [_]) with 0. lia.
Qed.

(** A turn reads a line. *)
Definition unread (w : Walk) : nat := (length left - walk_index w) + (length right - walk_position w).

Lemma walk_step_reads t w w' : walk_step left right t w = Some w' → unread w' < unread w.
Proof.
  unfold walk_step, unread. destruct (left !! walk_index w) as [a|] eqn:El; [|done].
  destruct (right !! walk_position w) as [b|] eqn:Er; [|done].
  apply lookup_lt_Some in El, Er. intros [= <-]. case_bool_decide; [simpl; lia|]. case_match; simpl; lia.
Qed.

Lemma walk_result t fuel w : unread w ≤ fuel → ∃ w', walk left right t fuel w = Some w' ∧ walk_step left right t w' = None.
Proof.
  revert w. induction fuel as [|fuel IH]; intros w Hw; simpl.
  - destruct (walk_step left right t w) as [w'|] eqn:E; [|by eauto]. apply walk_step_reads in E. lia.
  - destruct (walk_step left right t w) as [w'|] eqn:E; [|by eauto]. apply walk_step_reads in E. apply IH. lia.
Qed.

Lemma walk_more t fuel fuel' w w' :
  walk left right t fuel w = Some w' → fuel ≤ fuel' → walk left right t fuel' w = Some w'.
Proof.
  revert fuel' w. induction fuel as [|fuel IH]; intros fuel' w E Hle.
  - destruct fuel'; simpl in *; by destruct (walk_step left right t w).
  - destruct fuel' as [|fuel']; [lia|]. simpl in *. destruct (walk_step left right t w); [|done]. apply IH; [done|lia].
Qed.

Lemma walk_walking fuel w w' :
  walking w → walk left right (lengths left right) fuel w = Some w' → walking w'.
Proof.
  revert w. induction fuel as [|fuel IH]; intros w Hw; simpl.
  - destruct (walk_step _ _ _ w) as [w1|] eqn:E; [done|]. by intros [= <-].
  - destruct (walk_step _ _ _ w) as [w1|] eqn:E; [|by intros [= <-]].
    apply IH. by eapply walk_step_walking.
Qed.

(** Lines of one kind only. *)
Lemma all_removed ls :
  before_lines (Build_DiffLine removed <$> ls) = ls ∧ after_lines (Build_DiffLine removed <$> ls) = [] ∧
  shared (Build_DiffLine removed <$> ls) = 0.
Proof.
  unfold before_lines, after_lines, shared. induction ls as [|l ls (IHb & IHa & IHs)]; [done|].
  split_and!; [exact (f_equal (cons l) IHb)|exact IHa|exact IHs].
Qed.

Lemma all_added ls :
  before_lines (Build_DiffLine added <$> ls) = [] ∧ after_lines (Build_DiffLine added <$> ls) = ls ∧
  shared (Build_DiffLine added <$> ls) = 0.
Proof.
  unfold before_lines, after_lines, shared. induction ls as [|l ls (IHb & IHa & IHs)]; [done|].
  split_and!; [exact IHb|exact (f_equal (cons l) IHa)|exact IHs].
Qed.

Lemma walking_start : walking (start).
Proof. unfold walking. simpl. split_and!; [lia|lia|done..]. Qed.

(** What the comparison answers, of any two files. *)
Lemma diff_spec : ∃ ds, diff left right = Some ds ∧ before_lines ds = left ∧ after_lines ds = right ∧
  shared ds = lcs left right.
Proof.
  destruct (walk_result (lengths left right) (length left + length right) start) as (w & E & Hend).
  { unfold unread. simpl. lia. }
  exists (rest_of left right w). unfold diff. rewrite E. split; [done|].
  destruct (walk_walking _ _ _ walking_start E) as (Hi & Hp & Hb & Ha & Hs).
  assert (Hz : lcs (drop (walk_index w) left) (drop (walk_position w) right) = 0).
  { unfold walk_step in Hend. destruct (left !! walk_index w) as [a|] eqn:El.
    - destruct (right !! walk_position w) as [b|] eqn:Er; [done|].
      apply lookup_ge_None in Er. by rewrite (drop_ge right), lcs_nil_r.
    - apply lookup_ge_None in El. by rewrite (drop_ge left), lcs_nil_l. }
  unfold rest_of. rewrite !before_app, !after_app, !shared_app.
  destruct (all_removed (drop (walk_index w) left)) as (-> & -> & ->).
  destruct (all_added (drop (walk_position w) right)) as (-> & -> & ->).
  rewrite Hb, Ha, app_nil_r, app_nil_l, !take_drop. split_and!; [done..|lia].
Qed.
End walking.

(** ** The answer is the smallest there is *)

(** One line more on either side adds at most one to what is shared. *)
Lemma lcs_more n l r a : length l + length r ≤ n →
  lcs l r ≤ lcs (a :: l) r ≤ S (lcs l r) ∧ lcs l r ≤ lcs l (a :: r) ≤ S (lcs l r).
Proof.
  revert l r a. induction n as [|n IH]; intros l r a Hn.
  { destruct l, r; simpl in Hn; try lia. simpl. lia. }
  split.
  - destruct r as [|b r]; [rewrite !lcs_nil_r; lia|]. rewrite lcs_cons. simpl in Hn.
    destruct (IH l r b) as [_ H1]; [lia|]. destruct (IH l r a) as [H2 _]; [lia|]. case_bool_decide; lia.
  - destruct l as [|b l]; [rewrite !lcs_nil_l; lia|]. rewrite lcs_cons. simpl in Hn.
    destruct (IH l r b) as [H1 _]; [lia|]. destruct (IH l r a) as [_ H2]; [lia|]. case_bool_decide; lia.
Qed.

Lemma shared_le ds : shared ds ≤ lcs (before_lines ds) (after_lines ds).
Proof.
  induction ds as [|[[] t] ds IH]; [done|..].
  - change (S (shared ds) ≤ lcs (t :: before_lines ds) (t :: after_lines ds)).
    rewrite lcs_cons, bool_decide_eq_true_2 by done. lia.
  - change (shared ds ≤ lcs (before_lines ds) (t :: after_lines ds)).
    edestruct lcs_more as [_ [H _]]; [reflexivity|]. etrans; [exact IH|exact H].
  - change (shared ds ≤ lcs (t :: before_lines ds) (after_lines ds)).
    edestruct lcs_more as [[H _] _]; [reflexivity|]. etrans; [exact IH|exact H].
Qed.

Lemma count_lines ds : length (before_lines ds) + length (after_lines ds) = changed ds + 2 * shared ds.
Proof.
  unfold before_lines, after_lines, changed, shared. rewrite !length_fmap.
  induction ds as [|[[] t] ds IH]; simpl in *; lia.
Qed.

(** C34: the comparison of two Compose files always comes to an end, and loses nothing: its
    lines without the added ones are the first file, and without the removed ones the
    second. *)
Theorem diff_restores before after :
  ∃ ds, diffLines before after = Some ds ∧
    text (join_with newline (before_lines ds)) = before ∧ text (join_with newline (after_lines ds)) = after.
Proof.
  destruct (diff_spec (lines_of before) (lines_of after)) as (ds & E & Hb & Ha & _). exists ds. split; [done|].
  rewrite Hb, Ha. unfold lines_of. by rewrite !join_split, !text_chars.
Qed.

(** C33: no list of lines that says what both files are marks fewer lines as changed than the
    comparison does: its table and its walk find a longest common subsequence. *)
Theorem diff_minimal before after ds ds' :
  diffLines before after = Some ds →
  before_lines ds' = lines_of before → after_lines ds' = lines_of after →
  changed ds ≤ changed ds'.
Proof.
  intros E Hb' Ha'. destruct (diff_spec (lines_of before) (lines_of after)) as (ds0 & E0 & Hb & Ha & Hs).
  assert (ds0 = ds) as -> by (unfold diffLines in E; congruence).
  pose proof (count_lines ds) as Hc. pose proof (count_lines ds') as Hc'. pose proof (shared_le ds') as Hle.
  rewrite Hb, Ha in Hc. rewrite Hb', Ha' in Hc'. rewrite Hb', Ha' in Hle. lia.
Qed.

(** The loop of the comparison ends, whatever is in the table: every turn reads a line of
    one of the files, so it is over after at most as many turns as they have lines, and
    giving it more turns changes nothing. *)
Theorem walk_ends left right t fuel w :
  unread left right w ≤ fuel →
  ∃ w', walk left right t fuel w = Some w' ∧ walk left right t (unread left right w) w = Some w' ∧
    (length left ≤ walk_index w' ∨ length right ≤ walk_position w').
Proof.
  intros Hf. destruct (walk_result left right t (unread left right w) w) as (w' & E & Hend); [done|].
  exists w'. split_and!; [by eapply walk_more|done|].
  unfold walk_step in Hend. destruct (left !! walk_index w') eqn:El; [|left; by apply lookup_ge_None].
  destruct (right !! walk_position w') eqn:Er; [done|]. right. by apply lookup_ge_None.
Qed.

(** ** Variables *)

(** A variable as the API shows it: a secret has no value. *)
Record EnvironmentVariable := {
  shown_key : string;
  shown_secret : bool;
  shown_value : option string
}.

Inductive EnvironmentChangeKind :=
  | variable_added | variable_removed | variable_changed | secret_added | secret_removed | secret_unknown.

Record EnvironmentDiffEntry := {
  diff_key : string;
  diff_kind : EnvironmentChangeKind;
  diff_from : option string;
  diff_to : option string
}.

Record StackConfiguration := {
  stackconf_compose : string;
  stackconf_environment : list EnvironmentVariable
}.

Record RevisionDiff := {
  revision_compose : list DiffLine;
  revision_environment : list EnvironmentDiffEntry;
  revision_identical : bool
}.

(** [new Map(variables.map((variable) => [variable.key, variable]))] *)
Definition by_name (vs : list EnvironmentVariable) : JsMap EnvironmentVariable :=
  foldl (λ m v, jset (shown_key v) v m) [] vs.

(** A turn of the first loop. *)
Definition new_entry (left : JsMap EnvironmentVariable) (key : string) (variable : EnvironmentVariable) : list EnvironmentDiffEntry :=
  match jget key left with
  | None =>
      [{| diff_key := key; diff_kind := if shown_secret variable then secret_added else variable_added;
          diff_from := None;
          diff_to := if shown_secret variable then None else Some (shown_value variable ?? "") |}]
  | Some previous =>
      if shown_secret variable || shown_secret previous then
        [{| diff_key := key; diff_kind := secret_unknown; diff_from := None; diff_to := None |}]
      else if bool_decide ((shown_value previous ?? "") ≠ (shown_value variable ?? "")) then
        [{| diff_key := key; diff_kind := variable_changed; diff_from := Some (shown_value previous ?? "");
            diff_to := Some (shown_value variable ?? "") |}]
      else []
  end.

(** A turn of the second. *)
Definition old_entry (right : JsMap EnvironmentVariable) (key : string) (variable : EnvironmentVariable) :
    list EnvironmentDiffEntry :=
  if jhas key right then []
  else [{| diff_key := key; diff_kind := if shown_secret variable then secret_removed else variable_removed;
           diff_from := if shown_secret variable then None else Some (shown_value variable ?? "");
           diff_to := None |}].

Section environments.
Context `{Collation}.

Definition by_diff_key (a b : EnvironmentDiffEntry) : Prop := locale_le (diff_key a) (diff_key b) = true.
#[global] Instance by_diff_key_dec : RelDecision by_diff_key.
Proof. intros a b. unfold by_diff_key. apply _. Defined.

Definition diffEnvironment (before after : list EnvironmentVariable) : list EnvironmentDiffEntry :=
  let left := by_name before in
  let right := by_name after in
  merge_sort by_diff_key
    ((right ≫= λ '(key, variable), new_entry left key variable) ++
     (left ≫= λ '(key, variable), old_entry right key variable)).

Definition diffRevisions (from to : StackConfiguration) : option RevisionDiff :=
  compose ← diffLines (stackconf_compose from) (stackconf_compose to);
  let environment := diffEnvironment (stackconf_environment from) (stackconf_environment to) in
  Some {| revision_compose := compose; revision_environment := environment;
          revision_identical := bool_decide (environment = []) && forallb is_context compose |}.
End environments.

(** *** What is said of a variable *)

(** The variable of an environment that has the name; of several the last. *)
Definition named (key : string) (vs : list EnvironmentVariable) : option EnvironmentVariable :=
  last (filter (λ v, shown_key v = key) vs).

(** What there is to say of one name. *)
Definition compared (key : string) (old new : option EnvironmentVariable) : option EnvironmentDiffEntry :=
  match old, new with
  | None, None => None
  | None, Some v => Some {| diff_key := key;
      diff_kind := if shown_secret v then secret_added else variable_added; diff_from := None;
      diff_to := if shown_secret v then None else Some (shown_value v ?? "") |}
  | Some u, None => Some {| diff_key := key;
      diff_kind := if shown_secret u then secret_removed else variable_removed;
      diff_from := if shown_secret u then None else Some (shown_value u ?? ""); diff_to := None |}
  | Some u, Some v =>
      if shown_secret v || shown_secret u then
        Some {| diff_key := key; diff_kind := secret_unknown; diff_from := None; diff_to := None |}
      else if bool_decide ((shown_value u ?? "") = (shown_value v ?? "")) then None
      else Some {| diff_key := key; diff_kind := variable_changed; diff_from := Some (shown_value u ?? "");
                   diff_to := Some (shown_value v ?? "") |}
  end.

Lemma by_name_snoc vs v : by_name (vs ++ [v]) = jset (shown_key v) v (by_name vs).
Proof. unfold by_name. by rewrite foldl_app. Qed.

Lemma by_name_ok vs : jmap_ok (by_name vs).
Proof.
  induction vs as [|v vs IH] using rev_ind; [apply jmap_ok_nil|]. rewrite by_name_snoc. by apply jmap_ok_set.
Qed.

Lemma jget_by_name key vs : jget key (by_name vs) = named key vs.
Proof.
  induction vs as [|v vs IH] using rev_ind; [done|]. rewrite by_name_snoc. unfold named in *.
  rewrite filter_app. destruct (decide (shown_key v = key)) as [<-|Hne].
  - rewrite jget_set, filter_cons_True, filter_nil by done. by rewrite last_snoc.
  - rewrite jget_set_ne by done. rewrite filter_cons_False, filter_nil, app_nil_r by done. exact IH.
Qed.

Lemma compared_key key old new e : compared key old new = Some e → diff_key e = key.
Proof. unfold compared. destruct old, new; repeat case_match; intros [= <-]; done. Qed.

Lemma new_entry_compared left key v e :
  e ∈ new_entry left key v ↔ compared key (jget key left) (Some v) = Some e.
Proof.
  unfold new_entry, compared. destruct (jget key left) as [u|].
  - destruct (shown_secret v || shown_secret u); [rewrite list_elem_of_singleton; naive_solver|].
    repeat case_bool_decide; try done; rewrite ?elem_of_nil, ?list_elem_of_singleton; naive_solver.
  - rewrite list_elem_of_singleton. naive_solver.
Qed.

Lemma old_entry_compared right key u e :
  e ∈ old_entry right key u ↔ jget key right = None ∧ compared key (Some u) None = Some e.
Proof.
  unfold old_entry. destruct (jhas key right) eqn:E.
  - apply jhas_true in E as [v Hv]. rewrite elem_of_nil, Hv. naive_solver.
  - apply jhas_false in E. rewrite list_elem_of_singleton. simpl. naive_solver.
Qed.

(** Loops that say at most one thing of every key say nothing twice. *)
Lemma said_once (f : string → EnvironmentVariable → list EnvironmentDiffEntry) m :
  (∀ k v, diff_key <$> f k v `sublist_of` [k]) →
  diff_key <$> (m ≫= λ '(k, v), f k v) `sublist_of` jkeys m.
Proof.
  intros Hf. induction m as [|[k v] m IH]; [done|]. rewrite bind_cons, fmap_app.
  exact (sublist_app _ [k] _ (jkeys m) (Hf k v) IH).
Qed.

Lemma new_entry_key left k v : diff_key <$> new_entry left k v `sublist_of` [k].
Proof. unfold new_entry. repeat case_match; try done; apply sublist_nil_l. Qed.

Lemma old_entry_key right k v : diff_key <$> old_entry right k v `sublist_of` [k].
Proof. unfold old_entry. case_match; [apply sublist_nil_l|done]. Qed.

Lemma said_elem (f : string → EnvironmentVariable → list EnvironmentDiffEntry) vs e :
  e ∈ (by_name vs ≫= λ '(k, v), f k v) ↔ ∃ k v, named k vs = Some v ∧ e ∈ f k v.
Proof.
  rewrite list_elem_of_bind. split.
  - intros ([k v] & He & Hin). exists k, v. split; [|done]. rewrite <-jget_by_name. apply jget_iff; [apply by_name_ok|done].
  - intros (k & v & Hk & He). exists (k, v). split; [done|]. apply jget_iff; [apply by_name_ok|]. by rewrite jget_by_name.
Qed.

Lemma diffEnvironment_elem `{Collation} before after e :
  e ∈ diffEnvironment before after ↔
  compared (diff_key e) (named (diff_key e) before) (named (diff_key e) after) = Some e.
Proof.
  unfold diffEnvironment. rewrite merge_sort_Permutation, elem_of_app, !said_elem.
  setoid_rewrite new_entry_compared. setoid_rewrite old_entry_compared. setoid_rewrite jget_by_name. split.
  - intros [(k & v & Hv & E)|(k & u & Hu & Hn & E)]; rewrite (compared_key _ _ _ _ E); [by rewrite Hv|by rewrite Hu, Hn].
  - intros E. destruct (named (diff_key e) after) as [v|] eqn:Ea; [by left; eauto|].
    right. destruct (named (diff_key e) before) as [u|] eqn:Eb; [by eauto|done].
Qed.

(** The comparison of two environments says of every name what there is to say of it, once:
    that it came, went or has another value, with the values; of a secret only that it
    came, went or is in both, and never a value. *)
Theorem environment_exact `{Collation} before after :
  (∀ e, e ∈ diffEnvironment before after ↔
    compared (diff_key e) (named (diff_key e) before) (named (diff_key e) after) = Some e) ∧
  NoDup (diff_key <$> diffEnvironment before after).
Proof.
  split; [intros e; apply diffEnvironment_elem|].
  - unfold diffEnvironment. rewrite merge_sort_Permutation, fmap_app. apply NoDup_app. split_and!.
    + eapply sublist_NoDup; [apply (by_name_ok after)|apply said_once, new_entry_key].
    + intros k0 (e & -> & (k & v & Hv & He%new_entry_compared%compared_key)%said_elem)%list_elem_of_fmap
        (e' & Ee & (k' & u & _ & [Hn E]%old_entry_compared)%said_elem)%list_elem_of_fmap.
      apply compared_key in E. rewrite jget_by_name in Hn. congruence.
    + eapply sublist_NoDup; [apply (by_name_ok before)|apply said_once, old_entry_key].
Qed.

(** What the interface calls two revisions that do not differ. *)
Definition no_difference (old new : option EnvironmentVariable) : Prop :=
  match old, new with
  | None, None => True
  | Some u, Some v => shown_secret u = false ∧ shown_secret v = false ∧ (shown_value u ?? "") = (shown_value v ?? "")
  | _, _ => False
  end.

Lemma compared_None key old new : compared key old new = None ↔ no_difference old new.
Proof.
  unfold compared, no_difference. destruct old as [u|], new as [v|]; [|by split..].
  destruct (shown_secret u), (shown_secret v); simpl; [naive_solver..|]. case_bool_decide; naive_solver.
Qed.

Lemma all_context ds : forallb is_context ds = true ↔ changed ds = 0.
Proof.
  unfold changed. induction ds as [|d ds IH]; [done|]. simpl. destruct (is_context d); simpl; [exact IH|].
  split; [done|]. lia.
Qed.

Lemma no_change_lines ds : changed ds = 0 → before_lines ds = after_lines ds.
Proof.
  intros Hc%all_context. unfold before_lines, after_lines. f_equal. induction ds as [|[[] t] ds IH]; simpl in *; [done| |done..].
  by rewrite IH.
Qed.

Lemma lcs_same l : lcs l l = length l.
Proof. induction l as [|a l IH]; [done|]. rewrite lcs_cons, bool_decide_eq_true_2 by done. by rewrite IH. Qed.

(** Two revisions are called identical exactly when their Compose files are the same text and
    every name is a plain variable of both with the same value, or of neither: a revision
    with a secret is never called identical to anything, itself included. *)
Theorem identical_exact `{Collation} from to :
  ∃ d, diffRevisions from to = Some d ∧
    (revision_identical d = true ↔
      stackconf_compose from = stackconf_compose to ∧
      ∀ key, no_difference (named key (stackconf_environment from)) (named key (stackconf_environment to))).
Proof.
  unfold diffRevisions, diffLines. set (l := lines_of (stackconf_compose from)). set (r := lines_of (stackconf_compose to)).
  destruct (diff_spec l r) as (ds & -> & Hb & Ha & Hs). simpl. eexists. split; [done|]. simpl.
  rewrite andb_true_iff, bool_decide_eq_true, all_context.
  assert (Hlines : changed ds = 0 ↔ stackconf_compose from = stackconf_compose to).
  { split.
    - intros Hc%no_change_lines. rewrite Hb, Ha in Hc. unfold l, r, lines_of in Hc.
      apply (f_equal (join_with newline)) in Hc. rewrite !join_split in Hc.
      apply (f_equal text) in Hc. by rewrite !text_chars in Hc.
    - intros E. pose proof (count_lines ds) as Hc. rewrite Hb, Ha, Hs in Hc. unfold l, r in Hc. rewrite E, lcs_same in Hc. lia. }
  rewrite Hlines, (and_comm (_ = [])). apply and_iff_compat_l. split.
  - intros Hnil key. apply (compared_None key). destruct (compared _ _ _) as [e|] eqn:E; [|done].
    pose proof (compared_key _ _ _ _ E) as <-. apply diffEnvironment_elem in E. rewrite Hnil in E. by apply elem_of_nil in E.
  - intros Hkeys. apply elem_of_nil_inv. intros e He%diffEnvironment_elem.
    rewrite (proj2 (compared_None (diff_key e) _ _) (Hkeys _)) in He. done.
Qed.

(** *** Two revisions of a file *)

Definition file1 : string := text (join_with newline (chars <$> ["services:"; "  web:"; "    image: nginx:1.26"; ""])).
Definition file2 : string := text (join_with newline (chars <$> ["services:"; "  web:"; "    image: nginx:1.27"; "    restart: always"; ""])).

Example file_changes :
  option_map (List.map (λ d, (line_kind d, text (line_text d)))) (diffLines file1 file2) =
  Some [(context, "services:"); (context, "  web:"); (removed, "    image: nginx:1.26");
        (added, "    image: nginx:1.27"); (added, "    restart: always"); (context, "")].
Proof. vm_compute. reflexivity. Qed.

Lemma diff_minimal_witness : ∃ ds, diffLines file1 file2 = Some ds ∧
  changed ds ≤ changed ((Build_DiffLine removed <$> lines_of file1) ++ (Build_DiffLine added <$> lines_of file2)).
Proof.
  destruct (diffLines file1 file2) as [ds|] eqn:E; [|vm_compute in E; discriminate E]. exists ds. split; [reflexivity|].
  apply (diff_minimal file1 file2 ds); [exact E|vm_compute; reflexivity|vm_compute; reflexivity].
Defined.

Lemma walk_ends_witness : ∃ w', walk (lines_of file1) (lines_of file2) [] 20 start = Some w' ∧
  walk (lines_of file1) (lines_of file2) [] 9 start = Some w'.
Proof.
  destruct (walk_ends (lines_of file1) (lines_of file2) [] 20 start) as (w' & E & E' & _); [vm_compute; lia|].
  exists w'. split; [exact E|exact E'].
Defined.
