(* ===== verification/JsNumber.v ===== *)
(** * What JavaScript reads as a number

    [Number(text)] as the forms of the web interface use it: blank text is zero,
    decimal, hexadecimal, octal and binary literals are read exactly and rounded to
    the nearest double, and anything else is not a number. *)

From Stdlib Require Import Ascii String NArith ZArith.
From stdpp Require Import base list strings pretty.
From S2P Require Import Prelude.

(** A finite double is [mantissa * 2 ^ exponent]. *)
Inductive double :=
  | Finite (mantissa exponent : Z)
  | Infinite (negative : bool)
  | NaN.

(** [p / q] to the nearest integer, ties to the even one. *)
Definition nearest (p q : Z) : Z :=
  let d := (p / q)%Z in
  match (2 * (p mod q) ?= q)%Z with
  | Lt => d
  | Gt => (d + 1)%Z
  | Eq => if Z.even d then d else (d + 1)%Z
  end.

(** The double nearest to [p / q], for positive [q]: 53 bits, and no exponent below that of
    the smallest double. *)
Definition round_double (p q : Z) : double :=
  if (p =? 0)%Z then Finite 0 0
  else
    let a := Z.abs p in
    let width := (Z.log2 a - Z.log2 q)%Z in
    (* the quotient has [width] or [width + 1] bits *)
    let top := if (if 0 <=? width then q * 2 ^ width <=? a else q <=? a * 2 ^ (- width))%Z then width else (width - 1)%Z in
    let e := Z.max (top - 52) (-1074) in
    let k := (if 0 <=? e then nearest a (q * 2 ^ e) else nearest (a * 2 ^ (- e)) q)%Z in
    if (1024 <=? Z.log2 k + e)%Z then Infinite (p <? 0)%Z else Finite (Z.sgn p * k) e.

(** The whole number a double is, if it is one. *)
Definition whole (d : double) : option Z :=
  match d with
  | Finite m e =>
      if (0 <=? e)%Z then Some (m * 2 ^ e)%Z
      else if (m mod 2 ^ (- e) =? 0)%Z then Some (m / 2 ^ (- e))%Z else None
  | _ => None
  end.

(** ** Literals *)

Definition digit_of (c : ascii) : option Z :=
  let n := Z.of_N (N_of_ascii c) in
  if is_digit c then Some (n - 48)%Z
  else if (97 <=? n)%Z && (n <=? 102)%Z then Some (n - 87)%Z
  else if (65 <=? n)%Z && (n <=? 70)%Z then Some (n - 55)%Z
  else None.

(** Digits of a base, all of them. *)
Fixpoint digits_from (base acc : Z) (l : list ascii) : option Z :=
  match l with
  | [] => Some acc
  | c :: l' =>
      match digit_of c with
      | Some d => if (d <? base)%Z then digits_from base (acc * base + d)%Z l' else None
      | None => None
      end
  end.

Definition digits (base : Z) (l : list ascii) : option Z :=
  match l with [] => None | _ => digits_from base 0 l end.

(** The digits at the start, and what follows them. *)
Fixpoint span_digits (l : list ascii) : list ascii * list ascii :=
  match l with
  | c :: l' => if is_digit c then let '(ds, r) := span_digits l' in (c :: ds, r) else ([], l)
  | [] => ([], [])
  end.

Definition signed (l : list ascii) : bool * list ascii :=
  match l with
  | c :: l' => if bool_decide (c = "+"%char) then (false, l') else if bool_decide (c = "-"%char) then (true, l') else (false, l)
  | [] => (false, [])
  end.

(** What follows the digits of a decimal literal: nothing, or an exponent. *)
Definition exponent_part (l : list ascii) : option Z :=
  match l with
  | [] => Some 0%Z
  | c :: l' =>
      if mem c ["e"%char; "E"%char] then
        let '(negative, ds) := signed l' in
        (λ n, if negative then (- n)%Z else n) <$> digits 10 ds
      else None
  end.

(** [m * 10 ^ e] *)
Definition scaled (negative : bool) (m e : Z) : double :=
  let m := if negative then (- m)%Z else m in
  if (0 <=? e)%Z then round_double (m * 10 ^ e) 1 else round_double m (10 ^ (- e)).

Definition decimal_literal (l : list ascii) : double :=
  let '(negative, l) := signed l in
  if bool_decide (l = chars "Infinity") then Infinite negative
  else
    let '(int, rest) := span_digits l in
    let '(frac, rest) :=
      match rest with
      | c :: r => if bool_decide (c = "."%char) then span_digits r else ([], rest)
      | [] => ([], [])
      end in
    match digits 10 (int ++ frac), exponent_part rest with
    | Some m, Some e => scaled negative m (e - Z.of_nat (length frac))
    | _, _ => NaN
    end.

Definition based (base : Z) (l : list ascii) : double :=
  match digits base l with Some n => round_double n 1 | None => NaN end.

(** The base a literal names, and the rest of it. *)
Definition base_of (l : list ascii) : option (Z * list ascii) :=
  match l with
  | z :: c :: l' =>
      if negb (bool_decide (z = "0"%char)) then None
      else if mem c ["x"%char; "X"%char] then Some (16%Z, l')
      else if mem c ["o"%char; "O"%char] then Some (8%Z, l')
      else if mem c ["b"%char; "B"%char] then Some (2%Z, l')
      else None
  | _ => None
  end.

Definition Number (s : string) : double :=
  match trim (chars s) with
  | [] => Finite 0 0
  | l => match base_of l with Some (base, ds) => based base ds | None => decimal_literal l end
  end.

(** *** Some literals *)

Example numbers_read :
  (λ s, whole (Number s)) <$> ["80"; " 80 "; ""; "0x1F90"; "8e1"; "80.0"; "80.5"; "-1"; "+7"; ".5e1"; "1_000"; "80tcp"; "Infinity"]
  = [Some 80%Z; Some 80%Z; Some 0%Z; Some 8080%Z; Some 80%Z; Some 80%Z; None; Some (-1)%Z; Some 7%Z; Some 5%Z; None; None; None].
Proof. vm_compute. reflexivity. Qed.

(** Beyond 53 bits the nearest double is another number. *)
Example numbers_rounded :
  (λ s, whole (Number s)) <$> ["9007199254740993"; "79.99999999999999999999"] = [Some 9007199254740992%Z; Some 80%Z].
Proof. vm_compute. reflexivity. Qed.

(** ** Whole numbers are read back *)

(** [String(n)] for a whole number that is not negative. *)
Definition number_text (n : Z) : string := pretty (Z.to_N n).

Lemma nearest_one p : nearest p 1 = p.
Proof. unfold nearest. by rewrite Z.mod_1_r, Z.div_1_r. Qed.

(** Up to 53 bits nothing is rounded. *)
Lemma whole_round n : (0 <= n < 2 ^ 53)%Z → whole (round_double n 1) = Some n.
Proof.
  intros [Hn Hb]. unfold round_double. destruct (n =? 0)%Z eqn:Ez; [apply Z.eqb_eq in Ez as ->; done|].
  apply Z.eqb_neq in Ez. assert (Hp : (0 < n)%Z) by lia. rewrite (Z.abs_eq n Hn).
  change (Z.log2 1) with 0%Z. rewrite Z.sub_0_r. pose proof (Z.log2_nonneg n) as Hl.
  assert (Hw : (Z.log2 n < 53)%Z) by (apply Z.log2_lt_pow2; lia).
  rewrite (proj2 (Z.leb_le 0 (Z.log2 n)) Hl), Z.mul_1_l.
  rewrite (proj2 (Z.leb_le (2 ^ Z.log2 n) n)) by (apply Z.log2_spec; lia).
  rewrite Z.max_l by lia. set (e := (Z.log2 n - 52)%Z). assert (He : (e <= 0)%Z) by lia.
  assert (Hk : (if (0 <=? e)%Z then nearest n (1 * 2 ^ e) else nearest (n * 2 ^ (- e)) 1) = (n * 2 ^ (- e))%Z).
  { destruct (Z.leb_spec 0 e) as [H0|H0]; [|apply nearest_one]. assert (e = 0%Z) as -> by lia.
    change (1 * 2 ^ 0)%Z with 1%Z. rewrite nearest_one. simpl. lia. }
  rewrite Hk, Z.log2_mul_pow2 by lia.
  rewrite (proj2 (Z.leb_gt _ _)) by lia. rewrite Z.sgn_pos, Z.mul_1_l by lia. simpl.
  destruct (Z.leb_spec 0 e) as [H0|H0].
  - assert (e = 0%Z) as -> by lia. simpl. f_equal. lia.
  - rewrite Z.mod_mul by lia. simpl. by rewrite Z.div_mul by lia.
Qed.

(** *** The digits of a number *)

Lemma digit_of_char d : (d < 10)%N → digit_of (pretty_N_char d) = Some (Z.of_N d) ∧ is_digit (pretty_N_char d) = true.
Proof.
  intros Hd. assert (∃ k, k < 10 ∧ d = N.of_nat k) as (k & Hk & ->) by (exists (N.to_nat d); lia).
  do 10 (destruct k as [|k]; [by vm_compute|]). lia.
Qed.

Lemma digits_go x s :
  digits_from 10 0 (chars (pretty_N_go x s)) = digits_from 10 (Z.of_N x) (chars s) ∧
  (forallb is_digit (chars s) = true → forallb is_digit (chars (pretty_N_go x s)) = true).
Proof.
  revert s. induction (N.lt_wf_0 x) as [x _ IH]; intros s.
  destruct (decide (0 < x)%N) as [Hx|Hx]; [|assert (x = 0%N) as -> by lia; by rewrite pretty_N_go_0].
  rewrite pretty_N_go_step by done. destruct (IH (x `div` 10)%N) with (s := String (pretty_N_char (x `mod` 10)) s) as [E F].
  { apply N.div_lt; lia. }
  destruct (digit_of_char (x `mod` 10)) as [Hd Hc]; [by apply N.mod_lt|]. rewrite E. simpl. rewrite Hd.
  split.
  - rewrite (proj2 (Z.ltb_lt _ _)) by (pose proof (N.mod_lt x 10); lia). f_equal.
    pose proof (N.div_mod x 10). lia.
  - intros Hs. apply F. simpl. by rewrite Hc, Hs.
Qed.

Lemma number_text_digits n : (0 <= n)%Z →
  digits 10 (chars (number_text n)) = Some n ∧ forallb is_digit (chars (number_text n)) = true ∧
  chars (number_text n) ≠ [].
Proof.
  intros Hn. unfold number_text, pretty, pretty_N. case_decide as Hz.
  { assert (n = 0%Z) as -> by lia. by vm_compute. }
  destruct (digits_go (Z.to_N n) "") as [E F]. rewrite Z2N.id in E by done. simpl in E.
  assert (Hne : chars (pretty_N_go (Z.to_N n) "") ≠ []).
  { intros Hnil. rewrite Hnil in E. simpl in E. injection E as <-. done. }
  split_and!; [|by apply F|done]. unfold digits. by destruct (chars _) eqn:El.
Qed.

Lemma digit_not c (d : ascii) : is_digit c = true → is_digit d = false → c ≠ d.
Proof. by intros Hc Hd ->; rewrite Hc in Hd. Qed.

Lemma digit_no_space c : is_digit c = true → is_space c = false.
Proof. by destruct c as [[] [] [] [] [] [] [] []]. Qed.

Lemma span_all l : forallb is_digit l = true → span_digits l = (l, []).
Proof.
  induction l as [|c l IH]; [done|]. simpl. intros [Hc Hl]%andb_true_iff. by rewrite Hc, (IH Hl).
Qed.

(** A literal of decimal digits is the number they write. *)
Lemma decimal_digits l n : forallb is_digit l = true → digits 10 l = Some n → decimal_literal l = round_double n 1.
Proof.
  intros Hl Hn. unfold decimal_literal.
  assert (Hs : signed l = (false, l)).
  { unfold signed. destruct l as [|c l]; [done|]. simpl in Hl. apply andb_true_iff in Hl as [Hc _].
    rewrite !bool_decide_eq_false_2 by (by apply digit_not). done. }
  rewrite Hs, bool_decide_eq_false_2 by (intros ->; by vm_compute in Hl).
  rewrite (span_all l Hl), app_nil_r, Hn. simpl. unfold scaled. simpl. by rewrite Z.mul_1_r.
Qed.

Lemma base_of_digits l : forallb is_digit l = true → base_of l = None.
Proof.
  intros Hl. unfold base_of. destruct l as [|z [|c l]]; [done..|]. simpl in Hl.
  apply andb_true_iff in Hl as [_ [Hc _]%andb_true_iff]. case_bool_decide; [|done]. simpl.
  assert (Hm : ∀ xs, forallb (λ x, negb (is_digit x)) xs = true → mem c xs = false).
  { intros xs Hxs. apply bool_decide_eq_false. intros Hin.
    rewrite forallb_forall in Hxs. apply list_elem_of_In, Hxs in Hin. by rewrite Hc in Hin. }
  by rewrite !Hm by done.
Qed.

(** What [String] writes [Number] reads. *)
Lemma Number_text n : (0 <= n < 2 ^ 53)%Z → whole (Number (number_text n)) = Some n.
Proof.
  intros Hn. destruct (number_text_digits n) as (Hd & Hf & Hne); [lia|].
  assert (Ht : trim (chars (number_text n)) = chars (number_text n)).
  { apply trim_id. rewrite Forall_forall. intros c Hc%list_elem_of_In. rewrite forallb_forall in Hf. apply Hf in Hc.
    by apply digit_no_space. }
  unfold Number. rewrite Ht. destruct (chars (number_text n)) as [|c l]; [done|].
  by rewrite (base_of_digits _ Hf), (decimal_digits _ n Hf Hd), whole_round.
Qed.
