(* ===== verification/Configuration.v ===== *)
(** * The configuration a server starts with

    [api/src/config/configuration.ts]: the environment with the settings that are given as files, the
    schema the settings are read with, and the rules for a production server.

    Validating is done by zod, which is a parameter where the source leaves something to
    it: [Zod] has what it takes for a URL and which issues it adds when a schema's own
    rules are asked about an object whose fields are not all valid. *)

From Stdlib Require Import Ascii String NArith ZArith Lia.
From stdpp Require Import base list strings sets.
From S2P Require Import Prelude Base64 JsNumber.

Local Open Scope Z_scope.

(** ** Problems *)

(** What a [ConfigurationError] lists: a setting, and what is said of it. *)
Inductive Reason :=
  | SetTwice (key : string)
  | Unreadable (path : string)
  | Invalid
  | Rule (message : string).

#[export] Instance Reason_eq_dec : EqDecision Reason.
Proof. solve_decision. Defined.

Record Problem := { problem_setting : string; problem_reason : Reason }.

Definition problem (setting : string) (reason : Reason) : Problem :=
  {| problem_setting := setting; problem_reason := reason |}.

(** A value, or every problem. *)
Definition Checked (A : Type) : Type := list Problem + A.

Definition pure {A} (a : A) : Checked A := inr a.

(** Both are looked at, and the problems of both are kept. *)
Definition ap {A B} (f : Checked (A → B)) (x : Checked A) : Checked B :=
  match f, x with
  | inr g, inr a => inr (g a)
  | inr _, inl ps => inl ps
  | inl ps, inr _ => inl ps
  | inl ps, inl qs => inl (ps ++ qs)
  end.

Declare Scope checked_scope.
Delimit Scope checked_scope with checked.
Notation "f <*> x" := (ap f x) (at level 40, left associativity) : checked_scope.

Class Zod := {
  (** the text [z.url()] makes of it, if it is one *)
  zod_url : string → option string;
  (** what is listed when fields had problems: those, and what the rules added *)
  zod_issues : list Problem → list Problem;
  zod_issues_keeps ps : ps ⊆ zod_issues ps
}.

(** ** The environment *)

(** In the order of [Object.entries]; a name is in it once. *)
Definition ProcessEnv : Type := list (string * string).

Fixpoint env_get (env : ProcessEnv) (name : string) : option string :=
  match env with
  | [] => None
  | (key, value) :: env' => if bool_decide (key = name) then Some value else env_get env' name
  end.

Fixpoint env_set (env : ProcessEnv) (name value : string) : ProcessEnv :=
  match env with
  | [] => [(name, value)]
  | (key, old) :: env' => if bool_decide (key = name) then (key, value) :: env' else (key, old) :: env_set env' name value
  end.

Definition FILE : list ascii := chars "_FILE".

(** [key.slice(0, -'_FILE'.length)] where [key.endsWith('_FILE')] *)
Definition named_by (key : string) : option string :=
  let l := chars key in
  let n := (length l - length FILE)%nat in
  if bool_decide (length FILE ≤ length l)%nat && bool_decide (drop n l = FILE) then Some (text (take n l)) else None.

Section files.
(** [readFileSync(path, 'utf8')]; [None] is an error *)
Context (readFile : string → option string).

Definition file_step (source : ProcessEnv) (acc : ProcessEnv * list Problem) (entry : string * string) :
    ProcessEnv * list Problem :=
  let '(resolved, problems) := acc in
  let '(key, path) := entry in
  match named_by key with
  | None => acc
  | Some name =>
      if bool_decide (path = "") then acc
      else
        match env_get source name with
        | Some _ => (resolved, problems ++ [problem name (SetTwice key)])
        | None =>
            match readFile path with
            | Some contents => (env_set resolved name (text (trim (chars contents))), problems)
            | None => (resolved, problems ++ [problem key (Unreadable path)])
            end
        end
  end.

Definition resolveSecretFiles (source : ProcessEnv) : Checked ProcessEnv :=
  let '(resolved, problems) := foldl (file_step source) (source, []) source in
  if bool_decide (0 < length problems)%nat then inl problems else inr resolved.
End files.

(** ** Fields *)

(** [amount * unit], the double nearest to the product *)
Definition times (d : double) (n : Z) : double :=
  match whole d, d with
  | Some x, _ => round_double (x * n) 1
  | None, Finite m e => round_double (m * n) (2 ^ (- e))
  | None, d => d
  end.

(** [a >= b] *)
Definition at_least (a b : double) : bool :=
  match a, b with
  | Finite m e, Finite m' e' => let low := Z.min e e' in m' * 2 ^ (e' - low) <=? m * 2 ^ (e - low)
  | NaN, _ | _, NaN => false
  | Infinite negative, Infinite negative' => negb negative || negative'
  | Infinite negative, Finite _ _ => negb negative
  | Finite _ _, Infinite negative' => negative'
  end.

Definition unit_of (c : ascii) : option Z :=
  if bool_decide (c = "s"%char) then Some 1
  else if bool_decide (c = "m"%char) then Some 60
  else if bool_decide (c = "h"%char) then Some 3600
  else if bool_decide (c = "d"%char) then Some 86400
  else None.

(** [/^(\d+)(s|m|h|d)$/] *)
Definition read_duration (value : string) : option double :=
  match span_digits (trim (chars value)) with
  | ((_ :: _) as ds, [c]) => (λ unit, times (Number (text ds)) unit) <$> unit_of c
  | _ => None
  end.

Section fields.
Context `{Zod} (env : ProcessEnv).

(** A field of the schema: the default stands in when the setting is not there, and
    without one that is a problem. *)
Definition field {A} (name : string) (fallback : option A) (read : string → option A) : Checked A :=
  match env_get env name with
  | Some value => match read value with Some a => inr a | None => inl [problem name Invalid] end
  | None => match fallback with Some a => inr a | None => inl [problem name Invalid] end
  end.

Definition text_there (value : string) : option string := if bool_decide (value = "") then None else Some value.

(** [z.coerce.number().int().min(least).max(most)] *)
Definition whole_between (least : Z) (most : option Z) (value : string) : option Z :=
  n ← whole (Number value);
  if (Z.abs n <=? 2 ^ 53 - 1) && (least <=? n) && (match most with Some m => n <=? m | None => true end) then Some n else None.

(** The default of a duration is read as a given one is. *)
Definition duration (name fallback : string) : Checked double :=
  field name (read_duration fallback) read_duration.

Definition read_bool (value : string) : option bool :=
  if bool_decide (value = "true") then Some true else if bool_decide (value = "false") then Some false else None.

Definition bool_field (name : string) (fallback : bool) : Checked bool := field name (Some fallback) read_bool.

Definition one_of {A} (values : list (string * A)) (value : string) : option A :=
  snd <$> head (filter (λ v, v.1 = value) values).

(** [Buffer.from(value, 'base64').length === 32] *)
Definition encryption_key (value : string) : option string :=
  if bool_decide (length (decode (chars value)) = 32%nat) then Some value else None.

Definition optional (name : string) : Checked (option string) := inr (env_get env name).
End fields.

(** ** The schema *)

Inductive NodeEnv := development | test | production.

#[export] Instance NodeEnv_eq_dec : EqDecision NodeEnv.
Proof. solve_decision. Defined.

Inductive LogLevel := silent | fatal | error | warn | info | debug | trace.

Record AppConfig := {
  NODE_ENV : NodeEnv;
  PORT : Z;
  HOST : string;
  DATABASE_URL : string;
  PUBLIC_APP_URL : string;
  SESSION_COOKIE_NAME : string;
  SESSION_TTL : double;
  SESSION_IDLE_TIMEOUT : double;
  APPLICATION_ENCRYPTION_KEY : string;
  TRUSTED_PROXY_HOPS : Z;
  AGENT_GATEWAY_HOST : string;
  AGENT_GATEWAY_PORT : Z;
  AGENT_GATEWAY_ADVERTISED_URL : string;
  AGENT_GATEWAY_TLS_CERT_PATH : string;
  AGENT_GATEWAY_TLS_KEY_PATH : string;
  AGENT_CLIENT_CA_CERT_PATH : string;
  AGENT_CA_CERT_PATH : string;
  AGENT_CA_KEY_PATH : string;
  AGENT_CA_KEY_PASSPHRASE : option string;
  AGENT_CERT_TTL : double;
  AGENT_CERT_RENEW_BEFORE : double;
  AGENT_ENROLLMENT_TTL : double;
  HOST_SETUP_TICKET_TTL : double;
  AGENT_RELEASE_BASE_URL : string;
  AGENT_RELEASE_VERSION : string;
  AGENT_MAX_MESSAGE_BYTES : Z;
  UPDATE_CHECK_ENABLED : bool;
  LOG_STREAM_MAX_PER_USER : Z;
  LOG_STREAM_MAX_PER_AGENT : Z;
  LOG_STREAM_MAX_TOTAL : Z;
  LOG_STREAM_MAX_LIFETIME : double;
  LOG_STREAM_REVALIDATE_INTERVAL : double;
  LOG_STREAM_MAX_BUFFERED_BYTES : Z;
  LOG_STREAM_KEEPALIVE_INTERVAL : double;
  LOG_LEVEL : LogLevel;
  DEV_ALLOW_INSECURE_COOKIES : bool
}.

Section load.
Context `{Zod} (readFile : string → option string).

Local Open Scope checked_scope.

(** The object of the schema, every field of it. *)
Definition schema_object (env : ProcessEnv) : Checked AppConfig :=
  pure Build_AppConfig
  <*> field env "NODE_ENV" (Some development)
        (one_of [("development", development); ("test", test); ("production", production)])
  <*> field env "PORT" (Some 3000) (whole_between 1 (Some 65535))
  <*> field env "HOST" (Some "0.0.0.0") text_there
  <*> field env "DATABASE_URL" None text_there
  <*> field env "PUBLIC_APP_URL" None zod_url
  <*> field env "SESSION_COOKIE_NAME" (Some "dockplane_session") text_there
  <*> duration env "SESSION_TTL" "12h"
  <*> duration env "SESSION_IDLE_TIMEOUT" "2h"
  <*> field env "APPLICATION_ENCRYPTION_KEY" None encryption_key
  <*> field env "TRUSTED_PROXY_HOPS" (Some 0) (whole_between 0 (Some 10))
  <*> field env "AGENT_GATEWAY_HOST" (Some "0.0.0.0") text_there
  <*> field env "AGENT_GATEWAY_PORT" (Some 9443) (whole_between 0 (Some 65535))
  <*> field env "AGENT_GATEWAY_ADVERTISED_URL" None zod_url
  <*> field env "AGENT_GATEWAY_TLS_CERT_PATH" None text_there
  <*> field env "AGENT_GATEWAY_TLS_KEY_PATH" None text_there
  <*> field env "AGENT_CLIENT_CA_CERT_PATH" None text_there
  <*> field env "AGENT_CA_CERT_PATH" None text_there
  <*> field env "AGENT_CA_KEY_PATH" None text_there
  <*> optional env "AGENT_CA_KEY_PASSPHRASE"
  <*> duration env "AGENT_CERT_TTL" "30d"
  <*> duration env "AGENT_CERT_RENEW_BEFORE" "7d"
  <*> duration env "AGENT_ENROLLMENT_TTL" "10m"
  <*> duration env "HOST_SETUP_TICKET_TTL" "10m"
  <*> field env "AGENT_RELEASE_BASE_URL" (Some "https://github.com/Dockplanee/dockplane/releases/download") zod_url
  <*> field env "AGENT_RELEASE_VERSION" (Some "") (λ value, Some (text (trim (chars value))))
  <*> field env "AGENT_MAX_MESSAGE_BYTES" (Some 1048576) (whole_between 1024 None)
  <*> bool_field env "UPDATE_CHECK_ENABLED" false
  <*> field env "LOG_STREAM_MAX_PER_USER" (Some 3) (whole_between 1 (Some 50))
  <*> field env "LOG_STREAM_MAX_PER_AGENT" (Some 10) (whole_between 1 (Some 200))
  <*> field env "LOG_STREAM_MAX_TOTAL" (Some 50) (whole_between 1 (Some 1000))
  <*> duration env "LOG_STREAM_MAX_LIFETIME" "30m"
  <*> duration env "LOG_STREAM_REVALIDATE_INTERVAL" "30s"
  <*> field env "LOG_STREAM_MAX_BUFFERED_BYTES" (Some 1048576) (whole_between 64000 None)
  <*> duration env "LOG_STREAM_KEEPALIVE_INTERVAL" "20s"
  <*> field env "LOG_LEVEL" (Some info)
        (one_of [("silent", silent); ("fatal", fatal); ("error", error); ("warn", warn); ("info", info);
                 ("debug", debug); ("trace", trace)])
  <*> bool_field env "DEV_ALLOW_INSECURE_COOKIES" false.

Definition https (url : string) : bool := String.prefix "https://" url.

(** The rules between the fields. *)
Definition superRefine (config : AppConfig) : list Problem :=
  (if at_least (AGENT_CERT_RENEW_BEFORE config) (AGENT_CERT_TTL config) then
     [problem "AGENT_CERT_RENEW_BEFORE" (Rule "AGENT_CERT_RENEW_BEFORE must be shorter than AGENT_CERT_TTL")] else []) ++
  if bool_decide (NODE_ENV config ≠ production) then []
  else
    (if DEV_ALLOW_INSECURE_COOKIES config then
       [problem "DEV_ALLOW_INSECURE_COOKIES" (Rule "Insecure cookies must not be enabled in production")] else []) ++
    (if https (PUBLIC_APP_URL config) then [] else
       [problem "PUBLIC_APP_URL" (Rule "PUBLIC_APP_URL must use https in production")]) ++
    (if https (AGENT_GATEWAY_ADVERTISED_URL config) then [] else
       [problem "AGENT_GATEWAY_ADVERTISED_URL" (Rule "AGENT_GATEWAY_ADVERTISED_URL must use https in production")]) ++
    (if https (AGENT_RELEASE_BASE_URL config) then [] else
       [problem "AGENT_RELEASE_BASE_URL" (Rule "AGENT_RELEASE_BASE_URL must use https in production")]).

Definition schema (env : ProcessEnv) : Checked AppConfig :=
  match schema_object env with
  | inl issues => inl (zod_issues issues)
  | inr config => match superRefine config with [] => inr config | issues => inl issues end
  end.

Definition loadConfig (source : ProcessEnv) : Checked AppConfig :=
  match resolveSecretFiles readFile source with
  | inl problems => inl problems
  | inr env => schema env
  end.
End load.

(** ** Settings given as files *)

Lemma env_get_set env name value name' :
  env_get (env_set env name value) name' = if bool_decide (name = name') then Some value else env_get env name'.
Proof.
  induction env as [|[key old] env IH]; simpl; [done|]. destruct (bool_decide_reflect (key = name)) as [->|Hk]; simpl.
  - by repeat case_bool_decide.
  - rewrite IH. repeat case_bool_decide; congruence.
Qed.

(** A setting is given in the environment as it reads it. *)
Lemma env_get_elem env name value : env_get env name = Some value → (name, value) ∈ env.
Proof.
  induction env as [|[key old] env IH]; simpl; [done|]. case_bool_decide as E; [|right; auto].
  intros [= ->]. rewrite E. by left.
Qed.

Lemma elem_env_get env name value : NoDup env.*1 → (name, value) ∈ env → env_get env name = Some value.
Proof.
  induction env as [|[key old] env IH]; simpl; [by rewrite elem_of_nil|]. intros [Hk Hd]%NoDup_cons [E|Hin]%elem_of_cons.
  - injection E as -> ->. by rewrite bool_decide_eq_true_2.
  - rewrite bool_decide_eq_false_2; [auto|]. intros ->. apply Hk. by apply (list_elem_of_fmap_2 fst _ _ Hin).
Qed.

Definition file_key (name : string) : string := name +:+ "_FILE".

Lemma chars_append s t : chars (s +:+ t) = chars s ++ chars t.
Proof. induction s as [|c s IH]; [done|]. unfold chars in *. simpl. by rewrite IH. Qed.

Lemma named_by_spec key name : named_by key = Some name ↔ key = file_key name.
Proof.
  unfold named_by, file_key. split.
  - destruct (bool_decide_reflect (length FILE ≤ length (chars key))%nat); [|done].
    destruct (bool_decide_reflect (drop (length (chars key) - length FILE) (chars key) = FILE)) as [Hf|]; [|done].
    intros [= <-]. rewrite <-(text_chars key) at 1. rewrite <-(take_drop (length (chars key) - length FILE) (chars key)) at 1.
    rewrite Hf. rewrite <-(text_chars (_ +:+ _)), chars_append, chars_text. done.
  - intros ->. rewrite chars_append. change (chars "_FILE") with FILE. rewrite length_app, Nat.add_sub.
    rewrite drop_app_length, take_app_length, text_chars. rewrite !bool_decide_eq_true_2 by (done || lia). done.
Qed.

Section resolving.
Context (readFile : string → option string) (source : ProcessEnv).

(** What an entry of the environment adds, and what is wrong with it. *)
Definition entry_value (entry : string * string) : option (string * string) :=
  name ← named_by entry.1;
  if bool_decide (entry.2 = "") then None
  else match env_get source name with Some _ => None | None => (λ c, (name, text (trim (chars c)))) <$> readFile entry.2 end.

Definition entry_problem (entry : string * string) : option Problem :=
  name ← named_by entry.1;
  if bool_decide (entry.2 = "") then None
  else match env_get source name with
       | Some _ => Some (problem name (SetTwice entry.1))
       | None => match readFile entry.2 with Some _ => None | None => Some (problem entry.1 (Unreadable entry.2)) end
       end.

Definition all_set (env : ProcessEnv) (l : ProcessEnv) : ProcessEnv := foldl (λ e kv, env_set e kv.1 kv.2) env l.

Lemma files_split l env ps :
  foldl (file_step readFile source) (env, ps) l = (all_set env (omap entry_value l), ps ++ omap entry_problem l).
Proof.
  revert env ps. induction l as [|[key path] l IH]; intros env ps; [by rewrite app_nil_r|]. cbn [foldl].
  rewrite (surjective_pairing (file_step _ _ _ _)), IH. cbn [omap list_omap]. unfold file_step, entry_value, entry_problem. cbn [fst snd].
  destruct (named_by key) as [name|]; [|done]. cbn. destruct (bool_decide (path = "")); [done|].
  destruct (env_get source name); cbn; [by rewrite <-app_assoc|]. destruct (readFile path); cbn; [done|by rewrite <-app_assoc].
Qed.

Lemma all_set_other env l name : (∀ v, (name, v) ∉ l) → env_get (all_set env l) name = env_get env name.
Proof.
  revert env. induction l as [|[k v] l IH]; intros env Hn; [done|]. cbn. rewrite IH.
  - rewrite env_get_set, bool_decide_eq_false_2; [done|]. intros ->. apply (Hn v). by left.
  - intros v' Hin. apply (Hn v'). by right.
Qed.

Lemma all_set_one env l name value :
  (name, value) ∈ l → (∀ v, (name, v) ∈ l → v = value) → env_get (all_set env l) name = Some value.
Proof.
  intros Hin Hu. induction l as [|[k v] l IH] using rev_ind; [by apply elem_of_nil in Hin|].
  unfold all_set. rewrite foldl_app. cbn. rewrite env_get_set. case_bool_decide as Ek.
  - f_equal. apply Hu. rewrite Ek. set_solver.
  - apply IH; [set_solver|]. intros v' Hv. apply Hu. set_solver.
Qed.

Lemma entry_value_spec entry name value :
  entry_value entry = Some (name, value) ↔
  entry.1 = file_key name ∧ entry.2 ≠ "" ∧ env_get source name = None ∧
  (λ c, text (trim (chars c))) <$> readFile entry.2 = Some value.
Proof.
  destruct entry as [key path]. unfold entry_value. cbn [fst snd]. split.
  - intros (n & Hn & E)%bind_Some. apply named_by_spec in Hn. case_bool_decide; [done|].
    destruct (env_get source n) eqn:Es; [done|]. apply fmap_Some in E as (c & Hc & [= -> ->]). by rewrite Hc.
  - intros (-> & Hp & Hs & E). rewrite (proj2 (named_by_spec _ name) eq_refl). cbn. rewrite bool_decide_eq_false_2 by done.
    rewrite Hs. destruct (readFile path); [|done]. by injection E as <-.
Qed.

(** What [NAME] is, after the files were read. *)
Definition setting (name : string) : option string :=
  match env_get source name with
  | Some value => Some value
  | None =>
      path ← env_get source (file_key name);
      if bool_decide (path = "") then None else (λ c, text (trim (chars c))) <$> readFile path
  end.

Lemma resolved_setting name :
  NoDup source.*1 → env_get (all_set source (omap entry_value source)) name = setting name.
Proof.
  intros Hd. unfold setting.
  assert (Hv : ∀ v, (name, v) ∈ omap entry_value source ↔
    env_get source name = None ∧ ∃ path, env_get source (file_key name) = Some path ∧ path ≠ "" ∧
      (λ c, text (trim (chars c))) <$> readFile path = Some v).
  { intros v. rewrite list_elem_of_omap. setoid_rewrite entry_value_spec. split.
    - intros ([key path] & Hin & Hk & Hp & Hs & Hc). simpl in *. subst key. split; [done|]. exists path. by rewrite (elem_env_get _ _ _ Hd Hin).
    - intros (Hs & path & Hin & Hp & Hc). exists (file_key name, path). split; [by apply env_get_elem|done]. }
  destruct (env_get source name) as [value|] eqn:Es; [rewrite all_set_other; [done|]; intros v Hin; by apply Hv in Hin as [? _]|].
  destruct (env_get source (file_key name)) as [path|] eqn:Ef; cbn; cycle 1.
  { rewrite all_set_other; [done|]. intros v Hin. by apply Hv in Hin as (_ & p & ? & _). }
  case_bool_decide as Hp; [rewrite all_set_other; [done|]; intros v Hin; apply Hv in Hin as (_ & p & ? & ? & _); congruence|].
  destruct (readFile path) as [c|] eqn:Er; cbn.
  - apply all_set_one; [apply Hv; split; [done|]; exists path; by rewrite Er|].
    intros v Hin. apply Hv in Hin as (_ & p & [= <-] & _ & E). rewrite Er in E. by injection E.
  - rewrite all_set_other; [done|]. intros v Hin. apply Hv in Hin as (_ & p & [= <-] & _ & E). by rewrite Er in E.
Qed.

Lemma entry_problem_spec key path p :
  entry_problem (key, path) = Some p ↔
  ∃ name, key = file_key name ∧ path ≠ "" ∧
    (env_get source name ≠ None ∧ p = problem name (SetTwice key) ∨
     env_get source name = None ∧ readFile path = None ∧ p = problem key (Unreadable path)).
Proof.
  unfold entry_problem. cbn [fst snd]. rewrite bind_Some. setoid_rewrite named_by_spec. split.
  - intros (name & -> & E). exists name. case_bool_decide; [done|]. destruct (env_get source name) eqn:Es; [naive_solver|].
    destruct (readFile path) eqn:Er; naive_solver.
  - intros (name & -> & Hp & H). exists name. split; [done|]. rewrite bool_decide_eq_false_2 by done.
    destruct H as [[Hs ->]|(-> & -> & ->)]; [|done]. by destruct (env_get source name).
Qed.

Lemma resolve_split :
  resolveSecretFiles readFile source =
  if bool_decide (omap entry_problem source = []) then inr (all_set source (omap entry_value source))
  else inl (omap entry_problem source).
Proof.
  unfold resolveSecretFiles. rewrite files_split. rewrite app_nil_l. by destruct (omap entry_problem source).
Qed.

(** C31: reading the settings that are given as files either lists every one that is wrong, and
    only those: a setting given both ways, and a file that cannot be read; or it succeeds,
    and then every setting is what the environment says, or else the file its
    [NAME_FILE] names, without the white space around it, and is unset where neither is there. *)
Theorem secret_files_exact :
  NoDup source.*1 →
  match resolveSecretFiles readFile source with
  | inl problems =>
      problems ≠ [] ∧
      ∀ p, p ∈ problems ↔ ∃ name path, env_get source (file_key name) = Some path ∧ path ≠ "" ∧
        (env_get source name ≠ None ∧ p = problem name (SetTwice (file_key name)) ∨
         env_get source name = None ∧ readFile path = None ∧ p = problem (file_key name) (Unreadable path))
  | inr env =>
      (∀ name path, env_get source (file_key name) = Some path → path ≠ "" → env_get source name = None ∧ readFile path ≠ None) ∧
      ∀ name, env_get env name = setting name
  end.
Proof.
  intros Hd. rewrite resolve_split. case_bool_decide as Hp.
  - split; [|intros name; by apply resolved_setting]. intros name path Hf Hpath.
    assert (Hn : ∀ p, entry_problem (file_key name, path) ≠ Some p).
    { intros p E. apply (elem_of_nil (A := Problem) p). rewrite <-Hp. apply list_elem_of_omap. exists (file_key name, path).
      split; [by apply env_get_elem|done]. }
    setoid_rewrite entry_problem_spec in Hn. destruct (env_get source name) eqn:Es; [|split; [done|]].
    + edestruct Hn. exists name. split; [done|]. split; [done|]. left. by rewrite Es.
    + intros Er. edestruct Hn. exists name. split; [done|]. split; [done|]. by right.
  - split; [done|]. intros p. rewrite list_elem_of_omap. split.
    + intros ([key path] & Hin & E). apply entry_problem_spec in E as (name & -> & Hpath & H). exists name, path.
      split; [by apply elem_env_get|done].
    + intros (name & path & Hf & Hpath & H). exists (file_key name, path). split; [by apply env_get_elem|].
      apply entry_problem_spec. by exists name.
Qed.
End resolving.

(** ** Durations *)

Lemma scale_whole m e x low : low <= e → whole (Finite m e) = Some x → m * 2 ^ (e - low) * 2 ^ Z.max 0 low = x * 2 ^ Z.max 0 (- low).
Proof.
  intros Hl. unfold whole. destruct (Z.leb_spec 0 e) as [He|He].
  - intros [= <-]. rewrite <-!Z.mul_assoc, <-!Z.pow_add_r by lia. do 2 f_equal. lia.
  - destruct (Z.eqb_spec (m mod 2 ^ (- e)) 0) as [Hm|]; [|done]. intros [= <-].
    assert (Hx : m = m / 2 ^ (- e) * 2 ^ (- e)) by (pose proof (Z.div_mod m (2 ^ (- e))); lia). rewrite Hx at 1.
    rewrite <-!Z.mul_assoc, <-!Z.pow_add_r by lia. do 2 f_equal. lia.
Qed.

(** On whole numbers the comparison is theirs. *)
Lemma at_least_whole a b x y : whole a = Some x → whole b = Some y → at_least a b = (y <=? x).
Proof.
  destruct a as [m e| |], b as [m' e'| |]; try done. intros Hx Hy. cbn [at_least].
  apply (scale_whole _ _ _ (Z.min e e')) in Hx; [|lia]. apply (scale_whole _ _ _ (Z.min e e')) in Hy; [|lia].
  assert (0 < 2 ^ Z.max 0 (Z.min e e')) by (apply Z.pow_pos_nonneg; lia).
  assert (0 < 2 ^ Z.max 0 (- Z.min e e')) by (apply Z.pow_pos_nonneg; lia).
  apply eq_true_iff_eq. rewrite !Z.leb_le. nia.
Qed.

Lemma times_whole d n k : 0 <= n → 0 <= k → whole d = Some n → n * k < 2 ^ 53 → whole (times d k) = Some (n * k).
Proof. intros Hn Hk Hd Hb. unfold times. rewrite Hd. apply whole_round. nia. Qed.

Lemma span_stop ds c : forallb is_digit ds = true → is_digit c = false → span_digits (ds ++ [c]) = (ds, [c]).
Proof.
  induction ds as [|d ds IH]; simpl; [by intros _ ->|]. intros [Hd Hds]%andb_prop Hc. by rewrite Hd, IH.
Qed.

(** A duration that is written as a whole number of seconds, minutes, hours or days is
    read as that many seconds, exactly, as long as a double can hold them. *)
Theorem duration_exact n c unit :
  unit_of c = Some unit → 0 <= n → n * unit < 2 ^ 53 →
  ∃ d, read_duration (number_text n +:+ text [c]) = Some d ∧ whole d = Some (n * unit).
Proof.
  intros Hu Hn Hb. destruct (number_text_digits n Hn) as (_ & Hd & Hne).
  assert (Hc : is_digit c = false ∧ is_space c = false ∧ 1 <= unit).
  { unfold unit_of in Hu. repeat case_bool_decide; simplify_eq; by vm_compute. }
  destruct Hc as (Hc & Hs & H1). unfold read_duration. rewrite chars_append, chars_text, trim_id; cycle 1.
  { apply Forall_app. split; [|by constructor]. apply forallb_Forall in Hd. eapply Forall_impl; [exact Hd|]. apply digit_no_space. }
  rewrite span_stop by done. destruct (chars (number_text n)) as [|x l] eqn:El; [done|]. rewrite Hu. eexists. split; [done|].
  rewrite <-El, text_chars. apply times_whole; [lia|lia| |done]. apply Number_text. nia.
Qed.

(** ** What a server starts with *)

Lemma ap_inr {A B} (f : Checked (A → B)) (x : Checked A) b : ap f x = inr b → ∃ g a, f = inr g ∧ x = inr a ∧ b = g a.
Proof. destruct f as [|g], x as [|a]; try done. intros [= <-]. by exists g, a. Qed.

Lemma field_inr {A} env name (fallback : option A) read a :
  field env name fallback read = inr a → (∃ value, read value = Some a) ∨ fallback = Some a.
Proof.
  unfold field. destruct (env_get env name) as [value|]; [destruct (read value) eqn:E|destruct fallback]; try done;
    intros [= <-]; eauto.
Qed.

Lemma field_holds {A} (P : A → Prop) env name (fallback : option A) read a :
  (∀ value x, read value = Some x → P x) → (∀ x, fallback = Some x → P x) → field env name fallback read = inr a → P a.
Proof. intros Hr Hf [[value E]|E]%field_inr; eauto. Qed.

Lemma whole_between_spec least most value n :
  whole_between least most value = Some n → least <= n ∧ match most with Some m => n <= m | None => n < 2 ^ 53 end.
Proof.
  unfold whole_between. intros (x & _ & E)%bind_Some. destruct (Z.leb_spec (Z.abs x) (2 ^ 53 - 1)); [|done].
  destruct (Z.leb_spec least x); [|done]. destruct most as [m|]; [destruct (Z.leb_spec x m); [|done]|];
    simpl in E; simplify_eq; lia.
Qed.

Section loaded.
Context `{Zod} (readFile : string → option string).

(** Every numeric setting within its limits, the key of the right size, and the texts there. *)
Definition within_limits (c : AppConfig) : Prop :=
  1 <= PORT c <= 65535 ∧ 0 <= AGENT_GATEWAY_PORT c <= 65535 ∧ 0 <= TRUSTED_PROXY_HOPS c <= 10 ∧
  1024 <= AGENT_MAX_MESSAGE_BYTES c < 2 ^ 53 ∧ 64000 <= LOG_STREAM_MAX_BUFFERED_BYTES c < 2 ^ 53 ∧
  1 <= LOG_STREAM_MAX_PER_USER c <= 50 ∧ 1 <= LOG_STREAM_MAX_PER_AGENT c <= 200 ∧ 1 <= LOG_STREAM_MAX_TOTAL c <= 1000 ∧
  length (decode (chars (APPLICATION_ENCRYPTION_KEY c))) = 32%nat ∧ DATABASE_URL c ≠ "" ∧ SESSION_COOKIE_NAME c ≠ "".

Lemma field_between env name least most fallback n :
  least <= fallback ∧ match most with Some m => fallback <= m | None => fallback < 2 ^ 53 end →
  field env name (Some fallback) (whole_between least most) = inr n →
  least <= n ∧ match most with Some m => n <= m | None => n < 2 ^ 53 end.
Proof.
  intros Hd. apply (field_holds (λ n, least <= n ∧ match most with Some m => n <= m | None => n < 2 ^ 53 end));
    [apply whole_between_spec|by intros x [= <-]].
Qed.

Lemma field_nonempty env name fallback s :
  fallback ≠ Some "" → field env name fallback text_there = inr s → s ≠ "".
Proof.
  intros Hf. apply (field_holds (λ s, s ≠ "")); [|naive_solver]. intros value x. unfold text_there. case_bool_decide; naive_solver.
Qed.

Lemma field_key env name s :
  field env name None encryption_key = inr s → length (decode (chars s)) = 32%nat.
Proof. apply (field_holds (λ s, length (decode (chars s)) = 32%nat)); [|done]. intros value x. unfold encryption_key. case_bool_decide; naive_solver. Qed.

Lemma schema_object_limits env c : schema_object env = inr c → within_limits c.
Proof.
  unfold schema_object. intros E.
  repeat match type of E with
  | ap _ _ = inr _ => let F := fresh "F" in apply ap_inr in E as (? & ? & E & F & ->)
  end.
  injection E as <-. unfold within_limits. cbn [PORT AGENT_GATEWAY_PORT TRUSTED_PROXY_HOPS AGENT_MAX_MESSAGE_BYTES
    LOG_STREAM_MAX_BUFFERED_BYTES LOG_STREAM_MAX_PER_USER LOG_STREAM_MAX_PER_AGENT LOG_STREAM_MAX_TOTAL
    APPLICATION_ENCRYPTION_KEY DATABASE_URL SESSION_COOKIE_NAME].
  split_and!.
  all: first [by eapply field_key|by eapply field_nonempty; cycle 1; [eassumption|]|
    match goal with F : field _ _ _ (whole_between _ _) = inr ?n |- context [?n] =>
      apply field_between in F; cbn in *; lia end].
Qed.

Lemma superRefine_nil c :
  superRefine c = [] →
  at_least (AGENT_CERT_RENEW_BEFORE c) (AGENT_CERT_TTL c) = false ∧
  (NODE_ENV c = production →
     DEV_ALLOW_INSECURE_COOKIES c = false ∧ https (PUBLIC_APP_URL c) = true ∧
     https (AGENT_GATEWAY_ADVERTISED_URL c) = true ∧ https (AGENT_RELEASE_BASE_URL c) = true).
Proof.
  unfold superRefine. intros [Hr Hp]%app_nil. destruct (at_least _ _); [done|]. split; [done|]. intros Hn.
  rewrite bool_decide_eq_false_2 in Hp by (by intros ?).
  destruct (DEV_ALLOW_INSECURE_COOKIES c), (https (PUBLIC_APP_URL c)), (https (AGENT_GATEWAY_ADVERTISED_URL c)),
    (https (AGENT_RELEASE_BASE_URL c)); done.
Qed.

(** C30: a server that starts has settings it can run on: ports, limits and the
    size of the encryption key are in range, an agent's certificate is renewed
    within its lifetime and not from the first moment on, and in production cookies are
    secure and the browser's, the agents' and the packages' addresses are https. *)
Theorem starts_only_safely source c :
  loadConfig readFile source = inr c →
  within_limits c ∧
  (∀ before ttl, whole (AGENT_CERT_RENEW_BEFORE c) = Some before → whole (AGENT_CERT_TTL c) = Some ttl → before < ttl) ∧
  (NODE_ENV c = production →
     DEV_ALLOW_INSECURE_COOKIES c = false ∧ https (PUBLIC_APP_URL c) = true ∧
     https (AGENT_GATEWAY_ADVERTISED_URL c) = true ∧ https (AGENT_RELEASE_BASE_URL c) = true).
Proof.
  unfold loadConfig, schema. destruct (resolveSecretFiles _ _) as [|env]; [done|].
  destruct (schema_object env) as [|c'] eqn:Ec; [done|]. destruct (superRefine c') eqn:Er; [|done]. intros [= ->].
  apply superRefine_nil in Er as [Hr Hp]. split; [by eapply schema_object_limits|]. split; [|done].
  intros before ttl Hb Ht. rewrite (at_least_whole _ _ _ _ Hb Ht) in Hr. by apply Z.leb_gt in Hr.
Qed.
End loaded.

(** *** A server in production *)

(** Any text is a URL here, and no rule is asked about an object with problems. *)
#[export] Instance example_zod : Zod := {| zod_url := Some; zod_issues := id; zod_issues_keeps ps := λ p Hp, Hp |}.

Definition deployed : ProcessEnv :=
  [("NODE_ENV", "production"); ("DATABASE_URL_FILE", "/run/secrets/database"); ("PUBLIC_APP_URL", "https://dockplane.example.org");
   ("APPLICATION_ENCRYPTION_KEY_FILE", "/run/secrets/key"); ("AGENT_GATEWAY_ADVERTISED_URL", "https://dockplane.example.org:9443");
   ("AGENT_GATEWAY_TLS_CERT_PATH", "/pki/gateway.crt"); ("AGENT_GATEWAY_TLS_KEY_PATH", "/pki/gateway.key");
   ("AGENT_CLIENT_CA_CERT_PATH", "/pki/ca.crt"); ("AGENT_CA_CERT_PATH", "/pki/ca.crt"); ("AGENT_CA_KEY_PATH", "/pki/ca.key");
   ("AGENT_CERT_TTL", "14d"); ("TRUSTED_PROXY_HOPS", "1")].

Definition secrets (path : string) : option string :=
  if bool_decide (path = "/run/secrets/database") then Some ("postgres://dockplane@db/dockplane" +:+ text ["010"%char])
  else if bool_decide (path = "/run/secrets/key") then Some ("MDEyMzQ1Njc4OWFiY2RlZjAxMjM0NTY3ODlhYmNkZWY=" +:+ text ["010"%char])
  else None.

Definition loaded_of (readFile : string → option string) (source : ProcessEnv) : option AppConfig :=
  match loadConfig readFile source with inr c => Some c | inl _ => None end.

Lemma deployed_loads : match loaded_of secrets deployed with Some c => NODE_ENV c = production | None => False end.
Proof. vm_compute. reflexivity. Qed.

Lemma starts_only_safely_witness :
  match loaded_of secrets deployed with
  | Some c => DEV_ALLOW_INSECURE_COOKIES c = false ∧ https (AGENT_RELEASE_BASE_URL c) = true
  | None => False
  end.
Proof.
  pose proof deployed_loads as Hl. unfold loaded_of in *. destruct (loadConfig secrets deployed) as [ps|c] eqn:E; [destruct Hl|].
  destruct (starts_only_safely secrets deployed c E) as (_ & _ & Hp). destruct (Hp Hl) as (Hc & _ & _ & Hr). exact (conj Hc Hr).
Defined.

Lemma deployed_once : NoDup deployed.*1.
Proof. apply (bool_decide_unpack _). by vm_compute. Qed.

(** The new line at the end of the file is not part of the setting. *)
Lemma secret_files_exact_witness :
  match resolveSecretFiles secrets deployed with
  | inr env => env_get env "DATABASE_URL" = Some "postgres://dockplane@db/dockplane"
  | inl _ => False
  end.
Proof.
  pose proof (secret_files_exact secrets deployed deployed_once) as Hx.
  assert (Hs : match resolveSecretFiles secrets deployed with inr _ => True | inl _ => False end) by (vm_compute; exact I).
  destruct (resolveSecretFiles secrets deployed) as [ps|env]; [destruct Hs|]. destruct Hx as [_ Hg].
  rewrite (Hg "DATABASE_URL"). vm_compute. reflexivity.
Defined.

Lemma duration_exact_witness : ∃ d, read_duration "30m" = Some d ∧ whole d = Some 1800.
Proof. apply (duration_exact 30 "m"%char 60); [reflexivity|lia|lia]. Defined.

(** *** What is accepted and what is not *)

(** A setting that is there and empty is not the default: the gateway listens on any
    port, and no proxy is trusted. *)
Example empty_is_zero :
  match loaded_of secrets (env_set (env_set deployed "AGENT_GATEWAY_PORT" "") "TRUSTED_PROXY_HOPS" "") with
  | Some c => (AGENT_GATEWAY_PORT c, TRUSTED_PROXY_HOPS c) = (0, 0)
  | None => False
  end.
Proof. vm_compute. reflexivity. Qed.

(** A session can be made to last no time at all. *)
Example no_time_accepted :
  match loaded_of secrets (env_set (env_set deployed "SESSION_TTL" "0s") "LOG_STREAM_REVALIDATE_INTERVAL" "0s") with
  | Some c => (whole (SESSION_TTL c), whole (LOG_STREAM_REVALIDATE_INTERVAL c)) = (Some 0, Some 0)
  | None => False
  end.
Proof. vm_compute. reflexivity. Qed.

(** A variable that is no setting of the server keeps it from starting if its name ends in
    [_FILE] and its file is not there. *)
Example other_file_refuses :
  loadConfig secrets (env_set deployed "SSL_CERT_FILE" "/etc/ssl/none.pem") =
  inl [problem "SSL_CERT_FILE" (Unreadable "/etc/ssl/none.pem")].
Proof. vm_compute. reflexivity. Qed.

(** A file that cannot be read hides every other problem. *)
Example problems_in_two_rounds :
  let source := env_set (env_set deployed "PORT" "none") "AGENT_CA_KEY_PASSPHRASE_FILE" "/run/secrets/none" in
  loadConfig secrets source = inl [problem "AGENT_CA_KEY_PASSPHRASE_FILE" (Unreadable "/run/secrets/none")] ∧
  loadConfig secrets (env_set source "AGENT_CA_KEY_PASSPHRASE_FILE" "") = inl [problem "PORT" Invalid].
Proof. vm_compute. done. Qed.
