(* ===== verification/ContainerForm.v ===== *)
(** * The form of a container

    [app/src/app/features/containers/container-form-model.ts]: what the web
    interface holds while a container is edited, what it sends, what it complains
    about and what it shows before sending.  The server's side of the request is
    [ContainerSpec] (what is accepted) and [Environment] (what becomes of the
    variables); the theorems are about the two together.

    An object of labels is the list of its entries; that JavaScript moves keys
    that are array indices to the front is not represented. *)

From Stdlib Require Import Ascii String NArith ZArith.
From stdpp Require Import gmap strings list pretty.
From S2P Require Import Prelude Schema Store Registry Effects Logic Base64 Environment Discovery.
From S2P Require Import ContainerSpec JsMap JsNumber RevisionDiff.

Definition RESTART_POLICIES : list (string * string) :=
  [("no", "Never"); ("unless-stopped", "Unless stopped"); ("always", "Always"); ("on-failure", "On failure")].

Definition RESERVED_LABEL_PREFIX : string := "io.dockplane.".

Definition FORBIDDEN_BIND_SOURCES : list string :=
  ["/var/run/docker.sock"; "/run/docker.sock"; "/var/lib/docker"; "/proc"; "/sys"; "/dev"; "/boot";
   "/etc/shadow"; "/root/.ssh"; "/var/lib/dockplane-agent"].

(** ** Data *)

Record PortRow := {
  portrow_hostIp : string;
  portrow_hostPort : string;
  portrow_containerPort : string;
  portrow_protocol : string
}.

Record MountRow := {
  mountrow_type : string;
  mountrow_source : string;
  mountrow_target : string;
  mountrow_readOnly : bool
}.

Inductive RowAction := row_unchanged | row_change | row_remove.

#[export] Instance RowAction_eq_dec : EqDecision RowAction.
Proof. solve_decision. Defined.

Record EnvironmentRow := {
  envrow_key : string;
  envrow_value : string;
  envrow_secret : bool;
  envrow_stored : bool;
  envrow_action : RowAction
}.

Record LabelRow := { labelrow_key : string; labelrow_value : string }.

Record ContainerFormModel := {
  form_hostId : string;
  form_name : string;
  form_hostname : string;
  form_image : string;
  form_ports : list PortRow;
  form_mounts : list MountRow;
  form_environment : list EnvironmentRow;
  form_networks : list string;
  form_restartPolicy : string;
  form_command : string;
  form_entrypoint : string;
  form_labels : list LabelRow
}.

(** [ContainerConfiguration] of [dockplane-api.ts]: what the server says a container is. *)
Record ContainerConfiguration := {
  current_name : string;
  current_image : string;
  current_hostname : option string;
  current_command : option (list string);
  current_entrypoint : option (list string);
  current_ports : list PortSpec;
  current_mounts : list MountSpec;
  current_networks : list string;
  current_restartPolicy : string;
  current_labels : list (string * string);
  current_environment : list EnvironmentVariable
}.

(** A port as it is sent: whatever [Number] made of the text. *)
Record RequestPort := {
  asked_containerPort : double;
  asked_hostPort : option double;
  asked_protocol : string;
  asked_hostIp : option string
}.

Record ContainerSpecRequest := {
  asked_hostId : option string;
  asked_name : string;
  asked_image : string;
  asked_hostname : option string;
  asked_command : option (list string);
  asked_entrypoint : option (list string);
  asked_ports : list RequestPort;
  asked_mounts : list MountSpec;
  asked_environment : list EnvironmentChange;
  asked_networks : list string;
  asked_restartPolicy : string;
  asked_labels : list (string * string)
}.

(** ** From a configuration to the form and from the form to a request *)

Definition emptyForm (hostId : string) : ContainerFormModel := {|
  form_hostId := hostId; form_name := ""; form_hostname := ""; form_image := ""; form_ports := [];
  form_mounts := []; form_environment := []; form_networks := []; form_restartPolicy := "unless-stopped";
  form_command := ""; form_entrypoint := ""; form_labels := [] |}.

Definition port_row (port : PortSpec) : PortRow := {|
  portrow_hostIp := port_hostIp port ?? "";
  portrow_hostPort := if (port_hostPort port =? 0)%Z then "" else number_text (port_hostPort port);
  portrow_containerPort := number_text (port_containerPort port);
  portrow_protocol := port_protocol port |}.

Definition mount_row (mount : MountSpec) : MountRow := {|
  mountrow_type := mount_type mount; mountrow_source := mount_source mount;
  mountrow_target := mount_target mount; mountrow_readOnly := mount_readOnly mount |}.

Definition environment_row (variable : EnvironmentVariable) : EnvironmentRow := {|
  envrow_key := shown_key variable;
  envrow_value := if shown_secret variable then "" else shown_value variable ?? "";
  envrow_secret := shown_secret variable; envrow_stored := true; envrow_action := row_unchanged |}.

(** [words.join(' ')] *)
Definition join_words (ws : list string) : string := text (join_with " " (chars <$> ws)).

Definition known_policy (policy : string) : string :=
  from_option fst "no" (find_first (λ p : string * string, bool_decide (p.1 = policy)) RESTART_POLICIES).

Definition formFrom (configuration : ContainerConfiguration) (hostId : string) : ContainerFormModel := {|
  form_hostId := hostId;
  form_name := current_name configuration;
  form_hostname := current_hostname configuration ?? "";
  form_image := current_image configuration;
  form_ports := port_row <$> current_ports configuration;
  form_mounts := mount_row <$> current_mounts configuration;
  form_environment := environment_row <$> current_environment configuration;
  form_networks := current_networks configuration;
  form_restartPolicy := known_policy (current_restartPolicy configuration);
  form_command := join_words (default [] (current_command configuration));
  form_entrypoint := join_words (default [] (current_entrypoint configuration));
  form_labels := (λ kv, {| labelrow_key := kv.1; labelrow_value := kv.2 |}) <$> current_labels configuration |}.

(** [value.trim()] *)
Definition trimmed (s : string) : string := text (trim (chars s)).

(** [s.split(/\s+/)] *)
Fixpoint split_spaces (word : list ascii) (l : list ascii) : list (list ascii) :=
  match l with
  | [] => [word]
  | c :: l' =>
      if is_space c then
        match l' with
        | c' :: _ => if is_space c' then split_spaces word l' else word :: split_spaces [] l'
        | [] => [word; []]
        end
      else split_spaces (word ++ [c]) l'
  end.

Definition words (value : string) : list string :=
  List.filter (λ s, truthy (Some s)) (text <$> split_spaces [] (trim (chars value))).

Definition hasPort (row : PortRow) : bool := truthy (Some (trimmed (portrow_containerPort row))).

Definition nonempty_text (s : string) : option string := if truthy (Some s) then Some s else None.

Definition toPort (row : PortRow) : RequestPort := {|
  asked_containerPort := Number (portrow_containerPort row);
  asked_hostPort := Number <$> nonempty_text (portrow_hostPort row);
  asked_protocol := portrow_protocol row;
  asked_hostIp := nonempty_text (portrow_hostIp row) |}.

Definition toMount (row : MountRow) : MountSpec := {|
  mount_type := mountrow_type row; mount_source := trimmed (mountrow_source row);
  mount_target := trimmed (mountrow_target row); mount_readOnly := mountrow_readOnly row |}.

Definition toEnvironment (row : EnvironmentRow) : EnvironmentChange :=
  let key := trimmed (envrow_key row) in
  if envrow_stored row && envrow_secret row then
    match envrow_action row with
    | row_remove => Remove key
    | row_change => Set_secret key (envrow_value row)
    | row_unchanged => Unchanged key
    end
  else if bool_decide (envrow_action row = row_remove) then Remove key
  else if envrow_secret row then Set_secret key (envrow_value row) else Set_value key (envrow_value row).

(** [Object.fromEntries] *)
Definition from_entries (l : list (string * string)) : list (string * string) :=
  foldl (λ m kv, jset kv.1 kv.2 m) [] l.

Definition nonempty_words (value : string) : option (list string) :=
  if truthy (Some (trimmed value)) then Some (words value) else None.

Definition requestFrom (form : ContainerFormModel) (includeHost : bool) : ContainerSpecRequest := {|
  asked_hostId := if includeHost then Some (form_hostId form) else None;
  asked_name := trimmed (form_name form);
  asked_image := trimmed (form_image form);
  asked_hostname := nonempty_text (trimmed (form_hostname form));
  asked_command := nonempty_words (form_command form);
  asked_entrypoint := nonempty_words (form_entrypoint form);
  asked_ports := toPort <$> List.filter hasPort (form_ports form);
  asked_mounts := toMount <$> List.filter (λ m, truthy (Some (trimmed (mountrow_source m))) &&
                                               truthy (Some (trimmed (mountrow_target m)))) (form_mounts form);
  asked_environment := toEnvironment <$> List.filter (λ r, truthy (Some (trimmed (envrow_key r)))) (form_environment form);
  asked_networks := List.filter (λ n, truthy (Some n)) (form_networks form);
  asked_restartPolicy := form_restartPolicy form;
  asked_labels := from_entries ((λ l, (trimmed (labelrow_key l), labelrow_value l)) <$>
    List.filter (λ l, truthy (Some (trimmed (labelrow_key l)))) (form_labels form)) |}.

(** ** What the interface can tell without asking *)

Record FieldProblem := { problem_field : string; problem_message : string }.

Definition problem (condition : bool) (field message : string) : list FieldProblem :=
  if condition then [{| problem_field := field; problem_message := message |}] else [].

Definition inRange (port : double) : bool := match whole port with Some n => between 1 65535 n | None => false end.

Definition forbiddenBind (source : string) : bool :=
  let clean := clean (trimmed source) in
  bool_decide (clean = "") || bool_decide (clean = "/") ||
  existsb (λ forbidden, bool_decide (clean = forbidden) || String.prefix (forbidden +:+ "/") clean)
    FORBIDDEN_BIND_SOURCES.

(** [`${list}.${index}.${field}`] *)
Definition at_row (list : string) (index : nat) (field : string) : string :=
  list +:+ "." +:+ pretty (N.of_nat index) +:+ "." +:+ field.

Definition host_number (row : PortRow) : Z := default 0%Z (whole (Number (portrow_hostPort row))).

(** [`${port.hostIp || '*'}:${host}/${port.protocol}`] *)
Definition form_binding (row : PortRow) : string :=
  default "*" (nonempty_text (portrow_hostIp row)) +:+ ":" +:+ number_text (host_number row) +:+ "/" +:+
  portrow_protocol row.

Fixpoint port_problems (bound : gset string) (index : nat) (rows : list PortRow) : list FieldProblem :=
  match rows with
  | [] => []
  | port :: rows =>
      problem (negb (hasPort port) || negb (inRange (Number (portrow_containerPort port))))
        (at_row "ports" index "containerPort") "Container port must be between 1 and 65535." ++
      if negb (truthy (Some (trimmed (portrow_hostPort port)))) then port_problems bound (S index) rows
      else if negb (inRange (Number (portrow_hostPort port))) then
        problem true (at_row "ports" index "hostPort") "Host port must be between 1 and 65535." ++
        port_problems bound (S index) rows
      else
        problem (bool_decide (form_binding port ∈ bound)) (at_row "ports" index "hostPort")
          "This host port is already published by another mapping." ++
        port_problems ({[form_binding port]} ∪ bound) (S index) rows
  end.

Fixpoint mount_problems (targets : gset string) (index : nat) (rows : list MountRow) : list FieldProblem :=
  match rows with
  | [] => []
  | mount :: rows =>
      let bind := bool_decide (mountrow_type mount = "bind") in
      let target := trimmed (mountrow_target mount) in
      (if negb (truthy (Some (trimmed (mountrow_source mount)))) then
         problem true (at_row "mounts" index "source")
           (if bind then "Enter a path on the host." else "Enter a volume name.")
       else problem (bind && forbiddenBind (mountrow_source mount)) (at_row "mounts" index "source")
              "Dockplane does not mount this path from the host.") ++
      (if negb (truthy (Some target)) then
         problem true (at_row "mounts" index "target") "Enter a path in the container."
       else if negb (String.prefix "/" (mountrow_target mount)) then
         problem true (at_row "mounts" index "target") "The path in the container must be absolute."
       else problem (bool_decide (target ∈ targets)) (at_row "mounts" index "target")
              "Something else is already mounted here.") ++
      mount_problems ({[target]} ∪ targets) (S index) rows
  end.

Fixpoint environment_problems (keys : gset string) (index : nat) (rows : list EnvironmentRow) : list FieldProblem :=
  match rows with
  | [] => []
  | row :: rows =>
      let key := trimmed (envrow_key row) in
      if negb (truthy (Some key)) then
        problem true (at_row "environment" index "key") "Enter a variable name." ++
        environment_problems keys (S index) rows
      else
        problem (negb (ENV_KEY key)) (at_row "environment" index "key")
          "Use letters, digits and underscores, starting with a letter or underscore." ++
        problem (bool_decide (key ∈ keys)) (at_row "environment" index "key") "This variable is listed twice." ++
        problem (envrow_secret row && negb (envrow_stored row) && negb (truthy (Some (envrow_value row))))
          (at_row "environment" index "value") "Enter the secret value." ++
        problem (envrow_secret row && envrow_stored row && bool_decide (envrow_action row = row_change) &&
                 negb (truthy (Some (envrow_value row))))
          (at_row "environment" index "value") "Enter the new secret value." ++
        environment_problems ({[key]} ∪ keys) (S index) rows
  end.

Fixpoint label_problems (index : nat) (rows : list LabelRow) : list FieldProblem :=
  match rows with
  | [] => []
  | label :: rows =>
      problem (String.prefix RESERVED_LABEL_PREFIX (trimmed (labelrow_key label))) (at_row "labels" index "key")
        "This label namespace is reserved by Dockplane." ++
      label_problems (S index) rows
  end.

Definition problemsIn (form : ContainerFormModel) (requireHost : bool) : list FieldProblem :=
  problem (requireHost && negb (truthy (Some (form_hostId form)))) "hostId" "Choose the host to create this container on." ++
  (if negb (truthy (Some (trimmed (form_name form)))) then problem true "name" "A container needs a name."
   else problem (negb (NAME (trimmed (form_name form)))) "name"
          "Use letters, digits, and . _ - starting with a letter or digit.") ++
  problem (negb (truthy (Some (trimmed (form_image form))))) "image" "A container needs an image." ++
  port_problems ∅ 0 (form_ports form) ++
  mount_problems ∅ 0 (form_mounts form) ++
  environment_problems ∅ 0 (form_environment form) ++
  label_problems 0 (form_labels form).

(** ** What is about to change *)

Inductive ChangeKind := change_added | change_removed | change_changed.

Record Change := { change_section : string; change_kind : ChangeKind; change_text : string }.

Definition change (section : string) (kind : ChangeKind) (what : string) : list Change :=
  [{| change_section := section; change_kind := kind; change_text := what |}].

Definition compare (section : string) (before after : list string) : list Change :=
  (List.filter (λ e, negb (mem e before)) after ≫= change section change_added) ++
  (List.filter (λ e, negb (mem e after)) before ≫= change section change_removed).

Definition portText (port : PortRow) : string :=
  (if truthy (Some (portrow_hostPort port)) then
     (if truthy (Some (portrow_hostIp port)) then portrow_hostIp port +:+ ":" else "") +:+ portrow_hostPort port +:+ " → "
   else "") +:+ portrow_containerPort port +:+ "/" +:+ portrow_protocol port.

Definition mountText (mount : MountRow) : string :=
  mountrow_source mount +:+ ":" +:+ mountrow_target mount +:+ (if mountrow_readOnly mount then " (read only)" else "").

Definition label (policy : string) : string :=
  from_option snd policy (find_first (λ p : string * string, bool_decide (p.1 = policy)) RESTART_POLICIES).

Definition removed_text (key : string) (row : EnvironmentRow) : string :=
  if envrow_secret row then key +:+ " — secret removed" else key.

(** The loop over the rows, with what is left of [previous]. *)
Fixpoint row_changes (previous : JsMap EnvironmentRow) (after : list EnvironmentRow) : list Change * JsMap EnvironmentRow :=
  match after with
  | [] => ([], previous)
  | row :: after =>
      let key := trimmed (envrow_key row) in
      let '(said, previous) :=
        if negb (truthy (Some key)) then ([], previous)
        else if bool_decide (envrow_action row = row_remove) then
          (change "Environment" change_removed (removed_text key row), jdelete key previous)
        else
          match jget key previous with
          | None =>
              (change "Environment" change_added
                 (if envrow_secret row then key +:+ " — secret added" else key +:+ "=" +:+ envrow_value row), previous)
          | Some existing =>
              (if envrow_secret row && bool_decide (envrow_action row = row_change) then
                 change "Environment" change_changed (key +:+ " — secret changed")
               else if negb (envrow_secret row) && bool_decide (envrow_value existing ≠ envrow_value row) then
                 change "Environment" change_changed (key +:+ "=" +:+ envrow_value row)
               else [], jdelete key previous)
          end in
      let '(rest, previous) := row_changes previous after in
      (said ++ rest, previous)
  end.

Definition environmentChanges (before after : list EnvironmentRow) : list Change :=
  let previous := foldl (λ m r, jset (trimmed (envrow_key r)) r m) [] before in
  let '(said, unseen) := row_changes previous after in
  said ++ (unseen ≫= λ '(key, row), change "Environment" change_removed (removed_text key row)).

Definition arrow (a b : string) : string := a +:+ " → " +:+ b.

Definition changesBetween (before after : ContainerFormModel) : list Change :=
  (if bool_decide (form_image before ≠ form_image after)
   then change "Image" change_changed (arrow (form_image before) (form_image after)) else []) ++
  (if bool_decide (form_name before ≠ form_name after)
   then change "General" change_changed (arrow (form_name before) (form_name after)) else []) ++
  (if bool_decide (form_hostname before ≠ form_hostname after)
   then change "General" change_changed
          ("Hostname " +:+ arrow (default "none" (nonempty_text (form_hostname before)))
                                (default "none" (nonempty_text (form_hostname after)))) else []) ++
  (if bool_decide (form_restartPolicy before ≠ form_restartPolicy after)
   then change "Runtime" change_changed
          ("Restart " +:+ arrow (label (form_restartPolicy before)) (label (form_restartPolicy after))) else []) ++
  compare "Ports" (portText <$> form_ports before) (portText <$> form_ports after) ++
  compare "Storage" (mountText <$> form_mounts before) (mountText <$> form_mounts after) ++
  compare "Networks" (form_networks before) (form_networks after) ++
  compare "Labels" ((λ l, labelrow_key l +:+ "=" +:+ labelrow_value l) <$> form_labels before)
    ((λ l, labelrow_key l +:+ "=" +:+ labelrow_value l) <$> form_labels after) ++
  (if bool_decide (form_command before ≠ form_command after)
   then change "Advanced" change_changed "Command" else []) ++
  (if bool_decide (form_entrypoint before ≠ form_entrypoint after)
   then change "Advanced" change_changed "Entrypoint" else []) ++
  environmentChanges (form_environment before) (form_environment after).

(** ** Nothing secret is shown *)

(** Two rows that differ at most in the value of a secret. *)
Definition same_but_secret (a b : EnvironmentRow) : Prop :=
  envrow_key a = envrow_key b ∧ envrow_secret a = envrow_secret b ∧ envrow_stored a = envrow_stored b ∧
  envrow_action a = envrow_action b ∧ (envrow_secret a = false → envrow_value a = envrow_value b).

Definition with_environment (form : ContainerFormModel) (environment : list EnvironmentRow) : ContainerFormModel := {|
  form_hostId := form_hostId form; form_name := form_name form; form_hostname := form_hostname form;
  form_image := form_image form; form_ports := form_ports form; form_mounts := form_mounts form;
  form_environment := environment; form_networks := form_networks form;
  form_restartPolicy := form_restartPolicy form; form_command := form_command form;
  form_entrypoint := form_entrypoint form; form_labels := form_labels form |}.

Lemma row_changes_hide previous after after' :
  Forall2 same_but_secret after after' → row_changes previous after = row_changes previous after'.
Proof.
  intros Hf. revert previous. induction Hf as [|a b after after' (Hk & Hs & _ & Ha & Hv) _ IH]; intros previous; [done|].
  simpl. unfold removed_text. rewrite <-Hk, <-Hs, <-Ha.
  destruct (envrow_secret a); [|rewrite <-Hv by done]; simpl; repeat case_match; simplify_eq/=; rewrite ?IH in *; congruence.
Qed.

(** What the interface shows before a change is sent does not depend on the values of the
    secrets that were typed: forms that differ only there show the same list. *)
Theorem review_hides_secrets before after environment environment' :
  Forall2 same_but_secret environment environment' →
  changesBetween before (with_environment after environment) =
  changesBetween before (with_environment after environment').
Proof.
  intros Hf. unfold changesBetween. simpl. do 10 f_equal. unfold environmentChanges.
  by rewrite (row_changes_hide _ _ _ Hf).
Qed.

(** ** A form nobody touched *)

(** *** Words *)

(** Text that neither begins nor ends with white space. *)
Definition edged (l : list ascii) : Prop :=
  (∀ c, head l = Some c → is_space c = false) ∧ (∀ c, last l = Some c → is_space c = false).

Lemma drop_while_head {A} (p : A → bool) l : (∀ c, head l = Some c → p c = false) → drop_while p l = l.
Proof. destruct l as [|c l]; [done|]. intros Hh. simpl. by rewrite (Hh c eq_refl). Qed.

Lemma trim_edged l : edged l → trim l = l.
Proof.
  intros [Hh Hl]. unfold trim. rewrite (drop_while_head is_space l) by done.
  rewrite drop_while_head; [apply rev_involutive|]. intros c Hc. apply Hl.
  rewrite rev_alt in Hc. change (head (reverse l) = Some c) in Hc. by rewrite head_reverse in Hc.
Qed.

Definition good_word (w : list ascii) : Prop := w ≠ [] ∧ Forall (λ c, is_space c = false) w.

Lemma good_edged w : good_word w → edged w.
Proof.
  intros [_ Hw]. rewrite Forall_forall in Hw. split; intros c Hc; apply Hw.
  - destruct w; simplify_eq/=; by left.
  - by apply last_Some_elem_of.
Qed.

Lemma join_edged ws : Forall good_word ws → edged (join_with " " ws) ∧ (ws ≠ [] → join_with " " ws ≠ []).
Proof.
  induction 1 as [|w ws Hw Hws [IH IHn]]; [done|]. destruct ws as [|v ws].
  { split; [by apply good_edged|]. intros _. apply Hw. }
  change (join_with " " (w :: v :: ws)) with (w ++ " "%char :: join_with " " (v :: ws)).
  destruct w as [|a w]; [by destruct Hw|]. split; [|done]. destruct (good_edged _ Hw) as [Hh _]. split.
  - intros c Hc. apply Hh. exact Hc.
  - intros c. rewrite last_app, last_cons. destruct (last (join_with " " (v :: ws))) as [x|] eqn:E.
    + intros [= <-]. by apply IH.
    + apply last_None in E. by destruct (IHn (λ E0, ltac:(discriminate E0)) E).
Qed.

Lemma split_word word w l :
  Forall (λ c, is_space c = false) w → split_spaces word (w ++ l) = split_spaces (word ++ w) l.
Proof.
  intros Hw. revert word. induction Hw as [|c w Hc Hw IH]; intros word; simpl; [by rewrite app_nil_r|].
  rewrite Hc, IH. by rewrite <-app_assoc.
Qed.

Lemma split_join_words ws : ws ≠ [] → Forall good_word ws → split_spaces [] (join_with " " ws) = ws.
Proof.
  intros Hne Hws. induction Hws as [|w ws [Hn Hw] Hws IH]; [done|]. destruct ws as [|v ws].
  { simpl. rewrite <-(app_nil_r w) at 1. by rewrite split_word. }
  change (join_with " " (w :: v :: ws)) with (w ++ " "%char :: join_with " " (v :: ws)).
  rewrite split_word by done. simpl app. destruct (join_edged (v :: ws) Hws) as [[Hh _] Hj].
  specialize (Hj ltac:(done)). specialize (IH ltac:(done)).
  destruct (join_with " " (v :: ws)) as [|c l] eqn:E; [done|].
  change (split_spaces w (" "%char :: c :: l)) with
    (if is_space c then split_spaces w (c :: l) else w :: split_spaces [] (c :: l)).
  rewrite (Hh c eq_refl), IH. done.
Qed.

(** A command whose words have no white space is read back word for word. *)
Lemma words_join ws : ws ≠ [] → Forall good_word (chars <$> ws) → nonempty_words (join_words ws) = Some ws.
Proof.
  intros Hne Hws. assert (Hne' : chars <$> ws ≠ []) by (by destruct ws).
  destruct (join_edged _ Hws) as [He Hn]. specialize (Hn Hne').
  unfold nonempty_words, words, trimmed, join_words. rewrite chars_text, (trim_edged _ He).
  assert (Ht : truthy (Some (text (join_with " " (chars <$> ws)))) = true).
  { apply truthy_Some. eexists. split; [done|]. intros E. apply Hn. by rewrite <-(chars_text (join_with _ _)), E. }
  rewrite Ht, split_join_words by done. f_equal.
  assert (Hid : text <$> (chars <$> ws) = ws).
  { rewrite <-list_fmap_compose. rewrite <-(list_fmap_id ws) at 2. apply list_fmap_ext. intros i s _. apply text_chars. }
  rewrite Hid. clear -Hws. induction ws as [|w ws IH]; [done|]. rewrite fmap_cons in Hws.
  apply Forall_cons in Hws as [[Hw _] Hws]. simpl. destruct w as [|a w]; [done|].
  exact (f_equal (cons (String a w)) (IH Hws)).
Qed.

(** *** The rest of the form *)

(** What a request decodes to: a port that is not a whole number is refused, and a field
    that is left out has its default. *)
Definition decode_port (p : RequestPort) : option PortSpec :=
  container ← whole (asked_containerPort p);
  host ← match asked_hostPort p with Some d => whole d | None => Some 0%Z end;
  Some {| port_containerPort := container; port_hostPort := host; port_protocol := asked_protocol p;
          port_hostIp := asked_hostIp p |}.

Definition decoded (r : ContainerSpecRequest) : option ConfigurationSpec :=
  ports ← mapM decode_port (asked_ports r);
  Some {| config_spec_image := asked_image r; config_spec_hostname := asked_hostname r;
          config_spec_command := asked_command r; config_spec_entrypoint := asked_entrypoint r;
          config_spec_ports := ports; config_spec_mounts := asked_mounts r;
          config_spec_environment := asked_environment r; config_spec_networks := asked_networks r;
          config_spec_restartPolicy := asked_restartPolicy r; config_spec_labels := asked_labels r;
          config_spec_healthcheck := None |}.

(** Text the form sends as it is. *)
Definition tidy (s : string) : bool := bool_decide (trimmed s = s) && truthy (Some s).

Definition tidy_words (ws : option (list string)) : bool :=
  match ws with
  | None => true
  | Some ws => bool_decide (ws ≠ []) &&
      forallb (λ w, truthy (Some w) && forallb (λ c, negb (is_space c)) (chars w)) ws
  end.

Definition tidy_port (p : PortSpec) : bool :=
  between 1 65535 (port_containerPort p) && between 0 65535 (port_hostPort p) &&
  bool_decide (port_hostIp p ≠ Some "").

(** A configuration the form can hold: no white space where it trims or splits. *)
Definition tidy_configuration (c : ContainerConfiguration) : bool :=
  tidy (current_name c) && tidy (current_image c) && optional tidy (current_hostname c) &&
  tidy_words (current_command c) && tidy_words (current_entrypoint c) &&
  forallb tidy_port (current_ports c) &&
  forallb (λ m, tidy (mount_source m) && tidy (mount_target m)) (current_mounts c) &&
  forallb (λ n, truthy (Some n)) (current_networks c) &&
  mem (current_restartPolicy c) RESTART_POLICIES.*1 &&
  forallb (λ kv, tidy kv.1) (current_labels c) && bool_decide (NoDup (current_labels c).*1) &&
  forallb (λ v, tidy (shown_key v)) (current_environment c).

(** What an untouched variable is asked to be. *)
Definition kept (v : EnvironmentVariable) : EnvironmentChange :=
  if shown_secret v then Unchanged (shown_key v) else Set_value (shown_key v) (shown_value v ?? "").

Definition asked_again (c : ContainerConfiguration) : ConfigurationSpec := {|
  config_spec_image := current_image c; config_spec_hostname := current_hostname c;
  config_spec_command := current_command c; config_spec_entrypoint := current_entrypoint c;
  config_spec_ports := current_ports c; config_spec_mounts := current_mounts c;
  config_spec_environment := kept <$> current_environment c; config_spec_networks := current_networks c;
  config_spec_restartPolicy := current_restartPolicy c; config_spec_labels := current_labels c;
  config_spec_healthcheck := None |}.

Lemma tidy_true s : tidy s = true ↔ trimmed s = s ∧ truthy (Some s) = true.
Proof. unfold tidy. by rewrite andb_true_iff, bool_decide_eq_true. Qed.

(** A list that passes a filter and comes through two translations. *)
Lemma through {A B C} (f : A → B) (g : B → C) (h : A → C) (p : B → bool) l :
  Forall (λ x, p (f x) = true ∧ g (f x) = h x) l → g <$> List.filter p (f <$> l) = h <$> l.
Proof.
  induction 1 as [|x l [Hp Hg] _ IH]; [done|]. rewrite fmap_cons. cbn [List.filter]. rewrite Hp, !fmap_cons, Hg. by f_equal.
Qed.

Lemma decode_row p : tidy_port p = true → hasPort (port_row p) = true ∧ decode_port (toPort (port_row p)) = Some p.
Proof.
  unfold tidy_port, between. intros Hp. rewrite !andb_true_iff, bool_decide_eq_true, !Z.leb_le in Hp.
  destruct Hp as [[[Hc1 Hc2] [Hh1 Hh2]] Hip]. destruct p as [container host protocol ip]. simpl in *.
  assert (Hb : (65535 < 2 ^ 53)%Z) by done. split.
  - unfold hasPort, trimmed. simpl. destruct (number_text_digits container) as (_ & Hd & Hne); [lia|].
    rewrite trim_id, text_chars; [by destruct (number_text container)|].
    rewrite forallb_forall in Hd. rewrite Forall_forall. intros c Hc%list_elem_of_In%Hd. by apply digit_no_space.
  - unfold decode_port, toPort. simpl. rewrite Number_text by lia. simpl.
    destruct (number_text_digits host) as (_ & _ & Hne); [lia|].
    destruct (Z.eqb_spec host 0) as [->|Hz]; simpl.
    + destruct ip as [[|]|]; [by destruct Hip|done..].
    + unfold nonempty_text. destruct (number_text host) as [|a t] eqn:E; [done|]. rewrite <-E. simpl.
      rewrite E. simpl. rewrite <-E, Number_text by lia. simpl. destruct ip as [[|]|]; [by destruct Hip|done..].
Qed.

Lemma from_entries_id l : NoDup l.*1 → from_entries l = l.
Proof.
  unfold from_entries. induction l as [|[k v] l IH] using rev_ind; [done|]. rewrite fmap_app, foldl_app. simpl.
  intros [Hl [Hd _]]%NoDup_app. rewrite (IH Hl). apply jset_fresh, jget_None. intros Hk. apply (Hd k Hk). by left.
Qed.

Lemma tidy_words_kept ws : tidy_words ws = true → nonempty_words (join_words (default [] ws)) = ws.
Proof.
  destruct ws as [ws|]; [|done]. simpl. rewrite andb_true_iff, bool_decide_eq_true. intros [Hne Hf].
  apply words_join; [done|]. rewrite Forall_fmap, Forall_forall. intros w Hw.
  rewrite forallb_forall in Hf. apply list_elem_of_In, Hf, andb_true_iff in Hw as [Ht Hs]. split; simpl.
  - by destruct w.
  - rewrite Forall_forall. intros c Hc%list_elem_of_In. rewrite forallb_forall in Hs. by apply negb_true_iff, Hs.
Qed.

Lemma known_policy_id p : mem p RESTART_POLICIES.*1 = true → known_policy p = p.
Proof.
  intros Hp%bool_decide_eq_true. simpl in Hp. rewrite !elem_of_cons, elem_of_nil in Hp.
  by destruct Hp as [->|[->|[->|[->|[]]]]].
Qed.

Lemma mapM_through {A B C} (f : A → B) (h : B → C) (g : C → option A) (p : B → bool) l :
  Forall (λ x, p (f x) = true ∧ g (h (f x)) = Some x) l → mapM g (h <$> List.filter p (f <$> l)) = Some l.
Proof.
  induction 1 as [|x l [Hp Hg] _ IH]; [done|]. rewrite fmap_cons. cbn [List.filter]. rewrite Hp, fmap_cons.
  cbn [mapM]. by rewrite Hg, IH.
Qed.

(** The request of an untouched form. *)
Lemma request_again c hostId includeHost :
  tidy_configuration c = true →
  decoded (requestFrom (formFrom c hostId) includeHost) = Some (asked_again c) ∧
  asked_name (requestFrom (formFrom c hostId) includeHost) = current_name c.
Proof.
  unfold tidy_configuration. rewrite !andb_true_iff, bool_decide_eq_true.
  intros (((((((((((Hname & Himage) & Hhost) & Hcmd) & Hentry) & Hports) & Hmounts) & Hnets) & Hpolicy) & Hlabels) & Hdup) & Henv).
  apply tidy_true in Hname as [Hname _], Himage as [Himage _]. split; [|exact Hname].
  assert (Hp : mapM decode_port (asked_ports (requestFrom (formFrom c hostId) includeHost)) = Some (current_ports c)).
  { apply mapM_through. eapply Forall_impl; [exact (proj1 (forallb_Forall _ _) Hports)|]. intros p. apply decode_row. }
  unfold decoded, asked_again. rewrite Hp. cbn -[trimmed truthy nonempty_text]. f_equal. f_equal; [exact Himage|..].
  - destruct (current_hostname c) as [h|]; [|done]. apply tidy_true in Hhost as [Hh Ht]. unfold default.
    cbn [from_option id]. rewrite Hh. unfold nonempty_text. by rewrite Ht.
  - by apply tidy_words_kept.
  - by apply tidy_words_kept.
  - rewrite <-(list_fmap_id (current_mounts c)) at 2. apply through. eapply Forall_impl; [exact (proj1 (forallb_Forall _ _) Hmounts)|].
    intros m [[Hs Hs']%tidy_true [Ht Ht']%tidy_true]%andb_true_iff. unfold mount_row, toMount. cbn [mountrow_source mountrow_target].
    rewrite Hs, Ht, Hs', Ht'. split; [done|]. by destruct m.
  - apply through. eapply Forall_impl; [exact (proj1 (forallb_Forall _ _) Henv)|]. intros v [Hk Ht]%tidy_true.
    unfold environment_row, toEnvironment, kept. cbn [envrow_key envrow_stored envrow_secret envrow_action envrow_value].
    rewrite Hk, Ht. split; [done|]. by destruct (shown_secret v).
  - apply forallb_Forall in Hnets. clear -Hnets. induction Hnets as [|n l Hn _ IH]; [done|]. cbn [List.filter]. by rewrite Hn, IH.
  - by apply known_policy_id.
  - change (from_entries ((λ l : LabelRow, (trimmed (labelrow_key l), labelrow_value l)) <$>
      List.filter (λ l : LabelRow, truthy (Some (trimmed (labelrow_key l))))
        ((λ kv : string * string, {| labelrow_key := kv.1; labelrow_value := kv.2 |}) <$> current_labels c)) = current_labels c).
    rewrite (through _ _ id); [rewrite list_fmap_id; by apply from_entries_id|].
    eapply Forall_impl; [exact (proj1 (forallb_Forall _ _) Hlabels)|]. intros [k v] [Hk Ht]%tidy_true. cbn [labelrow_key labelrow_value fst snd] in *.
    by rewrite Hk, Ht.
Qed.

(** *** What the server makes of it *)

(** A variable the server stored: a plain one has its value and nothing encrypted. *)
Definition well_stored (v : StoredVariable) : bool :=
  variable_isSecret v || (bool_decide (variable_valueEncrypted v = None) && bool_decide (variable_value v ≠ None)).

(** A variable as the browser is shown it. *)
Definition seen (v : string * bool * option string) : EnvironmentVariable :=
  {| shown_key := v.1.1; shown_secret := v.1.2; shown_value := v.2 |}.

Definition shown_stored (v : StoredVariable) : EnvironmentVariable := {|
  shown_key := variable_key v; shown_secret := variable_isSecret v;
  shown_value := if variable_isSecret v then None else Some (variable_value v ?? "") |}.

Lemma seen_stored previous : seen <$> presentEnvironment previous = shown_stored <$> (of_container_row <$> previous).
Proof. unfold presentEnvironment. by rewrite <-!list_fmap_compose. Qed.

Section untouched.
Context `{AesGcm} (box : list ascii).

Lemma resolve_kept code previous l w :
  NoDup (variable_key <$> previous) → Forall (λ v, v ∈ previous ∧ well_stored v = true) l →
  resolve_entries box code previous (kept <$> (shown_stored <$> l)) w = (inr l, w).
Proof.
  intros Hnd. induction 1 as [|v l [Hin Hv] _ IH]; [done|]. rewrite !fmap_cons. cbn [resolve_entries].
  assert (He : resolve_entry box code previous (kept (shown_stored v)) w = (inr [v], w)).
  { unfold kept, shown_stored. cbn [shown_key shown_secret shown_value]. unfold well_stored in Hv.
    destruct v as [key value encrypted []]; simpl in *.
    - pose proof (map_get_NoDup variable_key previous _ Hnd Hin) as Hm. simpl in Hm. unfold carried. by rewrite Hm.
    - rewrite andb_true_iff, !bool_decide_eq_true in Hv. destruct Hv as [-> Hv]. by destruct value. }
  unfold mbind at 1, M_bind at 1. rewrite He. unfold mbind, M_bind. by rewrite IH.
Qed.

End untouched.

(** ** A form without problems *)

Lemma problem_nil b field message : problem b field message = [] ↔ b = false.
Proof. by destruct b. Qed.

Definition published (row : PortRow) : bool := truthy (Some (trimmed (portrow_hostPort row))).

Definition fine_port (row : PortRow) : Prop :=
  hasPort row = true ∧ inRange (Number (portrow_containerPort row)) = true ∧
  (published row = true → inRange (Number (portrow_hostPort row)) = true).

Lemma port_problems_nil bound index rows_ :
  port_problems bound index rows_ = [] →
  Forall fine_port rows_ ∧ repeated "ports" bound (form_binding <$> List.filter published rows_) = [].
Proof.
  revert bound index. induction rows_ as [|p rows_ IH]; intros bound index; [done|]. cbn [port_problems List.filter].
  intros [Hc%problem_nil Hrest]%app_nil. apply orb_false_iff in Hc as [Hp%negb_false_iff Hc%negb_false_iff].
  fold (published p) in Hrest. destruct (published p) eqn:Epub; cbn [negb] in Hrest.
  - destruct (inRange (Number (portrow_hostPort p))) eqn:Eh; cbn [negb] in Hrest; [|done].
    apply app_nil in Hrest as [Hb%problem_nil Hrest]. apply IH in Hrest as [Hf Hr].
    split; [constructor; [done|exact Hf]|]. rewrite fmap_cons. cbn [repeated]. by rewrite Hb, Hr.
  - apply IH in Hrest as [Hf Hr]. split; [|exact Hr]. constructor; [|exact Hf]. split_and!; [done..|]. by rewrite Epub.
Qed.

Definition fine_mount (row : MountRow) : Prop :=
  truthy (Some (trimmed (mountrow_source row))) = true ∧ truthy (Some (trimmed (mountrow_target row))) = true ∧
  (mountrow_type row = "bind" → forbiddenBind (mountrow_source row) = false).

Lemma mount_problems_nil targets index rows_ :
  mount_problems targets index rows_ = [] →
  Forall fine_mount rows_ ∧ repeated "mounts" targets ((trimmed ∘ mountrow_target) <$> rows_) = [].
Proof.
  revert targets index. induction rows_ as [|m rows_ IH]; intros targets index; [done|]. cbn [mount_problems].
  intros [Hs [Ht Hrest%IH]%app_nil]%app_nil. destruct Hrest as [Hf Hr].
  destruct (truthy (Some (trimmed (mountrow_source m)))) eqn:Es; cbn [negb] in Hs; [|done].
  destruct (truthy (Some (trimmed (mountrow_target m)))) eqn:Et; cbn [negb] in Ht; [|done].
  destruct (String.prefix "/" (mountrow_target m)); cbn [negb] in Ht; [|done].
  apply problem_nil in Hs, Ht. split.
  - constructor; [|exact Hf]. split_and!; [done..|]. intros Hb. rewrite bool_decide_eq_true_2 in Hs by done. exact Hs.
  - rewrite fmap_cons. cbn [repeated compose]. by rewrite Ht, Hr.
Qed.

Definition fine_variable (row : EnvironmentRow) : Prop :=
  truthy (Some (trimmed (envrow_key row))) = true ∧ ENV_KEY (trimmed (envrow_key row)) = true.

Lemma environment_problems_nil keys index rows_ :
  environment_problems keys index rows_ = [] →
  Forall fine_variable rows_ ∧ repeated "environment" keys ((trimmed ∘ envrow_key) <$> rows_) = [].
Proof.
  revert keys index. induction rows_ as [|r rows_ IH]; intros keys index; [done|]. cbn [environment_problems].
  destruct (truthy (Some (trimmed (envrow_key r)))) eqn:Et; cbn [negb]; [|done].
  intros [Hk%problem_nil [Hd%problem_nil [_ [_ Hrest%IH]%app_nil]%app_nil]%app_nil]%app_nil.
  destruct Hrest as [Hf Hr]. apply negb_false_iff in Hk. split; [by constructor|].
  rewrite fmap_cons. cbn [repeated compose]. by rewrite Hd, Hr.
Qed.

(** *** The ports of a request *)

Definition spec_of (row : PortRow) : PortSpec := {|
  port_containerPort := default 0%Z (whole (Number (portrow_containerPort row)));
  port_hostPort := if published row then host_number row else 0%Z;
  port_protocol := portrow_protocol row; port_hostIp := nonempty_text (portrow_hostIp row) |}.

Lemma inRange_whole d : inRange d = true → ∃ n, whole d = Some n ∧ (1 <= n <= 65535)%Z.
Proof.
  unfold inRange, between. destruct (whole d) as [n|]; [|done]. rewrite andb_true_iff, !Z.leb_le. by exists n.
Qed.

Lemma blank_number s : truthy (Some (trimmed s)) = false → whole (Number s) = Some 0%Z.
Proof.
  unfold trimmed, Number. destruct (trim (chars s)) as [|c l] eqn:E; [done|]. done.
Qed.

Lemma decode_fine row : fine_port row → decode_port (toPort row) = Some (spec_of row) ∧ is_bound (spec_of row) = published row.
Proof.
  intros (_ & Hc & Hh). destruct (inRange_whole _ Hc) as (n & En & Hn).
  unfold decode_port, toPort, spec_of, is_bound, host_number. cbn [asked_containerPort asked_hostPort asked_protocol asked_hostIp port_hostPort].
  rewrite En. cbn [mbind option_bind default from_option id]. destruct (published row) eqn:Ep.
  - destruct (inRange_whole _ (Hh eq_refl)) as (h & Eh & Hb). unfold nonempty_text.
    assert (Ht : truthy (Some (portrow_hostPort row)) = true).
    { unfold published in Ep. by destruct (portrow_hostPort row). }
    rewrite Ht. cbn [fmap option_fmap option_map]. rewrite Eh. split; [done|]. cbn. apply negb_true_iff, Z.eqb_neq. lia.
  - split; [|done]. unfold nonempty_text. destruct (truthy (Some (portrow_hostPort row))); [|done].
    cbn [fmap option_fmap option_map]. by rewrite (blank_number _ Ep).
Qed.

(** Text up to its last colon, and what follows it. *)
Lemma last_colon (a b r s : list ascii) :
  ":"%char ∉ r → ":"%char ∉ s → a ++ ":"%char :: r = b ++ ":"%char :: s → a = b ∧ r = s.
Proof.
  intros Hr Hs E. apply (f_equal reverse) in E. rewrite !reverse_app, !reverse_cons, <-!app_assoc in E. simpl in E.
  apply (f_equal (break_on ":")) in E. rewrite !break_on_app in E by (by rewrite elem_of_reverse).
  injection E as Er Ea. split; [apply (f_equal reverse) in Ea|apply (f_equal reverse) in Er]; by rewrite !reverse_involutive in *.
Qed.

Definition port_suffix (row : PortRow) : string :=
  number_text (host_number row) +:+ "/" +:+ portrow_protocol row.

Lemma suffix_no_colon row :
  portrow_protocol row = "tcp" ∨ portrow_protocol row = "udp" → ":"%char ∉ chars (port_suffix row).
Proof.
  intros Hp. unfold port_suffix. rewrite !chars_app, !elem_of_app. intros [Hin|[Hin|Hin]].
  - unfold number_text in Hin. pose proof (pretty_digits (Z.to_N (host_number row))) as Hd.
    rewrite Forall_forall in Hd. by apply Hd in Hin.
  - by apply list_elem_of_singleton in Hin.
  - assert (Hno : mem ":"%char (chars (portrow_protocol row)) = false) by (by destruct Hp as [-> | ->]).
    apply bool_decide_eq_false in Hno. done.
Qed.

(** Rows the server would call the same binding the form calls the same. *)
Lemma same_binding a b :
  (portrow_protocol a = "tcp" ∨ portrow_protocol a = "udp") → (portrow_protocol b = "tcp" ∨ portrow_protocol b = "udp") →
  published a = true → published b = true →
  binding_key (spec_of a) = binding_key (spec_of b) → form_binding a = form_binding b.
Proof.
  intros Ha Hb Pa Pb E.
  assert (Hkey : ∀ r, published r = true → chars (binding_key (spec_of r)) = chars (portrow_hostIp r) ++ ":"%char :: chars (port_suffix r)).
  { intros r Hr. unfold binding_key, spec_of, port_suffix. cbn [port_hostIp port_hostPort port_protocol]. rewrite Hr.
    rewrite !chars_app. unfold nonempty_text. by destruct (portrow_hostIp r). }
  apply (f_equal chars) in E. rewrite !Hkey in E by done.
  apply last_colon in E as [Eip Es]; [|by apply suffix_no_colon..].
  apply (f_equal text) in Eip, Es. rewrite !text_chars in Eip, Es. unfold form_binding. unfold port_suffix in Es.
  by rewrite Eip, Es.
Qed.

Lemma NoDup_coarser {A} (f g : A → string) l :
  (∀ x y, x ∈ l → y ∈ l → g x = g y → f x = f y) → NoDup (f <$> l) → NoDup (g <$> l).
Proof.
  induction l as [|x l IH]; intros Hg; [constructor|]. rewrite !fmap_cons, !NoDup_cons. intros [Hx Hl]. split.
  - intros (y & E & Hy)%list_elem_of_fmap. apply Hx, list_elem_of_fmap. exists y. split; [|done].
    apply Hg; [by left|by right|done].
  - apply IH; [|done]. intros a b Ha Hb. apply Hg; by right.
Qed.

Lemma filter_through {A B} (f : A → B) (p : B → bool) (q : A → bool) l :
  Forall (λ x, p (f x) = q x) l → List.filter p (f <$> l) = f <$> List.filter q l.
Proof.
  induction 1 as [|x l Hx _ IH]; [done|]. rewrite fmap_cons. cbn [List.filter]. rewrite Hx. destruct (q x); [|done].
  rewrite fmap_cons. by f_equal.
Qed.

Lemma mapM_total {A B C} (f : A → B) (g : B → option C) (h : A → C) l :
  Forall (λ x, g (f x) = Some (h x)) l → mapM g (f <$> l) = Some (h <$> l).
Proof. induction 1 as [|x l Hx _ IH]; [done|]. rewrite !fmap_cons. cbn [mapM]. by rewrite Hx, IH. Qed.

(** What the interface calls a port's protocol. *)
Definition typed_ports (form : ContainerFormModel) : bool :=
  forallb (λ p, mem (portrow_protocol p) ["tcp"; "udp"]) (form_ports form).

Lemma protocol_cases p : mem p ["tcp"; "udp"] = true → p = "tcp" ∨ p = "udp".
Proof. intros Hp%bool_decide_eq_true. rewrite !elem_of_cons, elem_of_nil in Hp. naive_solver. Qed.

Lemma toEnvironment_key r : entry_key (toEnvironment r) = trimmed (envrow_key r).
Proof. unfold toEnvironment. by repeat case_match. Qed.

Lemma clean_ports rows_ :
  forallb (λ p, mem (portrow_protocol p) ["tcp"; "udp"]) rows_ = true → Forall fine_port rows_ →
  NoDup (form_binding <$> List.filter published rows_) →
  NoDup (binding_key <$> List.filter is_bound (spec_of <$> rows_)).
Proof.
  intros Htyped Hfine Hnd. rewrite (filter_through spec_of is_bound published).
  - rewrite <-list_fmap_compose. revert Hnd. apply NoDup_coarser. intros a b Ha Hb. rewrite forallb_forall in Htyped.
    apply list_elem_of_In, filter_In in Ha as [Ha Pa], Hb as [Hb Pb].
    apply same_binding; [by apply protocol_cases, Htyped..|done|done].
  - eapply Forall_impl; [exact Hfine|]. intros p Hp. by apply decode_fine.
Qed.


(** *** A container in the form *)

Definition web : ContainerConfiguration := {|
  current_name := "web"; current_image := "nginx:1.27"; current_hostname := Some "web";
  current_command := Some ["nginx"; "-g"; "daemon-off"]; current_entrypoint := None;
  current_ports := [{| port_containerPort := 80; port_hostPort := 8080; port_protocol := "tcp"; port_hostIp := Some "127.0.0.1" |};
                    {| port_containerPort := 443; port_hostPort := 0; port_protocol := "udp"; port_hostIp := None |}];
  current_mounts := [{| mount_type := "bind"; mount_source := "/srv/web"; mount_target := "/data"; mount_readOnly := true |}];
  current_networks := ["front"]; current_restartPolicy := "always"; current_labels := [("tier", "web")];
  current_environment := seen <$> presentEnvironment [example_row "MODE" false "production"; example_row "TOKEN" true "v1.aaaa.bbbb.cc"] |}.


Lemma review_hides_secrets_witness :
  let row v := {| envrow_key := "TOKEN"; envrow_value := v; envrow_secret := true; envrow_stored := true; envrow_action := row_change |} in
  changesBetween (formFrom web "h1") (with_environment (formFrom web "h1") [row "first"]) =
  changesBetween (formFrom web "h1") (with_environment (formFrom web "h1") [row "second"]).
Proof. cbv zeta. apply review_hides_secrets. repeat constructor. intros E. discriminate E. Defined.


(** *** Where the form loses something *)

Definition with_command (ws : list string) : ContainerConfiguration := {|
  current_name := "web"; current_image := "nginx:1.27"; current_hostname := None;
  current_command := Some ws; current_entrypoint := None; current_ports := []; current_mounts := [];
  current_networks := []; current_restartPolicy := "always"; current_labels := []; current_environment := [] |}.

(** An argument with a space in it is taken apart by saving the form, and the list of changes
    says nothing. *)
Theorem untouched_command_is_split :
  let c := with_command ["sh"; "-c"; "echo hello world"] in
  asked_command (requestFrom (formFrom c "h1") false) = Some ["sh"; "-c"; "echo"; "hello"; "world"] ∧
  changesBetween (formFrom c "h1") (formFrom c "h1") = [].
Proof. vm_compute. auto. Qed.

(** A mount that becomes one of another kind is not among the changes shown. *)
Theorem mount_kind_not_shown :
  let form kind := {| form_hostId := "h1"; form_name := "web"; form_hostname := ""; form_image := "nginx";
    form_ports := []; form_mounts := [{| mountrow_type := kind; mountrow_source := "data"; mountrow_target := "/data";
                                         mountrow_readOnly := false |}];
    form_environment := []; form_networks := []; form_restartPolicy := "no"; form_command := "";
    form_entrypoint := ""; form_labels := [] |} in
  changesBetween (form "volume") (form "bind") = [] ∧
  asked_mounts (requestFrom (form "volume") false) ≠ asked_mounts (requestFrom (form "bind") false).
Proof. split; [by vm_compute|]. vm_compute. intros E. discriminate E. Qed.

(** A row that is not complete is refused by the form and would not be by the server, which is
    never sent it. *)
Theorem incomplete_row_not_sent :
  let form := with_environment (formFrom (with_command ["nginx"]) "h1")
    [{| envrow_key := " "; envrow_value := "1"; envrow_secret := false; envrow_stored := false; envrow_action := row_unchanged |}] in
  problemsIn form false ≠ [] ∧ (accepts <$> decoded (requestFrom form false)) = Some true.
Proof. split; [vm_compute; intros E; discriminate E|by vm_compute]. Qed.
