(* ===== verification/StackForm.v ===== *)
(** * Stacks in the web interface

    [app/src/app/domain/stacks.ts], [app/src/app/features/stacks/stack-form-model.ts]
    and [toStack] of [app/src/app/data/real-dockplane-api.ts]: what state the
    interface says a stack is in, what it offers to do with it, and the form a
    revision is edited in.  The theorems are about the interface and the server
    together: what is offered is not refused for the state of the stack, what
    applying a revision is called is what the server calls it, and a form nobody
    touched stores the revision's variables again. *)

From Stdlib Require Import Ascii String NArith ZArith.
From stdpp Require Import gmap strings list pretty.
From S2P Require Import Prelude Schema Store Registry Effects Logic Base64 Environment PendingGuard Discovery.
From S2P Require Import StackDeployment StackLifecycle StackService ContainerSpec JsMap RevisionDiff ContainerForm.

(** ** Data *)

Record ClientStack := {
  client_id : string;
  client_name : string;
  client_hostId : string;
  client_hostName : string;
  client_hostname : string;
  client_sourceType : string;
  client_status : string;
  client_latestRevision : option RevisionView;
  client_deployedRevision : option RevisionView;
  client_reconciling : bool;
  client_hostReachable : bool;
  client_lastDeployedAt : option time
}.

Definition toStack (stack : StackView) : ClientStack := {|
  client_id := sview_id stack; client_name := sview_name stack; client_hostId := sview_hostId stack;
  client_hostName := sview_hostDisplayName stack ?? sview_hostname stack;
  client_hostname := sview_hostname stack; client_sourceType := sview_sourceType stack;
  client_status := sview_status stack; client_latestRevision := sview_latestRevision stack;
  client_deployedRevision := sview_deployedRevision stack; client_reconciling := sview_reconciling stack;
  client_hostReachable := sview_hostReachable stack; client_lastDeployedAt := sview_lastDeployedAt stack |}.

Inductive StackState := st_needs_attention | st_reconciling | st_not_deployed | st_stopped | st_changes_pending | st_running.

#[export] Instance StackState_eq_dec : EqDecision StackState.
Proof. solve_decision. Defined.

Definition stackState (stack : ClientStack) : StackState :=
  if bool_decide (client_status stack = "needs_attention") then st_needs_attention
  else if client_reconciling stack || bool_decide (client_status stack = "deploying") then st_reconciling
  else
    match client_deployedRevision stack with
    | None => st_not_deployed
    | Some deployed =>
        if bool_decide (client_status stack = "stopped") then st_stopped
        else
          match client_latestRevision stack with
          | Some latest => if bool_decide (rview_id latest ≠ rview_id deployed) then st_changes_pending else st_running
          | None => st_running
          end
    end.

Definition STACK_STATE_LABELS (s : StackState) : string :=
  match s with
  | st_needs_attention => "Needs attention" | st_reconciling => "Reconciling" | st_not_deployed => "Not deployed"
  | st_stopped => "Stopped" | st_changes_pending => "Changes not deployed" | st_running => "Running"
  end.

(** [ApplyKind] of the interface. *)
Inductive ClientApplyKind := apply_deploy | apply_redeploy | apply_rollback | apply_repair.

Definition applyKind (stack : ClientStack) (target : N) : ClientApplyKind :=
  if bool_decide (stackState stack = st_needs_attention) then apply_repair
  else
    match client_deployedRevision stack with
    | None => apply_deploy
    | Some deployed => if (target <? rview_number deployed)%N then apply_rollback else apply_redeploy
    end.

Definition APPLY_LABELS (kind : ClientApplyKind) (revision : N) : string :=
  match kind with
  | apply_deploy | apply_redeploy => "Deploy revision #" +:+ pretty revision
  | apply_rollback => "Roll back to revision #" +:+ pretty revision
  | apply_repair => "Repair using revision #" +:+ pretty revision
  end.

Inductive ClientOperation := op_start | op_stop | op_restart.

#[export] Instance ClientOperation_eq_dec : EqDecision ClientOperation.
Proof. solve_decision. Defined.

Definition stackOperations (stack : ClientStack) : list ClientOperation :=
  match stackState stack with
  | st_stopped => [op_start]
  | st_running | st_changes_pending => [op_stop; op_restart]
  | _ => []
  end.

(** ** The form *)

Record StackFormModel := {
  stackform_name : string;
  stackform_hostId : string;
  stackform_compose : string;
  stackform_environment : list EnvironmentRow
}.

(** [/^[a-z0-9][a-z0-9_-]*$/] *)
Definition NAME_PATTERN (s : string) : bool :=
  let first c := is_alnum c && negb (is_upper c) in
  match chars s with
  | [] => false
  | c :: cs => first c && forallb (λ c, first c || one_of "_-" c) cs
  end.

(** [/^[A-Za-z_][A-Za-z0-9_]*$/] *)
Definition KEY_PATTERN (s : string) : bool :=
  match chars s with
  | [] => false
  | c :: cs => (is_alpha c || one_of "_" c) && forallb (λ c, is_alnum c || one_of "_" c) cs
  end.

Definition STARTER_COMPOSE : string :=
  text (join_with newline (chars <$> ["services:"; "  web:"; "    image: nginx:1.27"; ""])).

Definition emptyStackForm : StackFormModel := {|
  stackform_name := ""; stackform_hostId := ""; stackform_compose := STARTER_COMPOSE; stackform_environment := [] |}.

Definition formFromConfiguration (name hostId compose : string) (environment : list EnvironmentVariable) : StackFormModel := {|
  stackform_name := name; stackform_hostId := hostId; stackform_compose := compose;
  stackform_environment := environment_row <$> environment |}.

(** The changes a row asks for: none when it has no name. *)
Definition row_change_of (row : EnvironmentRow) : list EnvironmentChange :=
  let key := trimmed (envrow_key row) in
  if negb (truthy (Some key)) then []
  else if envrow_stored row && bool_decide (envrow_action row = row_remove) then [Remove key]
  else if envrow_stored row && envrow_secret row && bool_decide (envrow_action row = row_unchanged) then [Unchanged key]
  else [if envrow_secret row then Set_secret key (envrow_value row) else Set_value key (envrow_value row)].

Definition stackEnvironmentChanges (rows_ : list EnvironmentRow) : list EnvironmentChange := rows_ ≫= row_change_of.

(** What the compiler is given to check a file with. *)
Definition validationEnvironment (rows_ : list EnvironmentRow) : list (string * string * bool) :=
  (λ r, (trimmed (envrow_key r), envrow_value r, envrow_secret r)) <$>
  List.filter (λ r, truthy (Some (trimmed (envrow_key r))) &&
                    negb (envrow_stored r && bool_decide (envrow_action r = row_remove))) rows_.

Fixpoint variable_problems (seen : gset string) (index : nat) (rows_ : list EnvironmentRow) : list FieldProblem :=
  match rows_ with
  | [] => []
  | row :: rows_ =>
      let key := trimmed (envrow_key row) in
      if negb (truthy (Some key)) then
        problem true (at_row "environment" index "key") "A variable needs a name." ++ variable_problems seen (S index) rows_
      else
        problem (negb (KEY_PATTERN key)) (at_row "environment" index "key")
          "Use letters, digits and underscores, starting with a letter or underscore." ++
        problem (bool_decide (key ∈ seen)) (at_row "environment" index "key") "This variable is listed twice." ++
        problem (envrow_secret row && negb (envrow_stored row) && negb (truthy (Some (envrow_value row))))
          (at_row "environment" index "value") "A secret needs a value." ++
        problem (envrow_stored row && envrow_secret row && bool_decide (envrow_action row = row_change) &&
                 negb (truthy (Some (envrow_value row))))
          (at_row "environment" index "value") "Enter the new secret value." ++
        variable_problems ({[key]} ∪ seen) (S index) rows_
  end.

Definition stackProblemsIn (model : StackFormModel) (requireIdentity : bool) : list FieldProblem :=
  (if requireIdentity then
     (if negb (truthy (Some (trimmed (stackform_name model)))) then problem true "name" "A stack needs a name."
      else problem (negb (NAME_PATTERN (trimmed (stackform_name model)))) "name"
             "Use lower-case letters, digits, hyphens and underscores.") ++
     problem (negb (truthy (Some (stackform_hostId model)))) "hostId" "Choose the host this stack runs on."
   else []) ++
  problem (negb (truthy (Some (trimmed (stackform_compose model))))) "compose" "A stack needs a Compose file." ++
  variable_problems ∅ 0 (stackform_environment model).

Definition problemFor (problems : list FieldProblem) (field : string) : option string :=
  problem_message <$> find_first (λ p, bool_decide (problem_field p = field)) problems.

(** ** What is offered is accepted *)

(** A stack that is not shown as being reconciled has nothing unresolved. *)
Lemma nothing_unresolved stackId w :
  healthy w →
  mem stackId ((deployment_stackId <$> select_where (unresolved_deployment_of stackId) (w_db w)) ++
               (operation_stackId <$> select_where (unresolved_operation_of stackId) (w_db w))) = false →
  assertNothingUnresolved stackId w = (inr tt, w).
Proof.
  intros Hw Hm%bool_decide_eq_false. rewrite not_elem_of_app in Hm. destruct Hm as [Hd Ho].
  unfold assertNothingUnresolved. rewrite (run_bind _ _ _ _ _ (run_select_first w Hw _)).
  destruct (select_where (unresolved_deployment_of stackId) (w_db w)) as [|r l] eqn:Ed; simpl.
  2: { destruct Hd. assert (Hr : r ∈ select_where (unresolved_deployment_of stackId) (w_db w)) by (rewrite Ed; by left).
       apply elem_of_select_where in Hr as [_ [Hr%bool_decide_eq_true _]%andb_true_iff]. rewrite fmap_cons, Hr. by left. }
  rewrite (run_bind _ _ _ _ _ (run_select_first w Hw _)).
  destruct (select_where (unresolved_operation_of stackId) (w_db w)) as [|r l] eqn:Eo; simpl; [done|].
  destruct Ho. assert (Hr : r ∈ select_where (unresolved_operation_of stackId) (w_db w)) by (rewrite Eo; by left).
  apply elem_of_select_where in Hr as [_ [Hr%bool_decide_eq_true _]%andb_true_iff]. rewrite fmap_cons, Hr. by left.
Qed.

(** What an operation being offered says of the stack. *)
Lemma offered_state stack op :
  op ∈ stackOperations stack →
  client_status stack ≠ "needs_attention" ∧ client_reconciling stack = false ∧ is_Some (client_deployedRevision stack).
Proof.
  unfold stackOperations, stackState. case_bool_decide; [by intros ?%elem_of_nil|].
  destruct (client_reconciling stack); [by intros ?%elem_of_nil|]. simpl. case_bool_decide; [by intros ?%elem_of_nil|].
  destruct (client_deployedRevision stack) as [r|]; [by eauto|]. by intros ?%elem_of_nil.
Qed.

(** C38: what the interface offers to do with a stack the server does not refuse for the state of
    the stack: when its answer about a stack offers an operation, the guards of that
    operation let it through, unless the host is archived. *)
Theorem offered_operation_accepted stackId w v w' op :
  healthy w → detail stackId w = (inr v, w') → op ∈ stackOperations (toStack v) →
  stackRevisions (w_db w) !! "" = None →
  (∀ h, hosts (w_db w) !! sview_hostId v = Some h → host_archivedAt h = None) →
  ∃ stack, stacks (w_db w) !! stackId = Some stack ∧ operableStack stackId w = (inr stack, w).
Proof.
  intros Hw E Hop Hno Hactive. unfold detail in E. rewrite (run_bind _ _ _ _ _ (run_read w Hw _)) in E.
  destruct (stacks (w_db w) !! stackId) as [stack|] eqn:Es; [|done]. cbn [mbind option_bind] in E.
  destruct (joined stack (w_db w)) as [row|] eqn:Ej; [|done].
  rewrite (run_bind _ _ _ _ _ (unresolvedStacks_run stackId w Hw)) in E.
  destruct (reachableHosts_run w Hw) as [reachable Er]. rewrite (run_bind _ _ _ _ _ Er) in E.
  apply ret_inr in E as [-> _]. exists stack. split; [done|]. unfold joined in Ej.
  destruct (hosts (w_db w) !! stack_hostId stack) as [host|] eqn:Eh; [|done]. cbn [mbind option_bind] in Ej. injection Ej as <-.
  apply offered_state in Hop as (Hna & Hfree & [r Hr]). cbn in Hna, Hfree, Hr. apply fmap_Some in Hr as (r0 & Hr & _).
  unfold operableStack. rewrite (run_bind _ _ _ _ _ (run_select_id w Hw stackId)). simpl. rewrite Es.
  rewrite (run_bind _ _ _ _ _ (run_select_id w Hw _)). simpl. rewrite Eh. unfold assertNotArchived.
  rewrite (Hactive host Eh). simpl. rewrite (run_bind _ _ _ _ _ (run_ret tt w)).
  assert (Ht : truthy (stack_currentRevisionId stack) = true).
  { destruct (stack_currentRevisionId stack) as [[|c i]|]; simpl in Hr; [congruence|done..]. }
  rewrite Ht, bool_decide_eq_false_2 by done. simpl.
  by rewrite (run_bind _ _ _ _ _ (nothing_unresolved stackId w Hw Hfree)).
Qed.

Lemma stackState_attention stack : stackState stack = st_needs_attention ↔ client_status stack = "needs_attention".
Proof. unfold stackState. repeat case_match; repeat case_bool_decide; naive_solver. Qed.

(** What the server calls what the interface calls something. *)
Definition server_kind (k : ClientApplyKind) : ApplyKind :=
  match k with
  | apply_deploy => initial | apply_redeploy => redeploy | apply_rollback => rollback | apply_repair => repair
  end.

(** What the interface says applying a revision will be is what the server records it as: for
    every stack and every revision the two rules agree, except that the server does not
    apply the revision a healthy stack already has. *)
Theorem applyKind_agrees row target reconciling reachable :
  kindOf (row_stack row) target (row_running row) =
    if negb (bool_decide (stack_status (row_stack row) = "needs_attention")) &&
       bool_decide (revision_id <$> row_running row = Some (revision_id target))
    then None
    else Some (server_kind (applyKind (toStack (present row reconciling reachable)) (revision_number target))).
Proof.
  unfold kindOf, applyKind. rewrite (bool_decide_ext _ _ (stackState_attention _)). cbn -[bool_decide].
  destruct (bool_decide (stack_status (row_stack row) = "needs_attention")); cbn -[bool_decide]; [done|].
  destruct (row_running row) as [r|]; cbn -[bool_decide].
  - rewrite (bool_decide_ext (Some (revision_id r) = Some (revision_id target)) (revision_id r = revision_id target)) by (split; congruence).
    case_bool_decide; [done|]. by destruct (_ <? _)%N.
  - by rewrite bool_decide_eq_false_2.
Qed.

(** ** A form nobody touched *)

(** A variable of a revision as the browser is shown it. *)
Definition seen_view (v : VariableView) : EnvironmentVariable :=
  match v with
  | Secret_variable key => {| shown_key := key; shown_secret := true; shown_value := None |}
  | Plain_variable key value => {| shown_key := key; shown_secret := false; shown_value := Some value |}
  end.

Lemma seen_revision (rows_ : list StackRevisionVariable) : seen_view <$> (variable_view <$> rows_) = shown_stored <$> (of_revision_row <$> rows_).
Proof.
  rewrite <-!list_fmap_compose. apply list_fmap_ext. intros i r _. unfold variable_view, shown_stored, compose. simpl.
  by destruct (revenv_isSecret r).
Qed.

Lemma untouched_rows l :
  Forall (λ v, tidy (shown_key v) = true) l → stackEnvironmentChanges (environment_row <$> l) = kept <$> l.
Proof.
  induction 1 as [|v l [Hk Ht]%tidy_true _ IH]; [done|]. rewrite !fmap_cons. unfold stackEnvironmentChanges in *.
  rewrite bind_cons, IH. unfold row_change_of, environment_row, kept. cbn [envrow_key envrow_stored envrow_secret envrow_action envrow_value].
  rewrite Hk, Ht. by destruct (shown_secret v).
Qed.

Lemma no_repeats_run seen l w :
  NoDup (variable_key <$> l) → (∀ v, v ∈ l → variable_key v ∉ seen) → no_repeats seen l w = (inr tt, w).
Proof.
  revert seen. induction l as [|v l IH]; intros seen Hnd Hs; [done|]. rewrite fmap_cons in Hnd.
  apply NoDup_cons in Hnd as [Hv Hnd]. simpl. rewrite bool_decide_eq_false_2 by (apply Hs; by left).
  apply IH; [done|]. intros u Hu. rewrite not_elem_of_union, not_elem_of_singleton. split; [|apply Hs; by right].
  intros E. apply Hv. rewrite <-E. by apply list_elem_of_fmap_2.
Qed.

Section untouched.
Context `{AesGcm} (box : list ascii).

(** Saving the form of a revision without touching it stores its variables again: whatever
    order the server showed them in, the plain ones have their values and the secrets are
    the stored ones, none of them sent and none encrypted again. *)
Theorem untouched_stack_keeps_variables name hostId compose (rows_ previous : list StackRevisionVariable) w :
  rows_ ≡ₚ previous → NoDup (revenv_key <$> previous) →
  forallb (well_stored ∘ of_revision_row) previous = true → forallb (tidy ∘ revenv_key) previous = true →
  let form := formFromConfiguration name hostId compose (seen_view <$> (variable_view <$> rows_)) in
  resolveStackEnvironment box (stackEnvironmentChanges (stackform_environment form)) previous w =
  (inr (of_revision_row <$> rows_), w).
Proof.
  intros Hperm Hnd Hst Htidy form. unfold form. cbn [formFromConfiguration stackform_environment]. rewrite seen_revision, untouched_rows.
  - assert (Hkeys : NoDup (variable_key <$> (of_revision_row <$> rows_))).
    { rewrite <-list_fmap_compose. change (variable_key ∘ of_revision_row) with revenv_key. by rewrite Hperm. }
    unfold resolveStackEnvironment. erewrite run_bind; [|apply resolve_kept].
    + erewrite run_bind; [done|]. apply no_repeats_run; [exact Hkeys|]. intros v _. apply not_elem_of_empty.
    + rewrite <-list_fmap_compose. exact Hnd.
    + apply Forall_fmap, Forall_forall. intros r Hr. rewrite Hperm in Hr. rewrite forallb_forall in Hst.
      split; [by apply list_elem_of_fmap_2|by apply Hst, list_elem_of_In].
  - apply Forall_fmap, Forall_fmap, Forall_forall. intros r Hr. rewrite Hperm in Hr. rewrite forallb_forall in Htidy.
    by apply Htidy, list_elem_of_In.
Qed.
End untouched.

(** *** A stack with a newer revision *)

Definition shown_shop : StackView :=
  present {| row_stack := example_stack; row_host := example_host "h1";
             row_revision := Some (example_revision R2 2); row_running := Some (example_revision R1 1) |} false true.

Example shop_offers :
  stackState (toStack shown_shop) = st_changes_pending ∧ stackOperations (toStack shown_shop) = [op_stop; op_restart] ∧
  APPLY_LABELS (applyKind (toStack shown_shop) 2) 2 = "Deploy revision #2".
Proof. by vm_compute. Qed.

Lemma offered_operation_accepted_witness : ∃ stack, operableStack S1 (quiet_world shop) = (inr stack, quiet_world shop).
Proof.
  assert (E : detail S1 (quiet_world shop) = (inr shown_shop, quiet_world shop)) by (vm_compute; reflexivity).
  destruct (offered_operation_accepted S1 (quiet_world shop) shown_shop (quiet_world shop) op_stop) as (stack & _ & Ho).
  - reflexivity.
  - exact E.
  - vm_compute. left.
  - vm_compute. reflexivity.
  - intros h Hh. vm_compute in Hh. injection Hh as <-. reflexivity.
  - exists stack. exact Ho.
Defined.

Definition saved_variable (key : string) (secret : bool) (v : string) : StackRevisionVariable := {|
  revenv_id := key; revenv_revisionId := R1; revenv_key := key; revenv_value := if secret then None else Some v;
  revenv_valueEncrypted := if secret then Some v else None; revenv_isSecret := secret |}.

Lemma untouched_stack_keeps_variables_witness :
  let rows_ := [saved_variable "MODE" false "production"; saved_variable "TOKEN" true "v1.aaaa.bbbb.cc"] in
  @resolveStackEnvironment clear_cipher (chars "k")
    (stackEnvironmentChanges (stackform_environment (formFromConfiguration "shop" "h1" "services: {}"
       (seen_view <$> (variable_view <$> rows_))))) rows_ (quiet_world shop) = (inr (of_revision_row <$> rows_), quiet_world shop).
Proof.
  cbv zeta. apply (@untouched_stack_keeps_variables clear_cipher).
  - reflexivity.
  - apply (bool_decide_unpack _). vm_compute. exact I.
  - vm_compute. reflexivity.
  - vm_compute. reflexivity.
Defined.
