(* ===== verification/HostArchive.v ===== *)
(** * Taking a host out of the working set

    [api/src/inventory/host-archive.service.ts]: a host nobody is connected from can
    be archived, and put back; both are one decision in the trail and neither
    removes anything. *)

From Stdlib Require Import Ascii String NArith ZArith.
From stdpp Require Import gmap strings list.
From S2P Require Import Prelude Schema Store Registry Effects Logic RecoveryFinalizer PendingGuard StackDeployment.
From S2P Require Import Credentials Rbac Sessions Enrollment HostSetup.

(** ** The operations *)

Definition isConnected (hostId : string) : M bool :=
  rows_ ← select (λ a : Agent, bool_decide (agent_hostId a = hostId) && bool_decide (agent_revokedAt a = None));
  w ← world;
  mret (existsb (λ a, bool_decide (agent_id a ∈ w_connected w)) rows_).

Definition load (hostId : string) : M Host :=
  host ← select_id (R := Host) hostId;
  match host with
  | None => notFound "HOST_NOT_FOUND"
  | Some host => mret host
  end.

Definition record_archive (action : string) (host : Host) (user : AuthenticatedUser) (context : RequestContext) : M unit :=
  audit_record {|
    entry_action := action; entry_result := Audit_success; entry_actorUserId := Some (actor_id user);
    entry_actorLabel := actor_email user; entry_targetType := Some "host"; entry_targetId := Some (host_id host);
    entry_targetLabel := Some (host_displayName host ?? host_hostname host); entry_reasonCode := None;
    entry_sourceIp := context_sourceIp context; entry_userAgent := context_userAgent context |}.

(** A host that has this id and is in the working set. *)
Definition active_host (hostId : string) (h : Host) : bool :=
  bool_decide (host_id h = hostId) && bool_decide (host_archivedAt h = None).

Definition archive (hostId : string) (user : AuthenticatedUser) (context : RequestContext) : M Host :=
  host ← load hostId;
  if isArchived (host_archivedAt host) then mret host
  else
    busy ← isConnected hostId;
    if (busy : bool) then conflict "HOST_CONNECTED"
    else
      archivedAt ← now;
      updated ← update (active_host hostId) (λ h, h <| host_archivedAt := Some archivedAt |>);
      match updated with
      | [] => load hostId
      | updated :: _ => record_archive "host.archived" updated user context;; mret updated
      end.

(** What [unarchive] does once it has seen that the host is archived. *)
Definition put_back (hostId : string) (user : AuthenticatedUser) (context : RequestContext) : M Host :=
  updated ← update_id (R := Host) hostId (λ h, h <| host_archivedAt := None |>);
  match updated with
  | [] => throw PlainError
  | updated :: _ => record_archive "host.unarchived" updated user context;; mret updated
  end.

Definition unarchive (hostId : string) (user : AuthenticatedUser) (context : RequestContext) : M Host :=
  host ← load hostId;
  if negb (isArchived (host_archivedAt host)) then mret host else put_back hostId user context.

(** ** What archiving does *)

Lemma host_named d i h : db_ok d → hosts d !! i = Some h → host_id h = i.
Proof. exact (@row_named Host _ _ d i h). Qed.

Lemma load_inr hostId w h w' :
  load hostId w = (inr h, w') → hosts (w_db w) !! hostId = Some h ∧ only_faults w w'.
Proof.
  unfold load. intros (o & w1 & [-> [fs ->]]%read_inr & E)%bind_inr. simpl in E.
  destruct (hosts (w_db w) !! hostId) as [h0|]; [|done]. apply ret_inr in E as [-> ->]. split; [done|]. by exists fs.
Qed.

Lemma isConnected_inr hostId w b w' :
  isConnected hostId w = (inr b, w') →
  b = existsb (λ a, bool_decide (agent_id a ∈ w_connected w)) (select_where
    (λ a : Agent, bool_decide (agent_hostId a = hostId) && bool_decide (agent_revokedAt a = None)) (w_db w)) ∧
  only_faults w w'.
Proof.
  unfold isConnected. intros (l & w1 & [-> [fs ->]]%select_inr & E)%bind_inr.
  apply bind_inr in E as (x & w2 & Ex & [-> ->]%ret_inr). unfold world in Ex. simplify_eq. split; [done|]. by exists fs.
Qed.

Lemma alter_id_insert {A} (f : A → A) i x (m : gmap string A) : m !! i = Some x → alter f i m = <[i := f x]> m.
Proof.
  intros Hx. apply map_eq. intros j. destruct (decide (i = j)) as [<-|Hne].
  - by rewrite lookup_alter_eq, lookup_insert_eq, Hx.
  - by rewrite lookup_alter_ne, lookup_insert_ne.
Qed.

(** Everything but the hosts and the trail. *)
Definition but_hosts (d : DB) : DB := (unaudited d) <| hosts := ∅ |>.

Lemma archive_inr hostId user context w h w' :
  db_ok (w_db w) → archive hostId user context w = (inr h, w') →
  ∃ h0, hosts (w_db w) !! hostId = Some h0 ∧
    ((is_Some (host_archivedAt h0) ∧ h = h0 ∧ w_db w' = w_db w) ∨
     (host_archivedAt h0 = None ∧ h = h0 <| host_archivedAt := Some (w_now w) |> ∧
      hosts (w_db w') = <[hostId := h]> (hosts (w_db w)) ∧ but_hosts (w_db w') = but_hosts (w_db w) ∧
      ∀ i a, agents (w_db w) !! i = Some a → agent_hostId a = hostId → agent_revokedAt a = None →
        agent_id a ∉ w_connected w)).
Proof.
  intros Hok E. unfold archive in E. apply bind_inr in E as (h0 & w1 & [Hh [fs ->]]%load_inr & E).
  exists h0. split; [done|]. unfold isArchived in E. destruct (host_archivedAt h0) as [t|] eqn:Ea.
  { left. rewrite bool_decide_eq_true_2 in E by eauto. apply ret_inr in E as [-> ->]. split_and!; [by eauto|done..]. }
  right. rewrite bool_decide_eq_false_2 in E by (by intros []).
  apply bind_inr in E as (busy & w1 & [-> [gs ->]]%isConnected_inr & E). simpl in E.
  destruct (existsb _ _) eqn:Ex; [done|]. apply bind_inr in E as (t & w1 & [-> ->]%now_inr & E).
  apply bind_inr in E as (l & w1 & [-> [hs ->]]%update_inr & E). simpl in E.
  assert (Hact : active_host hostId h0 = true).
  { unfold active_host. rewrite (host_named _ _ _ Hok Hh), Ea. by rewrite !bool_decide_eq_true_2. }
  assert (Hone : ∀ j x, hosts (w_db w) !! j = Some x → active_host hostId x = true → j = hostId).
  { intros j x Hj Hx. unfold active_host in Hx. apply andb_true_iff in Hx as [Hx%bool_decide_eq_true _].
    by rewrite <-(host_named _ _ _ Hok Hj). }
  rewrite (@select_where_one Host hosts_table hosts_laws _ _ hostId h0 Hok Hh Hact Hone) in E. simpl in E.
  apply bind_inr in E as (u & w1 & Eu & [-> ->]%ret_inr). unfold record_archive in Eu.
  pose proof (audit_same hosts _ _ _ _ (λ _, eq_refl) Eu) as E1.
  pose proof (audit_same but_hosts _ _ _ _ (λ _, eq_refl) Eu) as E2. simpl in E1, E2.
  split_and!; [done|done| |done|].
  - rewrite E1. rewrite (change_rows_one (active_host hostId) _ (hosts (w_db w)) hostId h0 Hh Hact Hone).
    by apply alter_id_insert.
  - intros i a Hi Hhost Hrev Hc. assert (Hin : a ∈ select_where (λ a : Agent, bool_decide (agent_hostId a = hostId) &&
      bool_decide (agent_revokedAt a = None)) (w_db w)).
    { apply elem_of_select_where. split; [by exists i|]. by rewrite Hhost, Hrev, !bool_decide_eq_true_2. }
    assert (Ht : existsb (λ a : Agent, bool_decide (agent_id a ∈ w_connected w)) (select_where
      (λ a : Agent, bool_decide (agent_hostId a = hostId) && bool_decide (agent_revokedAt a = None)) (w_db w)) = true).
    { apply existsb_exists. exists a. split; [by apply list_elem_of_In|by apply bool_decide_eq_true]. }
    by rewrite Ht in Ex.
Qed.

(** A host is archived only while none of its agents that may connect is connected, and all
    that changes is that it is marked and that the trail has an entry: no host, agent,
    container, stack or record of any kind is removed or changed. *)
Theorem archive_only_idle hostId user context w h w' :
  db_ok (w_db w) → archive hostId user context w = (inr h, w') →
  ∃ h0, hosts (w_db w) !! hostId = Some h0 ∧
    ((is_Some (host_archivedAt h0) ∧ h = h0 ∧ w_db w' = w_db w) ∨
     (host_archivedAt h0 = None ∧ h = h0 <| host_archivedAt := Some (w_now w) |> ∧
      hosts (w_db w') = <[hostId := h]> (hosts (w_db w)) ∧ but_hosts (w_db w') = but_hosts (w_db w) ∧
      ∀ i a, agents (w_db w) !! i = Some a → agent_hostId a = hostId → agent_revokedAt a = None →
        agent_id a ∉ w_connected w)).
Proof. apply archive_inr. Qed.

Lemma archive_ok hostId user context : framed (on_db keeps_db_ok) (archive hostId user context).
Proof. unfold archive, load, isConnected, record_archive. frame. Qed.

Lemma unarchive_inr hostId user context w h w' :
  db_ok (w_db w) → unarchive hostId user context w = (inr h, w') →
  ∃ h0, hosts (w_db w) !! hostId = Some h0 ∧
    ((host_archivedAt h0 = None ∧ h = h0 ∧ w_db w' = w_db w) ∨
     (is_Some (host_archivedAt h0) ∧ h = h0 <| host_archivedAt := None |> ∧
      hosts (w_db w') = <[hostId := h]> (hosts (w_db w)) ∧ but_hosts (w_db w') = but_hosts (w_db w))).
Proof.
  intros Hok E. unfold unarchive in E. apply bind_inr in E as (h0 & w1 & [Hh [fs ->]]%load_inr & E).
  exists h0. split; [done|]. unfold isArchived in E. destruct (host_archivedAt h0) as [t|] eqn:Ea.
  2: { left. rewrite bool_decide_eq_false_2 in E by (by intros []). apply ret_inr in E as [-> ->]. by split_and!. }
  right. rewrite bool_decide_eq_true_2 in E by eauto. simpl in E. unfold put_back in E.
  apply bind_inr in E as (l & w1 & [-> [hs ->]]%update_inr & E). simpl in E.
  assert (Hp : bool_decide (host_id h0 = hostId) = true) by (apply bool_decide_eq_true; exact (host_named _ _ _ Hok Hh)).
  assert (Hone : ∀ j x, hosts (w_db w) !! j = Some x → bool_decide (host_id x = hostId) = true → j = hostId).
  { intros j x Hj Hx%bool_decide_eq_true. rewrite <-Hx. symmetry. exact (host_named _ _ _ Hok Hj). }
  rewrite (@select_where_one Host hosts_table hosts_laws _ _ hostId h0 Hok Hh Hp Hone) in E. simpl in E.
  apply bind_inr in E as (u & w1 & Eu & [-> ->]%ret_inr). unfold record_archive in Eu.
  pose proof (audit_same hosts _ _ _ _ (λ _, eq_refl) Eu) as E1.
  pose proof (audit_same but_hosts _ _ _ _ (λ _, eq_refl) Eu) as E2. simpl in E1, E2.
  split_and!; [by eauto|done| |done]. rewrite E1.
  rewrite (change_rows_one (λ r : Host, bool_decide (host_id r = hostId)) _ (hosts (w_db w)) hostId h0 Hh Hp Hone).
  by apply alter_id_insert.
Qed.

(** Archiving a host and putting it back leaves the hosts as they were, and nothing but the
    trail says that it happened. *)
Theorem unarchive_restores hostId user context user' context' w h w1 h' w2 :
  db_ok (w_db w) → (host_archivedAt <$> hosts (w_db w) !! hostId) = Some None →
  archive hostId user context w = (inr h, w1) → unarchive hostId user' context' w1 = (inr h', w2) →
  unaudited (w_db w2) = unaudited (w_db w).
Proof.
  intros Hok Ha E1 E2. pose proof (framed_run _ _ _ _ _ (archive_ok hostId user context) E1 Hok) as Hok1.
  apply archive_inr in E1 as (h0 & Hh & [([t Ht] & _)|(Hn & -> & Eh & Eo & _)]); [| |done].
  { rewrite Hh in Ha. simpl in Ha. congruence. }
  apply unarchive_inr in E2 as (h1 & Hh1 & [(Hn1 & _)|(_ & -> & Eh' & Eo')]); [..|done].
  { rewrite Eh, lookup_insert_eq in Hh1. injection Hh1 as <-. done. }
  rewrite Eh, lookup_insert_eq in Hh1. injection Hh1 as <-.
  assert (Hhosts : hosts (w_db w2) = hosts (w_db w)).
  { rewrite Eh', Eh, insert_insert_eq. apply insert_id. rewrite Hh. f_equal. destruct h0. simpl in *. by rewrite Hn. }
  assert (Hrest : ∀ d, unaudited d = (but_hosts d) <| hosts := hosts d |>) by (by intros []).
  rewrite (Hrest (w_db w2)), (Hrest (w_db w)), Hhosts. f_equal. congruence.
Qed.

(** Archiving a host again changes nothing, the trail included: the decision is recorded
    once. *)
Theorem archive_again hostId user context user' context' w h w1 :
  db_ok (w_db w) → archive hostId user context w = (inr h, w1) → healthy w1 →
  archive hostId user' context' w1 = (inr h, w1).
Proof.
  intros Hok E Hw. apply archive_inr in E as (h0 & Hh & Hc); [|done].
  assert (H1 : hosts (w_db w1) !! hostId = Some h ∧ is_Some (host_archivedAt h)).
  { destruct Hc as [(Hs & -> & ->)|(_ & -> & Eh & _)]; [done|]. rewrite Eh, lookup_insert_eq. by eauto. }
  destruct H1 as [H1 Hs]. unfold archive, load.
  assert (El : (host ← select_id (R := Host) hostId; match host with None => notFound "HOST_NOT_FOUND" | Some host => mret host end) w1
    = (inr h, w1)).
  { rewrite (run_bind _ _ _ _ _ (run_select_id w1 Hw hostId)). simpl. by rewrite H1. }
  rewrite (run_bind _ _ _ _ _ El). unfold isArchived. by rewrite bool_decide_eq_true_2.
Qed.

(** *** A host is archived *)

Definition warehouse : World := signed_in <| w_db := (w_db signed_in) <| hosts :=
  {["h1" := new_host "h1" "old-server"]} |> |>.

Lemma warehouse_ok : db_ok (w_db warehouse).
Proof. apply db_okb_true. by vm_compute. Qed.

Definition archived_host : Host := (new_host "h1" "old-server") <| host_archivedAt := Some (w_now warehouse) |>.

Lemma archive_only_idle_witness :
  (archive "h1" administrator from_browser warehouse).1 = inr archived_host ∧
  hosts (w_db (archive "h1" administrator from_browser warehouse).2) !! "h1" = Some archived_host.
Proof.
  destruct (archive "h1" administrator from_browser warehouse) as [r w'] eqn:E. cbn [fst snd].
  assert (Hr : (archive "h1" administrator from_browser warehouse).1 = inr archived_host) by (vm_compute; reflexivity).
  rewrite E in Hr. cbn [fst] in Hr. subst r. split; [reflexivity|].
  destruct (archive_only_idle _ _ _ _ _ _ warehouse_ok E) as (h0 & Hh & [([t Ht] & _)|(_ & _ & Eh & _)]); clear E.
  - exfalso. vm_compute in Hh. injection Hh as <-. vm_compute in Ht. discriminate Ht.
  - rewrite Eh. apply lookup_insert_eq.
Defined.

Lemma archive_again_witness :
  let w1 := (archive "h1" administrator from_browser warehouse).2 in
  archive "h1" administrator from_browser w1 = (inr archived_host, w1).
Proof.
  cbv zeta. destruct (archive "h1" administrator from_browser warehouse) as [r w1] eqn:E. cbn [snd].
  assert (Hr : (archive "h1" administrator from_browser warehouse).1 = inr archived_host ∧
    w_faults (archive "h1" administrator from_browser warehouse).2 = []) by (vm_compute; split; reflexivity).
  rewrite E in Hr. cbn [fst snd] in Hr. destruct Hr as [-> Hw].
  exact (archive_again "h1" _ _ administrator from_browser _ _ _ warehouse_ok E Hw).
Defined.

Lemma unarchive_restores_witness :
  let w1 := (archive "h1" administrator from_browser warehouse).2 in
  let w2 := (unarchive "h1" administrator from_browser w1).2 in
  unaudited (w_db w2) = unaudited (w_db warehouse).
Proof.
  cbv zeta. destruct (archive "h1" administrator from_browser warehouse) as [r w1] eqn:E. cbn [snd].
  destruct (unarchive "h1" administrator from_browser w1) as [r' w2] eqn:E'. cbn [snd].
  assert (Hr : match (archive "h1" administrator from_browser warehouse).1 with inr _ => True | inl _ => False end)
    by (vm_compute; exact I).
  rewrite E in Hr. cbn [fst] in Hr. destruct r as [e|h]; [destruct Hr|]. clear Hr.
  assert (Hr : match (unarchive "h1" administrator from_browser (archive "h1" administrator from_browser warehouse).2).1 with
    inr _ => True | inl _ => False end) by (vm_compute; exact I).
  rewrite E in Hr. cbn [snd] in Hr. rewrite E' in Hr. cbn [fst] in Hr. destruct r' as [e|h']; [destruct Hr|]. clear Hr.
  apply (unarchive_restores "h1" _ _ _ _ _ _ _ _ _ warehouse_ok) with (2 := E) (3 := E'). vm_compute. reflexivity.
Defined.

(** Two requests that both saw the host archived before either wrote put it back twice, as far
    as the trail goes: unlike archiving, putting back is not conditional. *)
Theorem unarchived_twice_in_trail :
  let w1 := (archive "h1" administrator from_browser warehouse).2 in
  let w2 := (put_back "h1" administrator from_browser w1).2 in
  let w3 := (put_back "h1" administrator from_browser w2).2 in
  length (filter (λ e, audit_action e.2 = "host.unarchived") (map_to_list (auditEntries (w_db w3)))) = 2.
Proof. by vm_compute. Qed.
