(* ===== verification/Inventory.v ===== *)
(** * What is shown of the infrastructure

    [api/src/inventory/inventory.service.ts], the read model over what discovery has
    found, and the handlers of [inventory.controller.ts] that use it.  Nothing here writes,
    but for the detail of a container or a project, which is read through [Detail].

    The order text is sorted by is a parameter ([Collation]); where rows are equal in it a
    query may answer them in any order, and the theorems do not depend on which. *)

From Stdlib Require Import Ascii String NArith ZArith Sorting.Sorted.
From stdpp Require Import gmap strings list sorting.
From S2P Require Import Prelude Schema Store Registry Effects Logic PendingGuard RecoveryFinalizer Discovery Detail StackDeployment StackService Reconciliation ContainerManagement ContainerLifecycle JsMap HostArchive.

(** ** Data *)

Definition MANAGEMENT_CAPABILITIES : list string := ["container.create"; "container.replace"; "container.remove"].

Inductive ManagementKind := kind_managed | kind_external | kind_stack.

#[export] Instance ManagementKind_eq_dec : EqDecision ManagementKind.
Proof. solve_decision. Defined.

Record ManagementState := {
  management_kind : ManagementKind;
  management_reconciling : bool;
  management_identityConflict : bool
}.

Definition STALE_AFTER_MS : Z := 180000.

Inductive HostScope := scope_active | scope_archived | scope_all.

Record Freshness := { fresh_observedAt : option time; fresh_stale : bool }.

Record AgentView := {
  aview_id : string;
  aview_status : string;
  aview_connected : bool;
  aview_lastSeenAt : option time;
  aview_certificateNotAfter : time
}.

Record HostView := {
  hview_id : string;
  hview_hostname : string;
  hview_displayName : option string;
  hview_os : option string;
  hview_architecture : option string;
  hview_kernel : option string;
  hview_dockerVersion : option string;
  hview_agentVersion : option string;
  hview_metadata : option json;
  hview_metrics : option json;
  hview_lastSeenAt : option time;
  hview_archivedAt : option time;
  hview_archived : bool;
  hview_agent : option AgentView;
  hview_freshness : Freshness
}.

Record ContainerView := {
  cview_id : string;
  cview_hostId : string;
  cview_hostname : string;
  cview_hostDisplayName : option string;
  cview_dockerId : option string;
  cview_name : string;
  cview_image : string;
  cview_imageId : option string;
  cview_state : string;
  cview_health : string;
  cview_restartCount : Z;
  cview_createdAt : option time;
  cview_composeProject : option (string * string);
  cview_metadata : option json;
  cview_management : ManagementState;
  cview_freshness : Freshness
}.

Record ProjectSummary := {
  psum_id : string;
  psum_hostId : string;
  psum_hostname : string;
  psum_projectName : string;
  psum_status : string;
  psum_serviceCount : Z;
  psum_runningCount : Z;
  psum_services : json;
  psum_freshness : Freshness
}.

Record MemberView := {
  member_id : string;
  member_dockerId : option string;
  member_name : string;
  member_state : string;
  member_health : string;
  member_freshness : Freshness
}.

Record ContainerFilters := {
  filter_hostId : option string;
  filter_state : option string;
  filter_project : option string;
  filter_search : option string
}.

(** A container with the host it is on and the project it is in. *)
Record ContainerRow := {
  crow_container : Container;
  crow_host : Host;
  crow_project : option ComposeProject
}.

(** ** Presentation *)

Definition freshness (at_ : time) (observedAt : option time) (agentConnected : option bool) : Freshness :=
  match observedAt with
  | None => {| fresh_observedAt := None; fresh_stale := true |}
  | Some t =>
      if bool_decide (agentConnected = Some false) then {| fresh_observedAt := Some t; fresh_stale := true |}
      else {| fresh_observedAt := Some t; fresh_stale := (STALE_AFTER_MS <? at_ - t)%Z |}
  end.

(** [this.connections.isConnected(agentId)] *)
Definition connected_in (w : World) (agentId : string) : bool := bool_decide (agentId ∈ w_connected w).

Definition presentHost (w : World) (host : Host) (agent : option Agent) : HostView :=
  let connected := connected_in w ∘ agent_id <$> agent in {|
  hview_id := host_id host; hview_hostname := host_hostname host; hview_displayName := host_displayName host;
  hview_os := host_os host; hview_architecture := host_architecture host; hview_kernel := host_kernel host;
  hview_dockerVersion := host_dockerVersion host; hview_agentVersion := host_agentVersion host;
  hview_metadata := host_metadata host; hview_metrics := host_metrics host; hview_lastSeenAt := host_lastSeenAt host;
  hview_archivedAt := host_archivedAt host; hview_archived := bool_decide (is_Some (host_archivedAt host));
  hview_agent := (λ a, {|
    aview_id := agent_id a;
    aview_status := if bool_decide (is_Some (agent_revokedAt a)) then "revoked"
                    else if connected_in w (agent_id a) then "connected" else "disconnected";
    aview_connected := connected_in w (agent_id a); aview_lastSeenAt := agent_lastSeenAt a;
    aview_certificateNotAfter := agent_certificateNotAfter a |}) <$> agent;
  hview_freshness := freshness (w_now w) (host_observedAt host) connected |}.

Definition presentContainer (w : World) (row : ContainerRow) (management : ManagementState)
    (agentConnected : option bool) : ContainerView :=
  let container := crow_container row in {|
  cview_id := container_id container; cview_hostId := container_hostId container;
  cview_hostname := host_hostname (crow_host row); cview_hostDisplayName := host_displayName (crow_host row);
  cview_dockerId := container_dockerId container; cview_name := container_name container;
  cview_image := container_image container; cview_imageId := container_imageId container;
  cview_state := container_state container; cview_health := container_health container;
  cview_restartCount := container_restartCount container; cview_createdAt := container_dockerCreatedAt container;
  cview_composeProject := (λ p, (project_id p, project_projectName p)) <$> crow_project row;
  cview_metadata := container_metadata container; cview_management := management;
  cview_freshness := freshness (w_now w) (Some (container_observedAt container)) agentConnected |}.

Definition presentProject (w : World) (project : ComposeProject) (host : Host) (agentConnected : option bool) : ProjectSummary := {|
  psum_id := project_id project; psum_hostId := project_hostId project; psum_hostname := host_hostname host;
  psum_projectName := project_projectName project; psum_status := project_status project;
  psum_serviceCount := project_serviceCount project; psum_runningCount := project_runningCount project;
  psum_services := project_services project ?? JArray [];
  psum_freshness := freshness (w_now w) (Some (project_observedAt project)) agentConnected |}.

(** ** Which agent speaks for a host *)

(** [orderBy(revokedAt asc nulls first, desc(enrolledAt))] *)
Definition speaks_before (a b : Agent) : Prop :=
  match agent_revokedAt a, agent_revokedAt b with
  | None, Some _ => True
  | Some _, None => False
  | None, None => (agent_enrolledAt b <= agent_enrolledAt a)%Z
  | Some s, Some t => (s < t)%Z ∨ s = t ∧ (agent_enrolledAt b <= agent_enrolledAt a)%Z
  end.

#[export] Instance speaks_before_dec : RelDecision speaks_before.
Proof. intros a b. unfold speaks_before. repeat case_match; apply _. Defined.

Definition first_per_host (byHost : JsMap Agent) (agent : Agent) : JsMap Agent :=
  if jhas (agent_hostId agent) byHost then byHost else jset (agent_hostId agent) agent byHost.

Definition agentsOf (hostIds : list string) : M (JsMap Agent) :=
  match hostIds with
  | [] => mret []
  | _ =>
      rows_ ← select (λ a : Agent, mem (agent_hostId a) hostIds);
      mret (foldl first_per_host [] (merge_sort speaks_before rows_))
  end.

(** An id that is not in the map reads as one whose agent is not known. *)
Definition connectionsByHost (hostIds : list string) : M (string → option bool) :=
  agentByHost ← agentsOf hostIds;
  w ← world;
  mret (λ hostId, connected_in w ∘ agent_id <$> jget hostId agentByHost).

(** ** What may be done to a container *)

Definition inventory_config (ids : list string) (c : DesiredConfig) : bool := mem (config_containerId c) ids.

Definition open_management (ids : list string) (a : Action) : bool :=
  bool_decide (action_targetType a = Some "container") &&
  match action_targetId a with Some i => mem i ids | None => false end &&
  mem (action_status a) [Action_queued; Action_running] &&
  mem (action_capability a) MANAGEMENT_CAPABILITIES.

Definition management_of (configs : list DesiredConfig) (unresolved : list Action) (container : Container) : ManagementState :=
  let own := List.filter (λ c, bool_decide (config_containerId c = container_id container)) configs in
  let heldElsewhere := match container_stackId container with Some s => Some s | None => container_composeProjectId container end in {|
  management_kind := if truthy heldElsewhere then kind_stack
                     else match own with [] => kind_external | _ => kind_managed end;
  management_reconciling := existsb (λ c, bool_decide (config_state c = "pending")) own ||
                            mem (Some (container_id container)) (action_targetId <$> unresolved);
  management_identityConflict := bool_decide (is_Some (container_identityConflict container)) |}.

Definition managementFor (rows_ : list ContainerRow) : M (Container → ManagementState) :=
  let ids := container_id ∘ crow_container <$> rows_ in
  match ids with
  | [] => mret (management_of [] [])
  | _ =>
      configs ← select (inventory_config ids);
      unresolved ← select (open_management ids);
      mret (management_of configs unresolved)
  end.

(** ** Searching

    PostgreSQL's [ILIKE]: a per cent sign stands for any text, an underscore for any one
    character, and a backslash takes the next character as it is.  Case is that of ASCII. *)
Fixpoint like (pattern text_ : list ascii) : bool :=
  match pattern with
  | [] => match text_ with [] => true | _ => false end
  | c :: pattern' =>
      if bool_decide (c = "%"%char) then
        (fix skip text_ := like pattern' text_ || match text_ with [] => false | _ :: text' => skip text' end) text_
      else if bool_decide (c = "_"%char) then
        match text_ with [] => false | _ :: text' => like pattern' text' end
      else if bool_decide (c = "\"%char) then
        match pattern', text_ with
        | e :: pattern'', x :: text' => bool_decide (x = e) && like pattern'' text'
        | _, _ => false
        end
      else match text_ with [] => false | x :: text' => bool_decide (x = c) && like pattern' text' end
  end.

Definition ilike (value pattern : string) : bool := like (chars (lower pattern)) (chars (lower value)).

(** A filter that was not given, or is empty, asks for nothing. *)
Definition asks (filter : option string) (p : string → bool) : bool :=
  match filter with Some v => if bool_decide (v = "") then true else p v | None => true end.

Definition matches_filters (f : ContainerFilters) (row : ContainerRow) : bool :=
  let c := crow_container row in
  asks (filter_hostId f) (λ h, bool_decide (container_hostId c = h)) &&
  asks (filter_state f) (λ s, bool_decide (container_state c = s)) &&
  asks (filter_project f) (λ p, bool_decide (project_projectName <$> crow_project row = Some p)) &&
  asks (filter_search f) (λ s, let pattern := "%" +:+ s +:+ "%" in
    ilike (container_name c) pattern || ilike (container_image c) pattern).

(** [innerJoin(hosts)], [leftJoin(composeProjects)] *)
Definition container_row (d : DB) (c : Container) : option ContainerRow :=
  host ← hosts d !! container_hostId c;
  Some {| crow_container := c; crow_host := host;
          crow_project := container_composeProjectId c ≫= λ p, composeProjects d !! p |}.

Definition project_row (d : DB) (p : ComposeProject) : option (ComposeProject * Host) :=
  host ← hosts d !! project_hostId p; Some (p, host).

Definition in_scope (scope : HostScope) (h : Host) : bool :=
  match scope with
  | scope_active => bool_decide (host_archivedAt h = None)
  | scope_archived => bool_decide (is_Some (host_archivedAt h))
  | scope_all => true
  end.

(** ** The lists *)

Section lists.
Context `{Collation}.

Definition before_host (a b : Host) : Prop := sql_le (host_hostname a) (host_hostname b) = true.
#[global] Instance before_host_dec : RelDecision before_host.
Proof. intros a b. unfold before_host. apply _. Defined.

(** [orderBy(hosts.hostname, name)] *)
Definition before_on_host (a b : string * string) : Prop :=
  if bool_decide (a.1 = b.1) then sql_le a.2 b.2 = true else sql_le a.1 b.1 = true.
#[global] Instance before_on_host_dec : RelDecision before_on_host.
Proof. intros a b. unfold before_on_host. destruct (bool_decide _); apply _. Defined.

Definition container_key (row : ContainerRow) : string * string :=
  (host_hostname (crow_host row), container_name (crow_container row)).
Definition project_key (row : ComposeProject * Host) : string * string := (host_hostname row.2, project_projectName row.1).

Definition before_container (a b : ContainerRow) : Prop := before_on_host (container_key a) (container_key b).
#[global] Instance before_container_dec : RelDecision before_container.
Proof. intros a b. apply before_on_host_dec. Defined.

Definition before_project (a b : ComposeProject * Host) : Prop := before_on_host (project_key a) (project_key b).
#[global] Instance before_project_dec : RelDecision before_project.
Proof. intros a b. apply before_on_host_dec. Defined.

Definition listHosts (page : Page) (scope : HostScope) : M (list HostView * nat) :=
  rows_ ← statement (λ d, inr (of_page page (merge_sort before_host (select_where (in_scope scope) d)), d));
  total ← statement (λ d, inr (length (select_where (in_scope scope) d), d));
  byHost ← agentsOf (host_id <$> rows_);
  w ← world;
  mret ((λ h, presentHost w h (jget (host_id h) byHost)) <$> rows_, total).

Definition findHost (id : string) : M (option HostView) :=
  host ← select_id (R := Host) id;
  match host with
  | None => mret None
  | Some host =>
      byHost ← agentsOf [host_id host];
      w ← world;
      mret (Some (presentHost w host (jget (host_id host) byHost)))
  end.

Definition container_rows (f : ContainerFilters) (d : DB) : list ContainerRow :=
  List.filter (matches_filters f) (omap (container_row d) (all_rows d)).

Definition listContainers (page : Page) (f : ContainerFilters) : M (list ContainerView * nat) :=
  rows_ ← statement (λ d, inr (of_page page (merge_sort before_container (container_rows f d)), d));
  total ← statement (λ d, inr (length (container_rows f d), d));
  management ← managementFor rows_;
  connected ← connectionsByHost (remove_dups (container_hostId ∘ crow_container <$> rows_));
  w ← world;
  mret ((λ row, presentContainer w row (management (crow_container row))
                  (connected (container_hostId (crow_container row)))) <$> rows_, total).

Definition findContainer (id : string) : M (option ContainerView) :=
  row ← statement (λ d, inr (c ← containers d !! id; container_row d c, d));
  match row with
  | None => mret None
  | Some row =>
      management ← managementFor [row];
      connected ← connectionsByHost [container_hostId (crow_container row)];
      w ← world;
      mret (Some (presentContainer w row (management (crow_container row))
                    (connected (container_hostId (crow_container row)))))
  end.

Definition of_host (hostId : option string) (p : ComposeProject) : bool :=
  asks hostId (λ h, bool_decide (project_hostId p = h)).

Definition listProjects (page : Page) (hostId : option string) : M (list ProjectSummary * nat) :=
  rows_ ← statement (λ d, inr (of_page page
    (merge_sort before_project (omap (project_row d) (select_where (of_host hostId) d))), d));
  total ← statement (λ d, inr (length (select_where (of_host hostId) d), d));
  connected ← connectionsByHost (remove_dups ((λ row, project_hostId row.1) <$> rows_));
  w ← world;
  mret ((λ row, presentProject w row.1 row.2 (connected (project_hostId row.1))) <$> rows_, total).

(** [orderBy(desc(containers.name))] *)
Definition member_after (a b : Container) : Prop := sql_le (container_name b) (container_name a) = true.
#[global] Instance member_after_dec : RelDecision member_after.
Proof. intros a b. unfold member_after. apply _. Defined.

Definition member_view (w : World) (connected : option bool) (c : Container) : MemberView := {|
  member_id := container_id c; member_dockerId := container_dockerId c; member_name := container_name c;
  member_state := container_state c; member_health := container_health c;
  member_freshness := freshness (w_now w) (Some (container_observedAt c)) connected |}.

Definition findProject (id : string) : M (option (ProjectSummary * list MemberView)) :=
  row ← statement (λ d, inr (p ← composeProjects d !! id; project_row d p, d));
  match row with
  | None => mret None
  | Some (project, host) =>
      members ← select (λ c : Container, bool_decide (container_composeProjectId c = Some (project_id project)));
      connected ← connectionsByHost [project_hostId project];
      w ← world;
      let connected := connected (project_hostId project) in
      mret (Some (presentProject w project host connected,
                  member_view w connected <$> merge_sort member_after members))
  end.

(** ** The handlers *)

Definition get_host (id : string) : M HostView :=
  host ← findHost id;
  match host with
  | None => notFound "HOST_NOT_FOUND"
  | Some host => mret host
  end.

Definition post_archive (id : string) (user : AuthenticatedUser) (context : RequestContext) : M (option HostView) :=
  archive id user context;; findHost id.

Definition post_unarchive (id : string) (user : AuthenticatedUser) (context : RequestContext) : M (option HostView) :=
  unarchive id user context;; findHost id.

Context `{Dates}.

(** What [get] of a container adds to the record: the detail, when it was read, and the code of
    the error that kept it from being read. *)
Record Inspected := {
  inspected_detail : option json;
  inspected_observedAt : option time;
  inspected_stale : bool;
  inspected_unavailable : option string
}.

Record ContainerDetailView := {
  opened_container : ContainerView;
  opened_detail : option json;
  opened_detailObservedAt : option time;
  opened_detailUnavailable : option string;
  opened_stale : bool
}.

Definition inspect_container (id : string) : M Inspected :=
  try_catch
    (read ← containerDetail id false;
     mret {| inspected_detail := Some (view_detail read); inspected_observedAt := view_observedAt read;
             inspected_stale := view_stale read; inspected_unavailable := None |})
    (λ error,
       match error with
       | AppError code _ =>
           still ← findContainer id;
           match still with
           | None => throw error
           | Some _ => mret {| inspected_detail := None; inspected_observedAt := None; inspected_stale := true;
                               inspected_unavailable := Some code |}
           end
       | _ => throw error
       end).

Definition get_container (id : string) : M ContainerDetailView :=
  container ← findContainer id;
  match container with
  | None => notFound "CONTAINER_NOT_FOUND"
  | Some container =>
      inspected ← inspect_container id;
      mret {| opened_container := container; opened_detail := inspected_detail inspected;
              opened_detailObservedAt := inspected_observedAt inspected;
              opened_detailUnavailable := inspected_unavailable inspected;
              opened_stale := fresh_stale (cview_freshness container) || inspected_stale inspected |}
  end.

Record ProjectDetailView := {
  opened_project : ProjectSummary;
  opened_members : list MemberView;
  opened_inspection : ProjectView;
  opened_project_stale : bool
}.

Definition get_project (id : string) : M ProjectDetailView :=
  project ← findProject id;
  match project with
  | None => notFound "COMPOSE_PROJECT_NOT_FOUND"
  | Some (project, members) =>
      inspected ← projectDetail id;
      mret {| opened_project := project; opened_members := members; opened_inspection := inspected;
              opened_project_stale := fresh_stale (psum_freshness project) || pview_stale inspected |}
  end.
End lists.

(** ** Which agent speaks for a host *)

#[local] Instance speaks_before_total : Total speaks_before.
Proof. intros a b. unfold speaks_before. destruct (agent_revokedAt a), (agent_revokedAt b); (lia || tauto). Qed.

#[local] Instance speaks_before_trans : Transitive speaks_before.
Proof.
  intros a b c. unfold speaks_before. destruct (agent_revokedAt a), (agent_revokedAt b), (agent_revokedAt c); try (lia || tauto).
Qed.

(** No other agent of the host comes before it. *)
Definition speaks_for (d : DB) (hostId : string) (a : Agent) : Prop :=
  (∃ i, agents d !! i = Some a) ∧ agent_hostId a = hostId ∧
  ∀ i b, agents d !! i = Some b → agent_hostId b = hostId → speaks_before a b.

Lemma first_per_host_get l : ∀ h m, jget h (foldl first_per_host m l) =
  match jget h m with Some a => Some a | None => List.find (λ a, bool_decide (agent_hostId a = h)) l end.
Proof.
  induction l as [|x l IH]; intros h m; simpl; [by destruct (jget h m)|]. rewrite IH. unfold first_per_host.
  destruct (jhas (agent_hostId x) m) eqn:E.
  - apply jhas_true in E as [y E]. destruct (jget h m) eqn:Em; [done|]. case_bool_decide; [congruence|done].
  - apply jhas_false in E. case_bool_decide as Hh; [subst h; by rewrite jget_set, E|].
    by rewrite jget_set_ne by done.
Qed.

Lemma find_sorted {A} (R : A → A → Prop) (p : A → bool) l x :
  Reflexive R → StronglySorted R l → List.find p l = Some x → x ∈ l ∧ p x = true ∧ ∀ y, y ∈ l → p y = true → R x y.
Proof.
  intros HR Hs. induction Hs as [|z l Hl IH Hz]; simpl; [done|]. destruct (p z) eqn:Ez.
  - intros [= ->]. split_and!; [by left|done|]. intros y [->|Hy]%elem_of_cons _; [done|].
    rewrite Forall_forall in Hz. by apply Hz.
  - intros Hx. destruct (IH Hx) as (Hin & Hp & Hall). split_and!; [by right|done|].
    intros y [->|Hy]%elem_of_cons Hpy; [congruence|by apply Hall].
Qed.

Lemma agentsOf_run hostIds w : healthy w → ∃ m, agentsOf hostIds w = (inr m, w) ∧
  ∀ h, h ∈ hostIds →
    match jget h m with
    | Some a => speaks_for (w_db w) h a
    | None => ∀ i a, agents (w_db w) !! i = Some a → agent_hostId a ≠ h
    end.
Proof.
  intros Hw. unfold agentsOf. destruct hostIds as [|h0 hs]; [by exists []; split; [done|intros h ?%elem_of_nil]|].
  rewrite (run_bind _ _ _ _ _ (run_select w Hw _)). eexists. split; [done|]. intros h Hh.
  rewrite first_per_host_get, jget_nil. set (p := λ a, mem (agent_hostId a) (h0 :: hs)).
  assert (Hin : ∀ a, a ∈ merge_sort speaks_before (select_where p (w_db w)) ↔
    (∃ i, agents (w_db w) !! i = Some a) ∧ agent_hostId a ∈ h0 :: hs).
  { intros a. rewrite merge_sort_Permutation, elem_of_select_where. unfold p, mem. by rewrite bool_decide_eq_true. }
  destruct (List.find _ _) as [a|] eqn:E.
  - apply (find_sorted speaks_before) in E as (Ha & Hp & Hall);
      [|intros x; destruct (speaks_before_total x x); done|by apply (StronglySorted_merge_sort _)].
    apply bool_decide_eq_true in Hp. split_and!; [by apply Hin|done|].
    intros i b Hb Hbh. apply Hall; [|by apply bool_decide_eq_true]. apply Hin. split; [by exists i|congruence].
  - intros i a Ha Heq. eapply find_none in E; [|apply list_elem_of_In, Hin; split; [by exists i|by rewrite Heq]].
    simpl in E. by rewrite bool_decide_eq_false in E.
Qed.

(** What is known of the connection of a host: that of the agent that speaks for it, if it has one. *)
Definition connection_known (w : World) (hostId : string) (known : option bool) : Prop :=
  match known with
  | Some b => ∃ a, speaks_for (w_db w) hostId a ∧ b = connected_in w (agent_id a)
  | None => ∀ i a, agents (w_db w) !! i = Some a → agent_hostId a ≠ hostId
  end.

Lemma connectionsByHost_run hostIds w : healthy w → ∃ f, connectionsByHost hostIds w = (inr f, w) ∧
  ∀ h, h ∈ hostIds → connection_known w h (f h).
Proof.
  intros Hw. destruct (agentsOf_run hostIds w Hw) as (m & E & Hm). unfold connectionsByHost.
  rewrite (run_bind _ _ _ _ _ E). eexists. split; [done|]. intros h Hh. specialize (Hm h Hh).
  unfold connection_known. destruct (jget h m) as [a|]; simpl; [by exists a|exact Hm].
Qed.

(** ** What may be done to a container *)

(** What the four fields of the answer are about. *)
Record management_true (d : DB) (c : Container) (m : ManagementState) : Prop := {
  true_reconciling : management_reconciling m = false ↔ container_resolved d (container_id c);
  true_conflict : management_identityConflict m = false ↔ container_identityConflict c = None;
  true_stack : management_kind m = kind_stack ↔
    truthy (match container_stackId c with Some s => Some s | None => container_composeProjectId c end) = true;
  true_managed : management_kind m ≠ kind_stack →
    management_kind m = kind_managed ↔ ∃ i g, containerDesiredConfigs d !! i = Some g ∧ config_containerId g = container_id c
}.

Lemma own_configs ids d c g : container_id c ∈ ids →
  g ∈ List.filter (λ g, bool_decide (config_containerId g = container_id c)) (select_where (inventory_config ids) d) ↔
  (∃ i, containerDesiredConfigs d !! i = Some g) ∧ config_containerId g = container_id c.
Proof.
  intros Hc. rewrite list_elem_of_In, filter_In, <-list_elem_of_In, elem_of_select_where, bool_decide_eq_true.
  unfold inventory_config, mem. rewrite bool_decide_eq_true. simpl. split; [tauto|]. intros [Hi ->]. auto.
Qed.

Lemma open_targets ids d c : container_id c ∈ ids →
  Some (container_id c) ∈ action_targetId <$> select_where (open_management ids) d ↔
  ∃ i a, actions d !! i = Some a ∧ unfinished_action_of (container_id c) a = true.
Proof.
  intros Hc. rewrite list_elem_of_fmap. unfold open_management, unfinished_action_of, mem. split.
  - intros (a & Ht & [[i Hi] Ha]%elem_of_select_where). exists i, a. split; [done|]. rewrite <-Ht in *.
    rewrite !andb_true_iff, !bool_decide_eq_true in *. tauto.
  - intros (i & a & Hi & Ha). rewrite !andb_true_iff, !bool_decide_eq_true in Ha. destruct Ha as [[[Ht Hid] Hs] Hcap].
    exists a. split; [done|]. apply elem_of_select_where. split; [by exists i|]. rewrite Hid.
    rewrite !andb_true_iff, !bool_decide_eq_true. tauto.
Qed.

Lemma management_of_true ids d c : container_id c ∈ ids →
  management_true d c (management_of (select_where (inventory_config ids) d) (select_where (open_management ids) d) c).
Proof.
  intros Hc. pose proof (λ g, own_configs ids d c g Hc) as Hown. pose proof (open_targets ids d c Hc) as Hopen.
  unfold management_of. set (own := List.filter _ _) in *.
  split; cbn [management_kind management_reconciling management_identityConflict].
  - rewrite orb_false_iff. unfold mem. rewrite bool_decide_eq_false, Hopen. unfold container_resolved. split.
    + intros [Hp Ho]. split.
      * intros i g Hi Hg Hst. assert (Hin : g ∈ own) by (apply Hown; split; [by exists i|done]).
        apply list_elem_of_In in Hin. rewrite <-not_true_iff_false, existsb_exists in Hp. apply Hp. exists g.
        by rewrite bool_decide_eq_true.
      * intros i a Hi. apply unfinished_action_of_false. apply not_true_is_false. intros Ha. apply Ho. by exists i, a.
    + intros [Hp Ho]. split.
      * apply not_true_is_false. rewrite existsb_exists. intros (g & Hg%list_elem_of_In & Hs%bool_decide_eq_true).
        apply Hown in Hg as [[i Hi] Hg]. by apply (Hp i g).
      * intros (i & a & Hi & Ha). by rewrite (proj2 (unfinished_action_of_false _ a) (Ho i a Hi)) in Ha.
  - rewrite bool_decide_eq_false, <-eq_None_not_Some. done.
  - destruct (truthy _); [done|]. split; [|intros Hf; discriminate Hf]. by destruct own.
  - destruct (truthy _); [done|]. intros _. split.
    + destruct own as [|g l] eqn:E; [done|]. intros _. destruct (proj1 (Hown g)) as [[i Hi] Hg]; [by left|]. by exists i, g.
    + intros (i & g & Hi & Hg). destruct own as [|g' l] eqn:E; [|done]. exfalso.
      apply (not_elem_of_nil (A := DesiredConfig) g). apply Hown. split; [by exists i|done].
Qed.

Lemma managementFor_run rows_ w : healthy w → ∃ f, managementFor rows_ w = (inr f, w) ∧
  ∀ row, row ∈ rows_ → management_true (w_db w) (crow_container row) (f (crow_container row)).
Proof.
  intros Hw. unfold managementFor. set (ids := container_id ∘ crow_container <$> rows_).
  assert (Hin : ∀ row, row ∈ rows_ → container_id (crow_container row) ∈ ids).
  { intros row Hrow. by apply list_elem_of_fmap_2 with (f := container_id ∘ crow_container). }
  clearbody ids. destruct ids as [|i ids].
  - eexists. split; [done|]. intros row Hrow%Hin. by apply elem_of_nil in Hrow.
  - rewrite (run_bind _ _ _ _ _ (run_select w Hw _)), (run_bind _ _ _ _ _ (run_select w Hw _)).
    eexists. split; [done|]. intros row Hrow%Hin. by apply management_of_true.
Qed.

(** ** What the lists answer *)

Section answers.
Context `{Collation}.

Lemma findContainer_run id w c h :
  healthy w → containers (w_db w) !! id = Some c → hosts (w_db w) !! container_hostId c = Some h →
  ∃ v o, findContainer id w = (inr (Some v), w) ∧ cview_id v = container_id c ∧
    management_true (w_db w) c (cview_management v) ∧ connection_known w (container_hostId c) o ∧
    cview_freshness v = freshness (w_now w) (Some (container_observedAt c)) o.
Proof.
  intros Hw Hc Hh. unfold findContainer. rewrite (run_bind _ _ _ _ _ (run_read w Hw _)). rewrite Hc.
  unfold container_row. cbn [mbind option_bind]. rewrite Hh. cbn [mbind option_bind].
  set (row := {| crow_container := c |}).
  destruct (managementFor_run [row] w Hw) as (f & Ef & Hf). rewrite (run_bind _ _ _ _ _ Ef).
  destruct (connectionsByHost_run [container_hostId (crow_container row)] w Hw) as (g & Eg & Hg).
  rewrite (run_bind _ _ _ _ _ Eg). eexists _, (g (container_hostId c)). split_and!; [done|done| | |done].
  - apply (Hf row). by left.
  - apply Hg. by left.
Qed.

Lemma mutable_run id w c :
  healthy w → containers (w_db w) !! id = Some c →
  (∃ t, mutable id w = (inr t, w)) ↔
  operable (w_db w) id ∧ truthy (container_composeProjectId c) || truthy (container_stackId c) = false ∧
  ∃ i g, containerDesiredConfigs (w_db w) !! i = Some g ∧ config_containerId g = id.
Proof.
  intros Hw Hc. unfold mutable. rewrite (run_bind _ _ _ _ _ (run_select_id w Hw id)).
  change (rows (w_db w) !! id) with (containers (w_db w) !! id). rewrite Hc.
  destruct (assertOperable_spec w id) as (_ & _ & Hs). destruct (Hs Hw) as [Hiff Hno].
  destruct (assertOperable_run w Hw id) as [E|(code & E & _ & Hn)].
  - rewrite (run_bind _ _ _ _ _ E). apply Hiff in E. destruct (_ || _); [split; [by intros [t ?]|naive_solver]|].
    rewrite (run_bind _ _ _ _ _ (run_select_first w Hw _)). destruct (head _) as [g|] eqn:Eg.
    + split; [|by eauto]. intros _. split_and!; [done|done|]. apply head_select_Some in Eg as [[i Hi] Hg].
      exists i, g. split; [done|]. by apply bool_decide_eq_true in Hg.
    + split; [by intros [t ?]|]. intros (_ & _ & i & g & Hi & Hg).
      pose proof (proj1 (select_first_None (R := DesiredConfig) _ _) Eg i g Hi) as Hf.
      unfold Reconciliation.config_of_container in Hf. by rewrite bool_decide_eq_false in Hf.
  - rewrite (run_bind_throw _ _ _ _ _ E). split; [by intros [t ?]|]. by intros [? _].
Qed.

(** C39: what the interface is told may be changed is what the server lets be changed: a container on
    record is shown as managed, settled and without a conflict exactly when the guard that
    replacing and removing it go through accepts it. *)
Theorem shown_as_changeable id w c h :
  healthy w → db_ok (w_db w) → containers (w_db w) !! id = Some c → hosts (w_db w) !! container_hostId c = Some h →
  container_stackId c ≠ Some "" →
  ∃ v, findContainer id w = (inr (Some v), w) ∧
    ((management_kind (cview_management v) = kind_managed ∧ management_reconciling (cview_management v) = false ∧
      management_identityConflict (cview_management v) = false) ↔ ∃ t, mutable id w = (inr t, w)).
Proof.
  intros Hw Hok Hc Hh Hs. destruct (findContainer_run id w c h Hw Hc Hh) as (v & o & E & _ & M & _).
  exists v. split; [done|]. rewrite (mutable_run id w c Hw Hc).
  assert (Hid : container_id c = id) by exact (proj1 (db_ok_rows (R := Container) _ Hok) _ _ Hc).
  destruct M as [HA HB HC HD]. rewrite Hid in *. unfold operable. split.
  - intros (Hk & HrA%HA & HrB%HB). assert (Hns : management_kind (cview_management v) ≠ kind_stack) by (by rewrite Hk).
    rewrite HC in Hns. apply (HD ltac:(by rewrite Hk)) in Hk. destruct (container_stackId c) as [[|x s]|] eqn:Es; [done|done|].
    split_and!; [done| | |by destruct (truthy (container_composeProjectId c))|done].
    + intros r s Hr Hrs. congruence.
    + intros r Hr. by assert (r = c) as -> by congruence.
  - intros ((Hr & _ & Hn) & [Ht1 Ht2]%orb_false_iff & Hg). rewrite HA, HB.
    assert (Hns : management_kind (cview_management v) ≠ kind_stack).
    { rewrite HC. destruct (container_stackId c); [by rewrite Ht2|by rewrite Ht1]. }
    split_and!; [by apply HD|done|by apply Hn].
Qed.

(** ** What is shown as current *)

Lemma not_stale at_ t known :
  fresh_stale (freshness at_ (Some t) known) = false ↔ known ≠ Some false ∧ (at_ - t <= STALE_AFTER_MS)%Z.
Proof.
  unfold freshness. case_bool_decide; simpl; [naive_solver|]. rewrite Z.ltb_ge. tauto.
Qed.

Lemma of_page_elem {A} page (l : list A) x : x ∈ of_page page l → x ∈ l.
Proof. unfold of_page. rewrite <-(take_drop (page_offset page) l) at 2. intros Hx. apply elem_of_app. right.
  rewrite <-(take_drop (page_limit page) (drop _ l)). apply elem_of_app. by left. Qed.

(** An agent of the host is connected, or the host has none. *)
Definition answering (w : World) (hostId : string) : Prop :=
  (∃ i a, agents (w_db w) !! i = Some a ∧ agent_hostId a = hostId ∧ agent_id a ∈ w_connected w) ∨
  ∀ i a, agents (w_db w) !! i = Some a → agent_hostId a ≠ hostId.

Lemma known_answering w hostId known : connection_known w hostId known → known ≠ Some false → answering w hostId.
Proof.
  destruct known as [[]|]; [|done|by right]. intros (a & ((i & Hi) & Ha & _) & Hb) _. left. exists i, a.
  split_and!; [done|done|]. symmetry in Hb. by apply bool_decide_eq_true in Hb.
Qed.

(** What is not called stale was observed within the window, on a host that answers. *)
Definition honest (w : World) (hostId : string) (fr : Freshness) : Prop :=
  fresh_stale fr = false →
  (∃ t, fresh_observedAt fr = Some t ∧ (w_now w - t <= STALE_AFTER_MS)%Z) ∧ answering w hostId.

Lemma honest_freshness w hostId observedAt known :
  connection_known w hostId known → honest w hostId (freshness (w_now w) observedAt known).
Proof.
  intros Hk. destruct observedAt as [t|]; [|done]. intros [Hn Ht]%not_stale. split.
  - exists t. split; [|done]. unfold freshness. by case_bool_decide.
  - by eapply known_answering.
Qed.

Lemma listHosts_run page scope w : healthy w →
  let rows_ := of_page page (merge_sort before_host (select_where (in_scope scope) (w_db w))) in
  ∃ vs, listHosts page scope w = (inr (vs, length (select_where (in_scope scope) (w_db w))), w) ∧
    hview_id <$> vs = host_id <$> rows_ ∧ Forall (λ v, honest w (hview_id v) (hview_freshness v)) vs.
Proof.
  intros Hw rows_. unfold listHosts. rewrite (run_bind _ _ _ _ _ (run_read w Hw _)), (run_bind _ _ _ _ _ (run_read w Hw _)).
  destruct (agentsOf_run (host_id <$> rows_) w Hw) as (m & E & Hm). fold rows_. rewrite (run_bind _ _ _ _ _ E).
  eexists. split_and!; [done|by rewrite <-list_fmap_compose|]. apply Forall_fmap, Forall_forall. intros h Hh.
  apply honest_freshness. simpl. apply (list_elem_of_fmap_2 host_id) in Hh. specialize (Hm _ Hh).
  unfold connection_known. destruct (jget (host_id h) m) as [a|]; simpl; [by exists a|exact Hm].
Qed.

Lemma listContainers_run page f w : healthy w →
  let rows_ := of_page page (merge_sort before_container (container_rows f (w_db w))) in
  ∃ vs, listContainers page f w = (inr (vs, length (container_rows f (w_db w))), w) ∧
    cview_id <$> vs = container_id ∘ crow_container <$> rows_ ∧
    Forall (λ v, honest w (cview_hostId v) (cview_freshness v)) vs.
Proof.
  intros Hw rows_. unfold listContainers.
  rewrite (run_bind _ _ _ _ _ (run_read w Hw _)), (run_bind _ _ _ _ _ (run_read w Hw _)). fold rows_.
  destruct (managementFor_run rows_ w Hw) as (g & Eg & _). rewrite (run_bind _ _ _ _ _ Eg).
  destruct (connectionsByHost_run (remove_dups (container_hostId ∘ crow_container <$> rows_)) w Hw) as (k & Ek & Hk).
  rewrite (run_bind _ _ _ _ _ Ek). eexists. split_and!; [done|by rewrite <-list_fmap_compose|].
  apply Forall_fmap, Forall_forall. intros row Hrow. apply honest_freshness. apply Hk. apply elem_of_remove_dups.
  by apply (list_elem_of_fmap_2 (container_hostId ∘ crow_container)).
Qed.

Lemma listProjects_run page hostId w : healthy w →
  ∃ vs, listProjects page hostId w = (inr (vs, length (select_where (of_host hostId) (w_db w))), w) ∧
    Forall (λ v, honest w (psum_hostId v) (psum_freshness v)) vs.
Proof.
  intros Hw. unfold listProjects. rewrite (run_bind _ _ _ _ _ (run_read w Hw _)), (run_bind _ _ _ _ _ (run_read w Hw _)).
  set (rows_ := of_page page _).
  destruct (connectionsByHost_run (remove_dups ((λ row, project_hostId row.1) <$> rows_)) w Hw) as (k & Ek & Hk).
  rewrite (run_bind _ _ _ _ _ Ek). eexists. split; [done|].
  apply Forall_fmap, Forall_forall. intros row Hrow. apply honest_freshness. apply Hk. apply elem_of_remove_dups.
  by apply (list_elem_of_fmap_2 (λ row, project_hostId row.1)).
Qed.

(** Nothing a host reported before it stopped answering is presented as live: with a database that
    answers, every host, container and project on a page that is not marked stale was observed
    within three minutes, and an agent of its host is connected unless the host has none. *)
Theorem nothing_stale_shown_live page scope f hostId w :
  healthy w →
  (∃ vs n, listHosts page scope w = (inr (vs, n), w) ∧ Forall (λ v, honest w (hview_id v) (hview_freshness v)) vs) ∧
  (∃ vs n, listContainers page f w = (inr (vs, n), w) ∧ Forall (λ v, honest w (cview_hostId v) (cview_freshness v)) vs) ∧
  (∃ vs n, listProjects page hostId w = (inr (vs, n), w) ∧ Forall (λ v, honest w (psum_hostId v) (psum_freshness v)) vs).
Proof.
  intros Hw. destruct (listHosts_run page scope w Hw) as (v1 & E1 & _ & H1).
  destruct (listContainers_run page f w Hw) as (v2 & E2 & _ & H2). destruct (listProjects_run page hostId w Hw) as (v3 & E3 & H3).
  split_and!; by eexists _, _.
Qed.

(** ** Which rows are on a page *)

Lemma of_page_length {A} page (l : list A) : length (of_page page l) = page_limit page `min` (length l - page_offset page).
Proof. unfold of_page. by rewrite length_take, length_drop. Qed.

Lemma of_page_whole {A} page (l : list A) : page_offset page = 0 → length l ≤ page_limit page → of_page page l = l.
Proof. intros Ho Hl. unfold of_page. rewrite Ho, drop_0. by apply take_ge. Qed.

Lemma of_page_nodup {A} page (l : list A) : NoDup l → NoDup (of_page page l).
Proof. intros Hn. unfold of_page. eapply sublist_NoDup; [exact Hn|]. etrans; [apply sublist_take|apply sublist_drop]. Qed.

Lemma all_rows_ids `{TableLaws R} d : db_ok d → NoDup (row_id <$> all_rows (R := R) d).
Proof.
  intros [Hid _]%db_ok_rows. unfold all_rows. rewrite <-list_fmap_compose.
  erewrite (list_fmap_ext _ fst); [apply NoDup_fst_map_to_list|].
  intros i [k r] Hi. simpl. apply (Hid k). by eapply elem_of_map_to_list, list_elem_of_lookup_2.
Qed.

Lemma elem_of_all_rows `{Table R} d (r : R) : r ∈ all_rows d ↔ ∃ i, rows d !! i = Some r.
Proof.
  unfold all_rows. rewrite list_elem_of_fmap. split.
  - intros ([i r'] & -> & Hi%elem_of_map_to_list). by exists i.
  - intros [i Hi]. exists (i, r). split; [done|]. by apply elem_of_map_to_list.
Qed.

(** Choosing rows and joining them to others keeps one row per id. *)
Lemma nodup_through {A B} (f : A → string) (g : B → string) (j : A → option B) (p : B → bool) l :
  (∀ x y, j x = Some y → g y = f x) → NoDup (f <$> l) → NoDup (g <$> List.filter p (omap j l)).
Proof.
  intros Hj. induction l as [|x l IH]; [by constructor|]. rewrite fmap_cons, NoDup_cons. intros [Hx Hl].
  simpl. destruct (j x) as [y|] eqn:E; [|by apply IH]. simpl. destruct (p y); [|by apply IH].
  rewrite fmap_cons, NoDup_cons. split; [|by apply IH]. rewrite (Hj _ _ E). intros (z & Hz & Hin)%list_elem_of_fmap.
  apply Hx. apply list_elem_of_In, filter_In in Hin as [Hin _]. apply list_elem_of_In, list_elem_of_omap in Hin as (x' & Hin & E').
  apply list_elem_of_fmap. exists x'. split; [|done]. by rewrite Hz, (Hj _ _ E').
Qed.

Lemma container_rows_ids f d : db_ok d → NoDup (container_id ∘ crow_container <$> container_rows f d).
Proof.
  intros Hok. apply (nodup_through container_id); [|exact (all_rows_ids (R := Container) d Hok)]. intros c row. unfold container_row.
  intros (h & _ & [= <-])%bind_Some. done.
Qed.

(** A page of containers is what was asked for: the total is the number of containers of known hosts
    that match the filters, the page shows as many of them as fit, each of them once, and a
    page that is wide enough shows exactly those. *)
Theorem pages_exact page f w :
  healthy w → db_ok (w_db w) →
  ∃ vs total, listContainers page f w = (inr (vs, total), w) ∧
    total = length (container_rows f (w_db w)) ∧ length vs = page_limit page `min` (total - page_offset page) ∧
    NoDup (cview_id <$> vs) ∧
    (∀ v, v ∈ vs → ∃ c row, containers (w_db w) !! cview_id v = Some c ∧ container_row (w_db w) c = Some row ∧
       matches_filters f row = true) ∧
    (page_offset page = 0 → total ≤ page_limit page →
     ∀ i c row, containers (w_db w) !! i = Some c → container_row (w_db w) c = Some row → matches_filters f row = true →
       i ∈ cview_id <$> vs).
Proof.
  intros Hw Hok. destruct (listContainers_run page f w Hw) as (vs & E & Hids & _). eexists vs, _. split; [exact E|].
  set (rows_ := merge_sort before_container (container_rows f (w_db w))) in *.
  assert (Hp : rows_ ≡ₚ container_rows f (w_db w)) by apply merge_sort_Permutation.
  pose proof (proj1 (db_ok_rows (R := Container) _ Hok)) as Hkey.
  split_and!; [done| | | |].
  - rewrite <-(length_fmap cview_id vs), Hids, length_fmap, of_page_length. by rewrite Hp.
  - rewrite Hids. unfold of_page. rewrite fmap_take, fmap_drop. apply (of_page_nodup page). rewrite Hp. by apply container_rows_ids.
  - intros v Hv. apply (list_elem_of_fmap_2 cview_id) in Hv. rewrite Hids in Hv.
    apply list_elem_of_fmap in Hv as (row & -> & Hrow%of_page_elem). rewrite Hp in Hrow.
    apply list_elem_of_In, filter_In in Hrow as [Hrow Hf]. apply list_elem_of_In, list_elem_of_omap in Hrow as (c & Hc & Hrow).
    apply elem_of_all_rows in Hc as [i Hc]. exists c, row. split_and!; [|done|done].
    assert (crow_container row = c) as <- by (unfold container_row in Hrow; by apply bind_Some in Hrow as (h & _ & [= <-])).
    simpl in *. by rewrite (Hkey i _ Hc : container_id _ = i).
  - intros Ho Hl i c row Hc Hrow Hf. rewrite Hids, of_page_whole; [|done|by rewrite Hp].
    apply list_elem_of_fmap. exists row. split.
    + simpl. unfold container_row in Hrow. apply bind_Some in Hrow as (h & _ & [= <-]). symmetry. exact (Hkey i c Hc).
    + rewrite Hp. apply list_elem_of_In, filter_In. split; [|done]. apply list_elem_of_In, list_elem_of_omap. exists c.
      split; [|done]. apply elem_of_all_rows. by exists i.
Qed.
End answers.

(** ** Opening a container *)

Section opening.
Context `{Collation, Dates}.

(** A container is on record with the host it is on. *)
Definition on_record (d : DB) (id : string) : Prop := ∃ c row, containers d !! id = Some c ∧ container_row d c = Some row.

Lemma plain_read {A} (f : DB → A) : plain (statement (λ d, inr (f d, d))).
Proof. intros w e w'. unfold statement. destruct (next_fault w); [|done]. by intros [= <- _]. Qed.

Lemma agentsOf_reads ids : reads (agentsOf ids) ∧ plain (agentsOf ids).
Proof. unfold agentsOf. destruct ids; (split; [reads|]); [done|]. apply plain_bind; [apply plain_read|done]. Qed.

Lemma connectionsByHost_reads ids : reads (connectionsByHost ids) ∧ plain (connectionsByHost ids).
Proof.
  unfold connectionsByHost. split.
  - apply reads_bind; [apply agentsOf_reads|intros ?]. intros w. by exists (w_faults w); destruct w.
  - apply plain_bind; [apply agentsOf_reads|done].
Qed.

Lemma managementFor_reads rows_ : reads (managementFor rows_) ∧ plain (managementFor rows_).
Proof.
  unfold managementFor. destruct (_ <$> rows_); (split; [reads|]); [done|].
  apply plain_bind; [apply plain_read|intros ?]. by apply plain_bind; [apply plain_read|].
Qed.

Lemma findContainer_reads id : reads (findContainer id) ∧ plain (findContainer id).
Proof.
  unfold findContainer. split.
  - apply reads_bind; [apply reads_statement|intros [row|]; [|apply reads_ret]].
    apply reads_bind; [apply managementFor_reads|intros ?]. apply reads_bind; [apply connectionsByHost_reads|intros ?].
    intros w. by exists (w_faults w); destruct w.
  - apply plain_bind; [apply plain_read|intros [row|]; [|done]].
    apply plain_bind; [apply managementFor_reads|intros ?]. by apply plain_bind; [apply connectionsByHost_reads|].
Qed.

Lemma findContainer_None id w w' : findContainer id w = (inr None, w') → ¬ on_record (w_db w') id.
Proof.
  intros E. rewrite (reads_db _ _ _ _ (proj1 (findContainer_reads id)) E). unfold findContainer in E.
  apply bind_inr in E as (o & w1 & [-> _]%read_inr & E). intros (c & row & Hc & Hrow). rewrite Hc in E. cbn [mbind option_bind] in E.
  rewrite Hrow in E. apply bind_inr in E as (g & w2 & _ & E). apply bind_inr in E as (k & w3 & _ & E). discriminate E.
Qed.

(** Opening a container fails for what the container is and never for what its host is: when the
    request is refused, whatever the agent answered or did not, the container is no longer on
    record.  A host that cannot be asked costs the detail and nothing else. *)
Theorem refused_only_when_gone id w code status w' :
  get_container id w = (inl (AppError code status), w') → ¬ on_record (w_db w') id.
Proof.
  intros E. unfold get_container in E. destruct (findContainer_reads id) as [_ Hplain].
  apply bind_cases in E as [(e & [= <-] & E)|([v|] & w1 & E1 & E)]; [by apply Hplain in E| |].
  - apply bind_cases in E as [(e & [= <-] & E)|(r & w2 & _ & E)]; [|done].
    unfold inspect_container, try_catch in E. match type of E with match ?m with _ => _ end = _ => destruct m as [[e|x] w2] end; [|done].
    destruct e as [c s| | | |]; [|discriminate E..].
    apply bind_cases in E as [(e & [= <-] & E)|([still|] & w3 & E3 & E)]; [by apply Hplain in E|done|].
    injection E as _ _ <-. by apply findContainer_None in E3.
  - injection E as _ _ <-. by apply findContainer_None in E1.
Qed.
End opening.

(** ** Searching *)

Definition special (c : ascii) : bool := mem c ["%"%char; "_"%char; "\"%char].

Lemma like_any p t : like ("%"%char :: p) t = true ↔ ∃ a b, t = a ++ b ∧ like p b = true.
Proof.
  simpl. induction t as [|x t IH]; simpl.
  - rewrite orb_false_r. split; [by intros H; exists [], []|]. by intros ([|] & [|] & ? & ?).
  - rewrite orb_true_iff, IH. split.
    + intros [H|(a & b & -> & H)]; [by exists [], (x :: t)|by exists (x :: a), b].
    + intros ([|y a] & b & E & H); [left; by simplify_eq/=|]. simplify_eq/=. right. by exists a, b.
Qed.

Lemma like_plain s p t : forallb (λ c, negb (special c)) s = true → like (s ++ p) t = true ↔ ∃ b, t = s ++ b ∧ like p b = true.
Proof.
  revert t. induction s as [|c s IH]; intros t; simpl.
  { intros _. split; [by exists t|]. by intros (b & -> & ?). }
  rewrite andb_true_iff, negb_true_iff. unfold special at 1, mem. rewrite bool_decide_eq_false. intros [Hc Hs].
  rewrite !bool_decide_eq_false_2 by set_solver. destruct t as [|x t]; [split; [done|by intros (b & ? & _)]|].
  rewrite andb_true_iff, bool_decide_eq_true, IH by done. naive_solver.
Qed.

Lemma lower_then s : chars (lower (s +:+ "%")) = chars (lower s) ++ ["%"%char].
Proof. induction s as [|c s IH]; [done|]. exact (f_equal (cons (lower_ascii c)) IH). Qed.

(** Searching finds what contains the text: for a text without the characters a pattern gives a
    meaning to, a container matches exactly when its name or its image contains the text,
    whatever the case of either. *)
Theorem search_exact s row :
  s ≠ "" → forallb (λ c, negb (special c)) (chars (lower s)) = true →
  matches_filters {| filter_hostId := None; filter_state := None; filter_project := None; filter_search := Some s |} row = true ↔
  ∃ value a b, (value = container_name (crow_container row) ∨ value = container_image (crow_container row)) ∧
    chars (lower value) = a ++ chars (lower s) ++ b.
Proof.
  intros Hs Hp. unfold matches_filters, asks. cbn [filter_hostId filter_state filter_project filter_search].
  rewrite bool_decide_eq_false_2 by done. cbn [andb].
  assert (Hi : ∀ v, ilike v ("%" +:+ s +:+ "%") = true ↔ ∃ a b, chars (lower v) = a ++ chars (lower s) ++ b).
  { intros v. unfold ilike.
    assert (chars (lower ("%" +:+ s +:+ "%")) = "%"%char :: chars (lower s) ++ ["%"%char]) as ->.
    { exact (f_equal (cons "%"%char) (lower_then s)). }
    rewrite like_any. split.
    - intros (a & t & -> & (b & -> & _)%like_plain); [by exists a, b|done].
    - intros (a & b & ->). exists a, (chars (lower s) ++ b). split; [done|]. apply like_plain; [done|]. exists b.
      split; [done|]. apply like_any. exists b, []. by rewrite app_nil_r. }
  rewrite orb_true_iff, !Hi. naive_solver.
Qed.

(** ** On the two hosts of the discovery example *)

#[local] Instance bytewise_order : Collation := {| sql_le := String.leb; locale_le := String.leb |}.
#[local] Existing Instance one_moment.

(** [c1] was built by Dockplane. *)
Definition built : World := quiet_world
  (two_hosts <| containerDesiredConfigs := {["old" := example_config "old" "current" None]} |>).

Lemma built_ok : db_ok (w_db built).
Proof. apply db_okb_true. by vm_compute. Qed.

Lemma shown_as_changeable_witness : ∃ v t,
  findContainer "c1" built = (inr (Some v), built) ∧ management_kind (cview_management v) = kind_managed ∧
  mutable "c1" built = (inr t, built).
Proof.
  destruct (shown_as_changeable "c1" built (example_container "c1" "h1" "d1") (example_host "h1")) as (v & E & Hiff);
    [done|exact built_ok|reflexivity|reflexivity|done|].
  assert (Hm : management_kind (cview_management v) = kind_managed ∧ management_reconciling (cview_management v) = false ∧
    management_identityConflict (cview_management v) = false).
  { vm_compute in E. injection E as <-. by split_and!. }
  destruct (proj1 Hiff Hm) as [t Ht]. exists v, t. split; [exact E|]. split; [apply Hm|exact Ht].
Defined.

Definition one_page : Page := {| page_limit := 50; page_offset := 0 |}.
Definition every_container : ContainerFilters :=
  {| filter_hostId := None; filter_state := None; filter_project := None; filter_search := None |}.

Lemma nothing_stale_shown_live_witness :
  (∃ vs n, listHosts one_page scope_active built = (inr (vs, n), built) ∧ n = 2 ∧
     Forall (λ v, honest built (hview_id v) (hview_freshness v)) vs) ∧
  ∃ vs n, listContainers one_page every_container built = (inr (vs, n), built) ∧ n = 2 ∧
     Forall (λ v, honest built (cview_hostId v) (cview_freshness v)) vs.
Proof.
  destruct (nothing_stale_shown_live one_page scope_active every_container None built) as ((v1 & n1 & E1 & H1) & (v2 & n2 & E2 & H2) & _);
    [done|]. split; [exists v1, n1|exists v2, n2].
  - split; [exact E1|]. split; [|exact H1].
    assert (Hn : (match (listHosts one_page scope_active built).1 with inr p => p.2 | inl _ => 0 end) = 2) by (vm_compute; reflexivity).
    rewrite E1 in Hn. exact Hn.
  - split; [exact E2|]. split; [|exact H2].
    assert (Hn : (match (listContainers one_page every_container built).1 with inr p => p.2 | inl _ => 0 end) = 2) by (vm_compute; reflexivity).
    rewrite E2 in Hn. exact Hn.
Defined.

Lemma built_rows : length (container_rows every_container (w_db built)) = 2.
Proof. by vm_compute. Qed.

Lemma built_c9 : ∃ c row, containers (w_db built) !! "c9" = Some c ∧ container_row (w_db built) c = Some row ∧
  matches_filters every_container row = true.
Proof. eexists _, _. split_and!; vm_compute; reflexivity. Qed.

Lemma pages_exact_witness : ∃ vs total, listContainers one_page every_container built = (inr (vs, total), built) ∧
  total = 2 ∧ length vs = 2 ∧ "c9" ∈ cview_id <$> vs.
Proof.
  destruct (pages_exact one_page every_container built eq_refl built_ok) as (vs & total & E & Ht & Hl & _ & _ & Hall).
  rewrite built_rows in Ht. subst total. destruct built_c9 as (c & row & Hc & Hrow & Hf). exists vs, 2.
  split; [exact E|]. split; [reflexivity|]. split; [exact Hl|].
  refine (Hall eq_refl _ "c9" c row Hc Hrow Hf). cbn [one_page page_limit]. lia.
Defined.

Lemma refused_only_when_gone_witness :
  get_container "nobody" built = (inl (AppError "CONTAINER_NOT_FOUND" NOT_FOUND), built) ∧ ¬ on_record (w_db built) "nobody".
Proof.
  assert (E : get_container "nobody" built = (inl (AppError "CONTAINER_NOT_FOUND" NOT_FOUND), built)) by (vm_compute; reflexivity).
  split; [exact E|]. exact (refused_only_when_gone "nobody" built _ _ _ E).
Defined.

Definition nginx_row : ContainerRow := {| crow_container := example_container "c1" "h1" "d1"; crow_host := example_host "h1"; crow_project := None |}.

Lemma search_exact_witness : ∃ value a b,
  (value = container_name (crow_container nginx_row) ∨ value = container_image (crow_container nginx_row)) ∧
  chars (lower value) = a ++ chars (lower "NGIN") ++ b.
Proof. apply (search_exact "NGIN" nginx_row); [done|by vm_compute|by vm_compute]. Defined.

(** The text of a search is not taken as it is: an underscore finds every container. *)
Example underscore_finds_everything :
  matches_filters {| filter_hostId := None; filter_state := None; filter_project := None; filter_search := Some "_" |} nginx_row = true ∧
  ¬ "_"%char ∈ chars (container_name (crow_container nginx_row)) ++ chars (container_image (crow_container nginx_row)).
Proof. split; [by vm_compute|]. apply (bool_decide_unpack _). by vm_compute. Qed.

(** A host with two agents is judged by the one that enrolled last; everything that asks the host asks whichever is connected. *)
Example connected_host_shown_offline :
  let w := (quiet_world (two_hosts <| agents := {["agent-1" := example_agent;
    "agent-2" := example_agent <| agent_id := "agent-2" |> <| agent_enrolledAt := (agent_enrolledAt example_agent + 1)%Z |>]} |>)) in
  match (findContainer "c1" w).1 with inr (Some v) => fresh_stale (cview_freshness v) | _ => false end = true ∧
  match (reachableHosts w).1 with inr l => mem "h1" l | _ => false end = true ∧
  (archive "h1" operator from_ui w).1 = inl (AppError "HOST_CONNECTED" CONFLICT).
Proof. vm_compute. by split_and!. Qed.
