(* ===== verification/InstallScript.v ===== *)
(** * The script a new host runs

    [api/src/host-setup/install-script.ts] and the handler of
    [host-setup.controller.ts] that sends it.  The script is the text of the source with
    the four values in it; a quotation mark of the script is written as an at sign here,
    which the script does not have.

    What a shell makes of it is [scan], the quoting rules of POSIX shells: where a
    character is code, where it is within single or double quotes or in a comment, and
    where a command substitution begins and ends. *)

From Stdlib Require Import Ascii String NArith ZArith.
From stdpp Require Import gmap strings list.
From S2P Require Import Prelude Schema Store Effects Logic Base64 Discovery Credentials Sessions Enrollment HostSetup JsNumber ContainerSpec.

(** ** Versions *)

Definition debianVersion (version : string) : string :=
  text ((λ c, if bool_decide (c = "-"%char) then "~"%char else c) <$> chars version).

Definition agentPackageName (version architecture : string) : string :=
  "dockplane-agent_" +:+ version +:+ "_" +:+ architecture +:+ ".deb".

(** [[0-9]+] at the start, and what is after it. *)
Definition number_then (l : list ascii) : option (list ascii) :=
  match span_digits l with ([], _) => None | (_, rest) => Some rest end.

Definition dot_then (l : list ascii) : option (list ascii) :=
  match l with c :: l' => if bool_decide (c = "."%char) then Some l' else None | [] => None end.

(** [[0-9]+\.[0-9]+\.[0-9]+] at the start. *)
Definition three_numbers (l : list ascii) : option (list ascii) :=
  a ← number_then l; b ← dot_then a; c ← number_then b; d ← dot_then c; number_then d.

Definition all_digits (l : list ascii) : bool := bool_decide (l ≠ []) && forallb is_digit l.

(** [(-(alpha|beta|rc)\.[0-9]+)?] at the end. *)
Definition candidate_tail (l : list ascii) : bool :=
  bool_decide (l = []) ||
  existsb (λ word, let w := chars word in
    bool_decide (take (length w) l = w) && all_digits (drop (length w) l)) ["-alpha."; "-beta."; "-rc."].

Definition RELEASE_VERSION (version : string) : bool :=
  match three_numbers (chars version) with Some rest => candidate_tail rest | None => false end.

(** [None] is [UnreleasedAgentVersionError]. *)
Definition resolveAgentVersion (configured buildVersion : string) : option string :=
  let version := if bool_decide (configured = "") then buildVersion else configured in
  if RELEASE_VERSION version then Some version else None.

(** ** What may be substituted *)

Definition url_char (c : ascii) : bool :=
  is_digit c || is_alpha c || mem c (chars "._~:/?#[]@!$&'()*+,;=%-").

(** [/^https?:\/\/[...]+$/] *)
Definition URL_PATTERN (l : list ascii) : bool :=
  existsb (λ scheme, let w := chars scheme in
    bool_decide (take (length w) l = w) && bool_decide (drop (length w) l ≠ []) && forallb url_char (drop (length w) l))
    ["http://"; "https://"].

Definition version_tail_char (c : ascii) : bool := is_digit c || is_alpha c || mem c (chars ".~+").

(** [/^[0-9]+\.[0-9]+\.[0-9]+([.~+-][0-9A-Za-z.~+]+)?$/] *)
Definition VERSION_PATTERN (l : list ascii) : bool :=
  match three_numbers l with
  | Some [] => true
  | Some (c :: rest) => mem c (chars ".~+-") && bool_decide (rest ≠ []) && forallb version_tail_char rest
  | None => false
  end.

Definition token_char (c : ascii) : bool := is_digit c || is_alpha c || mem c (chars "_-").

(** [/^[A-Za-z0-9_-]+$/] *)
Definition TOKEN_PATTERN (l : list ascii) : bool := bool_decide (l ≠ []) && forallb token_char l.

(** [None] is an error. *)
Definition assertSubstitutable (value : list ascii) (pattern : list ascii → bool) : option (list ascii) :=
  if pattern value then Some value else None.

(** ** The script *)

Definition line_feed : ascii := "010"%char.
Definition mark : ascii := "034"%char.

(** Lines of the source, with the quotation mark in place of the at sign. *)
Definition script (lines : list string) : list ascii :=
  (λ c, if bool_decide (c = "@"%char) then mark else c) <$> join_with line_feed (chars <$> lines).

Definition before_release_url : list ascii := script
  ["#!/usr/bin/env bash";
   "#";
   "# Adds this machine to Dockplane.";
   "#";
   "# Downloads the agent package that matches the control plane, checks it against";
   "# the checksums published with that release, installs it, enrolls this host and";
   "# starts the service. It installs nothing else and changes nothing else.";
   "";
   "set -euo pipefail";
   "";
   "RELEASE_BASE_URL='"].

Definition before_version : list ascii := script
  ["'";
   "AGENT_VERSION='"].

Definition before_control_plane_url : list ascii := script
  ["'";
   "CONTROL_PLANE_URL='"].

Definition before_token : list ascii := script
  ["'";
   "STATE_DIR='/var/lib/dockplane-agent'";
   "";
   "fail() {";
   "	echo @dockplane: $*@ >&2";
   "	exit 1";
   "}";
   "";
   "note() {";
   "	echo @dockplane: $*@";
   "}";
   "";
   "[[ @$(id -u)@ -eq 0 ]] || fail @this must run as root; pipe the command into 'sudo bash'@";
   "";
   "for tool in curl dpkg sha256sum systemctl uname; do";
   "	command -v @$tool@ > /dev/null || fail @missing required command: $tool@";
   "done";
   "";
   "# --- what this machine is ---------------------------------------------------";
   "";
   "case @$(uname -s)@ in";
   "	Linux) ;;";
   "	*) fail @this installer supports Linux only@ ;;";
   "esac";
   "";
   "case @$(uname -m)@ in";
   "	x86_64) ARCH=amd64 ;;";
   "	aarch64 | arm64) ARCH=arm64 ;;";
   "	*) fail @unsupported architecture: $(uname -m). Dockplane publishes amd64 and arm64.@ ;;";
   "esac";
   "";
   "if [[ @$ARCH@ == arm64 ]]; then";
   "	note @arm64 is experimental: the package is built and inspected for it, but no@";
   "	note @arm64 machine has been through this in testing. Use amd64 in production.@";
   "fi";
   "";
   "[[ -r /etc/os-release ]] || fail @cannot identify this distribution: /etc/os-release is missing@";
   "# shellcheck disable=SC1091";
   ". /etc/os-release";
   "";
   "supported=no";
   "case @${ID:-}:${VERSION_ID:-}@ in";
   "	ubuntu:24.04 | ubuntu:22.04 | debian:12) supported=yes ;;";
   "esac";
   "";
   "if [[ @$supported@ != yes ]]; then";
   "	fail @unsupported distribution: ${PRETTY_NAME:-unknown}. The agent package supports Ubuntu 24.04, Ubuntu 22.04 and Debian 12. Install the agent by hand elsewhere: $CONTROL_PLANE_URL@";
   "fi";
   "";
   "# --- what has to be here already --------------------------------------------";
   "";
   "command -v docker > /dev/null ||";
   "	fail @Docker Engine is not installed. Dockplane manages Docker and does not install it.@";
   "";
   "docker info > /dev/null 2>&1 ||";
   "	fail @Docker Engine is installed but not reachable. Start it and run this again.@";
   "";
   "# An identity is not something to replace behind somebody's back. Re-running the";
   "# command on a host that is already enrolled stops here rather than creating a";
   "# second agent for one machine.";
   "if [[ -s @$STATE_DIR/agent.crt@ ]]; then";
   "	fail @this host is already enrolled with Dockplane. Remove it there first, then purge the agent with 'apt purge dockplane-agent'.@";
   "fi";
   "";
   "# --- the package ------------------------------------------------------------";
   "";
   "work=@$(mktemp -d)@";
   "cleanup() {";
   "	rm -rf @$work@";
   "}";
   "trap cleanup EXIT";
   "";
   "package=@dockplane-agent_${AGENT_VERSION}_${ARCH}.deb@";
   "release=@${RELEASE_BASE_URL}/v${AGENT_VERSION}@";
   "";
   "note @downloading dockplane-agent $AGENT_VERSION for $ARCH@";
   "";
   "curl -fsSL --proto '=https' --tlsv1.2 --retry 3 --retry-delay 2 --max-time 300 \";
   "	-o @$work/$package@ @${release}/${package}@ ||";
   "	fail @could not download ${release}/${package}@";
   "";
   "curl -fsSL --proto '=https' --tlsv1.2 --retry 3 --retry-delay 2 --max-time 60 \";
   "	-o @$work/SHA256SUMS@ @${release}/SHA256SUMS@ ||";
   "	fail @could not download the checksums for this release@";
   "";
   "# Checked before anything is installed, and the whole thing stops if it does not";
   "# match. A package that is not what the release says it is does not get run.";
   "expected=@$(awk -v name=@$package@ '$2 == name || $2 == @./@ name { print $1 }' @$work/SHA256SUMS@ | head -1)@";
   "[[ -n @$expected@ ]] || fail @the release checksums do not mention $package@";
   "";
   "actual=@$(sha256sum @$work/$package@ | cut -d' ' -f1)@";
   "";
   "if [[ @$actual@ != @$expected@ ]]; then";
   "	fail @checksum mismatch for $package. The download was not what the release published; nothing has been installed.@";
   "fi";
   "";
   "note @checksum verified@";
   "";
   "# --- install, enroll, start -------------------------------------------------";
   "";
   "note @installing the agent@";
   "dpkg -i @$work/$package@ > /dev/null || fail @installing $package failed@";
   "rm -f @$work/$package@";
   "";
   "note @enrolling this host@";
   "";
   "# The token reaches the agent on standard input and appears in no argument list,";
   "# no environment and no shell history. It is written by a shell builtin, so it";
   "# never becomes a separate process either.";
   "install -d -m 0700 -o dockplane-agent -g dockplane-agent @$STATE_DIR@";
   "";
   "if ! printf '%s' '"].

Definition after_token : list ascii := script
  ["' |";
   "	runuser -u dockplane-agent -- env DOCKPLANE_AGENT_STATE_DIR=@$STATE_DIR@ \";
   "		dockplane-agent enroll --server @$CONTROL_PLANE_URL@ --token-stdin; then";
   "	fail @enrollment failed. Nothing was enrolled; create a new command in Dockplane and try again.@";
   "fi";
   "";
   "note @starting the service@";
   "systemctl enable --now dockplane-agent || fail @the agent was installed and enrolled, but the service did not start. Check 'systemctl status dockplane-agent'.@";
   "";
   "note @done. This host will appear in Dockplane within a few seconds.@";
   ""].

Record InstallScriptOptions := {
  option_releaseBaseUrl : string;
  option_agentVersion : string;
  option_controlPlaneUrl : string;
  option_enrollmentToken : string
}.

(** The template with its four values. *)
Definition filled (url version plane token : list ascii) : list ascii :=
  before_release_url ++ url ++ before_version ++ version ++ before_control_plane_url ++ plane ++
  before_token ++ token ++ after_token.

(** [value.replace(/\/+$/, '')] is [clean]. *)
Definition renderInstallScript (options : InstallScriptOptions) : option (list ascii) :=
  url ← assertSubstitutable (chars (clean (option_releaseBaseUrl options))) URL_PATTERN;
  version ← assertSubstitutable (chars (option_agentVersion options)) VERSION_PATTERN;
  plane ← assertSubstitutable (chars (clean (option_controlPlaneUrl options))) URL_PATTERN;
  token ← assertSubstitutable (chars (option_enrollmentToken options)) TOKEN_PATTERN;
  Some (filled url version plane token).

(** ** The handler *)

Section bootstrap.
Context `{Credentials} `{SetupConfig}.
Context (AGENT_RELEASE_VERSION AGENT_RELEASE_BASE_URL PUBLIC_APP_URL BUILD_VERSION : string).

Definition post_bootstrap (ticket : string) (ip : option string) : M (list ascii) :=
  match resolveAgentVersion AGENT_RELEASE_VERSION BUILD_VERSION with
  | None => refused "HOST_SETUP_UNAVAILABLE"
  | Some agentVersion =>
      claimed ← consumeTicket ticket ip;
      match renderInstallScript {|
        option_releaseBaseUrl := AGENT_RELEASE_BASE_URL; option_agentVersion := agentVersion;
        option_controlPlaneUrl := PUBLIC_APP_URL; option_enrollmentToken := boot_enrollmentToken claimed |} with
      | None => throw PlainError
      | Some script => mret script
      end
  end.
End bootstrap.

(** ** What a shell reads *)

Inductive Context_ := Code | Single | Double.

#[export] Instance Context_eq_dec : EqDecision Context_.
Proof. solve_decision. Defined.

(** The contexts a character is in, innermost first; whether it is in a comment, after a
    backslash, after a dollar sign, at the start of a word. *)
Record Shell := {
  sh_stack : list Context_;
  sh_comment : bool;
  sh_escaped : bool;
  sh_dollar : bool;
  sh_fresh : bool
}.

Definition reading (stack : list Context_) (dollar fresh : bool) : Shell :=
  {| sh_stack := stack; sh_comment := false; sh_escaped := false; sh_dollar := dollar; sh_fresh := fresh |}.

Definition sh_start : Shell := reading [Code] false true.

Definition separates (c : ascii) : bool := is_space c || mem c (chars ";&|()").

Definition sh_step (s : Shell) (c : ascii) : Shell :=
  if sh_comment s then if bool_decide (c = line_feed) then reading (sh_stack s) false true else s
  else if sh_escaped s then reading (sh_stack s) false false
  else
    let escape := {| sh_stack := sh_stack s; sh_comment := false; sh_escaped := true; sh_dollar := false; sh_fresh := false |} in
    match sh_stack s with
    | Single :: stack => if bool_decide (c = "'"%char) then reading stack false false else s
    | Double :: stack =>
        if bool_decide (c = mark) then reading stack false false
        else if bool_decide (c = "\"%char) then escape
        else if bool_decide (c = "("%char) && sh_dollar s then reading (Code :: sh_stack s) false true
        else reading (sh_stack s) (bool_decide (c = "$"%char)) false
    | Code :: stack =>
        if bool_decide (c = "'"%char) then reading (Single :: sh_stack s) false false
        else if bool_decide (c = mark) then reading (Double :: sh_stack s) false false
        else if bool_decide (c = "\"%char) then escape
        else if bool_decide (c = "("%char) && sh_dollar s then reading (Code :: sh_stack s) false true
        else if bool_decide (c = ")"%char) && bool_decide (stack ≠ []) then reading stack false false
        else if bool_decide (c = "#"%char) && sh_fresh s then
          {| sh_stack := sh_stack s; sh_comment := true; sh_escaped := false; sh_dollar := false; sh_fresh := false |}
        else reading (sh_stack s) (bool_decide (c = "$"%char)) (separates c)
    | [] => s
    end.

Definition scan (l : list ascii) (s : Shell) : Shell := foldl sh_step s l.

(** ** Values are data *)

(** In single quotes, in code. *)
Definition quoted : Shell := reading [Single; Code] false false.

Lemma scan_app l l' s : scan (l ++ l') s = scan l' (scan l s).
Proof. apply foldl_app. Qed.

Lemma scan_data l : "'"%char ∉ l → scan l quoted = quoted.
Proof.
  induction l as [|c l IH]; [done|]. rewrite not_elem_of_cons. intros [Hc Hl]. simpl.
  assert (sh_step quoted c = quoted) as -> by (unfold sh_step, quoted; simpl; by rewrite bool_decide_eq_false_2 by done).
  by apply IH.
Qed.

Lemma scan_before_release_url : scan before_release_url sh_start = quoted.
Proof. vm_compute. reflexivity. Qed.

Lemma scan_before_version : scan before_version quoted = quoted.
Proof. vm_compute. reflexivity. Qed.

Lemma scan_before_control_plane_url : scan before_control_plane_url quoted = quoted.
Proof. vm_compute. reflexivity. Qed.

Lemma scan_before_token : scan before_token quoted = quoted.
Proof. vm_compute. reflexivity. Qed.

Lemma scan_after_token : scan after_token quoted = sh_start.
Proof. vm_compute. reflexivity. Qed.

Lemma quote_not_in (pattern : ascii → bool) l :
  pattern "'"%char = false → forallb pattern l = true → "'"%char ∉ l.
Proof. intros Hq Hl Hin. pose proof (forallb_elem _ _ _ Hl Hin). congruence. Qed.

Lemma TOKEN_PATTERN_quote l : TOKEN_PATTERN l = true → "'"%char ∉ l.
Proof. intros [_ Hl]%andb_prop. by eapply quote_not_in, Hl. Qed.

(** *** Released versions *)

Lemma span_digits_spec l : l = (span_digits l).1 ++ (span_digits l).2 ∧ forallb is_digit (span_digits l).1 = true.
Proof.
  induction l as [|c l [Hl Hd]]; [done|]. simpl. destruct (is_digit c) eqn:Ec; [|done].
  destruct (span_digits l) as [ds rest]. simpl in *. by rewrite Ec, <-Hl.
Qed.

Lemma number_then_spec l rest :
  number_then l = Some rest → ∃ ds, l = ds ++ rest ∧ forallb is_digit ds = true.
Proof.
  unfold number_then. destruct (span_digits_spec l) as [Hl Hd]. destruct (span_digits l) as [[|d ds] r]; [done|].
  intros [= ->]. by exists (d :: ds).
Qed.

Lemma dot_then_spec l rest : dot_then l = Some rest → l = "."%char :: rest.
Proof. destruct l as [|c l]; [done|]. unfold dot_then. destruct (bool_decide_reflect (c = "."%char)) as [->|]; [|done]. by intros [= ->]. Qed.

Lemma three_numbers_spec l rest :
  three_numbers l = Some rest →
  ∃ a b c, l = a ++ "."%char :: b ++ "."%char :: c ++ rest ∧
    forallb is_digit a = true ∧ forallb is_digit b = true ∧ forallb is_digit c = true.
Proof.
  unfold three_numbers. intros H.
  repeat match type of H with _ ≫= _ = Some _ => apply bind_Some in H as (? & ? & H) end.
  repeat match goal with
  | H : number_then _ = Some _ |- _ => apply number_then_spec in H as (? & -> & ?)
  | H : dot_then _ = Some _ |- _ => apply dot_then_spec in H as ->
  end.
  by eexists _, _, _.
Qed.

Lemma VERSION_PATTERN_quote l : VERSION_PATTERN l = true → "'"%char ∉ l.
Proof.
  unfold VERSION_PATTERN. destruct (three_numbers l) as [rest|] eqn:E; [|done]. intros Hr.
  apply three_numbers_spec in E as (a & b & c & -> & Ha & Hb & Hc).
  assert ("'"%char ∉ rest).
  { destruct rest as [|t rest]; [apply not_elem_of_nil|].
    apply andb_prop in Hr as [[Ht _]%andb_prop Hr]. apply not_elem_of_cons. split; [|by eapply quote_not_in, Hr].
    intros <-. by vm_compute in Ht. }
  rewrite !elem_of_app, !elem_of_cons, !elem_of_app, !elem_of_cons, !elem_of_app.
  pose proof (quote_not_in is_digit _ eq_refl Ha). pose proof (quote_not_in is_digit _ eq_refl Hb).
  pose proof (quote_not_in is_digit _ eq_refl Hc). naive_solver.
Qed.

Lemma candidate_tail_version l :
  candidate_tail l = true →
  match l with [] => True | c :: rest => mem c (chars ".~+-") && bool_decide (rest ≠ []) && forallb version_tail_char rest = true end.
Proof.
  assert (Hword : ∀ w, forallb version_tail_char (chars w) = true → w ≠ "" →
    bool_decide (take (length (chars ("-" +:+ w))) l = chars ("-" +:+ w)) && all_digits (drop (length (chars ("-" +:+ w))) l) = true →
    ∃ rest, l = "-"%char :: rest ∧ rest ≠ [] ∧ forallb version_tail_char rest = true).
  { intros w Hw Hne [Ht%bool_decide_eq_true_1 [_ Hd]%andb_prop]%andb_prop.
    rewrite <-(take_drop (length (chars ("-" +:+ w))) l), Ht.
    exists (chars w ++ drop (length (chars ("-" +:+ w))) l). split; [done|]. split; [by destruct w|].
    rewrite forallb_app, Hw. apply forallb_Forall. apply forallb_Forall in Hd. eapply Forall_impl; [exact Hd|].
    intros c Hc. unfold version_tail_char. by rewrite Hc. }
  unfold candidate_tail. intros [->%bool_decide_eq_true_1|H]%orb_prop; [done|].
  assert (∃ rest, l = "-"%char :: rest ∧ rest ≠ [] ∧ forallb version_tail_char rest = true) as (rest & -> & Hne & Hr).
  { simpl existsb in H. apply orb_prop in H as [H|[H|[H|H]%orb_prop]%orb_prop]; [..|done].
    - by apply (Hword "alpha.").
    - by apply (Hword "beta.").
    - by apply (Hword "rc."). }
  by rewrite (bool_decide_eq_true_2 _ Hne), Hr.
Qed.

Lemma resolved_substitutable configured buildVersion version :
  resolveAgentVersion configured buildVersion = Some version → VERSION_PATTERN (chars version) = true.
Proof.
  unfold resolveAgentVersion. destruct (RELEASE_VERSION _) eqn:E; [|done]. intros [= <-]. revert E.
  unfold RELEASE_VERSION, VERSION_PATTERN. destruct (three_numbers _) as [[|c rest]|]; [done| |done].
  apply (candidate_tail_version (c :: rest)).
Qed.

(** *** The script is sent, and what is in it is data *)

Definition fields_of (releases plane : string) (version : string) (claimed : Bootstrapped) : list ascii :=
  filled (chars (clean releases)) (chars version) (chars (clean plane)) (chars (boot_enrollmentToken claimed)).

Lemma substitutable value pattern v : assertSubstitutable value pattern = Some v → v = value ∧ pattern value = true.
Proof. unfold assertSubstitutable. destruct (pattern value); naive_solver. Qed.

Lemma render_some options s :
  renderInstallScript options = Some s →
  s = filled (chars (clean (option_releaseBaseUrl options))) (chars (option_agentVersion options))
        (chars (clean (option_controlPlaneUrl options))) (chars (option_enrollmentToken options)) ∧
  VERSION_PATTERN (chars (option_agentVersion options)) = true ∧
  TOKEN_PATTERN (chars (option_enrollmentToken options)) = true.
Proof.
  unfold renderInstallScript. intros H.
  repeat match type of H with
  | _ ≫= _ = Some _ => let E := fresh in apply bind_Some in H as (? & [-> E]%substitutable & H)
  end.
  by injection H as <-.
Qed.

Lemma drop_while_elem {A} (p : A → bool) l x : x ∈ drop_while p l → x ∈ l.
Proof. induction l as [|a l IH]; [done|]. simpl. destruct (p a); [|done]. intros. right. by apply IH. Qed.

Lemma quote_not_in_clean url : "'"%char ∉ chars url → "'"%char ∉ chars (clean url).
Proof.
  intros H Hin. apply H. revert Hin. unfold clean. rewrite chars_text, elem_of_reverse.
  intros Hin%drop_while_elem. by apply elem_of_reverse.
Qed.

(** The text before each value, as the shell reads it, ends within single quotes, and the
    value does not end them. *)
Definition whole_in_quotes (before value : list ascii) : Prop :=
  scan before sh_start = quoted ∧ "'"%char ∉ value.

Lemma filled_in_quotes url version plane token :
  "'"%char ∉ url → "'"%char ∉ version → "'"%char ∉ plane → "'"%char ∉ token →
  whole_in_quotes before_release_url url ∧
  whole_in_quotes (before_release_url ++ url ++ before_version) version ∧
  whole_in_quotes (before_release_url ++ url ++ before_version ++ version ++ before_control_plane_url) plane ∧
  whole_in_quotes (before_release_url ++ url ++ before_version ++ version ++ before_control_plane_url ++ plane ++ before_token) token ∧
  scan (filled url version plane token) sh_start = sh_start.
Proof.
  intros. unfold whole_in_quotes, filled.
  rewrite !scan_app, scan_before_release_url. rewrite !(scan_data url) by done.
  rewrite !scan_before_version, !(scan_data version), !scan_before_control_plane_url, !(scan_data plane), !scan_before_token,
    !(scan_data token), scan_after_token by done.
  done.
Qed.

(** *** Generated tokens *)

Lemma char_of_token n : token_char (char_of n) = true.
Proof.
  unfold char_of. destruct (alphabet !! N.to_nat n) as [c|] eqn:E; [|done]. simpl.
  apply (forallb_elem token_char alphabet); [reflexivity|by eapply list_elem_of_lookup_2].
Qed.

Lemma encode_token l : forallb token_char (encode l) = true.
Proof. induction l as [|a|a b|a b c l IH] using list_ind_3; cbn [encode forallb]; by rewrite ?char_of_token, ?IH. Qed.

Section bootstrapped.
Context `{Credentials} `{SetupConfig}.
Context (configured releases plane build : string).

Notation sent := (post_bootstrap configured releases plane build).


(** What the generator makes can be written in a script. *)
Lemma generated_token ticket ip w claimed w' :
  consumeTicket ticket ip w = (inr claimed, w') → TOKEN_PATTERN (chars (boot_enrollmentToken claimed)) = true.
Proof.
  unfold consumeTicket. intros E. apply bind_inr in E as (? & w1 & _ & E). apply bind_inr in E as ([|s [|? ?]] & w2 & _ & E); [done| |done].
  apply bind_inr in E as (token & w3 & Ht & E). do 2 apply bind_inr in E as (? & ? & _ & E). injection E as <- <-. simpl. clear -Ht.
  unfold createToken in Ht. apply bind_inr in Ht as (secret & w4 & Hs & Ht). injection Hs as <- <-.
  repeat apply bind_inr in Ht as (? & ? & _ & Ht). injection Ht as <- <-. simpl.
  unfold TOKEN_PATTERN. rewrite chars_text, encode_token, bool_decide_eq_true_2; [done|].
  intros Hn. apply (proj1 (encode_nil _)) in Hn. pose proof (random_bytes_length TOKEN_BYTES (w_seed w2)) as Hl. by rewrite Hn in Hl.
Qed.

Lemma substitutable_some value pattern : pattern value = true → assertSubstitutable value pattern = Some value.
Proof. unfold assertSubstitutable. by intros ->. Qed.

(** With addresses that can be written in a script, the handler answers what the ticket is worth and nothing else comes between: without a
    published release it refuses and changes nothing, so the command can be run again;
    with one, the version it names and the token it made can always be written, an invalid ticket's
    refusal is passed on, and a valid one is answered with the script. *)
Theorem script_for_ticket ticket ip w :
  URL_PATTERN (chars (clean releases)) = true → URL_PATTERN (chars (clean plane)) = true →
  sent ticket ip w =
    match resolveAgentVersion configured build with
    | None => (inl (AppError "HOST_SETUP_UNAVAILABLE" BAD_REQUEST), w)
    | Some version =>
        match consumeTicket ticket ip w with
        | (inl e, w') => (inl e, w')
        | (inr claimed, w') => (inr (fields_of releases plane version claimed), w')
        end
    end.
Proof.
  intros Hr Hp. unfold post_bootstrap. destruct (resolveAgentVersion configured build) as [version|] eqn:Ev; [|done].
  unfold mbind, M_bind. destruct (consumeTicket ticket ip w) as [[e|claimed] w'] eqn:Ec; [done|].
  unfold renderInstallScript. simpl.
  rewrite !substitutable_some; [done|done|by eapply resolved_substitutable|done|by eapply generated_token].
Qed.
End bootstrapped.

(** *** A host runs its command *)

Definition releases : string := "https://github.com/Dockplanee/dockplane/releases/download/".
Definition plane : string := "https://dockplane.example.org".

Definition sent_for (configured releases plane : string) : M (list ascii) :=
  post_bootstrap configured releases plane "0.0.0-dev" "ticket" None.

Lemma sent_some : match (sent_for "0.4.1" releases plane offered).1 with inr _ => True | inl _ => False end.
Proof. vm_compute. exact I. Qed.

Lemma releases_unquoted : "'"%char ∉ chars releases.
Proof. apply (bool_decide_unpack _). by vm_compute. Qed.

Lemma plane_unquoted : "'"%char ∉ chars plane.
Proof. apply (bool_decide_unpack _). by vm_compute. Qed.


(** A working copy has no release; its operator's command stays usable. *)
Lemma script_for_ticket_witness :
  sent_for "" releases plane offered = (inl (AppError "HOST_SETUP_UNAVAILABLE" BAD_REQUEST), offered).
Proof.
  unfold sent_for. rewrite (script_for_ticket "" releases plane "0.0.0-dev" "ticket" None offered);
    [reflexivity|vm_compute; reflexivity|vm_compute; reflexivity].
Defined.

(** *** What the patterns let through *)

(** The pattern of the addresses allows a single quote and the characters that separate
    commands, so an address can end the quotes it is written in. *)
Example url_breaks_out :
  let address := chars "https://mirror.example.org/';reboot;'" in
  URL_PATTERN address = true ∧
  scan (before_release_url ++ take 28 address) sh_start = reading [Code] false false ∧
  drop 28 address = chars ";reboot;'".
Proof. vm_compute. done. Qed.

(** An address that cannot be written in the script is noticed after the ticket was
    spent: the answer is an error, and the same command is refused from then on. *)
Example unusable_url_spends_ticket :
  let '(r, w) := sent_for "0.4.1" "https://mirror.example.org/%7Edocker s" plane offered in
  r = inl PlainError ∧ match (sent_for "0.4.1" releases plane w).1 with inr _ => False | inl _ => True end.
Proof. vm_compute. done. Qed.
