(* ===== verification/ReleaseCheck.v ===== *)
(** * The check for a newer release

    [api/src/version/release-version.service.ts] and [release-provider.ts], the one
    request the server makes to the outside, as a state machine over the calls that
    ask for it, the answers that arrive and the time that passes.  [fetch] is an input
    of the machine, the decoding of the JSON it answers a parameter; the clock does
    not go back. *)

From Stdlib Require Import Ascii String NArith ZArith.
From stdpp Require Import gmap strings list sorting.
From S2P Require Import Prelude Semver Schema Store Effects Logic Protocol StackService.

(** ** The release listing *)

Record PublishedRelease := { release_version : string; release_url : option string }.

(** What [releaseSchema] reads of the listing. *)
Record ReleaseListing := {
  listing_tag_name : string;
  listing_html_url : option string;
  listing_draft : option bool;
  listing_prerelease : option bool
}.

Definition MAX_BYTES : Z := 256 * 1024.

(** The loop of [readCapped] over the chunks that arrive; [None] is the error it throws. *)
Fixpoint read_chunks (size : Z) (chunks : list (list ascii)) : option (list ascii) :=
  match chunks with
  | [] => Some []
  | value :: chunks =>
      let size := (size + Z.of_nat (length value))%Z in
      if (MAX_BYTES <? size)%Z then None
      else rest ← read_chunks size chunks; Some (value ++ rest)
  end.

(** A response without a body is empty text. *)
Definition readCapped (body : option (list (list ascii))) : option (list ascii) :=
  match body with None => Some [] | Some chunks => read_chunks 0 chunks end.

(** How a response is decoded; [None] is an error. *)
Class Listings := decode_listing : list ascii → option ReleaseListing.

(** What [fetch] answered: whether it was a success, and the body as it arrives. *)
Record Response := { response_ok : bool; response_body : option (list (list ascii)) }.

(** [latestStable]; the outer [None] is an error, the inner one nothing to announce. *)
Definition latestStable `{Listings} (response : option Response) : option (option PublishedRelease) :=
  response ← response;
  if negb (response_ok response) then None
  else
    body ← readCapped (response_body response);
    release ← decode_listing body;
    if default false (listing_draft release) || default false (listing_prerelease release) then Some None
    else
      match parseVersion (Some (listing_tag_name release)) with
      | None => Some None
      | Some _ => Some (Some {|
          release_version := text (strip_v (trim (chars (listing_tag_name release))));
          release_url := listing_html_url release |})
      end.

(** ** The check *)

Inductive UpdateCheckState := check_disabled | check_unknown | check_ok | check_unavailable | check_unsupported.

Record UpdateCheckStatus := {
  update_state : UpdateCheckState;
  update_latestStableVersion : option string;
  update_releaseUrl : option string;
  update_checkedAt : option time;
  update_available : option bool;
  update_stale : bool
}.

#[export] Instance UpdateCheckStatus_settable : Settable UpdateCheckStatus := λ s, {|
  update_state := update_state s; update_latestStableVersion := update_latestStableVersion s;
  update_releaseUrl := update_releaseUrl s; update_checkedAt := update_checkedAt s;
  update_available := update_available s; update_stale := update_stale s |}.

Definition DISABLED : UpdateCheckStatus := {|
  update_state := check_disabled; update_latestStableVersion := None; update_releaseUrl := None;
  update_checkedAt := None; update_available := None; update_stale := false |}.

Definition SUCCESS_TTL_MS : Z := 6 * 60 * 60 * 1000.
Definition FAILURE_TTL_MS : Z := 15 * 60 * 1000.

Record Answer := { answer_at : time; answer_release : option PublishedRelease }.

(** The service and the world around it: the clock, when the listing was asked for, who waits
    for the request that is under way, and what everybody was told. *)
Record ReleaseService := {
  service_now : time;
  service_answer : option Answer;
  service_failedAt : option time;
  service_inFlight : option (list nat);
  service_asked : list time;
  service_told : list (nat * UpdateCheckStatus)
}.

#[export] Instance ReleaseService_settable : Settable ReleaseService := λ s, {|
  service_now := service_now s; service_answer := service_answer s; service_failedAt := service_failedAt s;
  service_inFlight := service_inFlight s; service_asked := service_asked s; service_told := service_told s |}.

Definition shouldCheck (s : ReleaseService) : bool :=
  if match service_answer s with Some a => (service_now s - answer_at a <? SUCCESS_TTL_MS)%Z | None => false end
  then false
  else match service_failedAt s with None => true | Some f => (FAILURE_TTL_MS <=? service_now s - f)%Z end.

Section service.
Context (UPDATE_CHECK_ENABLED : bool) (BUILD_VERSION : string).

Definition describe (s : ReleaseService) : UpdateCheckStatus :=
  match service_answer s with
  | None => DISABLED <| update_state := if service_failedAt s then check_unavailable else check_unknown |>
  | Some a =>
      let stale := (SUCCESS_TTL_MS <=? service_now s - answer_at a)%Z in
      match answer_release a with
      | None => {| update_state := check_unsupported; update_latestStableVersion := None; update_releaseUrl := None;
                   update_checkedAt := Some (answer_at a); update_available := None; update_stale := stale |}
      | Some release => {|
          update_state := check_ok; update_latestStableVersion := Some (release_version release);
          update_releaseUrl := release_url release; update_checkedAt := Some (answer_at a);
          update_available := isNewer (Some (release_version release)) (Some BUILD_VERSION); update_stale := stale |}
      end
  end.

(** What [run] does with the answer of the provider. *)
Definition note (answer : option (option PublishedRelease)) (s : ReleaseService) : ReleaseService :=
  match answer with
  | Some release => s <| service_answer := Some {| answer_at := service_now s; answer_release := release |} |>
                      <| service_failedAt := None |>
  | None => s <| service_failedAt := Some (service_now s) |>
  end.

(** [status()] up to its first [await]: told at once, or waiting for the request under way. *)
Definition status (caller : nat) (s : ReleaseService) : ReleaseService :=
  if negb UPDATE_CHECK_ENABLED then s <| service_told := service_told s ++ [(caller, DISABLED)] |>
  else if shouldCheck s then
    match service_inFlight s with
    | Some waiting => s <| service_inFlight := Some (waiting ++ [caller]) |>
    | None => s <| service_inFlight := Some [caller] |> <| service_asked := service_now s :: service_asked s |>
    end
  else s <| service_told := service_told s ++ [(caller, describe s)] |>.

Inductive ReleaseEvent :=
  | Status (caller : nat)
  | Listed (response : option Response)
  | Passes (ms : N).

Context `{Listings}.

Definition release_step (s : ReleaseService) (e : ReleaseEvent) : ReleaseService :=
  match e with
  | Status caller => status caller s
  | Listed response =>
      match service_inFlight s with
      | None => s
      | Some waiting =>
          let s := note (latestStable response) s <| service_inFlight := None |> in
          s <| service_told := service_told s ++ ((λ c, (c, describe s)) <$> waiting) |>
      end
  | Passes ms => s <| service_now := (service_now s + Z.of_N ms)%Z |>
  end.

Definition fresh_service (at_ : time) : ReleaseService := {|
  service_now := at_; service_answer := None; service_failedAt := None; service_inFlight := None;
  service_asked := []; service_told := [] |}.

Definition release_run (at_ : time) (es : list ReleaseEvent) : ReleaseService := foldl release_step (fresh_service at_) es.
End service.

(** ** How often the outside is asked *)

(** Newest first, each at least so long after the one before. *)
Fixpoint spaced (gap : Z) (l : list time) : Prop :=
  match l with
  | a :: l' => match l' with b :: _ => (b + gap <= a)%Z | [] => True end ∧ spaced gap l'
  | [] => True
  end.

Section service_invariant.
Context (UPDATE_CHECK_ENABLED : bool) (BUILD_VERSION : string) `{Listings} (at_ : time).

(** What is known once a request has been answered. *)
Definition concluded (s : ReleaseService) (t : time) : Prop :=
  match service_failedAt s with
  | Some f => (t <= f)%Z
  | None => ∃ a, service_answer s = Some a ∧ (t <= answer_at a)%Z
  end.

Record service_good (s : ReleaseService) : Prop := {
  good_now : (at_ <= service_now s)%Z;
  good_asked : Forall (λ t, (at_ <= t <= service_now s)%Z) (service_asked s);
  good_spaced : spaced FAILURE_TTL_MS (service_asked s);
  good_idle : service_inFlight s = None → ∀ t l, service_asked s = t :: l → concluded s t;
  good_enabled : UPDATE_CHECK_ENABLED = false → service_asked s = []
}.

Lemma fresh_good : service_good (fresh_service at_).
Proof. by split. Qed.

Lemma shouldCheck_gap s t : concluded s t → shouldCheck s = true → (t + FAILURE_TTL_MS <= service_now s)%Z.
Proof.
  unfold concluded, shouldCheck, FAILURE_TTL_MS, SUCCESS_TTL_MS.
  destruct (service_failedAt s) as [f|], (service_answer s) as [a|]; intros Hc.
  - destruct (_ <? _)%Z; [done|]. intros ?%Z.leb_le. lia.
  - intros ?%Z.leb_le. lia.
  - destruct Hc as (a' & [= <-] & Ha). destruct (Z.ltb_spec (service_now s - answer_at a) (6 * 60 * 60 * 1000)); [done|]. lia.
  - by destruct Hc as (a & ? & _).
Qed.

Lemma status_good caller s : service_good s → service_good (status UPDATE_CHECK_ENABLED BUILD_VERSION caller s).
Proof.
  intros G. unfold status. destruct UPDATE_CHECK_ENABLED eqn:Een; simpl; [|by split; apply G].
  destruct (shouldCheck s) eqn:Ec; [|by split; apply G].
  destruct (service_inFlight s) as [ws|] eqn:Ef; [split; simpl; try done; apply G|].
  split; simpl; [apply G| | |intros E; discriminate E|intros E; congruence].
  - constructor; [|apply G]. pose proof (good_now s G). lia.
  - split; [|apply G]. destruct (service_asked s) as [|t l] eqn:Ea; [done|].
    apply (shouldCheck_gap s t); [|done]. by eapply good_idle.
Qed.

Lemma asked_before s t l : service_good s → service_asked s = t :: l → (t <= service_now s)%Z.
Proof. intros G Ht. pose proof (good_asked s G) as Ha. rewrite Ht in Ha. apply Forall_cons in Ha as [Ha _]. lia. Qed.

Lemma step_good s e : service_good s → service_good (release_step UPDATE_CHECK_ENABLED BUILD_VERSION s e).
Proof.
  intros G. destruct e as [caller|response|ms]; simpl; [by apply status_good| |].
  - destruct (service_inFlight s) as [ws|]; [|done].
    destruct (latestStable response) as [r|]; split; simpl; try by apply G.
    + intros _ t l Ht. eexists. split; [done|]. simpl. by eapply asked_before.
    + intros _ t l Ht. unfold concluded. simpl. by eapply asked_before.
  - split; simpl; [| |by apply G| |by apply G].
    + pose proof (good_now s G). lia.
    + eapply Forall_impl; [apply (good_asked s G)|]. simpl. intros t Ht. lia.
    + intros Hi t l Ht. pose proof (good_idle s G Hi t l Ht) as Hc. exact Hc.
Qed.

Lemma release_run_good es : service_good (release_run UPDATE_CHECK_ENABLED BUILD_VERSION at_ es).
Proof.
  unfold release_run. induction es as [|e es IH] using rev_ind; [apply fresh_good|]. rewrite foldl_app. by apply step_good.
Qed.

Lemma spaced_length gap l : (0 < gap)%Z → spaced gap l → ∀ a, head l = Some a → (∀ t, t ∈ l → at_ <= t)%Z →
  (Z.of_nat (length l) * gap <= a - at_ + gap)%Z.
Proof.
  intros Hg. induction l as [|x l IH]; [done|]. intros [Hx Hl] a [= <-] Hlow. simpl length.
  destruct l as [|y l].
  - pose proof (Hlow x ltac:(by left)). simpl. lia.
  - pose proof (IH Hl y eq_refl (λ t Ht, Hlow t ltac:(by right))). lia.
Qed.
End service_invariant.

(** However many callers ask and whatever the release listing answers, or fails to, the server
    sends at most one request in a quarter of an hour: over any time it has been running for
    the requests are no more than the quarters of an hour in it and one.  With the check
    switched off it sends none. *)
Theorem requests_bounded enabled build `{Listings} at_ es :
  let s := release_run enabled build at_ es in
  (Z.of_nat (length (service_asked s)) * FAILURE_TTL_MS <= service_now s - at_ + FAILURE_TTL_MS)%Z ∧
  (enabled = false → service_asked s = []).
Proof.
  intros s. pose proof (release_run_good enabled build at_ es) as G. fold s in G. split; [|apply G].
  pose proof (good_now _ _ _ G) as Hn. destruct (service_asked s) as [|a l] eqn:E.
  { simpl. unfold FAILURE_TTL_MS. lia. }
  pose proof (good_asked _ _ _ G) as Ha. rewrite E in Ha. rewrite Forall_forall in Ha.
  pose proof (good_spaced _ _ _ G) as Hs. rewrite E in Hs.
  pose proof (spaced_length at_ FAILURE_TTL_MS (a :: l) ltac:(done) Hs a eq_refl (λ t Ht, proj1 (Ha t Ht))) as Hb.
  pose proof (Ha a ltac:(by left)). lia.
Qed.
