(* ===== verification/AgentVersions.v ===== *)
(** * What the agents run

    [api/src/version/agent-versions.ts] and [agentVersions] of
    [system-version.service.ts].  The [Map]s are lists of entries in the order of
    their first [set], as a loop over them visits them.

    [Array.prototype.sort] and [localeCompare] are parameters: the language says that
    the result is a rearrangement of the array, and that it is in order when the
    comparison is consistent on its elements.  The comparison of [versions] is not
    always ([versions_comparison_cycles]). *)

From Stdlib Require Import Ascii String NArith ZArith Sorting.Sorted.
From stdpp Require Import gmap strings list sorting.
From S2P Require Import Prelude Semver Schema Store JsMap Protocol StackService.

(** ** Sorting *)

(** ECMAScript's "consistent comparator", on the elements of an array. *)
Record consistent {A} (cmp : A → A → comparison) (l : list A) : Prop := {
  consistent_opp x y : x ∈ l → y ∈ l → cmp x y = CompOpp (cmp y x);
  consistent_trans x y z : x ∈ l → y ∈ l → z ∈ l → cmp x y ≠ Gt → cmp y z ≠ Gt → cmp x z ≠ Gt
}.

Class ArraySort := {
  sort {A} : (A → A → comparison) → list A → list A;
  sort_perm {A} cmp (l : list A) : sort cmp l ≡ₚ l;
  sort_sorted {A} cmp (l : list A) : consistent cmp l → StronglySorted (λ x y, cmp x y ≠ Gt) (sort cmp l)
}.

(** [a.localeCompare(b)] *)
Definition localeCompare `{Collation} (a b : string) : comparison :=
  if locale_le a b then if locale_le b a then Eq else Lt else Gt.

(** ** The summary *)

Record AgentVersionCount := { count_version : option string; count_count : nat }.

Record AgentVersionSummary := {
  summary_total : nat;
  summary_versions : list AgentVersionCount;
  summary_mixedVersions : bool;
  summary_unknownCount : nat;
  summary_protocolUnsupportedCount : nat;
  summary_oldestVersion : option string;
  summary_newestVersion : option string
}.

Record AgentVersionRow := { row_version : option string; row_protocolVersion : Z }.

Definition normalise (version : option string) : option string :=
  v ← version; match trim (chars v) with [] => None | l => Some (text l) end.

(** The variables of the loop. *)
Record Tally := {
  tally_counts : list (option string * nat);
  tally_readable : JsMap ParsedVersion;
  tally_unknownCount : nat;
  tally_protocolUnsupportedCount : nat
}.

(** [counts.set(version, (counts.get(version) ?? 0) + 1)] *)
Fixpoint count_up (version : option string) (counts : list (option string * nat)) : list (option string * nat) :=
  match counts with
  | [] => [(version, 1)]
  | (v, n) :: counts => if decide (v = version) then (v, S n) :: counts else (v, n) :: count_up version counts
  end.

Definition unsupported_protocol (version : Z) : bool :=
  (version <? MINIMUM_PROTOCOL_VERSION)%Z || (PROTOCOL_VERSION <? version)%Z.

Definition tally_row (t : Tally) (row : AgentVersionRow) : Tally :=
  let version := normalise (row_version row) in
  {| tally_counts := count_up version (tally_counts t);
     tally_readable := match version, parseVersion version with
                       | Some v, Some parsed => jset v parsed (tally_readable t)
                       | _, _ => tally_readable t
                       end;
     tally_unknownCount := match parseVersion version with
                           | Some _ => tally_unknownCount t
                           | None => S (tally_unknownCount t)
                           end;
     tally_protocolUnsupportedCount := if unsupported_protocol (row_protocolVersion row)
                                       then S (tally_protocolUnsupportedCount t)
                                       else tally_protocolUnsupportedCount t |}.

Definition tally (rows : list AgentVersionRow) : Tally :=
  foldl tally_row {| tally_counts := []; tally_readable := [];
                     tally_unknownCount := 0; tally_protocolUnsupportedCount := 0 |} rows.

(** Most-used first, then what was never reported last, then newest first. *)
Definition compare_counts `{Collation} (readable : JsMap ParsedVersion) (a b : AgentVersionCount) : comparison :=
  if bool_decide (count_count a ≠ count_count b) then Nat.compare (count_count b) (count_count a)
  else match count_version a, count_version b with
       | None, _ => Gt
       | _, None => Lt
       | Some va, Some vb =>
           match jget va readable, jget vb readable with
           | Some l, Some r => compareParsed r l
           | _, _ => localeCompare va vb
           end
       end.

Section summarise.
Context `{Collation, ArraySort}.

Definition by_version (a b : string * ParsedVersion) : comparison := compareParsed a.2 b.2.

Definition summariseAgentVersions (rows : list AgentVersionRow) : AgentVersionSummary :=
  let t := tally rows in
  let ordered := sort by_version (tally_readable t) in
  {| summary_total := length rows;
     summary_versions :=
       sort (compare_counts (tally_readable t))
         ((λ '(version, count), {| count_version := version; count_count := count |}) <$> tally_counts t);
     summary_mixedVersions := 1 <? length (tally_readable t);
     summary_unknownCount := tally_unknownCount t;
     summary_protocolUnsupportedCount := tally_protocolUnsupportedCount t;
     summary_oldestVersion := fst <$> head ordered;
     summary_newestVersion := fst <$> last ordered |}.

(** [SystemVersionService.agentVersions]: a revoked agent does not count. *)
Definition agentVersions (d : DB) : AgentVersionSummary :=
  summariseAgentVersions
    ((λ a : Agent, {| row_version := agent_version a; row_protocolVersion := agent_protocolVersion a |})
       <$> select_where (λ a : Agent, bool_decide (agent_revokedAt a = None)) d).
End summarise.

(** ** What the loop has counted *)

Definition uses (version : option string) (rows : list AgentVersionRow) : nat :=
  length (List.filter (λ r, bool_decide (normalise (row_version r) = version)) rows).

Definition readable_in (rows : list AgentVersionRow) (v : string) : Prop :=
  (∃ r, r ∈ rows ∧ normalise (row_version r) = Some v) ∧ parseVersion (Some v) ≠ None.

Lemma length_filter_snoc {A} (p : A → bool) l x :
  length (List.filter p (l ++ [x])) = length (List.filter p l) + if p x then 1 else 0.
Proof. rewrite List.filter_app, length_app. simpl. by destruct (p x). Qed.

Lemma count_up_keys v c : NoDup c.*1 → NoDup (count_up v c).*1 ∧ ∀ w, w ∈ (count_up v c).*1 ↔ w = v ∨ w ∈ c.*1.
Proof.
  induction c as [|[u n] c IH]; simpl.
  { intros _. split; [apply NoDup_singleton|]. intros w. set_solver. }
  rewrite NoDup_cons. intros [Hu Hc]. destruct (IH Hc) as [H1 H2]. destruct (decide (u = v)) as [->|Hne]; simpl.
  - split; [by apply NoDup_cons|]. intros w. set_solver.
  - split; [apply NoDup_cons; rewrite H2; naive_solver|]. intros w. rewrite !elem_of_cons, H2. tauto.
Qed.

Lemma count_up_elem v c w n : NoDup c.*1 →
  (w, n) ∈ count_up v c ↔ (w ≠ v ∧ (w, n) ∈ c) ∨ (w = v ∧ ((v ∉ c.*1 ∧ n = 1) ∨ ∃ k, (v, k) ∈ c ∧ n = S k)).
Proof.
  assert (Hk : ∀ u k (l : list (option string * nat)), (u, k) ∈ l → u ∈ l.*1).
  { intros u k l Hl. apply list_elem_of_fmap. by exists (u, k). }
  induction c as [|[u m] c IH]; simpl; [intros _; set_solver|].
  rewrite NoDup_cons. intros [Hu Hc]. specialize (IH Hc). destruct (decide (u = v)) as [->|Hne].
  - rewrite !elem_of_cons. split.
    + intros [[= -> ->]|Hin]; [right; split; [done|right; exists m; split; [by left|done]]|].
      left. split; [intros ->; by eapply Hu, Hk|by right].
    + intros [[Hne [[= -> ->]|Hin]]|(-> & [[Hnin _]|(k & Hk' & ->)])]; [done|by right|set_solver|].
      rewrite elem_of_cons in Hk'. destruct Hk' as [[= ->]|Hk']; [by left|]. exfalso. by eapply Hu, Hk.
  - rewrite !elem_of_cons, IH. setoid_rewrite elem_of_cons. split.
    + intros [[= -> ->]|[[Hw Hin]|(-> & [[Hnin ->]|(k & Hk' & ->)])]]; [by left; auto|by left; auto| |].
      * right. split; [done|]. left. set_solver.
      * right. split; [done|]. right. exists k. auto.
    + intros [[Hw [[= -> ->]|Hin]]|(-> & [[Hnin ->]|(k & [[= -> ->]|Hk'] & ->)])]; [by left|by right; left| | |].
      * right. right. split; [done|]. left. set_solver.
      * done.
      * right. right. split; [done|]. right. by exists k.
Qed.

Record tallied (rows : list AgentVersionRow) (t : Tally) : Prop := {
  tallied_nodup : NoDup (tally_counts t).*1;
  tallied_counts v n : (v, n) ∈ tally_counts t ↔ 0 < n ∧ n = uses v rows;
  tallied_sum : sum_list (tally_counts t).*2 = length rows;
  tallied_ok : jmap_ok (tally_readable t);
  tallied_readable v p : (v, p) ∈ tally_readable t ↔ readable_in rows v ∧ parseVersion (Some v) = Some p;
  tallied_unknown : tally_unknownCount t =
    length (List.filter (λ r, bool_decide (parseVersion (normalise (row_version r)) = None)) rows);
  tallied_unsupported : tally_protocolUnsupportedCount t =
    length (List.filter (λ r, negb (isSupportedProtocolVersion (row_protocolVersion r))) rows)
}.

Lemma normalise_unread v : parseVersion (normalise v) ≠ None → ∃ w, normalise v = Some w.
Proof. destruct (normalise v) as [w|]; [by exists w|done]. Qed.

Lemma uses_snoc v rows r :
  uses v (rows ++ [r]) = uses v rows + if decide (normalise (row_version r) = v) then 1 else 0.
Proof. unfold uses. rewrite length_filter_snoc. case_bool_decide; by case_decide. Qed.

Lemma uses_pos v rows : 0 < uses v rows ↔ ∃ r, r ∈ rows ∧ normalise (row_version r) = v.
Proof.
  unfold uses. split.
  - destruct (List.filter _ rows) as [|r l] eqn:E; simpl; [lia|]. intros _. exists r.
    assert (Hr : In r (List.filter (λ r, bool_decide (normalise (row_version r) = v)) rows)) by (rewrite E; by left).
    apply filter_In in Hr as [Hr Hb]. split; [by apply list_elem_of_In|]. by apply bool_decide_eq_true in Hb.
  - intros (r & Hr & Hv). assert (Hf : In r (List.filter (λ r, bool_decide (normalise (row_version r) = v)) rows)).
    { apply filter_In. split; [by apply list_elem_of_In|by apply bool_decide_eq_true]. }
    destruct (List.filter _ rows); [done|simpl; lia].
Qed.

Lemma count_up_sum v c : sum_list (count_up v c).*2 = S (sum_list c.*2).
Proof. induction c as [|[u n] c IH]; [done|]. cbn [count_up]. case_decide; rewrite !fmap_cons; cbn [sum_list snd]; [done|]. rewrite IH. apply Nat.add_succ_r. Qed.


#[export] Instance sum_list_perm : Proper ((≡ₚ) ==> (=)) sum_list.
Proof. induction 1; simpl; lia. Qed.

Lemma readable_snoc rows r v :
  readable_in (rows ++ [r]) v ↔
  readable_in rows v ∨ (normalise (row_version r) = Some v ∧ parseVersion (Some v) ≠ None).
Proof.
  unfold readable_in. setoid_rewrite elem_of_app. setoid_rewrite list_elem_of_singleton. naive_solver.
Qed.

Lemma tally_counts_step rows t r : tallied rows t →
  ∀ v n, (v, n) ∈ count_up (normalise (row_version r)) (tally_counts t) ↔ 0 < n ∧ n = uses v (rows ++ [r]).
Proof.
  intros T v n. rewrite count_up_elem by apply T. rewrite uses_snoc. setoid_rewrite (tallied_counts rows t T).
  destruct (decide (normalise (row_version r) = v)) as [->|Hne]; [|rewrite Nat.add_0_r; naive_solver].
  destruct (decide (v ∈ (tally_counts t).*1)) as [Hin|Hnin].
  - apply list_elem_of_fmap in Hin as ([v' k] & -> & Hk). simpl. apply (tallied_counts rows t T) in Hk as [Hk ->]. simpl in *.
    split; [intros [[? _]|(_ & [[Hn _]|(k & [_ ->] & ->)])]; [done| |lia]|].
    + exfalso. apply Hn, list_elem_of_fmap. exists (v', uses v' rows). split; [done|]. by apply T.
    + intros [_ ->]. right. split; [done|]. right. exists (uses v' rows). split; [done|lia].
  - assert (uses v rows = 0) as ->.
    { destruct (uses v rows) as [|k] eqn:E; [done|]. exfalso. apply Hnin, list_elem_of_fmap. exists (v, S k).
      split; [done|]. apply T. lia. }
    split; [intros [[? _]|(_ & [[_ ->]|(k & [? ->] & _)])]; [done|lia|lia]|].
    intros [_ ->]. right. split; [done|]. by left.
Qed.

Lemma tally_readable_step rows t r : tallied rows t →
  ∀ v p, (v, p) ∈ tally_readable (tally_row t r) ↔ readable_in (rows ++ [r]) v ∧ parseVersion (Some v) = Some p.
Proof.
  intros T v p. rewrite readable_snoc. unfold tally_row. cbn [tally_readable].
  destruct (normalise (row_version r)) as [w|]; [|rewrite (tallied_readable rows t T); naive_solver].
  destruct (parseVersion (Some w)) as [q|] eqn:Eq; [|rewrite (tallied_readable rows t T); naive_solver].
  rewrite <-jget_iff by (apply jmap_ok_set, T). destruct (decide (v = w)) as [->|Hne].
  - rewrite jget_set. naive_solver.
  - rewrite jget_set_ne, jget_iff by (done || apply T). rewrite (tallied_readable rows t T). naive_solver.
Qed.

Lemma tally_step rows t r : tallied rows t → tallied (rows ++ [r]) (tally_row t r).
Proof.
  intros T. split; [| |  | |by apply tally_readable_step| |]; unfold tally_row; cbn [tally_counts tally_readable tally_unknownCount tally_protocolUnsupportedCount].
  - by apply count_up_keys, T.
  - by apply tally_counts_step.
  - rewrite count_up_sum, (tallied_sum rows t T), length_app. simpl. lia.
  - destruct (normalise _); [|apply T]. destruct (parseVersion _); [apply jmap_ok_set|]; apply T.
  - rewrite length_filter_snoc, <-(tallied_unknown rows t T). destruct (parseVersion _); simpl; lia.
  - rewrite length_filter_snoc, <-(tallied_unsupported rows t T).
    unfold unsupported_protocol, isSupportedProtocolVersion, MINIMUM_PROTOCOL_VERSION, PROTOCOL_VERSION.
    destruct (Z.ltb_spec (row_protocolVersion r) 1), (Z.leb_spec 1 (row_protocolVersion r)),
      (Z.ltb_spec 1 (row_protocolVersion r)), (Z.leb_spec (row_protocolVersion r) 1); simpl; lia.
Qed.

Lemma tally_tallied rows : tallied rows (tally rows).
Proof.
  unfold tally. induction rows as [|r rows IH] using rev_ind; [|rewrite foldl_app; by apply tally_step].
  split; cbn [foldl tally_counts tally_readable]; [by apply NoDup_nil| |done|apply jmap_ok_nil| |done|done].
  - intros v n. rewrite elem_of_nil. unfold uses. simpl. split; [done|lia].
  - intros v p. rewrite elem_of_nil. split; [done|]. intros [[(r & Hr & _) _] _]. by apply elem_of_nil in Hr.
Qed.

Section summary.
Context `{Collation, ArraySort}.

(** The summary counts every agent that is not left out exactly once: an entry of [versions] names
    a version some agents report (or that they report none) with how many they are, no version has
    two entries, and the counts add up to the total.  [unknownCount] is the agents whose
    version cannot be read, [protocolUnsupportedCount] those the gateway would not talk to, and
    the fleet is mixed exactly when two different readable versions are reported. *)
Theorem summary_exact rows :
  let s := summariseAgentVersions rows in
  NoDup (count_version <$> summary_versions s) ∧
  (∀ e, e ∈ summary_versions s ↔ 0 < count_count e ∧ count_count e = uses (count_version e) rows) ∧
  sum_list (count_count <$> summary_versions s) = summary_total s ∧
  summary_unknownCount s =
    length (List.filter (λ r, bool_decide (parseVersion (normalise (row_version r)) = None)) rows) ∧
  summary_protocolUnsupportedCount s =
    length (List.filter (λ r, negb (isSupportedProtocolVersion (row_protocolVersion r))) rows) ∧
  (summary_mixedVersions s = true ↔ ∃ v w, v ≠ w ∧ readable_in rows v ∧ readable_in rows w).
Proof.
  intros s. pose proof (tally_tallied rows) as T. unfold s, summariseAgentVersions.
  cbn [summary_versions summary_total summary_unknownCount summary_protocolUnsupportedCount summary_mixedVersions].
  split_and!; [| | |apply T|apply T|].
  - rewrite sort_perm, <-list_fmap_compose.
    erewrite list_fmap_ext; [apply (tallied_nodup rows _ T)|]. by intros i [v n] _.
  - intros [v n]. rewrite sort_perm, list_elem_of_fmap. simpl. rewrite <-(tallied_counts rows _ T). split.
    + by intros ([v' n'] & [= -> ->] & Hin).
    + intros Hin. by exists (v, n).
  - rewrite <-(tallied_sum rows _ T).
    rewrite sort_perm, <-list_fmap_compose. erewrite list_fmap_ext; [done|]. by intros i [v n] _.
  - rewrite Nat.ltb_lt. split.
    + pose proof (tallied_ok rows _ T) as Hok. destruct (tally_readable (tally rows)) as [|[v p] [|[w q] l]] eqn:E; simpl; [lia|lia|].
      intros _. exists v, w. split_and!.
      * intros ->. unfold jmap_ok in Hok. simpl in Hok. apply NoDup_cons in Hok as [Hn _]. apply Hn. by left.
      * apply (tallied_readable rows _ T v p). rewrite E. by left.
      * apply (tallied_readable rows _ T w q). rewrite E. right. by left.
    + intros (v & w & Hne & Hv & Hw).
      assert (He : ∀ u, readable_in rows u → ∃ p, (u, p) ∈ tally_readable (tally rows)).
      { intros u Hu. destruct (parseVersion (Some u)) as [p|] eqn:Ep; [|by destruct Hu]. exists p. by apply T. }
      destruct (He v Hv) as [p Hp], (He w Hw) as [q Hq].
      destruct (tally_readable (tally rows)) as [|x [|y l]]; simpl; [by apply elem_of_nil in Hp| |lia].
      apply list_elem_of_singleton in Hp, Hq. congruence.
Qed.

Lemma by_version_consistent rows :
  (∀ v p, readable_in rows v → parseVersion (Some v) = Some p → finite p) →
  consistent by_version (tally_readable (tally rows)).
Proof.
  intros Hf. assert (Hall : ∀ x, x ∈ tally_readable (tally rows) → finite x.2).
  { intros [v p] Hx. apply (tallied_readable rows _ (tally_tallied rows)) in Hx as [Hr Hp]. by eapply Hf. }
  unfold by_version. split.
  - intros x y Hx%Hall Hy%Hall. rewrite !compareParsed_ordered by done. apply cmp_opp.
  - intros x y z Hx%Hall Hy%Hall Hz%Hall. rewrite !compareParsed_ordered by done. apply cmp_trans.
Qed.

Lemma sorted_head {A} (R : A → A → Prop) l x y : StronglySorted R l → head l = Some x → y ∈ l → x = y ∨ R x y.
Proof.
  destruct 1 as [|z l Hl Hz]; [done|]. intros [= ->] [->|Hy]%elem_of_cons; [by left|]. right.
  rewrite Forall_forall in Hz. by apply Hz.
Qed.

Lemma sorted_last {A} (R : A → A → Prop) l x y : StronglySorted R l → last l = Some x → y ∈ l → x = y ∨ R y x.
Proof.
  induction 1 as [|z l Hl IH Hz]; [done|]. intros Hx [->|Hy]%elem_of_cons.
  - destruct l as [|w l]; [by left; injection Hx|]. right. rewrite Forall_forall in Hz. apply Hz.
    rewrite last_cons_cons in Hx. by apply last_Some_elem_of.
  - destruct l as [|w l]; [by apply elem_of_nil in Hy|]. rewrite last_cons_cons in Hx. by apply IH.
Qed.

(** When the numbers of every readable version are ones a double can hold, [oldestVersion] and
    [newestVersion] are versions in use that no other readable one is below or above. *)
Theorem oldest_and_newest rows v p :
  (∀ v p, readable_in rows v → parseVersion (Some v) = Some p → finite p) →
  readable_in rows v → parseVersion (Some v) = Some p →
  ∃ o po n pn,
    summary_oldestVersion (summariseAgentVersions rows) = Some o ∧ readable_in rows o ∧
    parseVersion (Some o) = Some po ∧ compareParsed po p ≠ Gt ∧
    summary_newestVersion (summariseAgentVersions rows) = Some n ∧ readable_in rows n ∧
    parseVersion (Some n) = Some pn ∧ compareParsed p pn ≠ Gt.
Proof.
  intros Hf Hv Hp. pose proof (tally_tallied rows) as T. pose proof (by_version_consistent rows Hf) as Hc.
  assert (Hin : (v, p) ∈ sort by_version (tally_readable (tally rows))) by (rewrite sort_perm; by apply T).
  pose proof (sort_sorted by_version _ Hc) as Hs. unfold summariseAgentVersions. cbn [summary_oldestVersion summary_newestVersion].
  assert (Hr : ∀ x, x ∈ sort by_version (tally_readable (tally rows)) →
    readable_in rows x.1 ∧ parseVersion (Some x.1) = Some x.2).
  { intros [w q] Hx. rewrite sort_perm in Hx. by apply T in Hx. }
  assert (Hself : compareParsed p p ≠ Gt).
  { rewrite compareParsed_ordered by (by eapply Hf). by rewrite (cmp_refl version_compare). }
  set (l := sort _ _) in *. destruct (head l) as [[o po]|] eqn:Eh; [|by destruct l; [apply elem_of_nil in Hin|]].
  destruct (last l) as [[n pn]|] eqn:El; [|by apply last_None in El; rewrite El in Hin; apply elem_of_nil in Hin].
  pose proof (sorted_head _ l _ _ Hs Eh Hin) as Ho. pose proof (sorted_last _ l _ _ Hs El Hin) as Hn.
  pose proof (Hr (o, po) ltac:(by apply head_Some_elem_of)) as [Hr1 Hp1].
  pose proof (Hr (n, pn) ltac:(by apply last_Some_elem_of)) as [Hr2 Hp2].
  exists o, po, n, pn. split_and!; try done.
  - destruct Ho as [[= -> ->]|Ho]; [done|exact Ho].
  - destruct Hn as [[= -> ->]|Hn]; [done|exact Hn].
Qed.
End summary.

(** ** A sort that keeps the promise *)

Section insertion.
Context {A : Type} (cmp : A → A → comparison).

Fixpoint put_in (x : A) (l : list A) : list A :=
  match l with
  | [] => [x]
  | y :: l' => if cmp x y is Gt then y :: put_in x l' else x :: l
  end.

Definition insertion_sort (l : list A) : list A := foldr put_in [] l.

Lemma put_in_perm x l : put_in x l ≡ₚ x :: l.
Proof.
  induction l as [|y l IH]; simpl; [done|]. destruct (cmp x y); [done..|]. by rewrite IH, Permutation_swap.
Qed.

Lemma insertion_perm l : insertion_sort l ≡ₚ l.
Proof. induction l as [|x l IH]; simpl; [done|]. by rewrite put_in_perm, IH. Qed.

Lemma put_in_sorted x l : consistent cmp (x :: l) →
  StronglySorted (λ a b, cmp a b ≠ Gt) l → StronglySorted (λ a b, cmp a b ≠ Gt) (put_in x l).
Proof.
  intros Hc Hs. induction Hs as [|y l Hl IH Hy]; simpl; [by repeat constructor|].
  assert (Hc' : consistent cmp (x :: l)) by (split; intros; apply Hc || eapply Hc; set_solver).
  destruct (cmp x y) eqn:E.
  1,2: constructor; [by constructor|]; constructor; [by rewrite E|];
    rewrite Forall_forall in Hy |- *; intros z Hz; eapply (consistent_trans _ _ Hc _ y);
    [by left|by right; left|by right; right|by rewrite E|by apply Hy].
  constructor; [by apply IH|]. rewrite put_in_perm. constructor; [|done].
  rewrite (consistent_opp _ _ Hc) by set_solver. by rewrite E.
Qed.

Lemma insertion_sorted l : consistent cmp l → StronglySorted (λ a b, cmp a b ≠ Gt) (insertion_sort l).
Proof.
  induction l as [|x l IH]; simpl; intros Hc; [constructor|]. apply put_in_sorted.
  - split; intros *; rewrite !insertion_perm; apply Hc || eapply Hc.
  - apply IH. split; intros; apply Hc || eapply Hc; set_solver.
Qed.
End insertion.

#[local] Instance insertion_sorts : ArraySort := {|
  sort _ := insertion_sort; sort_perm _ := insertion_perm; sort_sorted _ := insertion_sorted |}.

#[local] Instance bytewise : Collation := {| sql_le := String.leb; locale_le := String.leb |}.

Definition fleet : list AgentVersionRow :=
  (λ v, {| row_version := v; row_protocolVersion := 1 |}) <$> [Some "1.2.0"; None; Some "1.10.0"; Some "1.2.0"].

Lemma fleet_readable v : readable_in fleet v ↔ v = "1.2.0" ∨ v = "1.10.0".
Proof.
  unfold readable_in, fleet. split.
  - intros [(r & Hr & Hv) _]. cbn in Hr. rewrite !elem_of_cons, elem_of_nil in Hr.
    destruct Hr as [->|[->|[->|[->|[]]]]]; vm_compute in Hv; simplify_eq; auto.
  - intros [->| ->]; (split; [|by vm_compute]); [exists {| row_version := Some "1.2.0"; row_protocolVersion := 1 |}|
      exists {| row_version := Some "1.10.0"; row_protocolVersion := 1 |}]; (split; [|by vm_compute]); set_solver.
Qed.

Lemma oldest_and_newest_witness :
  summary_oldestVersion (summariseAgentVersions fleet) = Some "1.2.0" ∧
  summary_newestVersion (summariseAgentVersions fleet) = Some "1.10.0" ∧
  ∃ p o po n pn,
    parseVersion (Some "1.10.0") = Some p ∧
    summary_oldestVersion (summariseAgentVersions fleet) = Some o ∧ readable_in fleet o ∧
    parseVersion (Some o) = Some po ∧ compareParsed po p ≠ Gt ∧
    summary_newestVersion (summariseAgentVersions fleet) = Some n ∧ readable_in fleet n ∧
    parseVersion (Some n) = Some pn ∧ compareParsed p pn ≠ Gt.
Proof.
  split; [by vm_compute|]. split; [by vm_compute|]. eexists.
  destruct (oldest_and_newest fleet "1.10.0" (default (example_version "1.10.0") (parseVersion (Some "1.10.0"))))
    as (o & po & n & pn & H).
  - intros v p [->| ->]%fleet_readable; intros [= <-]; vm_compute; split_and!; try done; by apply Forall_nil.
  - apply fleet_readable. by right.
  - by vm_compute.
  - exists o, po, n, pn. split; [|exact H]. by vm_compute.
Defined.

(** ** Where the comparison and the words differ *)

(** Three versions used equally often, one of which cannot be read: each is to come before the next. *)
Example versions_comparison_cycles :
  let rows := (λ v, {| row_version := Some v; row_protocolVersion := 1 |}) <$> ["2.0.0"; "1.0.0"; "1x"] in
  let entry v := {| count_version := Some v; count_count := 1 |} in
  let cmp := compare_counts (tally_readable (tally rows)) in
  cmp (entry "2.0.0") (entry "1.0.0") = Lt ∧ cmp (entry "1.0.0") (entry "1x") = Lt ∧ cmp (entry "1x") (entry "2.0.0") = Lt.
Proof. by vm_compute. Qed.

(** A fleet that runs one version is mixed when one agent writes it with a [v]. *)
Example one_version_is_mixed :
  let rows := (λ v, {| row_version := Some v; row_protocolVersion := 1 |}) <$> ["1.0.0"; "v1.0.0"] in
  let s := summariseAgentVersions rows in
  summary_mixedVersions s = true ∧ compareVersions (summary_oldestVersion s) (summary_newestVersion s) = Some Eq.
Proof. by vm_compute. Qed.
