(* ===== verification/HealthPage.v ===== *)
(** * What the health page shows

    The way from the inventory to the page that says what needs attention:
    [api/src/inventory/inventory.service.ts] answers (modelled in [Inventory]),
    [app/src/app/data/real-dockplane-api.ts] maps what it answers to what the interface
    speaks of, with [app/src/app/domain/status.ts], and
    [app/src/app/features/health/health.ts] reads the problems off.  Measured values and
    what the metadata of a host or a container says are not carried: no problem is read off
    them. *)

From Stdlib Require Import Ascii String NArith ZArith Lia.
From stdpp Require Import gmap strings list sorting pretty.
From S2P Require Import Prelude Schema Store Effects Logic Discovery JsMap StackService Inventory AgentVersions.

(** ** The interface's words *)

Inductive HostStatus := status_healthy | status_warning | status_critical | status_offline | status_unknown.
Inductive ShownState := shown_running | shown_stopped | shown_starting | shown_stopping | shown_restarting | shown_failed.
Inductive ShownHealth := health_healthy | health_unhealthy | health_starting | health_none.
Inductive ComposeState := compose_running | compose_degraded | compose_stopped | compose_failed | compose_unknown.
Inductive IssueSeverity := issue_critical | issue_warning | issue_info.

#[export] Instance HostStatus_eq_dec : EqDecision HostStatus.
Proof. solve_decision. Defined.
#[export] Instance ShownState_eq_dec : EqDecision ShownState.
Proof. solve_decision. Defined.
#[export] Instance ShownHealth_eq_dec : EqDecision ShownHealth.
Proof. solve_decision. Defined.
#[export] Instance ComposeState_eq_dec : EqDecision ComposeState.
Proof. solve_decision. Defined.
#[export] Instance IssueSeverity_eq_dec : EqDecision IssueSeverity.
Proof. solve_decision. Defined.

Definition SEVERITY_ORDER (s : IssueSeverity) : Z :=
  match s with issue_critical => 0 | issue_warning => 1 | issue_info => 2 end.

Definition toContainerState (state : string) : ShownState :=
  if bool_decide (state = "running") then shown_running
  else if bool_decide (state = "stopped") then shown_stopped
  else if bool_decide (state = "starting") then shown_starting
  else if bool_decide (state = "stopping") then shown_stopping
  else if bool_decide (state = "restarting") then shown_restarting
  else if bool_decide (state = "failed") then shown_failed
  else if mem state ["exited"; "created"; "paused"] then shown_stopped
  else if bool_decide (state = "dead") then shown_failed
  else shown_stopped.

Definition toContainerHealth (health : string) : ShownHealth :=
  if bool_decide (health = "healthy") then health_healthy
  else if bool_decide (health = "unhealthy") then health_unhealthy
  else if bool_decide (health = "starting") then health_starting
  else health_none.

Definition toComposeState (state : string) : ComposeState :=
  if bool_decide (state = "running") then compose_running
  else if bool_decide (state = "degraded") then compose_degraded
  else if bool_decide (state = "stopped") then compose_stopped
  else if bool_decide (state = "failed") then compose_failed
  else compose_unknown.

Definition toHostStatus (host : HostView) : HostStatus :=
  match hview_agent host with
  | Some agent =>
      if bool_decide (aview_status agent = "revoked") then status_critical
      else if aview_connected agent then if fresh_stale (hview_freshness host) then status_unknown else status_healthy
      else status_offline
  | None => status_offline
  end.

Record HostShown := {
  sh_id : string;
  sh_name : string;
  sh_hostname : string;
  sh_status : HostStatus;
  sh_archived : bool;
  sh_archivedAt : option time;
  sh_os : option string;
  sh_architecture : option string;
  sh_kernel : option string;
  sh_dockerVersion : option string;
  sh_agentId : option string;
  sh_agentStatus : option string;
  sh_agentVersion : option string;
  sh_certificateNotAfter : option time;
  sh_lastSeen : option time;
  sh_observedAt : option time;
  sh_stale : bool
}.

Definition toHost (host : HostView) : HostShown := {|
  sh_id := hview_id host; sh_name := hview_displayName host ?? hview_hostname host; sh_hostname := hview_hostname host;
  sh_status := toHostStatus host; sh_archived := hview_archived host; sh_archivedAt := hview_archivedAt host;
  sh_os := hview_os host; sh_architecture := hview_architecture host; sh_kernel := hview_kernel host;
  sh_dockerVersion := hview_dockerVersion host; sh_agentId := aview_id <$> hview_agent host;
  sh_agentStatus := aview_status <$> hview_agent host; sh_agentVersion := hview_agentVersion host;
  sh_certificateNotAfter := aview_certificateNotAfter <$> hview_agent host; sh_lastSeen := hview_lastSeenAt host;
  sh_observedAt := fresh_observedAt (hview_freshness host); sh_stale := fresh_stale (hview_freshness host) |}.

(** What the server said may be done; a server that says nothing is taken to say the least. *)
Definition toManagement (management : option ManagementState) : ManagementState :=
  management ?? {| management_kind := kind_external; management_reconciling := false; management_identityConflict := false |}.

Record ContainerShown := {
  sc_id : string;
  sc_name : string;
  sc_hostId : string;
  sc_hostName : string;
  sc_hostname : string;
  sc_dockerId : option string;
  sc_image : string;
  sc_imageId : option string;
  sc_state : ShownState;
  sc_health : ShownHealth;
  sc_restarts : Z;
  sc_createdAt : option time;
  sc_composeProject : option (string * string);
  sc_management : ManagementState;
  sc_observedAt : option time;
  sc_stale : bool
}.

Definition toContainer (container : ContainerView) : ContainerShown := {|
  sc_id := cview_id container; sc_name := cview_name container; sc_hostId := cview_hostId container;
  sc_hostName := cview_hostDisplayName container ?? cview_hostname container; sc_hostname := cview_hostname container;
  sc_dockerId := cview_dockerId container; sc_image := cview_image container; sc_imageId := cview_imageId container;
  sc_state := toContainerState (cview_state container); sc_health := toContainerHealth (cview_health container);
  sc_restarts := cview_restartCount container; sc_createdAt := cview_createdAt container;
  sc_composeProject := cview_composeProject container; sc_management := toManagement (Some (cview_management container));
  sc_observedAt := fresh_observedAt (cview_freshness container); sc_stale := fresh_stale (cview_freshness container) |}.

Record ProjectShown := {
  sp_id : string;
  sp_name : string;
  sp_hostId : string;
  sp_hostname : string;
  sp_state : ComposeState;
  sp_servicesTotal : Z;
  sp_servicesRunning : Z;
  sp_observedAt : option time;
  sp_stale : bool
}.

(** As it is listed, without the detail of a single project. *)
Definition toComposeProject (project : ProjectSummary) : ProjectShown := {|
  sp_id := psum_id project; sp_name := psum_projectName project; sp_hostId := psum_hostId project;
  sp_hostname := psum_hostname project; sp_state := toComposeState (psum_status project);
  sp_servicesTotal := psum_serviceCount project; sp_servicesRunning := psum_runningCount project;
  sp_observedAt := fresh_observedAt (psum_freshness project); sp_stale := fresh_stale (psum_freshness project) |}.

(** ** Problems *)

Record HealthIssue := {
  issue_id : string;
  issue_severity : IssueSeverity;
  issue_title : string;
  issue_detail : string;
  issue_kind : string;
  issue_resource : string;
  issue_link : list string;
  issue_since : option time
}.

Definition hostIssues (host : HostShown) : list HealthIssue :=
  if bool_decide (sh_status host = status_offline) then
    [{| issue_id := "host-offline-" +:+ sh_id host; issue_severity := issue_critical; issue_title := sh_name host +:+ " is offline";
        issue_detail := "The agent is not connected, so nothing on this host is being refreshed.";
        issue_kind := "host"; issue_resource := sh_name host; issue_link := ["/hosts"; sh_id host]; issue_since := sh_lastSeen host |}]
  else if sh_stale host then
    [{| issue_id := "host-stale-" +:+ sh_id host; issue_severity := issue_warning;
        issue_title := sh_name host +:+ " has not reported recently";
        issue_detail := "What is shown for this host is the last observation, not current state.";
        issue_kind := "host"; issue_resource := sh_name host; issue_link := ["/hosts"; sh_id host]; issue_since := sh_observedAt host |}]
  else [].

Definition container_issue (container : ContainerShown) (what : string) (severity : IssueSeverity) (title detail : string) : HealthIssue :=
  {| issue_id := "container-" +:+ what +:+ "-" +:+ sc_id container; issue_severity := severity; issue_title := title;
     issue_detail := detail; issue_kind := "container"; issue_resource := sc_name container;
     issue_link := ["/containers"; sc_id container]; issue_since := sc_observedAt container |}.

Definition containerIssues (container : ContainerShown) : list HealthIssue :=
  if bool_decide (sc_health container = health_unhealthy) then
    [container_issue container "unhealthy" issue_critical (sc_name container +:+ " is unhealthy")
       ("Its health check is failing on " +:+ sc_hostname container +:+ ".")]
  else if bool_decide (sc_state container = shown_failed) then
    [container_issue container "failed" issue_critical (sc_name container +:+ " has failed") ("On " +:+ sc_hostname container +:+ ".")]
  else if bool_decide (sc_state container = shown_restarting) then
    [container_issue container "restarting" issue_warning (sc_name container +:+ " is restarting") ("On " +:+ sc_hostname container +:+ ".")]
  else [].

Definition projectIssues (project : ProjectShown) : list HealthIssue :=
  let issue severity state :=
    {| issue_id := "compose-" +:+ sp_id project; issue_severity := severity; issue_title := sp_name project +:+ " is " +:+ state;
       issue_detail := pretty (sp_servicesRunning project) +:+ " of " +:+ pretty (sp_servicesTotal project) +:+
                       " services running on " +:+ sp_hostname project +:+ ".";
       issue_kind := "compose"; issue_resource := sp_name project; issue_link := ["/compose"; sp_id project];
       issue_since := sp_observedAt project |} in
  match sp_state project with
  | compose_failed => [issue issue_critical "failed"]
  | compose_degraded => [issue issue_warning "degraded"]
  | _ => []
  end.

Definition all_issues (hosts : list HostShown) (containers : list ContainerShown) (projects : list ProjectShown) : list HealthIssue :=
  (hosts ≫= hostIssues) ++ (containers ≫= containerIssues) ++ (projects ≫= projectIssues).

(** [PAGE_SIZE] of the interface *)
Definition PAGE_SIZE : nat := 200.

Definition first_page : Page := {| page_limit := PAGE_SIZE; page_offset := 0 |}.

Definition no_filters : ContainerFilters :=
  {| filter_hostId := None; filter_state := None; filter_project := None; filter_search := None |}.

Section page.
Context `{ArraySort} `{Collation}.

Definition by_urgency (a b : HealthIssue) : comparison :=
  match (SEVERITY_ORDER (issue_severity a) ?= SEVERITY_ORDER (issue_severity b))%Z with
  | Eq => localeCompare (issue_title a) (issue_title b)
  | c => c
  end.

(** [None] is the filter [all]. *)
Definition issues (filter : option IssueSeverity) (all : list HealthIssue) : list HealthIssue :=
  sort by_urgency (List.filter (λ i, match filter with None => true | Some s => bool_decide (issue_severity i = s) end) all).

(** The page, from the three requests it makes. *)
Definition health_page (filter : option IssueSeverity) : M (list HealthIssue) :=
  '(hosts, _) ← listHosts first_page scope_active;
  '(containers, _) ← listContainers first_page no_filters;
  '(projects, _) ← listProjects first_page None;
  mret (issues filter (all_issues (toHost <$> hosts) (toContainer <$> containers) (toComposeProject <$> projects))).

(** ** Nothing shown means nothing wrong *)

Lemma issues_nil all : issues None all = [] → all = [].
Proof.
  unfold issues. intros E. pose proof (sort_perm by_urgency (List.filter (λ _, true) all)) as Hp. rewrite E in Hp.
  apply Permutation_nil in Hp. rewrite filter_Forall in Hp; [done|]. by apply Forall_forall.
Qed.

Lemma hostIssues_nil v : hostIssues (toHost v) = [] → fresh_stale (hview_freshness v) = false ∧ is_Some (hview_agent v).
Proof.
  unfold hostIssues, toHost. cbn [sh_status sh_stale sh_id sh_name sh_lastSeen sh_observedAt]. unfold toHostStatus.
  case_bool_decide as Ho; [done|]. destruct (fresh_stale _); [done|]. intros _. split; [done|].
  destruct (hview_agent v); [by eexists|]. by destruct Ho.
Qed.

Lemma containerIssues_nil v :
  containerIssues (toContainer v) = [] →
  cview_health v ≠ "unhealthy" ∧ cview_state v ≠ "failed" ∧ cview_state v ≠ "dead" ∧ cview_state v ≠ "restarting".
Proof.
  unfold containerIssues, toContainer. cbn [sc_health sc_state]. case_bool_decide as Hh; [done|].
  case_bool_decide as Hf; [done|]. case_bool_decide as Hr; [done|]. intros _.
  split_and!; intros E; rewrite E in *; by vm_compute in Hh, Hf, Hr.
Qed.

Lemma projectIssues_nil v :
  projectIssues (toComposeProject v) = [] → psum_status v ≠ "degraded" ∧ psum_status v ≠ "failed".
Proof.
  unfold projectIssues, toComposeProject. cbn [sp_state]. intros E.
  split; intros Es; rewrite Es in E; by vm_compute in E.
Qed.

(** Every host of the page, and what is known about its agent. *)
Lemma hosts_shown w : healthy w →
  length (select_where (in_scope scope_active) (w_db w)) ≤ PAGE_SIZE →
  ∃ vs n, listHosts first_page scope_active w = (inr (vs, n), w) ∧
    ∀ i h, Schema.hosts (w_db w) !! i = Some h → host_archivedAt h = None →
      ∃ o, presentHost w h o ∈ vs ∧
        match o with
        | Some a => speaks_for (w_db w) (host_id h) a
        | None => ∀ i a, agents (w_db w) !! i = Some a → agent_hostId a ≠ host_id h
        end.
Proof.
  intros Hw Hl. unfold listHosts. rewrite (run_bind _ _ _ _ _ (run_read w Hw _)), (run_bind _ _ _ _ _ (run_read w Hw _)).
  set (rows_ := of_page first_page _). destruct (agentsOf_run (host_id <$> rows_) w Hw) as (m & E & Hm).
  rewrite (run_bind _ _ _ _ _ E). eexists _, _. split; [done|]. intros i h Hi Ha. exists (jget (host_id h) m).
  assert (Hin : h ∈ rows_).
  { unfold rows_. rewrite of_page_whole; [|done|by rewrite merge_sort_Permutation]. rewrite (merge_sort_Permutation before_host).
    apply elem_of_select_where. split; [by exists i|]. by apply bool_decide_eq_true_2. }
  split; [by apply (list_elem_of_fmap_2 (λ h, presentHost w h (jget (host_id h) m)))|].
  apply Hm. by apply list_elem_of_fmap_2.
Qed.

Lemma containers_shown w : healthy w →
  length (container_rows no_filters (w_db w)) ≤ PAGE_SIZE →
  ∃ vs n, listContainers first_page no_filters w = (inr (vs, n), w) ∧
    ∀ row, row ∈ container_rows no_filters (w_db w) → ∃ g k, presentContainer w row g k ∈ vs.
Proof.
  intros Hw Hl. unfold listContainers. rewrite (run_bind _ _ _ _ _ (run_read w Hw _)), (run_bind _ _ _ _ _ (run_read w Hw _)).
  set (rows_ := of_page first_page _). destruct (managementFor_run rows_ w Hw) as (g & Eg & _). rewrite (run_bind _ _ _ _ _ Eg).
  destruct (connectionsByHost_run (remove_dups (container_hostId ∘ crow_container <$> rows_)) w Hw) as (k & Ek & _).
  rewrite (run_bind _ _ _ _ _ Ek). eexists _, _. split; [done|]. intros row Hrow.
  assert (Hin : row ∈ rows_).
  { unfold rows_. rewrite of_page_whole; [|done|by rewrite merge_sort_Permutation]. by rewrite (merge_sort_Permutation before_container). }
  eexists _, _. apply list_elem_of_fmap. exists row. split; [reflexivity|done].
Qed.

Lemma length_omap_le {A B} (f : A → option B) l : length (omap f l) ≤ length l.
Proof. induction l as [|x l IH]; [done|]. cbn. destruct (f x); cbn; lia. Qed.

Lemma projects_shown w : healthy w →
  length (select_where (of_host None) (w_db w)) ≤ PAGE_SIZE →
  ∃ vs n, listProjects first_page None w = (inr (vs, n), w) ∧
    ∀ i p row, composeProjects (w_db w) !! i = Some p → project_row (w_db w) p = Some row → ∃ k, presentProject w row.1 row.2 k ∈ vs.
Proof.
  intros Hw Hl. unfold listProjects. rewrite (run_bind _ _ _ _ _ (run_read w Hw _)), (run_bind _ _ _ _ _ (run_read w Hw _)).
  set (rows_ := of_page first_page _).
  destruct (connectionsByHost_run (remove_dups ((λ row, project_hostId row.1) <$> rows_)) w Hw) as (k & Ek & _).
  rewrite (run_bind _ _ _ _ _ Ek). eexists _, _. split; [done|]. intros i p row Hi Hrow.
  assert (Hin : row ∈ rows_).
  { unfold rows_. rewrite of_page_whole; [|done|].
    - rewrite (merge_sort_Permutation before_project). apply list_elem_of_omap. exists p. split; [|done].
      apply elem_of_select_where. split; [by exists i|done].
    - rewrite merge_sort_Permutation. etrans; [apply length_omap_le|done]. }
  eexists. apply list_elem_of_fmap. exists row. split; [reflexivity|done].
Qed.


Lemma sorted_weaken {A} (R S : relation A) l : (∀ x y, R x y → S x y) → StronglySorted R l → StronglySorted S l.
Proof. intros HRS. induction 1 as [|x l _ IH Hx]; constructor; [done|]. eapply Forall_impl; [exact Hx|]. auto. Qed.

(** What is shown, in which order. *)
Section order.
Context (Htotal : ∀ a b, locale_le a b = true ∨ locale_le b a = true).
Context (Htrans : ∀ a b c, locale_le a b = true → locale_le b c = true → locale_le a c = true).

Lemma by_urgency_consistent l : consistent by_urgency l.
Proof.
  split; unfold by_urgency.
  - intros x y _ _. rewrite Z.compare_antisym. destruct (Z.compare_spec (SEVERITY_ORDER (issue_severity y)) (SEVERITY_ORDER (issue_severity x)));
      cbn; [|done..]. unfold localeCompare. destruct (Htotal (issue_title x) (issue_title y)) as [->| ->]; by destruct (locale_le _ _).
  - intros x y z _ _ _.
    assert (Hl : ∀ a b, localeCompare a b ≠ Gt ↔ locale_le a b = true).
    { intros a b. unfold localeCompare. destruct (locale_le a b), (locale_le b a); naive_solver. }
    destruct (Z.compare_spec (SEVERITY_ORDER (issue_severity x)) (SEVERITY_ORDER (issue_severity y))) as [E1|E1|E1];
      destruct (Z.compare_spec (SEVERITY_ORDER (issue_severity y)) (SEVERITY_ORDER (issue_severity z))) as [E2|E2|E2];
      destruct (Z.compare_spec (SEVERITY_ORDER (issue_severity x)) (SEVERITY_ORDER (issue_severity z))) as [E3|E3|E3];
      try lia; try done. rewrite !Hl. apply Htrans.
Qed.

(** The page shows every problem of the severity that is chosen once, and the most urgent first. *)
Theorem most_urgent_first filter all :
  issues filter all ≡ₚ List.filter (λ i, match filter with None => true | Some s => bool_decide (issue_severity i = s) end) all ∧
  StronglySorted (λ a b, (SEVERITY_ORDER (issue_severity a) <= SEVERITY_ORDER (issue_severity b))%Z) (issues filter all).
Proof.
  split; [apply sort_perm|]. eapply sorted_weaken; [|apply sort_sorted, by_urgency_consistent].
  intros a b. unfold by_urgency. destruct (Z.compare_spec (SEVERITY_ORDER (issue_severity a)) (SEVERITY_ORDER (issue_severity b))); [lia..|done].
Qed.
End order.
End page.

(** *** A small fleet *)

#[local] Existing Instance insertion_sorts.
#[local] Existing Instance bytewise.

Definition seen_host (id : string) : Host := (example_host id) <| host_observedAt := Some 900%Z |>.

Definition fleet_of (hosts_ : list Host) (containers_ : list Container) : World := quiet_world (empty_db
  <| hosts := list_to_map ((λ h, (host_id h, h)) <$> hosts_) |>
  <| agents := {["agent-1" := example_agent]} |>
  <| containers := list_to_map ((λ c, (container_id c, c)) <$> containers_) |>).

Definition small_fleet : World := fleet_of [seen_host "h1"] [example_container "c1" "h1" "d1"].

Lemma small_fleet_sizes :
  length (select_where (in_scope scope_active) (w_db small_fleet)) ≤ PAGE_SIZE ∧
  length (container_rows no_filters (w_db small_fleet)) ≤ PAGE_SIZE ∧
  length (select_where (of_host None) (w_db small_fleet)) ≤ PAGE_SIZE.
Proof. split_and!; apply (bool_decide_unpack _); by vm_compute. Qed.

Lemma small_fleet_well : health_page None small_fleet = (inr [], small_fleet).
Proof. vm_compute. reflexivity. Qed.


(** *** What is not shown as it is *)

(** The problems of one container, in the fleet. *)
Definition issues_of (c : Container) (connected : bool) : list IssueSeverity :=
  let w := fleet_of [seen_host "h1"] [c] in
  match (health_page None (if connected then w else w <| w_connected := ∅ |>)).1 with
  | inr l => issue_severity <$> List.filter (λ i, bool_decide (issue_kind i = "container")) l
  | inl _ => []
  end.

(** A container that exited is not a problem. *)
Example exited_is_not_listed : issues_of ((example_container "c1" "h1" "d1") <| container_state := "exited" |>) true = [].
Proof. vm_compute. reflexivity. Qed.

(** What was last seen on a host that is gone is said as of now. *)
Example stale_shown_as_current :
  issues_of ((example_container "c1" "h1" "d1") <| container_health := "unhealthy" |>) false = [issue_critical].
Proof. vm_compute. reflexivity. Qed.
