(* ===== verification/System.v ===== *)
(** * The control server as a whole

    Every handler of the services that writes to the database, as one type of call, and
    what any sequence of them keeps.  A call is a whole handler: the requests it sends to
    agents, the failures of the database it meets and the answers it reads are those of
    the world it starts in, and any world may be chosen. *)

From Stdlib Require Import Ascii String NArith ZArith.
From stdpp Require Import gmap strings list.
From S2P Require Import Prelude Schema Store Registry Effects Logic Environment Recovery PendingGuard.
From S2P Require Import StackClassify Detail Discovery StackDeployment StackLifecycle StackDelete StackRecovery StackService.
From S2P Require Import Reconciliation ContainerManagement ContainerLifecycle Scheduler AgentRegistry.
From S2P Require Import Credentials Rbac Sessions Mfa Auth Enrollment HostSetup HostArchive.

Section server.
Context `{AesGcm, ComposeCompiler, Dates, Credentials, SessionConfig, Totp, Authority, SetupConfig}.
Context (box : list ascii).

Inductive ServerCall :=
  | Deploy_stack (stackId revisionId : string) (actor : AuthenticatedUser) (context : RequestContext)
  | Operate_stack (k : Lifecycle.StackLifecycleKind) (stackId : string) (actor : AuthenticatedUser) (context : RequestContext)
  | Delete_stack (stackId : string) (actor : AuthenticatedUser) (context : RequestContext)
  | Save_stack (c : SaveCall)
  | Manage_container (c : Command) (actor : AuthenticatedUser) (context : RequestContext)
  | Operate_container (o : Operation) (containerId : string) (actor : AuthenticatedUser) (context : RequestContext)
  | Poll_agent (agentId : string)
  | Show_container (containerId : string) (force : bool)
  | Show_project (projectId : string)
  | Authenticate (c : AuthCall)
  | Session (e : SessionEvent)
  | Set_up (e : SetupEvent)
  | Archive_host (hostId : string) (actor : AuthenticatedUser) (context : RequestContext)
  | Unarchive_host (hostId : string) (actor : AuthenticatedUser) (context : RequestContext)
  | Revoke_agent (id reason : string) (actor : AuthenticatedUser) (context : RequestContext)
  | Agent_seen (agentId : string)
  | Agent_gone (agentId : string)
  | Renew_certificate (agentId : string) (certificate : IssuedCertificate)
  | Forget_connections
  | Assign_role (id role : string) (actor : AuthenticatedUser) (context : RequestContext)
  | Seed
  | Bootstrap_admin (email displayName : option string) (password : string).

Definition serve (c : ServerCall) : M unit :=
  match c with
  | Deploy_stack stackId revisionId actor context => deploy box stackId revisionId actor context;; mret tt
  | Operate_stack k stackId actor context => operate k stackId actor context;; mret tt
  | Delete_stack stackId actor context => deleteStack stackId actor context;; mret tt
  | Save_stack c => save box c;; mret tt
  | Manage_container c actor context => perform box c actor context;; mret tt
  | Operate_container o containerId actor context => ContainerLifecycle.run o containerId actor context;; mret tt
  | Poll_agent agentId => pass agentId
  | Show_container containerId force => containerDetail containerId force;; mret tt
  | Show_project projectId => projectDetail projectId;; mret tt
  | Authenticate c => call box c
  | Session e => session_event e
  | Set_up e => setup_event e
  | Archive_host hostId actor context => archive hostId actor context;; mret tt
  | Unarchive_host hostId actor context => unarchive hostId actor context;; mret tt
  | Revoke_agent id reason actor context => AgentRegistry.revoke id reason actor context
  | Agent_seen agentId => touch agentId
  | Agent_gone agentId => markDisconnected agentId
  | Renew_certificate agentId certificate => replaceCertificate agentId certificate
  | Forget_connections => resetConnectionState;; mret tt
  | Assign_role id role actor context => assignRole id role actor context
  | Seed => seedAuthorizationCatalog;; mret tt
  | Bootstrap_admin email displayName password => bootstrap_admin email displayName password
  end.

(** A server that has handled some calls, from any state. *)
Definition served (w : World) (cs : list ServerCall) : World := foldl (λ w c, (serve c w).2) w cs.

(** ** What every call keeps *)

(** The database stays well formed, and the locks that are held are those that were. *)
Definition orderly : relation World := λ w w', db_ok (w_db w) → db_ok (w_db w') ∧ balanced w w'.

#[local] Instance orderly_preorder : PreOrder orderly.
Proof.
  split; unfold orderly; [intros w Hd; split; [done|reflexivity]|]. intros w1 w2 w3 HA HB Hd.
  destruct (HA Hd) as [Hd2 Hb]. destruct (HB Hd2) as [Hd3 Hb']. split; [done|]. by etrans.
Qed.

Lemma orderly_both {A} (m : M A) : framed (on_db keeps_db_ok) m → framed balanced m → framed orderly m.
Proof. intros HA HB w Hd. split; [by apply HA|apply HB]. Qed.

Lemma orderly_locks {A} (m : M A) : framed (on_db keeps_db_ok) m → framed same_locks m → framed orderly m.
Proof. intros HA HB. apply orderly_both; [done|by apply framed_locks_balanced]. Qed.

(** Giving an answer away. *)
Lemma orderly_void {A} (m : M A) : framed orderly m → framed orderly (m;; mret tt).
Proof.
  intros Hm w. unfold mbind, M_bind. specialize (Hm w). by destruct (m w) as [[e|x] w'].
Qed.

Lemma operate_orderly k stackId actor context : framed orderly (operate k stackId actor context).
Proof. intros w Hd. destruct (operate_deploys_nothing k stackId actor context w) as (_ & HA & HB). split; auto. Qed.

Lemma manage_orderly c actor context : framed orderly (perform box c actor context).
Proof. intros w Hd. destruct (manage_keeps_invariants box c actor context w) as (_ & HA & HB). split; auto. Qed.

Lemma save_orderly c : framed orderly (save box c).
Proof.
  apply orderly_locks; [|apply save_off, _]. apply save_framed; [apply _|..]; intros;
    unfold saveStack, saveRevision, point_to_latest, audit_stack, audit_record; pose proof writeRevision_ok; frame.
Qed.

Lemma recover_orderly hostId : framed orderly (StackRecovery.recoverHost hostId).
Proof.
  intros w Hd. destruct (StackRecovery.recoverHost hostId w) as [r w'] eqn:E. simpl.
  apply recoverHost_steps in E as (Hr & Hd' & _); [|done]. split; [done|]. intros Hok. by rewrite Hr.
Qed.

Lemma pass_orderly agentId : framed orderly (pass agentId).
Proof.
  assert (HA : framed orderly (sync agentId)) by (apply orderly_locks; frame).
  assert (HB : ∀ h, framed orderly (Reconciliation.recoverHost h)).
  { intros h. destruct (recoverHost_observes h) as (_ & ? & ?). by apply orderly_locks. }
  intros w. unfold pass, try_catch, mbind, M_bind. specialize (HA w).
  destruct (sync agentId w) as [[e|res] w1]; simpl in *; [done|].
  destruct (sync_complete res); simpl; [|done]. etrans; [exact HA|].
  specialize (HB (sync_hostId res) w1). destruct (Reconciliation.recoverHost _ w1) as [[e|n] w2]; simpl in *; [done|].
  etrans; [exact HB|]. pose proof (recover_orderly (sync_hostId res) w2) as HC.
  by destruct (StackRecovery.recoverHost _ w2) as [[e|n'] w3].
Qed.

(** An operation on a container keeps the database; the lock it takes it may keep ([failed_write_keeps_lock]). *)
Lemma container_keeps_ok o containerId actor context :
  framed (on_db keeps_db_ok) (ContainerLifecycle.run o containerId actor context).
Proof.
  pose proof containerDetail_keeps_db_ok.
  unfold ContainerLifecycle.run, assertOperable, assertResolved, assertStackSettled, ContainerLifecycle.resolve, connectedAgent,
    audit_action, operated, succeed, ContainerLifecycle.fail, ContainerLifecycle.reconcile, assertNotArchived, audit_record, events_record. frame.
Qed.

Lemma audit_same_locks entry : framed same_locks (audit_record entry).
Proof. unfold audit_record. frame. Qed.
#[local] Hint Resolve audit_same_locks : frames.

Lemma wait_orderly ms : framed orderly (wait ms).
Proof. intros w Hd. split; [exact Hd|]. by intros Hr. Qed.

Lemma session_orderly e : framed orderly (session_event e).
Proof.
  destruct e; simpl; [..|apply wait_orderly]; apply orderly_locks;
    unfold issue, Sessions.resolve, isActive, issueCsrfToken, completeMfa, Sessions.revoke, revokeAllForUser, issue; frame.
Qed.

Lemma setup_orderly e : framed orderly (setup_event e).
Proof.
  destruct e as [| | | | | |[]]; simpl; [..|apply wait_orderly]; apply orderly_locks;
    unfold HostSetup.create, regenerate, cancel, HostSetup.get, consumeTicket, resolveAndSettle, HostSetup.resolve,
      audit_setup, createToken, revokeToken, enroll, assertCsrAcceptable, claimToken, issueForClaimedToken,
      createIdentity, issueCertificate, replaceCertificate, audit_enrollment; frame.
Qed.

Lemma detail_orderly i force j : framed orderly (containerDetail i force) ∧ framed orderly (projectDetail j).
Proof.
  split; (apply orderly_locks; [|]).
  - apply containerDetail_keeps_db_ok.
  - apply containerDetail_same_locks.
  - apply projectDetail_keeps_db_ok.
  - unfold projectDetail, refreshProject, inspectProject, offlineProject, reachableAgent. frame.
Qed.

Lemma archive_orderly hostId actor context :
  framed orderly (archive hostId actor context) ∧ framed orderly (unarchive hostId actor context).
Proof.
  split; apply orderly_locks; unfold archive, unarchive, put_back, HostArchive.load, HostArchive.isConnected, record_archive; frame.
Qed.

Lemma registry_orderly :
  (∀ id reason actor context, framed orderly (AgentRegistry.revoke id reason actor context)) ∧
  (∀ id, framed orderly (touch id)) ∧ (∀ id, framed orderly (markDisconnected id)) ∧
  (∀ id certificate, framed orderly (replaceCertificate id certificate)) ∧ framed orderly resetConnectionState.
Proof.
  split_and!; intros; apply orderly_locks;
    unfold AgentRegistry.revoke, touch, markDisconnected, replaceCertificate, resetConnectionState; frame.
Qed.

(** Handlers that take no lock: only their writes are looked at. *)
Lemma draw_framed R `{!Frame R} n : framed R drawSecret ∧ framed R (draw_codes n).
Proof.
  assert (Hd : framed R drawSecret) by (intros w; unfold drawSecret; simpl; apply frame_seed).
  split; [done|]. induction n as [|n IH]; simpl; frame.
Qed.

Lemma auth_orderly c : framed orderly (call box c).
Proof.
  destruct c; simpl; apply orderly_locks;
    unfold login, login_checked, check_password, refuse_login, burnTime, completeLogin, audit_auth, post_mfa_verify,
      verifyMfa, logout, get_me, delete_session, post_setup, post_confirm, post_disable, post_regenerate, audit_mfa,
      beginSetup, confirmSetup, disable, regenerateRecoveryCodes, replace_codes, verifyChallenge, consumeRecoveryCode,
      verifyTotp, remainingRecoveryCodes, requireUser, issue, completeMfa, issueCsrfToken, Sessions.revoke.
  all: repeat (frame_step || unfold issue, completeLogin, audit_auth, revokeAllForUser || apply draw_framed, _).
Qed.

Lemma insert_or_ignore_framed `{TableLaws R} (r : R) :
  framed (on_db keeps_db_ok) (insert_or_ignore r) ∧ framed same_locks (insert_or_ignore r).
Proof.
  unfold insert_or_ignore. split; [|apply framed_statement_off, _]. apply framed_statement; [apply _|].
  intros d u d' E Hok. destruct (insert_row r d) as [name|d2] eqn:Ei; simplify_eq; [done|]. by eapply insert_row_ok.
Qed.

Lemma role_orderly id role actor context : framed orderly (assignRole id role actor context).
Proof.
  pose proof (λ r : UserRole, proj1 (insert_or_ignore_framed r)). pose proof (λ r : UserRole, proj2 (insert_or_ignore_framed r)).
  apply orderly_locks; unfold assignRole, assignRoleByName; frame.
Qed.

Lemma bootstrap_orderly email displayName password : framed orderly (bootstrap_admin email displayName password).
Proof. apply orderly_locks; unfold bootstrap_admin, bootstrap; frame. Qed.

Lemma seed_permission_orderly entry :
  framed (on_db keeps_db_ok) (seed_permission entry) ∧ framed same_locks (seed_permission entry).
Proof.
  unfold seed_permission. split; frame; [|apply framed_statement_off, _]. apply framed_statement; [apply _|]. intros d v d' E Hok.
  destruct (select_where _ d); [destruct (insert_row _ d) eqn:Ei|destruct (update_where _ _ d) as [|[l' d2]] eqn:Ei]; simplify_eq.
  - exact (insert_row_ok _ _ _ Hok Ei).
  - eapply (update_where_ok (R := PermissionRow)), Ei; done.
Qed.

Lemma seed_orderly : framed orderly seedAuthorizationCatalog.
Proof.
  pose proof (λ e, proj1 (seed_permission_orderly e)). pose proof (λ e, proj2 (seed_permission_orderly e)).
  apply orderly_locks; unfold seedAuthorizationCatalog, seed_role; frame.
Qed.

(** A call that gives back the locks it takes. *)
Definition returns_locks (c : ServerCall) : bool := match c with Operate_container _ _ _ _ => false | _ => true end.

Lemma serve_orderly c : returns_locks c = true → framed orderly (serve c).
Proof.
  destruct registry_orderly as (R1 & R2 & R3 & R4 & R5).
  destruct c; intros Hc; try discriminate Hc; cbn [serve];
    try match goal with |- framed orderly (mbind _ ?m) => apply (orderly_void m) end.
  - apply orderly_both; [apply deploy_keeps_db_ok|apply deploy_balanced].
  - apply operate_orderly.
  - apply orderly_both; [apply deleteStack_keeps_db_ok|apply deleteStack_balanced].
  - apply save_orderly.
  - apply manage_orderly.
  - apply pass_orderly.
  - exact (proj1 (detail_orderly containerId force "")).
  - exact (proj2 (detail_orderly "" false projectId)).
  - apply auth_orderly.
  - apply session_orderly.
  - apply setup_orderly.
  - exact (proj1 (archive_orderly hostId actor context)).
  - exact (proj2 (archive_orderly hostId actor context)).
  - apply R1.
  - apply R2.
  - apply R3.
  - apply R4.
  - apply R5.
  - apply role_orderly.
  - apply seed_orderly.
  - apply bootstrap_orderly.
Qed.

Lemma serve_keeps_ok c w : db_ok (w_db w) → db_ok (w_db (serve c w).2).
Proof.
  intros Hd. destruct (returns_locks c) eqn:E; [by apply serve_orderly|]. destruct c; try discriminate E. simpl.
  pose proof (container_keeps_ok o containerId actor context w Hd) as Hk. revert Hk. unfold mbind, M_bind.
  by destruct (ContainerLifecycle.run _ _ _ _ w) as [[e|x] w'].
Qed.

(** C32: whatever handlers of the server run, in whatever order, whichever writes fail and whatever the
    agents answer, every table stays keyed by the id of its rows and satisfies its unique
    indexes; and the locks that are held afterwards are those that were held before, unless a
    container was started, stopped or restarted. *)
Theorem server_keeps_well_formed w cs :
  db_ok (w_db w) → registry_ok (w_registry w) →
  db_ok (w_db (served w cs)) ∧
  (forallb returns_locks cs = true → held (w_registry (served w cs)) = held (w_registry w)).
Proof.
  intros Hd. unfold served. revert w Hd. induction cs as [|c cs IH]; intros w Hd Hr; simpl; [done|]. split.
  - clear Hr IH. generalize (serve_keeps_ok c w Hd). generalize (serve c w).2. clear.
    induction cs as [|c cs IH]; intros w Hd; simpl; [done|]. by apply IH, serve_keeps_ok.
  - intros [Hc Hcs]%andb_true_iff. destruct (serve_orderly c Hc w Hd) as [Hd' Hb]. destruct (Hb Hr) as [Hr' <-].
    by apply IH.
Qed.
End server.

(** ** A first day *)

#[local] Existing Instances clear_cipher example_compiler one_moment.

Definition first_day : list ServerCall :=
  [Bootstrap_admin (Some "root@example.org") None "a long password";
   Set_up (Token (Create_token None "root@example.org" None None None));
   Archive_host "h2" operator from_ui;
   Manage_container (Create create_web) operator from_ui].

Lemma server_keeps_well_formed_witness :
  db_ok two_hosts ∧ db_ok (w_db (served [] (quiet_world two_hosts) first_day)) ∧
  held (w_registry (served [] (quiet_world two_hosts) first_day)) = ∅.
Proof.
  destruct (server_keeps_well_formed [] (quiet_world two_hosts) first_day) as [HA HB].
  - exact two_hosts_ok.
  - exact empty_registry_ok.
  - split_and!; [exact two_hosts_ok|exact HA|exact (HB eq_refl)].
Defined.

(** Not so when a write fails before a container is stopped. *)
Example container_operation_keeps_lock :
  ∃ w, held (w_registry w) = ∅ ∧
    held (w_registry (served [] w [Operate_container stop "c1" operator from_ui])) ≠ ∅.
Proof.
  exists (stopping (repeat false 7 ++ [true]) done_reply). split; [done|]. vm_compute. done.
Qed.
